(* ===== verification/_CoqProject ===== *)
-Q . S2P
Prelude.v
GoMath.v
Types.v
Awareness.v
Keyring.v
Alias.v
Compound.v
Suspicion.v
Interfaces.v
Broadcast.v
BroadcastFacts.v
Config.v
NetAddr.v
IPText.v
Resolve.v
Cidr.v
Listener.v
ListenerFacts.v
Listening.v
Spec.v
State.v
StateFacts.v
Maintenance.v
MaintenanceFacts.v
Lifecycle.v
System.v
Samples.v
Membership.v
Races.v
PushPull.v
Restart.v
Cluster.v
ClusterFacts.v
Agreement.v
LongRun.v
Encrypt.v
AesGcm.v
Lzw.v
Transport.v
Ping.v
Handlers.v
HandlersFacts.v
Exchange.v
ExchangeFacts.v
Delivery.v
Build.v
BuildFacts.v
TestAddr.v
