(* ===== verification/Prelude.v ===== *)
(** * A verification of the [mlist] gossip membership library

    The program is a Go library: each process keeps a list of the members of
    a cluster, probes them, spreads news about them by gossip, and exchanges
    whole lists with others from time to time (the SWIM protocol with the
    Lifeguard extensions). This development models its core as executable
    definitions, operation by operation, and proves what makes it correct.

    ** Parts of the program and where they are modelled

    - Data: [Types] (the structs of [state.go], [ping.go], [pushpull.go],
      [node_events.go], the message types of [net_handlers.go]); [Config]
      ([config.go], [IPAllowed] and the part of [net.IPNet] it uses);
      [NetAddr] (host and port strings, [net.ParseIP]), [IPText] (the text of
      an address, as Go prints it), [Cidr] ([ParseCIDRs]), [Resolve]
      ([ResolveAddr] and the look-up over TCP, given the answers of DNS).
    - Arithmetic: [GoMath], the binary64 arithmetic behind the three formulas
      with logarithms, on the executable IEEE 754 operations of the Standard
      Library.
    - [Awareness] ([awareness.go]), [Suspicion] ([suspicion.go]), [Keyring]
      ([keyring.go], with the slice that [RemoveKey] shifts while it ranges
      over it), [Compound] (compound messages of [util.go]). [Alias]: what
      [copyBytes] leaves shared, for clones of nodes and for the keyring.
    - [Broadcast], [BroadcastFacts]: the queue of messages to gossip
      ([broadcast.go]).
    - [State]: the member list and its handlers [aliveNode], [suspectNode],
      [deadNode], [refute] and the suspicion timeout ([state.go]). The
      [nodeState] and [suspicion] objects live in stores and are shared by
      pointer, as in the code. [Maintenance]: reaping, probe order, random
      choice, gossip rounds ([maintenance.go]) and the queries of
      [memberlist.go]. [Lifecycle]: creation, [setAlive], [Leave],
      [UpdateTags], [Shutdown].
    - [PushPull]: encoding, reading and merging of lists ([pushpull.go]).
      [LongRun]: the queue between the packet loop and the handler
      goroutine. [Encrypt], [AesGcm]: [encrypt.go] and the cipher under it.
      [Lzw]: the coder under [compress] and [decompress]. [Transport]:
      packing and unpacking of packets and streams ([net_transport.go],
      compression of [util.go]). [Ping]: the manager of
      outstanding pings and the conclusion of a probe ([ping.go],
      [probeNode]).
    - [Handlers]: the daemon around all of this, dispatch of packets, the
      handlers of every message type, the handler goroutine, pings
      ([net_handlers.go]). [Exchange]: both sides of a TCP connection,
      push/pull with a node, [TcpPing], [Join].
    - [Listener], [ListenerFacts]: opening and closing of sockets and the
      advertised address ([NetTransport]). [Listening]: the goroutines
      [tcpListen] and [udpListen], the loops [receivePacket] and
      [receiveTcpConn] that take from them, and [Shutdown] of the transport,
      as one interleaving in which a call of [handlePacket] may return, block
      for ever or panic. [Build], [BuildFacts]: the builder, [Build],
      [start], and the schedule of the maintenance loops. [TestAddr]: the
      allocator of addresses for tests ([testaddr]).
    - [Cluster]: several nodes that run all actions of [System] and exchange
      what waits in their queues and stands in their lists. The network is
      the collection of everything ever sent; anything in it can be delivered
      to anyone at any time, any number of times or never.

    ** How code corresponds to definitions

    A method is a function of the state it changes, with the same name; a
    call that can panic or fail to return has the type [outcome], a call
    that can return an error an [option] or a sum. Integers are elements of
    [Z] with the wrap-around of their Go type written out ([u32], [i32],
    [i64]). A handler that holds the mutex is one transition; where the code
    drops the mutex or starts a goroutine, the rest is another ([task] of
    [State], [lr_step] of [LongRun], [startPing] and [finishPing] of
    [Handlers], and the same for indirect pings). [aliveNode] makes its tests
    before it takes the mutex, and queues its broadcast and sends its events
    after it has released it: [System] has the call as one transition and,
    with tests that were made at some earlier time and the rest left to a task
    ([AliveDeferred] of [State]), as another ([ActAliveLate]). [Leave] and
    [UpdateTags] have a transition for the part before they call a handler
    ([ActLeaveFlag], [ActNextLiveNo]). The clock, random numbers, nonces, whether an event is taken in time or a
    packet accepted are arguments ([Env], [Net]); the operating system and
    the answers of DNS are records of functions ([OS], [DNS],
    [Surroundings]). Log output is left out.

    ** Interfaces

    Code outside the repository enters as a class of operations with a class
    of laws: the MessagePack codec ([Codec], [CodecLaws]) and the indexed
    heap ([HeapOps], [HeapLaws]) of [Interfaces]. Go's AES-GCM and LZW, of
    its standard library, are defined in [AesGcm] (checked against published
    test vectors) and [Lzw], and their laws are proved; what is built on them
    is stated over the classes [AEAD] and [LZW] all the same. Instances of all
    classes let the examples run.

    ** What is proved

    - The member list ([Membership], over [Spec], [StateFacts],
      [MaintenanceFacts], [System]): [Spec] states the protocol abstractly, a
      finite map from names to states with the precedence rules. [StateFacts]
      abstracts the pointer structure to it ([view]) and shows that every
      handler implements its rule and keeps the invariant [inv]. [System] has
      every action of the environment, [exec] its code, and [step] the
      transitions; runs are arbitrary interleavings. [mishap] lists the actions
      that do not return but panic or loop for ever; all others do
      ([exec_total]). [Membership] states the invariant, the simulation, monotonicity, that an accusation is refuted
      and the refutation heals, that timeouts act when and only when they
      have a reason, and that reaping, probing, [Leave] and [UpdateTags] do
      what they promise. [Races] shows what can come between the parts of a call that
      are not under one mutex, [Restart] what happens to a node that starts
      again under its old name.
    - Clusters ([ClusterFacts], [Agreement]): everything a node holds or
      sends about another is what that one has announced of itself (its
      number, address, departure, and tags by number), by induction over the
      steps of all nodes. Hence two nodes agree on a member they hold for
      alive at the same number, every call returns but those of a user or a
      configuration that panic ([mishap]), an accused member clears
      itself at every peer that hears its answer, and a change of tags
      reaches every peer that hears of it. Names are unique in a cluster, and
      a node that restarts takes a new one. [Delivery]: a round of [gossip] and
      the arrival of its packets, and a push/pull between two members, in
      bytes and with all goroutines involved, are runs of the cluster.
    - The broadcast queue: invariant, the result of [GetMessages] and
      [QueueMsg] on every branch, limits, and that it drains.
    - Messages on the wire: round trips of compound messages, packets,
      streams and lists; totality of decoding on arbitrary bytes; sizes.
    - Concurrency: the two goroutines of the long-running queue, the number
      of concurrent push/pulls, acknowledgements against timeouts, the end of
      the listeners and of the loops they feed, the allocator of test
      addresses.
    - Addresses and sockets: printing and parsing of addresses, which
      addresses a list of networks admits, what a name resolves to, which
      sockets are open after [Start] or its failure.
    - Starting: [Build] succeeds when nothing stands in its way, and what it
      returns is a reachable state, so that all of the above holds of it.
    - End to end ([HandlersFacts], [ExchangeFacts]): a packet of gossip is
      applied exactly once at the receiver, a ping whose packets arrive
      succeeds, directly or through a helper, a user message is handed to
      the user of the other node, and a push/pull, also the one of [Join] from
      the text of an address, makes each side know the nodes the other held for
      alive, as far as its own filter allows them.
    - Where the code does not do what it means to, a theorem says so
      ([refute_diverges], [overflow_deadlocks], [wakeup_lost],
      [empty_packet_panics], [negative_header_panics], [early_ack_lost],
      [packCompoundMsg_overflow], [piggyback_overshoot], [pushpull_limit],
      [zero_bind_sticks], [build_failure_hangs], [stuck_packet_hangs],
      [excluded_node_panics],
      [leave_race], [leave_overtaken], [tags_overtaken], [death_overtaken],
      [restart_old_tags], [signal_lost], [secret_key_shared], [wiped_keys_panic],
      [clone_shares]).

    ** Bounds and fuel

    The loops of [GetMessages], [Resize], the splitting of compound messages,
    reaping and probing run with fuel one more than the length of the list
    they consume, and it is proved that they never run out (the model returns
    [Hang] if they did). The loop of [refute] is unrolled [2 ^ 33] times,
    twice the range of its 32-bit counter; what is left then never ends
    ([refute_diverges]). The nesting of compound messages is bounded by the
    length of the packet, and more fuel changes nothing ([packet_dispatch]).
    The loop that halves the socket buffer has fuel 23 for 2 MiB, which is
    enough to reach zero; ten attempts to bind and nineteen to find a test
    address are the numbers of the code.
    A run of a cluster has fewer than about [2 ^ 31] steps, each of which
    raises a counter by at most two, so that no 32-bit counter wraps around.
    Statements about floating-point formulas range over clusters of up to
    1023 or 1024 nodes, by evaluation of every case.

    ** What is not modelled

    The wire protocol of DNS, the classification of addresses by
    [go-sockaddr], the generation of UUIDs, MessagePack and the heap are
    outside the repository and enter as parameters. Deadlines, dialing and the
    sockets themselves are calls of the operating system; what they return is
    given. Byte slices are values except in [Alias] and in [RemoveKey].
    Accessors that return one field are read as that field. What remains to
    be added: clusters whose nodes restart under their old name ([Restart] has
    one such node), and pings as steps of a cluster (a failed probe enters it
    as a suspicion, whatever its reason). *)

From Stdlib Require Export ZArith Lia.
From Stdlib Require Import Strings.Byte.
From stdpp Require Export base numbers list gmap strings fin_maps sorting.

#[global] Open Scope Z_scope.

(** ** Go integers

    A Go integer of a fixed width is an element of [Z]; every operation that
    can leave the range wraps explicitly with one of these. [int] and
    [time.Duration] are 64-bit. *)

Definition u8 (z : Z) : Z := z mod 2 ^ 8.
Definition u16 (z : Z) : Z := z mod 2 ^ 16.
Definition u32 (z : Z) : Z := z mod 2 ^ 32.
Definition u64 (z : Z) : Z := z mod 2 ^ 64.
Definition i32 (z : Z) : Z := (z + 2 ^ 31) mod 2 ^ 32 - 2 ^ 31.
Definition i64 (z : Z) : Z := (z + 2 ^ 63) mod 2 ^ 64 - 2 ^ 63.

(** The number of elements of a slice, as the Go [int] that [len] returns. *)
Notation "'len' l" := (Z.of_nat (length l)) (at level 10, l at level 9).

Lemma u32_small z : 0 <= z < 2 ^ 32 -> u32 z = z.
Proof. apply Z.mod_small. Qed.

Lemma u32_range z : 0 <= u32 z < 2 ^ 32.
Proof. apply Z.mod_pos_bound. lia. Qed.

Lemma u64_small z : 0 <= z < 2 ^ 64 -> u64 z = z.
Proof. apply Z.mod_small. Qed.

Lemma i64_small z : - 2 ^ 63 <= z < 2 ^ 63 -> i64 z = z.
Proof. intros H. unfold i64. rewrite Z.mod_small; lia. Qed.

Lemma i32_small z : - 2 ^ 31 <= z < 2 ^ 31 -> i32 z = z.
Proof. intros H. unfold i32. rewrite Z.mod_small; lia. Qed.

Lemma i32_add_l a b : i32 (i32 a + b) = i32 (a + b).
Proof.
  unfold i32. f_equal.
  replace ((a + 2 ^ 31) mod 2 ^ 32 - 2 ^ 31 + b + 2 ^ 31)
    with ((a + 2 ^ 31) mod 2 ^ 32 + b) by lia.
  rewrite Zplus_mod_idemp_l. f_equal. lia.
Qed.

Lemma lxor_range n a b :
  0 <= n -> 0 <= a < 2 ^ n -> 0 <= b < 2 ^ n -> 0 <= Z.lxor a b < 2 ^ n.
Proof.
  intros Hn Ha Hb. split; [apply Z.lxor_nonneg; lia|].
  pose proof (proj2 (Z.lxor_nonneg a b)).
  assert (forall z, 0 <= z < 2 ^ n -> z = 0 \/ Z.log2 z < n) as Hlog.
  { intros z Hz. destruct (decide (z = 0)); [by left|right]. apply Z.log2_lt_pow2; lia. }
  destruct (Hlog a Ha) as [->|La]; [rewrite Z.lxor_0_l; lia|].
  destruct (Hlog b Hb) as [->|Lb]; [rewrite Z.lxor_0_r; lia|].
  destruct (decide (Z.lxor a b = 0)) as [->|]; [lia|].
  apply Z.log2_lt_pow2; [lia|].
  eapply Z.le_lt_trans; [apply Z.log2_lxor; lia|]. lia.
Qed.

(** ** Bytes

    A byte slice is a [list byte]; [b2z] and [z2b] are the conversions
    between [byte] and the integer types. *)

Definition b2z (b : byte) : Z := Z.of_N (Byte.to_N b).

Definition z2b (z : Z) : byte :=
  match Byte.of_N (Z.to_N (u8 z)) with Some b => b | None => x00 end.

#[global] Instance byte_eq_decision : EqDecision byte := Byte.byte_eq_dec.

Lemma b2z_range b : 0 <= b2z b < 256.
Proof. unfold b2z. pose proof (Byte.to_N_bounded b). lia. Qed.

Lemma b2z_z2b z : b2z (z2b z) = u8 z.
Proof.
  unfold b2z, z2b.
  assert (0 <= u8 z < 256) as Hr by (unfold u8; apply Z.mod_pos_bound; lia).
  destruct (Byte.of_N (Z.to_N (u8 z))) as [b|] eqn:E.
  - apply Byte.to_of_N in E. rewrite E. lia.
  - apply Byte.of_N_None_iff in E. lia.
Qed.

Lemma b2z_inj a b : b2z a = b2z b -> a = b.
Proof.
  unfold b2z. intros H%N2Z.inj.
  pose proof (Byte.of_to_N a) as Ha. pose proof (Byte.of_to_N b) as Hb.
  rewrite H in Ha. congruence.
Qed.

Lemma z2b_b2z b : z2b (b2z b) = b.
Proof.
  apply b2z_inj. rewrite b2z_z2b. apply Z.mod_small, b2z_range.
Qed.

(** Big-endian encoding of an unsigned integer on [n] bytes
    ([binary.BigEndian.PutUint32] and [binary.Write] of a [uint16]), and the
    reading of all bytes of a slice ([binary.BigEndian.Uint16]/[Uint32]). *)
Fixpoint be_put (n : nat) (z : Z) : list byte :=
  match n with
  | O => []
  | S n => z2b (z / 2 ^ (8 * Z.of_nat n)) :: be_put n z
  end.

Definition be_get (bs : list byte) : Z :=
  foldl (fun acc b => acc * 256 + b2z b) 0 bs.

Lemma length_be_put n z : length (be_put n z) = n.
Proof. induction n; simpl; auto. Qed.

Lemma be_get_acc bs acc :
  foldl (fun acc b => acc * 256 + b2z b) acc bs
  = acc * 2 ^ (8 * len bs) + be_get bs.
Proof.
  unfold be_get. revert acc. induction bs as [|b bs IH]; intros acc; simpl length.
  - simpl. lia.
  - cbn [foldl]. rewrite IH, (IH (0 * 256 + b2z b)).
    replace (8 * Z.of_nat (S (length bs))) with (8 * len bs + 8) by lia.
    rewrite Z.pow_add_r by lia. lia.
Qed.

Lemma be_get_put n z : be_get (be_put n z) = z mod 2 ^ (8 * Z.of_nat n).
Proof.
  induction n as [|n IH]; [by rewrite Z.mod_1_r|].
  change (be_get (be_put (S n) z))
    with (foldl (fun acc b => acc * 256 + b2z b)
            (0 * 256 + b2z (z2b (z / 2 ^ (8 * Z.of_nat n)))) (be_put n z)).
  rewrite be_get_acc, IH, length_be_put, b2z_z2b. unfold u8.
  replace (8 * Z.of_nat (S n)) with (8 * Z.of_nat n + 8) by lia.
  rewrite Z.pow_add_r by lia.
  rewrite Z.rem_mul_r by lia. lia.
Qed.

Lemma be_get_range bs : 0 <= be_get bs < 2 ^ (8 * len bs).
Proof.
  induction bs as [|b bs IH] using rev_ind; [done|].
  unfold be_get in *. rewrite foldl_app, length_app. cbn [foldl length].
  pose proof (b2z_range b).
  replace (8 * Z.of_nat (length bs + 1)) with (8 * len bs + 8) by lia.
  rewrite Z.pow_add_r by lia. lia.
Qed.

(** ** Automation

    [go_len] rewrites the length of a slice that was put together; [mlist]
    collects the ranges of machine integers and, in later files, what follows
    from the invariants. [zcmp] decides the comparison of integers that the
    goal branches on. *)

Create HintDb go_len.
#[export] Hint Rewrite @length_app @length_cons @length_nil length_be_put : go_len.

Create HintDb mlist discriminated.
#[export] Hint Resolve u32_range b2z_range be_get_range : mlist.

Ltac len_lia := autorewrite with go_len in *; simpl in *; lia.

Ltac zside := first [done | lia | solve [len_lia]].

Ltac zcmp :=
  match goal with
  | |- context [?a <? ?b] =>
      first [rewrite (proj2 (Z.ltb_lt a b)) by zside | rewrite (proj2 (Z.ltb_ge a b)) by zside]
  | |- context [?a <=? ?b] =>
      first [rewrite (proj2 (Z.leb_le a b)) by zside | rewrite (proj2 (Z.leb_gt a b)) by zside]
  | |- context [?a =? ?b] =>
      first [rewrite (proj2 (Z.eqb_eq a b)) by zside | rewrite (proj2 (Z.eqb_neq a b)) by zside]
  end.

(** ** Outcomes

    A Go call returns a value, panics, or never returns (it loops for ever
    or waits for a mutex nobody will release). *)
Inductive outcome (A : Type) : Type :=
| Ret (a : A)
| Panic
| Hang.
Arguments Ret {A} a.
Arguments Panic {A}.
Arguments Hang {A}.

Definition obind {A B} (m : outcome A) (k : A -> outcome B) : outcome B :=
  match m with Ret a => k a | Panic => Panic | Hang => Hang end.

Definition outcome_map {A B} (f : A -> B) (m : outcome A) : outcome B :=
  obind m (fun a => Ret (f a)).

Declare Scope go_scope.
Delimit Scope go_scope with go.
Notation "'let!' x := m 'in' k" := (obind m (fun x => k))
  (at level 10, x pattern, m at level 100, k at level 200,
   format "'[v' 'let!'  x  :=  m  'in' '/' k ']'") : go_scope.
#[global] Open Scope go_scope.

Lemma obind_Ret_inv {A B} (m : outcome A) (k : A -> outcome B) b :
  obind m k = Ret b -> exists a, m = Ret a /\ k a = Ret b.
Proof. destruct m; simpl; naive_solver. Qed.

(** A Go function with an [error] result. *)
Notation "A 'orerr' E" := (sum E A) (at level 70, only parsing).

(** ** Slices *)

(** The parallel assignment [l[i], l[j] = l[j], l[i]], both in range. *)
Definition swap {A} (i j : nat) (l : list A) : list A :=
  match l !! i, l !! j with
  | Some x, Some y => <[i := y]> (<[j := x]> l)
  | _, _ => l
  end.

Lemma list_insert_Permutation {A} (l : list A) i x y :
  l !! i = Some y -> y :: <[i := x]> l ≡ₚ x :: l.
Proof.
  revert i. induction l as [|z l IH]; intros [|i] H; simplify_eq/=.
  - apply perm_swap.
  - rewrite perm_swap, (IH _ H). apply perm_swap.
Qed.

Lemma swap_Permutation {A} (l : list A) i j : swap i j l ≡ₚ l.
Proof.
  unfold swap. destruct (l !! i) as [x|] eqn:Hi, (l !! j) as [y|] eqn:Hj; try done.
  apply (Permutation_cons_inv (a := x)).
  destruct (decide (i = j)) as [->|Hne].
  - simplify_eq. by rewrite list_insert_insert_eq, list_insert_id.
  - rewrite list_insert_Permutation
      by (rewrite list_lookup_insert_ne; done).
    by apply list_insert_Permutation.
Qed.

Lemma length_swap {A} (l : list A) i j : length (swap i j l) = length l.
Proof. by rewrite swap_Permutation. Qed.

Lemma swap_lookup_l {A} (l : list A) i j y :
  (i < length l)%nat -> l !! j = Some y -> swap i j l !! i = Some y.
Proof.
  intros Hi Hj. unfold swap.
  destruct (lookup_lt_is_Some_2 _ _ Hi) as [x ->]. rewrite Hj.
  apply list_lookup_insert_eq. by rewrite length_insert.
Qed.

Lemma swap_lookup_r {A} (l : list A) i j x :
  (j < length l)%nat -> l !! i = Some x -> swap i j l !! j = Some x.
Proof.
  intros Hj Hi. unfold swap.
  destruct (lookup_lt_is_Some_2 _ _ Hj) as [y Hy]. rewrite Hi, Hy.
  destruct (decide (i = j)) as [->|Hne].
  - simplify_eq. apply list_lookup_insert_eq. by rewrite length_insert.
  - rewrite list_lookup_insert_ne by done. by apply list_lookup_insert_eq.
Qed.

Lemma swap_lookup_ne {A} (l : list A) i j k :
  k <> i -> k <> j -> swap i j l !! k = l !! k.
Proof.
  intros Hi Hj. unfold swap. repeat case_match; try done.
  by rewrite !list_lookup_insert_ne by done.
Qed.

(** [List.filter] on permuted and on uniform lists. *)
#[global] Instance filter_Permutation {A} (f : A -> bool) :
  Proper ((≡ₚ) ==> (≡ₚ)) (List.filter f).
Proof.
  intros l l' Hp. induction Hp; simpl; repeat case_match;
    eauto using perm_swap, Permutation_trans.
Qed.

Lemma filter_none {A} (f : A -> bool) l :
  (forall x, x ∈ l -> f x = false) -> List.filter f l = [].
Proof.
  induction l as [|x l IH]; intros H; simpl; [done|].
  rewrite H by (by left). apply IH. intros y Hy. apply H. by right.
Qed.
