(* ===== verification/GoMath.v ===== *)
(** * The binary64 arithmetic of Go's [math] package

    Three formulas of the program go through [float64]: the retransmission
    limit of a broadcast ([math.Log10]), the suspicion timeouts ([math.Log],
    [math.Log10]) and the push/pull interval ([math.Log2]). They are modelled
    with the executable IEEE 754 arithmetic of [SpecFloat] (53-bit mantissa,
    rounding to nearest even), and [Log], [Log2], [Log10] are the portable
    algorithms of Go's standard library on it, so that the formulas evaluate
    to the numbers the program computes.

    The second half relates them to integer functions: on every argument of
    a range that covers the cluster sizes of interest the floating-point
    formula gives exactly the integer logarithm. *)

From Stdlib Require Import SpecFloat.
From S2P Require Import Prelude.

Module f64.

Abbreviation t := spec_float.

Definition prec : Z := 53.
Definition emax : Z := 1024.

Definition add (x y : t) : t := SFadd prec emax x y.
Definition sub (x y : t) : t := SFsub prec emax x y.
Definition mul (x y : t) : t := SFmul prec emax x y.
Definition div (x y : t) : t := SFdiv prec emax x y.
Definition ltb (x y : t) : bool := SFltb x y.
Definition eqb (x y : t) : bool := SFeqb x y.

(** [float64(n)]. *)
Definition of_Z (n : Z) : t := binary_normalize prec emax n 0 false.

(** A positive normal number, from its 64-bit representation. *)
Definition of_bits (b : Z) : t :=
  match b mod 2 ^ 52 + 2 ^ 52 with
  | Zpos m => S754_finite false m (b / 2 ^ 52 - 1075)
  | _ => S754_nan
  end.

(** [int(math.Floor(x))], [int(math.Ceil(x))] and [int(x)] of a finite [x]
    whose result fits the integer type. *)
Definition floor (x : t) : Z :=
  match x with
  | S754_finite s m e =>
      let v := cond_Zopp s (Zpos m) in
      if 0 <=? e then v * 2 ^ e else v / 2 ^ (- e)
  | _ => 0
  end.

Definition ceil (x : t) : Z := - floor (SFopp x).

Definition trunc (x : t) : Z :=
  match x with
  | S754_finite true _ _ => ceil x
  | _ => floor x
  end.

(** [math.Max]. *)
Definition is_pinf (x : t) : bool :=
  match x with S754_infinity false => true | _ => false end.
Definition is_nan (x : t) : bool :=
  match x with S754_nan => true | _ => false end.

Definition max (x y : t) : t :=
  if is_pinf x || is_pinf y then S754_infinity false
  else if is_nan x || is_nan y then S754_nan
  else match x, y with
       | S754_zero true, S754_zero _ => y
       | S754_zero false, S754_zero _ => x
       | _, _ => if ltb y x then x else y
       end.

(** [math.Log], for a positive finite argument (the FreeBSD algorithm). *)
Definition Ln2Hi := of_bits 0x3fe62e42fee00000.
Definition Ln2Lo := of_bits 0x3dea39ef35793c76.
Definition L1 := of_bits 0x3fe5555555555593.
Definition L2 := of_bits 0x3fd999999997fa04.
Definition L3 := of_bits 0x3fd2492494229359.
Definition L4 := of_bits 0x3fcc71c51d8e78af.
Definition L5 := of_bits 0x3fc7466496cb03de.
Definition L6 := of_bits 0x3fc39a09d078c69f.
Definition L7 := of_bits 0x3fc2f112df3e5244.
Definition half := of_bits 0x3fe0000000000000.
Definition Sqrt2_2 := of_bits 0x3fe6a09e667f3bcd.
Definition InvLn2 := of_bits 0x3ff71547652b82fe.
Definition Ln2_Ln10 := of_bits 0x3fd34413509f79ff.

Definition Frexp (x : t) : t * Z := SFfrexp prec emax x.

Definition Log (x : t) : t :=
  let '(f1, ki) := Frexp x in
  let '(f1, ki) :=
    if ltb f1 Sqrt2_2 then (mul f1 (of_Z 2), ki - 1) else (f1, ki) in
  let f := sub f1 (of_Z 1) in
  let k := of_Z ki in
  let s := div f (add (of_Z 2) f) in
  let s2 := mul s s in
  let s4 := mul s2 s2 in
  let t1 := mul s2 (add L1 (mul s4 (add L3 (mul s4 (add L5 (mul s4 L7)))))) in
  let t2 := mul s4 (add L2 (mul s4 (add L4 (mul s4 L6)))) in
  let R := add t1 t2 in
  let hfsq := mul (mul half f) f in
  sub (mul k Ln2Hi)
      (sub (sub hfsq (add (mul s (add hfsq R)) (mul k Ln2Lo))) f).

Definition Log2 (x : t) : t :=
  let '(frac, e) := Frexp x in
  if eqb frac half then of_Z (e - 1)
  else add (mul (Log frac) InvLn2) (of_Z e).

Definition Log10 (x : t) : t := mul (Log2 x) Ln2_Ln10.

(** [time.Duration.Seconds]. *)
Definition Seconds (d : Z) : t :=
  add (of_Z (Z.quot d 1000000000))
      (div (of_Z (Z.rem d 1000000000)) (of_Z 1000000000)).

End f64.

(** ** Integer logarithms

    [math.Ceil(math.Log10(x))] and [math.Ceil(math.Log2(x))] of an integer
    are the exponents of the powers of the base around it. *)

Definition log10_bracket (n : Z) : bool :=
  let k := f64.ceil (f64.Log10 (f64.of_Z n)) in
  (n <=? 10 ^ k) && ((10 ^ (k - 1) <? n) || (n =? 1)) && (0 <=? k).

Definition log2_bracket (n : Z) : bool :=
  f64.ceil (f64.sub (f64.Log2 (f64.of_Z n)) (f64.Log2 (f64.of_Z 32)))
    =? Z.log2_up n - 5.

Lemma seqZ_forallb (P : Z -> bool) (a m n : Z) :
  forallb P (seqZ a m) = true -> a <= n < a + m -> P n = true.
Proof.
  rewrite forallb_forall. intros H Hn. apply H.
  apply list_elem_of_In, elem_of_seqZ. lia.
Qed.

Lemma log10_bracket_ok n : 1 <= n <= 1024 -> log10_bracket n = true.
Proof. intros H. apply (seqZ_forallb _ 1 1024); [vm_compute; reflexivity|lia]. Qed.

Lemma log2_bracket_ok n : 32 <= n <= 1024 -> log2_bracket n = true.
Proof. intros H. apply (seqZ_forallb _ 32 993); [vm_compute; reflexivity|lia]. Qed.
