(* ===== verification/Types.v ===== *)
(** * Data model

    The records and enumerations that the components exchange: node states
    and the gossip messages ([state.go]), message types ([net_handlers.go]),
    node events ([node_events.go]) and the wire structs of the ping and
    push/pull protocols. *)

From S2P Require Import Prelude.
From Stdlib Require Import Strings.Byte.

(** ** Nodes and gossip messages *)

Inductive StateType := StateAlive | StateSuspect | StateDead | StateLeft.

#[global] Instance StateType_eq_dec : EqDecision StateType.
Proof. solve_decision. Defined.

(** The value of the constant ([iota] order), as it travels in push/pull. *)
Definition StateType_code (t : StateType) : Z :=
  match t with
  | StateAlive => 0 | StateSuspect => 1 | StateDead => 2 | StateLeft => 3
  end.

Definition StateType_of_code (z : Z) : option StateType :=
  match z with
  | 0 => Some StateAlive | 1 => Some StateSuspect
  | 2 => Some StateDead | 3 => Some StateLeft
  | _ => None
  end.

(** [StateType.String]: any integer is a [StateType] in Go. *)
Definition StateType_String (t : Z) : string :=
  match StateType_of_code t with
  | Some StateAlive => "alive"
  | Some StateSuspect => "suspect"
  | Some StateDead => "dead"
  | Some StateLeft => "left"
  | None => "unknown state"
  end.

Abbreviation ip := (list byte).

Record Node := mkNode {
  ID : string;
  IP : ip;
  Port : Z;           (* uint16 *)
  Tags : list byte
}.

#[global] Instance Node_eq_dec : EqDecision Node.
Proof. solve_decision. Defined.

Record UDPAddr := mkUDPAddr { addrIP : ip; addrPort : Z }.

#[global] Instance UDPAddr_eq_dec : EqDecision UDPAddr.
Proof. solve_decision. Defined.

Definition Node_UDPAddress (n : Node) : UDPAddr := mkUDPAddr (IP n) (Port n).

Record nodeState := mkNodeState {
  node : Node;
  Lives : Z;          (* uint32 *)
  State : StateType;
  StateChange : Z     (* time.Time, nanoseconds *)
}.

#[global] Instance nodeState_eq_dec : EqDecision nodeState.
Proof. solve_decision. Defined.

Definition nid (n : nodeState) : string := ID (node n).

Definition DeadOrLeft (n : nodeState) : bool :=
  bool_decide (State n = StateDead) || bool_decide (State n = StateLeft).

Record alive := mkAlive {
  a_Lives : Z; a_ID : string; a_IP : ip; a_Port : Z; a_Tags : list byte
}.
Record suspect := mkSuspect { s_Lives : Z; s_ID : string; s_From : string }.
Record dead := mkDead { d_Lives : Z; d_ID : string; d_Left : bool }.

(** The nodes of a push/pull exchange. *)
Record stateToMerge := mkStateToMerge {
  m_Lives : Z; m_ID : string; m_IP : ip; m_Port : Z;
  m_Tags : list byte; m_State : Z
}.

Record pushPullHeader := mkPushPullHeader { Nodes : Z; UserStateLen : Z }.

(** ** Ping messages *)

Record ping := mkPing {
  p_SeqNo : Z; p_ID : string; p_SourceIP : ip; p_SourcePort : Z
}.
Record ack := mkAck { k_SeqNo : Z; k_Payload : list byte }.
Record indirectPing := mkIndirectPing {
  i_SeqNo : Z; i_ID : string; i_IP : ip; i_Port : Z;
  i_SourceIP : ip; i_SourcePort : Z
}.
Record indirectAck := mkIndirectAck { ia_SeqNo : Z; ia_Success : bool }.

(** The payload of an LZW-compressed message. *)
Record compressed := mkCompressed { c_Algo : Z; c_Buf : list byte }.

#[global] Instance alive_eq_dec : EqDecision alive.
Proof. solve_decision. Defined.
#[global] Instance suspect_eq_dec : EqDecision suspect.
Proof. solve_decision. Defined.
#[global] Instance dead_eq_dec : EqDecision dead.
Proof. solve_decision. Defined.
#[global] Instance stateToMerge_eq_dec : EqDecision stateToMerge.
Proof. solve_decision. Defined.
#[global] Instance pushPullHeader_eq_dec : EqDecision pushPullHeader.
Proof. solve_decision. Defined.
#[global] Instance ping_eq_dec : EqDecision ping.
Proof. solve_decision. Defined.
#[global] Instance ack_eq_dec : EqDecision ack.
Proof. solve_decision. Defined.
#[global] Instance indirectPing_eq_dec : EqDecision indirectPing.
Proof. solve_decision. Defined.
#[global] Instance indirectAck_eq_dec : EqDecision indirectAck.
Proof. solve_decision. Defined.
#[global] Instance compressed_eq_dec : EqDecision compressed.
Proof. solve_decision. Defined.

(** ** Message types *)

Inductive msgType :=
| pingMsg | indirectPingMsg | ackMsg | indirectAckMsg | aliveMsg | suspectMsg
| deadMsg | pushPullMsg | compoundMsg | userMsg | compressMsg | encryptMsg
| hasCrcMsg | errMsg.

#[global] Instance msgType_eq_dec : EqDecision msgType.
Proof. solve_decision. Defined.

Definition msgTypes : list msgType :=
  [pingMsg; indirectPingMsg; ackMsg; indirectAckMsg; aliveMsg; suspectMsg;
   deadMsg; pushPullMsg; compoundMsg; userMsg; compressMsg; encryptMsg;
   hasCrcMsg; errMsg].

Definition Code (t : msgType) : Z :=
  match t with
  | pingMsg => 0 | indirectPingMsg => 1 | ackMsg => 2 | indirectAckMsg => 3
  | aliveMsg => 4 | suspectMsg => 5 | deadMsg => 6 | pushPullMsg => 7
  | compoundMsg => 8 | userMsg => 9 | compressMsg => 10 | encryptMsg => 11
  | hasCrcMsg => 12 | errMsg => 13
  end.

(** The conversion [msgType(b)] of a byte; [None] is a value that no constant
    has, which every [switch] sends to its default case. *)
Definition msgType_of_byte (b : byte) : option msgType :=
  msgTypes !! Z.to_nat (b2z b).

Definition msgByte (t : msgType) : byte := z2b (Code t).

Definition msgType_String (z : Z) : string :=
  match z with
  | 0 => "ping" | 1 => "indirect ping" | 2 => "ack" | 3 => "indirectAck"
  | 4 => "alive" | 5 => "suspect" | 6 => "dead" | 7 => "pushpull"
  | 8 => "compound" | 9 => "user" | 10 => "compress" | 11 => "encrypt"
  | 12 => "hasCrc" | 13 => "err"
  | _ => "unknown"
  end.

Lemma msgType_of_msgByte t : msgType_of_byte (msgByte t) = Some t.
Proof. by destruct t. Qed.

(** Everything the program hands to the MessagePack codec. *)
Inductive payload :=
| PAlive (a : alive) | PSuspect (s : suspect) | PDead (d : dead)
| PPing (p : ping) | PAck (a : ack)
| PIndirectPing (i : indirectPing) | PIndirectAck (i : indirectAck)
| PErrResp (e : string)
| PHeader (h : pushPullHeader) | PState (s : stateToMerge)
| PCompressed (c : compressed).

#[global] Instance payload_eq_dec : EqDecision payload.
Proof. solve_decision. Defined.

(** ** Node events *)

Inductive NodeEventType := NodeJoin | NodeLeave | NodeUpdate.

#[global] Instance NodeEventType_eq_dec : EqDecision NodeEventType.
Proof. solve_decision. Defined.

Definition NodeEventType_String (z : Z) : string :=
  match z with
  | 0 => "join" | 1 => "leave" | 2 => "update" | _ => "unknown event"
  end.

Record NodeEvent := mkNodeEvent { Type_ : NodeEventType; evNode : Node }.

#[global] Instance NodeEvent_eq_dec : EqDecision NodeEvent.
Proof. solve_decision. Defined.
