(* ===== verification/Awareness.v ===== *)
(** * Local health awareness ([awareness.go])

    The node scores its own health: the score lengthens its probe timeouts
    (Lifeguard's local health multiplier). *)

From S2P Require Import Prelude.

Record awareness := mkAwareness { health : Z; max : Z }.

Definition newAwareness (max : Z) : awareness := mkAwareness 0 max.

Definition GetHealth (a : awareness) : Z := health a.

Definition Punish (a : awareness) (delta : Z) : awareness :=
  let h := i64 (health a + delta) in
  if h <? 0 then mkAwareness 0 (max a)
  else if max a - 1 <? h then mkAwareness (max a - 1) (max a)
  else mkAwareness h (max a).

Definition ScaleTimeout (a : awareness) (timeout : Z) : Z :=
  i64 ((health a + 1) * timeout).

(** The health score stays between 0 and [max - 1]. *)
Definition awareness_ok (a : awareness) : Prop := 0 <= health a <= max a - 1.

Lemma Punish_max a d : max (Punish a d) = max a.
Proof. unfold Punish. by repeat case_match. Qed.

Lemma Punish_ok a d : 1 <= max a -> awareness_ok (Punish a d).
Proof.
  intros Hm. unfold Punish, awareness_ok. repeat case_match; simpl; lia.
Qed.

Lemma newAwareness_ok m : 1 <= m -> awareness_ok (newAwareness m).
Proof. unfold awareness_ok; simpl; lia. Qed.

Lemma foldl_Punish_max ds a : max (foldl Punish a ds) = max a.
Proof.
  revert a. induction ds as [|d ds IH]; intros a; simpl; [done|].
  by rewrite IH, Punish_max.
Qed.

(** Any history of [Punish] calls leaves the score within its bounds,
    whatever the deltas, wrap-around of the addition included. *)
Lemma awareness_history_ok m ds :
  1 <= m -> awareness_ok (foldl Punish (newAwareness m) ds).
Proof.
  intros Hm. induction ds as [|d ds _] using rev_ind.
  - by apply newAwareness_ok.
  - rewrite foldl_app. simpl. apply Punish_ok. by rewrite foldl_Punish_max.
Qed.

(** Without overflow [Punish] is addition clamped to [0, max - 1]. *)
Lemma Punish_clamp a d :
  - 2 ^ 63 <= health a + d < 2 ^ 63 -> 1 <= max a ->
  health (Punish a d) = Z.max 0 (Z.min (max a - 1) (health a + d)).
Proof.
  intros Hr Hm. unfold Punish. rewrite i64_small by done.
  repeat case_match; simpl; lia.
Qed.

(** After any history of health updates the score is within
    [0, max - 1], and so a timeout that does not overflow the 64-bit duration
    at the worst score is scaled to between one and [max] times its value,
    without wrapping. *)
Theorem scaled_timeout_bounds m ds timeout :
  1 <= m -> 0 <= timeout -> m * timeout < 2 ^ 63 ->
  let a := foldl Punish (newAwareness m) ds in
  0 <= health a <= m - 1 /\
  timeout <= ScaleTimeout a timeout <= m * timeout /\
  ScaleTimeout a timeout = (health a + 1) * timeout.
Proof.
  intros Hm Ht Hov a.
  pose proof (awareness_history_ok m ds Hm) as Hok.
  unfold awareness_ok in Hok. fold a in Hok.
  assert (max a = m) as Hmax by (unfold a; by rewrite foldl_Punish_max).
  rewrite Hmax in Hok. unfold ScaleTimeout.
  assert (timeout <= (health a + 1) * timeout <= m * timeout) by nia.
  rewrite i64_small by lia. lia.
Qed.

Lemma scaled_timeout_bounds_witness :
  let a := foldl Punish (newAwareness 8) [3; -1; 10; -2] in
  0 <= health a <= 7 /\
  500000000 <= ScaleTimeout a 500000000 <= 8 * 500000000 /\
  ScaleTimeout a 500000000 = (health a + 1) * 500000000.
Proof. apply (scaled_timeout_bounds 8 [3; -1; 10; -2] 500000000); lia. Defined.
