(* ===== verification/Keyring.v ===== *)
(** * The keyring ([keyring.go])

    The encryption keys of a node: a list of installed keys and the primary
    one, which encrypts. [RemoveKey] deletes in place while it ranges over
    the slice, which is modelled on the backing array. *)

From S2P Require Import Prelude.
From Stdlib Require Import Strings.Byte.

Abbreviation key := (list byte).

Inductive keyring_error :=
| errKeySize          (* key size must be 16, 24 or 32 bytes *)
| errNotInKeyring     (* key %x is not in keyring *)
| errRemovePrimary.   (* removing primary key is not allowed *)

(** [primaryKey] is [None] when the Go slice is nil. *)
Record Keyring := mkKeyring { primaryKey : option key; keys : list key }.

(** [bytes.Equal]. *)
Definition bytesEqual (a b : list byte) : bool := bool_decide (a = b).

Lemma bytesEqual_refl a : bytesEqual a a = true.
Proof. by apply bool_decide_eq_true. Qed.

Lemma bytesEqual_false a b : bytesEqual a b = false -> a <> b.
Proof. by intros ?%bool_decide_eq_false. Qed.

Definition ValidateKey (k : key) : bool :=
  (len k =? 16) || (len k =? 24) || (len k =? 32).

Definition AddKey (r : Keyring) (k : key) : Keyring orerr keyring_error :=
  if negb (ValidateKey k) then inl errKeySize
  else if existsb (bytesEqual k) (keys r) then inr r
  else inr (mkKeyring (primaryKey r) (keys r ++ [k])).

Definition UseKey (r : Keyring) (k : key) : Keyring orerr keyring_error :=
  if existsb (bytesEqual k) (keys r) then inr (mkKeyring (Some k) (keys r))
  else inl errNotInKeyring.

Fixpoint addKeys (r : Keyring) (ks : list key) : Keyring orerr keyring_error :=
  match ks with
  | [] => inr r
  | k :: ks =>
      match AddKey r k with inl e => inl e | inr r => addKeys r ks end
  end.

Definition NewKeyring (ks : list key) (primary : option key)
    : Keyring orerr keyring_error :=
  let r := mkKeyring None [] in
  match primary with
  | None => addKeys r ks
  | Some p =>
      match AddKey r p with
      | inl e => inl e
      | inr r => match UseKey r p with inl e => inl e | inr r => addKeys r ks end
      end
  end.

(** The loop of [RemoveKey]. The [range] clause reads [arr], the array behind
    the slice as it was at the start; [n] is the current length of [r.keys],
    which lies at the front of the same array. *)
Fixpoint removeLoop (k : key) (arr : list key) (n i todo : nat) (found : bool)
    : outcome (list key * bool) :=
  match todo with
  | O => Ret (take n arr, found)
  | S todo =>
      match arr !! i with
      | None => Panic
      | Some k' =>
          if bytesEqual k k' then
            (* r.keys[i+1:] needs i+1 <= len(r.keys) *)
            if (n <? i + 1)%nat then Panic
            else
              let kept := take i arr ++ drop (i + 1) (take n arr) in
              removeLoop k (kept ++ drop (n - 1) arr) (n - 1) (i + 1) todo true
          else removeLoop k arr n (i + 1) todo found
      end
  end.

Definition RemoveKey (r : Keyring) (k : key)
    : outcome (Keyring orerr keyring_error) :=
  if bytesEqual k (default [] (primaryKey r)) then Ret (inl errRemovePrimary)
  else
    let n := length (keys r) in
    let! (ks, found) := removeLoop k (keys r) n 0 n false in
    Ret (if found then inr (mkKeyring (primaryKey r) ks)
         else inl errNotInKeyring).

Definition GetKeys (r : Keyring) : list key :=
  match primaryKey r with
  | None => []
  | Some p => p :: List.filter (fun k => negb (bytesEqual k p)) (keys r)
  end.

Definition GetPrimaryKey (r : Keyring) : option key := primaryKey r.

(** [EncryptionEnabled] ([encrypt.go]): a keyring with at least one key that
    [GetKeys] returns. *)
Definition EncryptionEnabled (r : option Keyring) : bool :=
  match r with
  | None => false
  | Some r => 0 <? len (GetKeys r)
  end.

(** ** Invariant *)

Record keyring_ok (r : Keyring) : Prop := {
  ok_nodup : NoDup (keys r);
  ok_valid : Forall (fun k => ValidateKey k = true) (keys r);
  ok_primary : forall p, primaryKey r = Some p -> p ∈ keys r
}.

Lemma existsb_bytesEqual k ks : existsb (bytesEqual k) ks = true <-> k ∈ ks.
Proof.
  rewrite existsb_exists. split.
  - intros (k' & Hin%list_elem_of_In & ->%bool_decide_eq_true). done.
  - intros Hin. exists k. rewrite <- list_elem_of_In. auto using bytesEqual_refl.
Qed.

Lemma existsb_bytesEqual_false k ks :
  existsb (bytesEqual k) ks = false <-> k ∉ ks.
Proof. rewrite <- existsb_bytesEqual. destruct (existsb _ _); split; congruence. Qed.

Lemma AddKey_ok r k r' : keyring_ok r -> AddKey r k = inr r' -> keyring_ok r'.
Proof.
  intros [Hn Hv Hp]. unfold AddKey.
  destruct (ValidateKey k) eqn:Hk; simpl; [|done].
  destruct (existsb _ _) eqn:E; intros [= <-]; [done|].
  apply existsb_bytesEqual_false in E. split; simpl.
  - apply NoDup_app. split_and!; [done| |apply NoDup_singleton].
    by intros x Hx ->%list_elem_of_singleton.
  - by apply Forall_app_2; [|constructor].
  - intros p ?%Hp. set_solver.
Qed.

Lemma UseKey_ok r k r' : keyring_ok r -> UseKey r k = inr r' -> keyring_ok r'.
Proof.
  intros [Hn Hv Hp]. unfold UseKey.
  destruct (existsb _ _) eqn:E; intros [= <-].
  apply existsb_bytesEqual in E. split; simpl; [done..|].
  by intros p [= <-].
Qed.

(** The in-place loop finds no match at all ... *)
Lemma removeLoop_miss k arr n todo i found :
  (i + todo <= length arr)%nat ->
  (forall j, (i <= j < i + todo)%nat -> arr !! j <> Some k) ->
  removeLoop k arr n i todo found = Ret (take n arr, found).
Proof.
  revert i. induction todo as [|todo IH]; intros i Hlen Hmiss; simpl; [done|].
  destruct (arr !! i) as [k'|] eqn:E.
  - destruct (bytesEqual k k') eqn:Ek.
    + apply bool_decide_eq_true in Ek. subst k'.
      exfalso. apply (Hmiss i); [lia|done].
    + apply IH; [lia|]. intros j Hj. apply Hmiss. lia.
  - apply lookup_ge_None in E. lia.
Qed.

(** ... or deletes the single one it finds: the shifted array it goes on
    reading holds only kept keys, with the last one twice. *)
Lemma shifted_array_elems (k x : key) (pre post : list key) :
  post <> [] ->
  x ∈ (pre ++ post) ++ drop (length pre + length post) (pre ++ k :: post) ->
  x ∈ pre ++ post.
Proof.
  intros Hne. rewrite elem_of_app. intros [Hin|Hin]; [done|].
  rewrite drop_app_add in Hin.
  destruct (exists_last Hne) as (post' & z & ->).
  rewrite app_comm_cons, drop_app_length' in Hin
    by (rewrite length_app; simpl; lia).
  set_solver.
Qed.

Lemma removeLoop_hit k pre post : NoDup (pre ++ k :: post) ->
  forall todo i, (i + todo = length (pre ++ k :: post))%nat ->
  (i <= length pre)%nat ->
  removeLoop k (pre ++ k :: post) (length (pre ++ k :: post)) i todo false
  = Ret (pre ++ post, true).
Proof.
  intros Hnd todo.
  assert (k ∉ pre ++ post) as Hk.
  { apply NoDup_app in Hnd as (_ & Hpre & [Hpost _]%NoDup_cons). set_solver. }
  induction todo as [|todo IH]; intros i Htodo Hi;
    rewrite length_app in *; simpl in Htodo; [lia|].
  simpl. destruct (decide (i = length pre)) as [->|Hne].
  - rewrite list_lookup_middle, bytesEqual_refl by done.
    rewrite (proj2 (Nat.ltb_ge _ _)) by lia.
    rewrite (take_ge (pre ++ k :: post) (length pre + _))
      by (rewrite length_app; simpl; lia).
    rewrite take_app_length, drop_app_add. cbn [drop]. rewrite drop_0.
    replace (length pre + S (length post) - 1)%nat
      with (length pre + length post)%nat by lia.
    rewrite removeLoop_miss.
    + f_equal. f_equal. apply take_app_length'. by rewrite length_app.
    + rewrite !length_app, length_drop, length_app. simpl. lia.
    + intros j Hj Hjk%list_elem_of_lookup_2. apply Hk.
      apply (shifted_array_elems k); [|done].
      intros ->. simpl in *. lia.
  - rewrite lookup_app_l by lia.
    destruct (lookup_lt_is_Some_2 pre i) as [k' Hk']; [lia|]. rewrite Hk'.
    assert (bytesEqual k k' = false) as ->.
    { apply bool_decide_eq_false. intros ->.
      apply Hk, elem_of_app. left. by eapply list_elem_of_lookup_2. }
    apply IH; simpl; lia.
Qed.

(** On a keyring without duplicates, [RemoveKey] is the specification one
    would write on lists. *)
Definition RemoveKey_spec (r : Keyring) (k : key) : Keyring orerr keyring_error :=
  if bytesEqual k (default [] (primaryKey r)) then inl errRemovePrimary
  else if existsb (bytesEqual k) (keys r)
  then inr (mkKeyring (primaryKey r)
              (List.filter (fun k' => negb (bytesEqual k k')) (keys r)))
  else inl errNotInKeyring.

Lemma filter_id_notin k ks :
  k ∉ ks -> List.filter (fun k' => negb (bytesEqual k k')) ks = ks.
Proof.
  induction ks as [|k' ks IH]; intros Hk; simpl; [done|].
  apply not_elem_of_cons in Hk as [Hne Hk].
  unfold bytesEqual at 1. rewrite bool_decide_eq_false_2 by done.
  simpl. by rewrite IH.
Qed.

Lemma RemoveKey_refines r k :
  keyring_ok r -> RemoveKey r k = Ret (RemoveKey_spec r k).
Proof.
  intros [Hnd _ _]. unfold RemoveKey, RemoveKey_spec.
  destruct (bytesEqual k _); [done|].
  destruct (existsb (bytesEqual k) (keys r)) eqn:E.
  - apply existsb_bytesEqual, list_elem_of_split in E as (pre & post & Hks).
    rewrite Hks in *. rewrite removeLoop_hit by (done || lia). simpl.
    rewrite List.filter_app. simpl. rewrite bytesEqual_refl. simpl.
    apply NoDup_app in Hnd as (_ & Hpre & [Hpost _]%NoDup_cons).
    rewrite !filter_id_notin; [done|set_solver|].
    intros Hin. apply (Hpre _ Hin). left.
  - apply existsb_bytesEqual_false in E.
    rewrite removeLoop_miss; [by rewrite firstn_all|lia|].
    intros j _ Hj%list_elem_of_lookup_2. done.
Qed.

(** ** Histories of operations *)

Inductive keyring_op :=
| OpAdd (k : key) | OpUse (k : key) | OpRemove (k : key).

(** An operation that returns an error leaves the keyring as it was. *)
Definition keyring_step (r : Keyring) (op : keyring_op) : outcome Keyring :=
  let keep (res : Keyring orerr keyring_error) :=
    match res with inl _ => r | inr r' => r' end in
  match op with
  | OpAdd k => Ret (keep (AddKey r k))
  | OpUse k => Ret (keep (UseKey r k))
  | OpRemove k => outcome_map keep (RemoveKey r k)
  end.

Fixpoint keyring_run (r : Keyring) (ops : list keyring_op) : outcome Keyring :=
  match ops with
  | [] => Ret r
  | op :: ops => let! r := keyring_step r op in keyring_run r ops
  end.

Lemma RemoveKey_spec_ok r k r' :
  keyring_ok r -> RemoveKey_spec r k = inr r' -> keyring_ok r'.
Proof.
  intros [Hn Hv Hp]. unfold RemoveKey_spec.
  destruct (bytesEqual k _) eqn:Ep; [done|].
  destruct (existsb _ _) eqn:E; intros [= <-]. split; simpl.
  - apply NoDup_ListNoDup, List.NoDup_filter. by apply NoDup_ListNoDup.
  - rewrite List.Forall_forall in *.
    intros x [Hin _]%List.filter_In. auto.
  - intros p Hpr. rewrite Hpr in Ep. simpl in Ep.
    apply list_elem_of_In, List.filter_In. split.
    + by apply list_elem_of_In, Hp.
    + by rewrite Ep.
Qed.

Lemma keyring_step_ok r op :
  keyring_ok r -> exists r', keyring_step r op = Ret r' /\ keyring_ok r'.
Proof.
  intros Hok. destruct op as [k|k|k]; simpl.
  - destruct (AddKey r k) eqn:E; eauto using AddKey_ok.
  - destruct (UseKey r k) eqn:E; eauto using UseKey_ok.
  - rewrite RemoveKey_refines by done. simpl.
    destruct (RemoveKey_spec r k) eqn:E; eauto using RemoveKey_spec_ok.
Qed.

Lemma keyring_run_ok ops r :
  keyring_ok r -> exists r', keyring_run r ops = Ret r' /\ keyring_ok r'.
Proof.
  revert r. induction ops as [|op ops IH]; intros r Hok; simpl; [eauto|].
  destruct (keyring_step_ok r op Hok) as (r' & -> & Hok'). simpl. auto.
Qed.

Lemma addKeys_ok ks r r' : keyring_ok r -> addKeys r ks = inr r' -> keyring_ok r'.
Proof.
  revert r. induction ks as [|k ks IH]; intros r Hok; simpl.
  - by intros [= <-].
  - destruct (AddKey r k) eqn:E; [done|]. eauto using AddKey_ok.
Qed.

Lemma empty_keyring_ok : keyring_ok (mkKeyring None []).
Proof. split; [constructor|constructor|done]. Qed.

Lemma NewKeyring_ok ks p r : NewKeyring ks p = inr r -> keyring_ok r.
Proof.
  pose proof empty_keyring_ok as H0. unfold NewKeyring. destruct p as [p|].
  - destruct (AddKey _ p) eqn:E1; [done|].
    destruct (UseKey _ p) eqn:E2; [done|].
    eauto using addKeys_ok, UseKey_ok, AddKey_ok.
  - eauto using addKeys_ok.
Qed.

Lemma filter_neq_perm (p : key) ks :
  NoDup ks -> p ∈ ks ->
  p :: List.filter (fun k => negb (bytesEqual k p)) ks ≡ₚ ks.
Proof.
  intros Hnd (pre & post & ->)%list_elem_of_split.
  apply NoDup_app in Hnd as (_ & Hpre & [Hpost _]%NoDup_cons).
  rewrite List.filter_app. simpl. rewrite bytesEqual_refl. simpl.
  assert (forall ks, p ∉ ks -> List.filter (fun k => negb (bytesEqual k p)) ks = ks)
    as Hid.
  { intros ks' Hk. rewrite <- (filter_id_notin p ks' Hk) at 2.
    apply List.filter_ext. intros k. unfold bytesEqual. f_equal.
    apply bool_decide_ext. naive_solver. }
  rewrite !Hid; [by rewrite Permutation_middle|done|].
  intros Hin. apply (Hpre _ Hin). left.
Qed.

(** Every keyring built by [NewKeyring] and changed by any sequence of
    [AddKey], [UseKey] and [RemoveKey] calls has pairwise distinct keys of 16,
    24 or 32 bytes and a primary key among them, and no call of the sequence
    panics; in particular the in-place deletion never slices out of range. *)
Theorem keyring_invariant ks p r ops :
  NewKeyring ks p = inr r ->
  exists r', keyring_run r ops = Ret r' /\ keyring_ok r'.
Proof. intros Hr. eapply keyring_run_ok, NewKeyring_ok, Hr. Qed.

Lemma keyring_invariant_witness :
  let k1 := replicate 16 x01 in
  let k2 := replicate 24 x02 in
  exists r', keyring_run (mkKeyring (Some k1) [k1; k2])
               [OpUse k2; OpRemove k1; OpRemove k2] = Ret r' /\ keyring_ok r'.
Proof.
  apply (keyring_invariant [replicate 24 x02] (Some (replicate 16 x01))).
  reflexivity.
Defined.

(** [RemoveKey], which shifts the backing array in place while the
    [range] loop reads it, computes the list specification: it refuses the
    primary key, reports a key that is not installed, and otherwise removes
    exactly that key and keeps the order of the others. *)
Theorem RemoveKey_correct r k :
  keyring_ok r -> RemoveKey r k = Ret (RemoveKey_spec r k).
Proof. apply RemoveKey_refines. Qed.

Lemma RemoveKey_correct_witness :
  let k1 := replicate 16 x01 in
  let k2 := replicate 24 x02 in
  let k3 := replicate 32 x03 in
  let r := mkKeyring (Some k1) [k1; k2; k3] in
  RemoveKey r k2 = Ret (RemoveKey_spec r k2) /\
  RemoveKey_spec r k2 = inr (mkKeyring (Some k1) [k1; k3]).
Proof.
  split; [|reflexivity]. apply RemoveKey_correct.
  apply (NewKeyring_ok [replicate 24 x02; replicate 32 x03]
           (Some (replicate 16 x01))).
  reflexivity.
Defined.

(** Once a primary key is set, [GetKeys] lists every installed key
    exactly once with the primary first, so decryption tries the key that
    encrypts before any other; a keyring without primary key hands out no key
    and leaves encryption disabled whatever keys it holds. *)
Theorem GetKeys_primary_first r :
  keyring_ok r ->
  match primaryKey r with
  | Some p => exists rest, GetKeys r = p :: rest /\ GetKeys r ≡ₚ keys r /\
                           EncryptionEnabled (Some r) = true
  | None => GetKeys r = [] /\ EncryptionEnabled (Some r) = false
  end.
Proof.
  intros [Hnd _ Hp]. unfold EncryptionEnabled, GetKeys.
  destruct (primaryKey r) as [p|]; [|done].
  eexists. split_and!; [done| |done].
  apply filter_neq_perm; [done|]. by apply Hp.
Qed.

Lemma GetKeys_primary_first_witness :
  let r := mkKeyring (Some (replicate 24 x02))
             [replicate 16 x01; replicate 24 x02] in
  exists rest, GetKeys r = replicate 24 x02 :: rest /\ GetKeys r ≡ₚ keys r /\
               EncryptionEnabled (Some r) = true.
Proof.
  apply (GetKeys_primary_first
           (mkKeyring (Some (replicate 24 x02))
              [replicate 16 x01; replicate 24 x02])).
  apply (UseKey_ok (mkKeyring None [replicate 16 x01; replicate 24 x02])
           (replicate 24 x02)); [|reflexivity].
  apply (NewKeyring_ok [replicate 16 x01; replicate 24 x02] None).
  reflexivity.
Defined.
