(* ===== verification/Alias.v ===== *)
(** * Byte slices shared by reference ([util.go], [state.go], [keyring.go])

    The other files treat byte slices as values. Here they are references to
    arrays of a store, for the operations that hand a slice from one owner to
    another: [copyBytes], the clones of [state.go] and the keyring. On slices
    that nobody writes to, the operations agree with those on values; a write
    reaches everyone [copyBytes] was meant to protect. *)

From S2P Require Import Prelude Types Keyring.
From Stdlib Require Import Strings.Byte.

(** ** Slices *)

Abbreviation Heap := (list (list byte)).

Record slice := mkSlice { arr : nat; off : nat; slen : nat }.

Implicit Types (h : Heap) (s : slice).

Definition bytesOf h s : list byte := take (slen s) (drop (off s) (default [] (h !! arr s))).

(** [s[i] = b]. *)
Definition write h s (i : nat) (b : byte) : outcome Heap :=
  if (i <? slen s)%nat then Ret (alter (fun a => <[(off s + i)%nat := b]> a) (arr s) h) else Panic.

(** [make] and [copy]. *)
Definition make h (n : nat) : slice * Heap := (mkSlice (length h) 0 n, h ++ [replicate n x00]).
Definition copy h (dst src : slice) : Heap :=
  let b := take (slen dst) (bytesOf h src) in
  alter (fun a => take (off dst) a ++ b ++ drop (off dst + length b) a) (arr dst) h.

(** The copy is made, and the argument returned. *)
Definition copyBytes h s : slice * Heap :=
  let '(res, h) := make h (slen s) in
  let h := copy h res s in
  (s, h).

(** ** Nodes *)

Record NodeObj := mkNodeObj { o_ID : string; o_IP : slice; o_Port : Z; o_Tags : slice }.
Record nodeStateObj := mkNodeStateObj {
  o_Node : NodeObj; o_Lives : Z; o_State : StateType; o_StateChange : Z
}.

Definition Node_Clone h (n : NodeObj) : NodeObj * Heap :=
  let '(ip, h) := copyBytes h (o_IP n) in
  let '(tags, h) := copyBytes h (o_Tags n) in
  (mkNodeObj (o_ID n) ip (o_Port n) tags, h).

Definition nodeState_Clone h (n : nodeStateObj) : nodeStateObj * Heap :=
  let '(nd, h) := Node_Clone h (o_Node n) in
  (mkNodeStateObj nd (o_Lives n) (o_State n) (o_StateChange n), h).

(** The values that the objects stand for. *)
Definition nodeOf h (n : NodeObj) : Node :=
  mkNode (o_ID n) (bytesOf h (o_IP n)) (o_Port n) (bytesOf h (o_Tags n)).
Definition nodeStateOf h (n : nodeStateObj) : nodeState :=
  mkNodeState (nodeOf h (o_Node n)) (o_Lives n) (o_State n) (o_StateChange n).

(** ** The keyring *)

Record RingObj := mkRing { o_primary : option slice; o_keys : list slice }.

Implicit Types r : RingObj.

Definition ringOf h r : Keyring := mkKeyring (bytesOf h <$> o_primary r) (bytesOf h <$> o_keys r).

Definition AddKeyAt h r (k : slice) : (RingObj * Heap) orerr keyring_error :=
  if negb (ValidateKey (bytesOf h k)) then inl errKeySize
  else if existsb (fun k' => bytesEqual (bytesOf h k) (bytesOf h k')) (o_keys r) then inr (r, h)
  else
    let '(c, h) := copyBytes h k in
    inr (mkRing (o_primary r) (o_keys r ++ [c]), h).

Definition UseKeyAt h r (k : slice) : (RingObj * Heap) orerr keyring_error :=
  if existsb (fun k' => bytesEqual (bytesOf h k) (bytesOf h k')) (o_keys r) then
    let '(c, h) := copyBytes h k in inr (mkRing (Some c) (o_keys r), h)
  else inl errNotInKeyring.

Fixpoint addKeysAt h r (ks : list slice) : (RingObj * Heap) orerr keyring_error :=
  match ks with
  | [] => inr (r, h)
  | k :: ks => match AddKeyAt h r k with inl e => inl e | inr (r, h) => addKeysAt h r ks end
  end.

Definition NewKeyringAt h (ks : list slice) (primary : option slice)
    : (RingObj * Heap) orerr keyring_error :=
  let r := mkRing None [] in
  match primary with
  | None => addKeysAt h r ks
  | Some p =>
      match AddKeyAt h r p with
      | inl e => inl e
      | inr (r, h) => match UseKeyAt h r p with inl e => inl e | inr (r, h) => addKeysAt h r ks end
      end
  end.

(** The loop of [RemoveKey], on the array behind the slice of keys. *)
Fixpoint removeLoopAt h (k : slice) (arr : list slice) (n i todo : nat) (found : bool)
    : outcome (list slice * bool) :=
  match todo with
  | O => Ret (take n arr, found)
  | S todo =>
      match arr !! i with
      | None => Panic
      | Some k' =>
          if bytesEqual (bytesOf h k) (bytesOf h k') then
            if (n <? i + 1)%nat then Panic
            else
              let kept := take i arr ++ drop (i + 1) (take n arr) in
              removeLoopAt h k (kept ++ drop (n - 1) arr) (n - 1) (i + 1) todo true
          else removeLoopAt h k arr n (i + 1) todo found
      end
  end.

Definition RemoveKeyAt h r (k : slice) : outcome (RingObj orerr keyring_error) :=
  if bytesEqual (bytesOf h k) (default [] (bytesOf h <$> o_primary r)) then Ret (inl errRemovePrimary)
  else
    let n := length (o_keys r) in
    let! (ks, found) := removeLoopAt h k (o_keys r) n 0 n false in
    Ret (if found then inr (mkRing (o_primary r) ks) else inl errNotInKeyring).

(** The loop of [GetKeys] over the keys other than the primary one. *)
Fixpoint otherKeys h (p : slice) (ks : list slice) : list slice * Heap :=
  match ks with
  | [] => ([], h)
  | k :: ks =>
      if bytesEqual (bytesOf h k) (bytesOf h p) then otherKeys h p ks
      else
        let '(c, h) := copyBytes h k in
        let '(cs, h) := otherKeys h p ks in
        (c :: cs, h)
  end.

Definition GetKeysAt h r : list slice * Heap :=
  match o_primary r with
  | None => ([], h)
  | Some p =>
      let '(c, h) := copyBytes h p in
      let '(cs, h) := otherKeys h p (o_keys r) in
      (c :: cs, h)
  end.

(** [copyBytes] of a nil slice is nil. *)
Definition GetPrimaryKeyAt h r : option slice * Heap :=
  match o_primary r with
  | None => (None, h)
  | Some p => let '(c, h) := copyBytes h p in (Some c, h)
  end.

(** ** Facts *)

Definition valid h s : Prop := exists a, h !! arr s = Some a /\ (off s + slen s <= length a)%nat.

Lemma copyBytes_eq h s : exists a, copyBytes h s = (s, h ++ [a]).
Proof.
  unfold copyBytes, make, copy. simpl. eexists.
  rewrite <- (Nat.add_0_r (length h)), alter_app_r. simpl. reflexivity.
Qed.

#[local] Opaque copyBytes.

Lemma bytesOf_app h a s : valid h s -> bytesOf (h ++ [a]) s = bytesOf h s.
Proof. intros (b & Hb & _). unfold bytesOf. by rewrite (lookup_app_l_Some _ _ _ _ Hb), Hb. Qed.

Lemma valid_app h a s : valid h s -> valid (h ++ [a]) s.
Proof. intros (b & Hb & Hl). exists b. by rewrite (lookup_app_l_Some _ _ _ _ Hb). Qed.

Lemma length_bytesOf h s : valid h s -> length (bytesOf h s) = slen s.
Proof.
  intros (a & Ha & Hl). unfold bytesOf. rewrite Ha. simpl.
  rewrite length_take, length_drop. lia.
Qed.

(** A write through a slice. *)
Lemma write_bytesOf h s i b :
  valid h s -> (i < slen s)%nat ->
  exists h', write h s i b = Ret h' /\ bytesOf h' s = <[i := b]> (bytesOf h s) /\
    (forall s', arr s' <> arr s -> bytesOf h' s' = bytesOf h s').
Proof.
  intros (a & Ha & Hl) Hi. unfold write. rewrite (proj2 (Nat.ltb_lt _ _) Hi).
  eexists. split_and!; [done| |].
  - unfold bytesOf. rewrite list_lookup_alter_eq, Ha. simpl.
    rewrite drop_insert_ge, take_insert_lt by lia. f_equal. lia.
  - intros s' Hs. unfold bytesOf. by rewrite list_lookup_alter_ne.
Qed.

Definition ring_valid h r : Prop := Forall (valid h) (option_list (o_primary r) ++ o_keys r).

Lemma map_bytesOf_app h a l :
  Forall (valid h) l -> bytesOf (h ++ [a]) <$> l = bytesOf h <$> l.
Proof.
  intros Hl. apply list_fmap_ext. intros i s Hs. apply bytesOf_app.
  by eapply Forall_lookup_1.
Qed.

Lemma ringOf_app h a r : ring_valid h r -> ringOf (h ++ [a]) r = ringOf h r.
Proof.
  intros [Hp Hk]%Forall_app. unfold ringOf. rewrite map_bytesOf_app by done. f_equal.
  destruct (o_primary r) as [p|]; [|done]. simpl. f_equal. apply bytesOf_app. by inversion Hp.
Qed.

Lemma existsb_bytesOf h k ks :
  existsb (fun k' => bytesEqual (bytesOf h k) (bytesOf h k')) ks
  = existsb (bytesEqual (bytesOf h k)) (bytesOf h <$> ks).
Proof. induction ks as [|k' ks IH]; simpl; [done|]. by rewrite IH. Qed.

Lemma otherKeys_values p ks : forall h, valid h p -> Forall (valid h) ks ->
  exists cs h', otherKeys h p ks = (cs, h') /\
    bytesOf h' <$> cs = List.filter (fun k => negb (bytesEqual k (bytesOf h p))) (bytesOf h <$> ks) /\
    (forall s, valid h s -> valid h' s /\ bytesOf h' s = bytesOf h s).
Proof.
  induction ks as [|k ks IH]; intros h Hp Hks; [by eexists _, _|].
  apply Forall_cons in Hks as [Hk Hks]. simpl.
  destruct (bytesEqual (bytesOf h k) (bytesOf h p)) eqn:E; simpl; [by apply IH|].
  destruct (copyBytes_eq h k) as [a ->].
  destruct (IH (h ++ [a])) as (cs & h' & -> & Hcs & Hs); [by apply valid_app| |].
  { eapply Forall_impl; [exact Hks|]. intros ?. apply valid_app. }
  rewrite map_bytesOf_app, bytesOf_app in Hcs by done.
  eexists _, _. split_and!; [done| |].
  - rewrite fmap_cons, Hcs. f_equal. destruct (Hs k) as [_ ->]; [by apply valid_app|].
    by apply bytesOf_app.
  - intros s Hv. destruct (Hs s) as [Hv' Hb]; [by apply valid_app|]. split; [done|].
    by rewrite Hb, bytesOf_app.
Qed.

Lemma removeLoopAt_values h k todo : forall arr n i found,
  outcome_map (prod_map (fmap (bytesOf h)) id) (removeLoopAt h k arr n i todo found)
  = removeLoop (bytesOf h k) (bytesOf h <$> arr) n i todo found.
Proof.
  induction todo as [|todo IH]; intros arr n i found; simpl; [by rewrite <- fmap_take|].
  rewrite list_lookup_fmap. destruct (arr !! i) as [k'|]; simpl; [|done].
  destruct (bytesEqual _ _); [|by apply IH]. destruct (n <? i + 1)%nat; [done|].
  by rewrite IH, !fmap_app, !fmap_drop, !fmap_take.
Qed.

(** While no one writes to a key, the keyring of references does what the
    keyring of values does: [AddKey], [UseKey] and [RemoveKey] fail in the
    same cases with the same error and else give the same keys, and [GetKeys]
    and [GetPrimaryKey] return the same keys. *)
Theorem keyring_of_references h r k :
  ring_valid h r -> valid h k ->
  sum_map id (fun rh => ringOf rh.2 rh.1) (AddKeyAt h r k) = AddKey (ringOf h r) (bytesOf h k) /\
  sum_map id (fun rh => ringOf rh.2 rh.1) (UseKeyAt h r k) = UseKey (ringOf h r) (bytesOf h k) /\
  outcome_map (sum_map id (ringOf h)) (RemoveKeyAt h r k) = RemoveKey (ringOf h r) (bytesOf h k) /\
  (let '(ks, h') := GetKeysAt h r in bytesOf h' <$> ks) = GetKeys (ringOf h r) /\
  (let '(p, h') := GetPrimaryKeyAt h r in bytesOf h' <$> p) = GetPrimaryKey (ringOf h r).
Proof.
  intros Hr Hk. pose proof Hr as [Hp Hks]%Forall_app. split_and!.
  - unfold AddKeyAt, AddKey. rewrite existsb_bytesOf. simpl.
    destruct (negb _); [done|]. destruct (existsb _ _); [done|].
    destruct (copyBytes_eq h k) as [a ->]. simpl. f_equal.
    pose proof (ringOf_app h a r Hr) as [= H1 H2]. unfold ringOf. simpl.
    by rewrite H1, fmap_app, H2, <- (bytesOf_app h a k).
  - unfold UseKeyAt, UseKey. rewrite existsb_bytesOf. simpl. destruct (existsb _ _); [|done].
    destruct (copyBytes_eq h k) as [a ->]. simpl. f_equal. unfold ringOf. simpl.
    by rewrite map_bytesOf_app, bytesOf_app.
  - unfold RemoveKeyAt, RemoveKey. simpl. destruct (bytesEqual _ _); [done|].
    rewrite length_fmap, <- removeLoopAt_values.
    by destruct (removeLoopAt _ _ _ _ _ _ _) as [[ks []]| |].
  - unfold GetKeysAt, GetKeys. simpl. destruct (o_primary r) as [p|]; [|done]. simpl.
    apply Forall_cons in Hp as [Hp _]. destruct (copyBytes_eq h p) as [a ->].
    destruct (otherKeys_values p (o_keys r) (h ++ [a])) as (cs & h' & -> & Hcs & Hs);
      [by apply valid_app|eapply Forall_impl; [exact Hks|]; intros ?; apply valid_app|].
    rewrite fmap_cons, Hcs, map_bytesOf_app, bytesOf_app by done. f_equal.
    destruct (Hs p) as [_ ->]; [by apply valid_app|]. by apply bytesOf_app.
  - unfold GetPrimaryKeyAt, GetPrimaryKey. simpl. destruct (o_primary r) as [p|]; [|done].
    apply Forall_cons in Hp as [Hp _]. destruct (copyBytes_eq h p) as [a ->]. simpl.
    by rewrite bytesOf_app.
Qed.

(** The keyring does not own its keys. After [NewKeyring] with a primary
    key, a byte that the caller writes to its own slice, as one does to wipe
    a secret from memory, is written to the primary key and to the installed
    key, and later messages are encrypted with it. *)
Theorem secret_key_shared h k i b :
  valid h k -> ValidateKey (bytesOf h k) = true -> (i < slen k)%nat ->
  let key := bytesOf h k in
  let key' := <[i := b]> key in
  exists r h1 h2, NewKeyringAt h [] (Some k) = inr (r, h1) /\
    ringOf h1 r = mkKeyring (Some key) [key] /\
    write h1 k i b = Ret h2 /\ ringOf h2 r = mkKeyring (Some key') [key'].
Proof.
  intros Hv Hk Hi key key'. unfold NewKeyringAt, AddKeyAt. rewrite Hk. simpl.
  destruct (copyBytes_eq h k) as [a ->]. unfold UseKeyAt. simpl.
  rewrite bytesEqual_refl. simpl. destruct (copyBytes_eq (h ++ [a]) k) as [a' ->].
  pose proof (valid_app h a k Hv) as Hv1. pose proof (valid_app _ a' k Hv1) as Hv2.
  destruct (write_bytesOf _ k i b Hv2 Hi) as (h2 & E & Hb & _).
  rewrite !bytesOf_app in Hb by done.
  eexists _, _, h2. split_and!; [done| |exact E|]; unfold ringOf; simpl.
  - by rewrite !bytesOf_app.
  - by rewrite Hb.
Qed.

Lemma AddKeyAt_fresh h r k :
  ValidateKey (bytesOf h k) = true -> Forall (fun k' => bytesOf h k <> bytesOf h k') (o_keys r) ->
  exists a, AddKeyAt h r k = inr (mkRing (o_primary r) (o_keys r ++ [k]), h ++ [a]).
Proof.
  intros Hk Hnew. unfold AddKeyAt. rewrite Hk. simpl.
  replace (existsb _ (o_keys r)) with false.
  - destruct (copyBytes_eq h k) as [a ->]. by exists a.
  - symmetry. induction Hnew as [|k' ks Hne _ IH]; simpl; [done|]. rewrite IH, orb_false_r.
    by apply bool_decide_eq_false_2.
Qed.

(** The caller clears [n] bytes of its slice. *)
Fixpoint wipe h s (n : nat) : outcome Heap :=
  match n with
  | O => Ret h
  | S n => let! h := write h s n x00 in wipe h s n
  end.

Lemma wipe_bytesOf s n : forall h, valid h s -> (n <= slen s)%nat ->
  exists h', wipe h s n = Ret h' /\ valid h' s /\
    bytesOf h' s = replicate n x00 ++ drop n (bytesOf h s) /\
    (forall s', arr s' <> arr s -> (valid h s' -> valid h' s') /\ bytesOf h' s' = bytesOf h s').
Proof.
  induction n as [|n IH]; intros h Hv Hn; cbn [wipe]; [by exists h|].
  destruct (write_bytesOf h s n x00 Hv ltac:(lia)) as (h1 & E & Hb & Ho). rewrite E. cbn [obind].
  unfold write in E. rewrite (proj2 (Nat.ltb_lt _ _)) in E by lia. injection E as <-.
  destruct (IH (alter (fun a => <[(off s + n)%nat:=x00]> a) (arr s) h)) as (h2 & -> & Hv2 & Hb2 & Ho2); [|lia|].
  { destruct Hv as (a & Ha & Hl). eexists. rewrite list_lookup_alter_eq, Ha. split; [done|].
    by rewrite length_insert. }
  exists h2. split_and!; [done..| |].
  - rewrite Hb2, Hb, replicate_S_end, <- app_assoc. f_equal.
    pose proof (length_bytesOf h s Hv) as Hlen.
    rewrite (drop_S _ x00 n) by (rewrite list_lookup_insert_eq; [done|lia]).
    rewrite drop_insert_lt by lia. done.
  - intros s' Hs. destruct (Ho2 s' Hs) as [Hv' ->]. split; [|by apply Ho].
    intros (a & Ha & Hl). apply Hv'. exists a. by rewrite list_lookup_alter_ne.
Qed.

Lemma wipe_all h s :
  valid h s -> exists h', wipe h s (slen s) = Ret h' /\ bytesOf h' s = replicate (slen s) x00 /\
    (forall s', arr s' <> arr s -> (valid h s' -> valid h' s') /\ bytesOf h' s' = bytesOf h s').
Proof.
  intros Hv. destruct (wipe_bytesOf s (slen s) h Hv (le_n _)) as (h' & E & _ & Hb & Ho).
  exists h'. split_and!; [done| |done]. rewrite Hb, drop_ge, app_nil_r; [done|]. by rewrite length_bytesOf.
Qed.

(** [NewKeyring] with a primary key and two others keeps the slices. *)
Lemma NewKeyringAt_three h p k1 k2 :
  valid h p -> valid h k1 -> valid h k2 ->
  forallb (fun s => ValidateKey (bytesOf h s)) [p; k1; k2] = true ->
  NoDup (bytesOf h <$> [p; k1; k2]) ->
  exists h1, NewKeyringAt h [k1; k2] (Some p) = inr (mkRing (Some p) [p; k1; k2], h1) /\
    forall s, valid h s -> valid h1 s /\ bytesOf h1 s = bytesOf h s.
Proof.
  intros Hvp Hv1 Hv2 Hval Hnd. simpl in Hval, Hnd.
  apply andb_true_iff in Hval as [Hkp Hval]. apply andb_true_iff in Hval as [Hk1 Hval].
  apply andb_true_iff in Hval as [Hk2 _].
  apply NoDup_cons in Hnd as [Hnp Hnd]. apply NoDup_cons in Hnd as [Hn1 _].
  destruct (AddKeyAt_fresh h (mkRing None []) p Hkp) as [a0 E0]; [constructor|].
  destruct (copyBytes_eq (h ++ [a0]) p) as [a1 E1]. set (hb := (h ++ [a0]) ++ [a1]) in *.
  assert (forall s, valid h s -> valid hb s /\ bytesOf hb s = bytesOf h s) as Hb.
  { intros s Hs. unfold hb. rewrite !bytesOf_app by auto using valid_app. auto using valid_app. }
  destruct (Hb p Hvp) as [Hvpb Hpb], (Hb k1 Hv1) as [Hv1b H1b], (Hb k2 Hv2) as [Hv2b H2b].
  destruct (AddKeyAt_fresh hb (mkRing (Some p) [p]) k1) as [a2 E2]; [by rewrite H1b| |].
  { constructor; [|done]. rewrite H1b, Hpb. set_solver. }
  destruct (AddKeyAt_fresh (hb ++ [a2]) (mkRing (Some p) [p; k1]) k2) as [a3 E3]; rewrite ?bytesOf_app by done.
  { by rewrite H2b. }
  { repeat constructor; rewrite !bytesOf_app, ?H2b, ?H1b, ?Hpb by done; set_solver. }
  exists ((hb ++ [a2]) ++ [a3]). split.
  - unfold NewKeyringAt. rewrite E0. unfold UseKeyAt. simpl. rewrite bytesEqual_refl. simpl. rewrite E1. simpl.
    rewrite E2. simpl. by rewrite E3.
  - intros s Hs. destruct (Hb s Hs) as [Hvs <-]. rewrite !bytesOf_app by auto using valid_app.
    auto using valid_app.
Qed.

(** Keys that a caller has wiped can not be removed any more. With a primary
    key and two others installed, the caller clears its two slices; the
    installed keys are then equal, which [AddKey] would not have allowed, and
    [RemoveKey] slices beyond the end of the list and panics. *)
Theorem wiped_keys_panic h p k1 k2 :
  valid h p -> valid h k1 -> valid h k2 -> slen k1 = slen k2 ->
  arr p <> arr k1 -> arr p <> arr k2 -> arr k1 <> arr k2 ->
  forallb (fun s => ValidateKey (bytesOf h s)) [p; k1; k2] = true ->
  NoDup (bytesOf h <$> [p; k1; k2]) -> bytesOf h p <> replicate (slen k1) x00 ->
  exists r h1 h2 h3, NewKeyringAt h [k1; k2] (Some p) = inr (r, h1) /\
    ringOf h1 r = mkKeyring (Some (bytesOf h p)) (bytesOf h <$> [p; k1; k2]) /\
    wipe h1 k1 (slen k1) = Ret h2 /\ wipe h2 k2 (slen k2) = Ret h3 /\
    RemoveKeyAt h3 r k1 = Panic.
Proof.
  intros Hvp Hv1 Hv2 Hlen Hp1 Hp2 H12 Hval Hnd Hnz.
  destruct (NewKeyringAt_three h p k1 k2) as (h1 & Enew & Hb1); [done..|].
  destruct (Hb1 p Hvp) as [Hvp1 Hpb], (Hb1 k1 Hv1) as [Hv11 H11], (Hb1 k2 Hv2) as [Hv21 H21].
  destruct (wipe_all h1 k1 Hv11) as (h2 & Ew1 & Hw1 & Ho1). destruct (Ho1 k2) as [Hv22 _]; [done|].
  destruct (wipe_all h2 k2 (Hv22 Hv21)) as (h3 & Ew2 & Hw2 & Ho2).
  exists (mkRing (Some p) [p; k1; k2]), h1, h2, h3. split_and!; try done.
  { unfold ringOf. simpl. by rewrite Hpb, H11, H21. }
  assert (bytesOf h3 k1 = replicate (slen k1) x00) as E1 by (rewrite (proj2 (Ho2 k1 H12)); done).
  assert (bytesOf h3 k2 = replicate (slen k1) x00) as E2 by (by rewrite Hw2, Hlen).
  assert (bytesEqual (replicate (slen k1) x00) (bytesOf h3 p) = false) as Ep.
  { apply bool_decide_eq_false_2. rewrite (proj2 (Ho2 p Hp2)), (proj2 (Ho1 p Hp1)), Hpb. congruence. }
  unfold RemoveKeyAt. simpl. rewrite E1, E2, Ep, bytesEqual_refl. reflexivity.
Qed.

(** A clone of a node has the values of the node, but not slices of its
    own: what the receiver of a clone, the user of [Members] or of an event
    for instance, writes to its tags is written to the tags of the node in
    the member list. Its other fields, and nodes with other arrays, do not
    change. *)
Theorem clone_shares h n i b :
  valid h (o_IP (o_Node n)) -> valid h (o_Tags (o_Node n)) ->
  arr (o_IP (o_Node n)) <> arr (o_Tags (o_Node n)) -> (i < slen (o_Tags (o_Node n)))%nat ->
  let nd := node (nodeStateOf h n) in
  exists c h1 h2, nodeState_Clone h n = (c, h1) /\
    nodeStateOf h1 c = nodeStateOf h n /\ nodeStateOf h1 n = nodeStateOf h n /\
    write h1 (o_Tags (o_Node c)) i b = Ret h2 /\
    nodeStateOf h2 n
      = mkNodeState (mkNode (ID nd) (IP nd) (Port nd) (<[i := b]> (Tags nd)))
          (o_Lives n) (o_State n) (o_StateChange n).
Proof.
  destruct n as [[id sip port tags] lives st ch]. simpl. intros Hip Ht Hne Hi.
  unfold nodeState_Clone, Node_Clone. simpl.
  destruct (copyBytes_eq h sip) as [a ->], (copyBytes_eq (h ++ [a]) tags) as [a' ->].
  assert (forall s, valid h s -> bytesOf ((h ++ [a]) ++ [a']) s = bytesOf h s) as Hb.
  { intros s Hs. rewrite !bytesOf_app; auto using valid_app. }
  destruct (write_bytesOf ((h ++ [a]) ++ [a']) tags i b) as (h2 & E & Hw & Ho);
    [auto using valid_app|done|].
  eexists _, _, h2. unfold nodeStateOf, nodeOf. simpl.
  split_and!; [done|by rewrite !Hb..|exact E|]. by rewrite Hw, (Ho sip), !Hb.
Qed.

#[local] Transparent copyBytes.

(** ** Examples *)

Definition exKey : list byte := replicate 16 x61.
Definition exHeap : Heap := [exKey; [x0a; x00; x00; x01]; [x74; x61; x67]].
Definition exKeySlice : slice := mkSlice 0 0 16.
Definition exNodeObj : nodeStateObj :=
  mkNodeStateObj (mkNodeObj "n1" (mkSlice 1 0 4) 7946 (mkSlice 2 0 3)) 1 StateAlive 0.

Lemma valid_exKey : valid exHeap exKeySlice.
Proof. exists exKey. split; [reflexivity|]. simpl. lia. Qed.

Lemma keyring_of_references_witness :
  sum_map id (fun rh => ringOf rh.2 rh.1) (AddKeyAt exHeap (mkRing None []) exKeySlice)
  = inr (mkKeyring None [exKey]).
Proof.
  destruct (keyring_of_references exHeap (mkRing None []) exKeySlice) as [H _].
  - constructor.
  - exact valid_exKey.
  - rewrite H. reflexivity.
Defined.

Lemma secret_key_shared_witness :
  exists r h1 h2, NewKeyringAt exHeap [] (Some exKeySlice) = inr (r, h1) /\
    write h1 exKeySlice 0 x00 = Ret h2 /\
    primaryKey (ringOf h2 r) = Some (x00 :: replicate 15 x61).
Proof.
  destruct (secret_key_shared exHeap exKeySlice 0 x00 valid_exKey)
    as (r & h1 & h2 & E1 & _ & E2 & E3); [reflexivity|simpl; lia|].
  exists r, h1, h2. split; [exact E1|]. split; [exact E2|]. rewrite E3. reflexivity.
Defined.

Lemma clone_shares_witness :
  exists c h1 h2, nodeState_Clone exHeap exNodeObj = (c, h1) /\
    write h1 (o_Tags (o_Node c)) 0 x00 = Ret h2 /\
    Tags (node (nodeStateOf h2 exNodeObj)) = [x00; x61; x67].
Proof.
  destruct (clone_shares exHeap exNodeObj 0 x00) as (c & h1 & h2 & E1 & _ & _ & E2 & E3).
  - exists [x0a; x00; x00; x01]. split; [reflexivity|]. simpl. lia.
  - exists [x74; x61; x67]. split; [reflexivity|]. simpl. lia.
  - discriminate.
  - simpl. lia.
  - exists c, h1, h2. split; [exact E1|]. split; [exact E2|]. rewrite E3. reflexivity.
Defined.

Definition wipeHeap : Heap := [replicate 16 x01; replicate 16 x02; replicate 16 x03].

Lemma wiped_keys_panic_witness :
  exists r h1 h2 h3,
    NewKeyringAt wipeHeap [mkSlice 1 0 16; mkSlice 2 0 16] (Some (mkSlice 0 0 16)) = inr (r, h1) /\
    wipe h1 (mkSlice 1 0 16) 16 = Ret h2 /\ wipe h2 (mkSlice 2 0 16) 16 = Ret h3 /\
    RemoveKeyAt h3 r (mkSlice 1 0 16) = Panic.
Proof.
  destruct (wiped_keys_panic wipeHeap (mkSlice 0 0 16) (mkSlice 1 0 16) (mkSlice 2 0 16))
    as (r & h1 & h2 & h3 & E1 & _ & E2 & E3 & E4); try discriminate; try reflexivity.
  - eexists. split; [reflexivity|]. simpl. lia.
  - eexists. split; [reflexivity|]. simpl. lia.
  - eexists. split; [reflexivity|]. simpl. lia.
  - apply (bool_decide_unpack _). vm_compute. exact I.
  - exists r, h1, h2, h3. split; [exact E1|]. split; [exact E2|]. split; [exact E3|exact E4].
Defined.
