(* ===== verification/Compound.v ===== *)
(** * Compound messages ([util.go])

    Several gossip messages travel in one UDP packet:
    [compoundMsg | number of messages (1 byte) | lengths (2 bytes each) |
    messages]. *)

From S2P Require Import Prelude Types.
From Stdlib Require Import Strings.Byte.

Abbreviation bytes := (list byte).

Definition packCompoundMsg (msgs : list bytes) : bytes :=
  msgByte compoundMsg :: z2b (u8 (len msgs))
    :: concat (map (fun m => be_put 2 (u16 (len m))) msgs) ++ concat msgs.

Definition maxMsgs : nat := 255.

(** The loop consumes [maxMsgs] messages per iteration, so [length msgs]
    iterations are more than it can make. *)
Fixpoint splitLoop (fuel : nat) (msgs : list bytes) : list bytes :=
  match fuel with
  | O => []
  | S fuel =>
      if (maxMsgs <? length msgs)%nat
      then packCompoundMsg (take maxMsgs msgs) :: splitLoop fuel (drop maxMsgs msgs)
      else if (0 <? length msgs)%nat then [packCompoundMsg msgs] else []
  end.

Definition splitToCompoundMsgs (msgs : list bytes) : list bytes :=
  splitLoop (S (length msgs)) msgs.

Inductive compound_error :=
| errMissingLength      (* missing compound length byte *)
| errTruncatedLengths.  (* truncated len slice *)

(** The last loop of [unpackCompoundMsg]: the number of truncated messages
    and the messages. *)
Fixpoint splitParts (numParts idx : Z) (lengths : list Z) (msg : bytes)
    : Z * list bytes :=
  match lengths with
  | [] => (0, [])
  | l :: lengths =>
      if len msg <? l then (numParts - idx, [])
      else
        let '(trunc, msgs) :=
          splitParts numParts (idx + 1) lengths (drop (Z.to_nat l) msg) in
        (trunc, take (Z.to_nat l) msg :: msgs)
  end.

Definition unpackCompoundMsg (msg : bytes) : (Z * list bytes) orerr compound_error :=
  match msg with
  | [] => inl errMissingLength
  | n :: msg =>
      let numParts := b2z n in
      if len msg <? numParts * 2 then inl errTruncatedLengths
      else
        let lengths :=
          map (fun i => be_get (take 2 (drop (i * 2) msg)))
              (seq 0 (Z.to_nat numParts)) in
        inr (splitParts numParts 0 lengths (drop (Z.to_nat (numParts * 2)) msg))
  end.

(** ** Lemmas *)

Definition fits (m : bytes) : Prop := len m < 2 ^ 16.

Definition lengthTable (msgs : list bytes) : bytes :=
  concat (map (fun m => be_put 2 (u16 (len m))) msgs).

Lemma length_lengthTable msgs : length (lengthTable msgs) = (length msgs * 2)%nat.
Proof.
  unfold lengthTable. induction msgs as [|m msgs IH]; [done|].
  cbn [map concat length]. rewrite length_app, length_be_put. lia.
Qed.

Lemma be_get_put2 m : fits m -> be_get (be_put 2 (u16 (len m))) = len m.
Proof.
  intros Hm. unfold fits in Hm. rewrite be_get_put. unfold u16.
  rewrite Z.mod_mod by lia. apply Z.mod_small. lia.
Qed.

(** Reading the table back gives the lengths. *)
Lemma read_lengthTable msgs tl :
  Forall fits msgs ->
  map (fun i => be_get (take 2 (drop (i * 2) (lengthTable msgs ++ tl))))
      (seq 0 (length msgs))
  = map (fun m => len m) msgs.
Proof.
  induction msgs as [|m msgs IH]; intros Hf; [done|].
  apply Forall_cons in Hf as [Hm Hf].
  cbn [length seq map]. f_equal.
  - by rewrite <- (be_get_put2 m Hm).
  - rewrite <- IH, <- seq_shift, map_map by done.
    apply map_ext. intros i. done.
Qed.

Lemma splitParts_concat numParts msgs tl idx :
  splitParts numParts idx (map (fun m => len m) msgs) (concat msgs ++ tl)
  = (0, msgs).
Proof.
  revert idx. induction msgs as [|m msgs IH]; intros idx; [done|].
  cbn [map splitParts concat]. rewrite (proj2 (Z.ltb_ge _ _))
    by (rewrite !length_app; lia).
  rewrite Nat2Z.id, <- app_assoc, drop_app_length, IH, take_app_length. done.
Qed.

(** What a decoder makes of a message whose body was cut short. *)
Lemma splitParts_prefix numParts msgs body rest idx :
  numParts - idx = len msgs -> concat msgs = body ++ rest ->
  exists trunc out,
    splitParts numParts idx (map (fun m => len m) msgs) body = (trunc, out) /\
    0 <= trunc /\ trunc + len out = len msgs /\ out = take (length out) msgs.
Proof.
  revert body idx. induction msgs as [|m msgs IH]; intros body idx Hn Hc.
  { exists 0, []. done. }
  cbn [map splitParts concat] in *.
  destruct (Z.ltb_spec (len body) (len m)) as [Hlt|Hge].
  - exists (numParts - idx), []. split_and!; simpl in *; try done; lia.
  - assert (body = m ++ drop (length m) body) as Hb.
    { rewrite <- (take_drop (length m) body) at 1. f_equal.
      apply (f_equal (take (length m))) in Hc.
      rewrite take_app_length, take_app_le in Hc by lia. done. }
    rewrite Nat2Z.id.
    destruct (IH (drop (length m) body) (idx + 1)) as (trunc & out & -> & H0 & Hl & Ho).
    { cbn [length] in Hn. lia. }
    { rewrite Hb, <- app_assoc in Hc. by simplify_list_eq. }
    exists trunc, (m :: out). split_and!; [|done| |].
    + f_equal. f_equal. rewrite Hb at 1. apply take_app_length.
    + cbn [length]. lia.
    + cbn [length take]. by f_equal.
Qed.

Lemma unpack_header n body : 0 <= n < 256 ->
  unpackCompoundMsg (z2b (u8 n) :: body) =
  if len body <? n * 2 then inl errTruncatedLengths
  else inr (splitParts n 0
              (map (fun i => be_get (take 2 (drop (i * 2) body))) (seq 0 (Z.to_nat n)))
              (drop (Z.to_nat (n * 2)) body)).
Proof.
  intros Hn. unfold unpackCompoundMsg. rewrite b2z_z2b. unfold u8.
  rewrite Z.mod_mod, (Z.mod_small n) by lia. done.
Qed.

(** A decoded table followed by any body. *)
Lemma unpack_table msgs body :
  (length msgs <= maxMsgs)%nat -> Forall fits msgs ->
  unpackCompoundMsg (z2b (u8 (len msgs)) :: lengthTable msgs ++ body)
  = inr (splitParts (len msgs) 0 (map (fun m => len m) msgs) body).
Proof.
  intros Hn Hf. unfold maxMsgs in Hn. rewrite unpack_header by lia.
  rewrite (proj2 (Z.ltb_ge _ _)) by (rewrite length_app, length_lengthTable; lia).
  rewrite Nat2Z.id, read_lengthTable by done.
  rewrite drop_app_length' by (rewrite length_lengthTable; lia). done.
Qed.

Lemma unpack_pack msgs tl :
  (length msgs <= maxMsgs)%nat -> Forall fits msgs ->
  unpackCompoundMsg (tail (packCompoundMsg msgs) ++ tl) = inr (0, msgs).
Proof.
  intros Hn Hf. unfold packCompoundMsg. cbn [tail app].
  rewrite <- app_assoc. etrans; [by apply unpack_table|].
  by rewrite splitParts_concat.
Qed.

Lemma splitLoop_unpack fuel msgs :
  (length msgs < fuel)%nat -> Forall fits msgs ->
  exists parts, Forall2 (fun c p => unpackCompoundMsg (tail c) = inr (0, p))
                  (splitLoop fuel msgs) parts /\ concat parts = msgs.
Proof.
  revert msgs. induction fuel as [|fuel IH]; intros msgs Hlen Hf; [lia|].
  cbn [splitLoop]. destruct (Nat.ltb_spec maxMsgs (length msgs)) as [Hgt|Hle].
  - unfold maxMsgs in *.
    destruct (IH (drop 255 msgs)) as (parts & Hp & Hc).
    { rewrite length_drop. lia. }
    { by apply Forall_drop. }
    exists (take 255 msgs :: parts). split.
    + constructor; [|done].
      rewrite <- (app_nil_r (tail _)). apply unpack_pack.
      * rewrite length_take. unfold maxMsgs. lia.
      * by apply Forall_take.
    + cbn [concat]. rewrite Hc. apply take_drop.
  - destruct (Nat.ltb_spec 0 (length msgs)) as [Hpos|Hz].
    + exists [msgs]. split; [|cbn [concat]; apply app_nil_r].
      constructor; [|constructor].
      rewrite <- (app_nil_r (tail _)). by apply unpack_pack.
    + exists []. split; [constructor|]. destruct msgs; [done|simpl in *; lia].
Qed.

(** Whatever the bytes, the parts found and the truncated count add up to the
    announced number, and the parts are consecutive pieces of the input. *)
Lemma splitParts_total numParts idx lengths msg :
  numParts - idx = len lengths -> Forall (fun l => 0 <= l) lengths ->
  exists trunc out rest,
    splitParts numParts idx lengths msg = (trunc, out) /\
    0 <= trunc /\ trunc + len out = len lengths /\ msg = concat out ++ rest.
Proof.
  revert idx msg. induction lengths as [|l lengths IH]; intros idx msg Hn Hl.
  { by exists 0, [], msg. }
  apply Forall_cons in Hl as [Hl0 Hl]. cbn [splitParts length] in *.
  destruct (Z.ltb_spec (len msg) l) as [Hlt|Hge].
  - exists (numParts - idx), [], msg. split_and!; simpl; try done; lia.
  - destruct (IH (idx + 1) (drop (Z.to_nat l) msg)) as (trunc & out & rest & -> & H0 & Hs & Hm).
    { lia. }
    { done. }
    exists trunc, (take (Z.to_nat l) msg :: out), rest.
    split_and!; [done|done|cbn [length]; lia|].
    cbn [concat]. by rewrite <- app_assoc, <- Hm, take_drop.
Qed.

Lemma unpack_total n msg :
  unpackCompoundMsg (n :: msg) = inl errTruncatedLengths \/
  exists trunc out rest,
    unpackCompoundMsg (n :: msg) = inr (trunc, out) /\
    0 <= trunc /\ trunc + len out = b2z n /\
    msg = take (Z.to_nat (b2z n * 2)) msg ++ concat out ++ rest.
Proof.
  pose proof (b2z_range n) as Hr. unfold unpackCompoundMsg.
  destruct (Z.ltb_spec (len msg) (b2z n * 2)) as [|Hge]; [by left|right].
  destruct (splitParts_total (b2z n) 0
    (map (fun i => be_get (take 2 (drop (i * 2) msg))) (seq 0 (Z.to_nat (b2z n))))
    (drop (Z.to_nat (b2z n * 2)) msg)) as (trunc & out & rest & -> & H0 & Hs & Hm).
  - rewrite length_map, length_seq. lia.
  - apply Forall_forall. intros x (i & -> & _)%list_elem_of_fmap. apply be_get_range.
  - exists trunc, out, rest. split_and!; [done|done| |].
    + rewrite length_map, length_seq in Hs. lia.
    + by rewrite <- Hm, take_drop.
Qed.

(** A compound message of at most 255 parts, each shorter than 65536
    bytes, is decoded to exactly the messages it was packed from. *)
Theorem compound_roundtrip msgs :
  (length msgs <= maxMsgs)%nat -> Forall fits msgs ->
  unpackCompoundMsg (tail (packCompoundMsg msgs)) = inr (0, msgs).
Proof.
  intros Hn Hf. rewrite <- (app_nil_r (tail _)). by apply unpack_pack.
Qed.

Lemma compound_roundtrip_witness :
  unpackCompoundMsg (tail (packCompoundMsg [[x05; x01]; []; [x06]]))
  = inr (0, [[x05; x01]; []; [x06]]).
Proof.
  apply compound_roundtrip; [unfold maxMsgs; simpl; lia|].
  repeat constructor.
Defined.

(** A compound message whose body was cut anywhere after its length
    table is decoded to the messages that arrived whole, in order, and the
    reported truncation is the number of the others. *)
Theorem compound_truncation msgs body rest :
  (length msgs <= maxMsgs)%nat -> Forall fits msgs ->
  concat msgs = body ++ rest ->
  exists trunc out,
    unpackCompoundMsg (z2b (u8 (len msgs)) :: lengthTable msgs ++ body)
      = inr (trunc, out) /\
    trunc + len out = len msgs /\ out = take (length out) msgs.
Proof.
  intros Hn Hf Hc. rewrite unpack_table by done.
  destruct (splitParts_prefix (len msgs) msgs body rest 0)
    as (trunc & out & -> & _ & Hs & Ho); [lia|done|].
  by exists trunc, out.
Qed.

Lemma compound_truncation_witness :
  exists trunc out,
    unpackCompoundMsg
      (z2b (u8 (len [[x05; x01]; [x06; x07]]))
         :: lengthTable [[x05; x01]; [x06; x07]] ++ [x05; x01; x06])
      = inr (trunc, out) /\
    trunc + len out = len [[x05; x01]; [x06; x07]] /\
    out = take (length out) [[x05; x01]; [x06; x07]].
Proof.
  apply (compound_truncation [[x05; x01]; [x06; x07]] [x05; x01; x06] [x07]).
  - unfold maxMsgs; simpl; lia.
  - repeat constructor.
  - reflexivity.
Defined.

(** C35: [splitToCompoundMsgs] loses nothing: decoding the packets it makes,
    one after the other, gives back the list of messages, however long. *)
Theorem splitToCompoundMsgs_roundtrip msgs :
  Forall fits msgs ->
  exists parts,
    Forall2 (fun c p => unpackCompoundMsg (tail c) = inr (0, p))
      (splitToCompoundMsgs msgs) parts /\ concat parts = msgs.
Proof. intros Hf. apply splitLoop_unpack; [lia|done]. Qed.

Lemma splitToCompoundMsgs_roundtrip_witness :
  exists parts,
    Forall2 (fun c p => unpackCompoundMsg (tail c) = inr (0, p))
      (splitToCompoundMsgs (replicate 300 [x04])) parts /\
    concat parts = replicate 300 [x04].
Proof.
  apply splitToCompoundMsgs_roundtrip. apply Forall_replicate.
  unfold fits. simpl. lia.
Defined.

(** The decoder copes with arbitrary bytes: it reports a missing or
    truncated header, or its parts and its truncation count add up to the
    announced number and the parts are consecutive pieces of the input that
    follow the length table. *)
Theorem unpackCompoundMsg_total msg :
  (msg = [] /\ unpackCompoundMsg msg = inl errMissingLength) \/
  exists n tl, msg = n :: tl /\
    (unpackCompoundMsg msg = inl errTruncatedLengths \/
     exists trunc out rest,
       unpackCompoundMsg msg = inr (trunc, out) /\
       0 <= trunc /\ trunc + len out = b2z n /\
       tl = take (Z.to_nat (b2z n * 2)) tl ++ concat out ++ rest).
Proof.
  destruct msg as [|n tl]; [by left|right]. exists n, tl.
  split; [done|apply unpack_total].
Qed.

(** [packCompoundMsg] writes the number of messages in one byte. With
    256 messages or more, which [sendMsgPiggyback] does not split, a receiver
    finds strictly fewer messages than were sent and no error that tells. *)
Theorem packCompoundMsg_overflow msgs trunc out :
  (maxMsgs < length msgs)%nat ->
  unpackCompoundMsg (tail (packCompoundMsg msgs)) = inr (trunc, out) ->
  trunc + len out < len msgs.
Proof.
  intros Hn Hu. unfold maxMsgs in Hn. unfold packCompoundMsg in Hu. cbn [tail] in Hu.
  destruct (unpack_total (z2b (u8 (len msgs)))
    (concat (map (fun m => be_put 2 (u16 (len m))) msgs) ++ concat msgs))
    as [E|(t & o & r & E & H0 & Hs & _)]; rewrite E in Hu; [done|].
  simplify_eq. rewrite Hs, b2z_z2b. pose proof (Z.mod_pos_bound (u8 (len msgs)) (2 ^ 8)).
  unfold u8 in *. lia.
Qed.

Lemma packCompoundMsg_overflow_witness :
  0 + len (@nil bytes) < len (replicate 256 [x09]).
Proof.
  apply (packCompoundMsg_overflow (replicate 256 [x09])).
  - unfold maxMsgs. rewrite length_replicate. lia.
  - vm_compute. reflexivity.
Defined.
