(* ===== verification/Suspicion.v ===== *)
(** * Suspicions ([suspicion.go], [minSuspicionTimeout] of [util.go])

    A suspected node is declared dead when a timer fires. The timer starts
    at a maximal timeout; each confirmation by another node shortens it,
    down to a minimal timeout when enough nodes have confirmed. *)

From S2P Require Import Prelude GoMath.

(** A [time.AfterFunc] timer: armed with the instant at which it will fire,
    or no longer active (stopped, or fired). *)
Inductive timer := Armed (deadline : Z) | Inactive.

#[global] Instance timer_eq_dec : EqDecision timer.
Proof. solve_decision. Defined.

(** [about] and [atLives] are what the closure [timeoutFn] captures: the node
    that was suspected and its [Lives] at that moment. *)
Record suspicion := mkSuspicion {
  minTimeout : Z;
  maxTimeout : Z;
  confirmCap : Z;
  confirmMap : gset string;
  start : Z;
  timerS : timer;
  about : string;
  atLives : Z
}.

Definition confirms (s : suspicion) : Z := Z.of_nat (size (confirmMap s)).

Definition newSuspicion (minTimeout maxTimeout confirmCap : Z) (from : string)
    (about : string) (atLives : Z) (now : Z) : suspicion :=
  let timeout := if confirmCap <=? 1 then minTimeout else maxTimeout in
  mkSuspicion minTimeout maxTimeout confirmCap {[ from ]} now
    (Armed (now + timeout)) about atLives.

(** The timeout for a number of confirmations: logarithmic between the
    maximum (one, the first suspecter) and the minimum, in whole
    milliseconds. *)
Definition interpolate (minT maxT cap confirms : Z) : Z :=
  let f := f64.div (f64.Log (f64.of_Z confirms)) (f64.Log (f64.of_Z cap)) in
  let maxMinDiff := f64.sub (f64.Seconds maxT) (f64.Seconds minT) in
  let sec := f64.sub (f64.Seconds maxT) (f64.mul f maxMinDiff) in
  i64 (f64.floor (f64.mul (f64.of_Z 1000) sec) * 1000000).

Definition timeoutFor (s : suspicion) : Z :=
  if confirmCap s <=? confirms s then minTimeout s
  else interpolate (minTimeout s) (maxTimeout s) (confirmCap s) (confirms s).

(** Durations are [int64] numbers of nanoseconds; here they are unbounded, which
    is the same for clock readings less than 292 years apart. *)
Definition remainingTime (s : suspicion) (now : Z) : Z :=
  let elapsed := now - start s in
  timeoutFor s - elapsed.

Definition with_confirm (from : string) (s : suspicion) : suspicion :=
  mkSuspicion (minTimeout s) (maxTimeout s) (confirmCap s)
    ({[ from ]} ∪ confirmMap s) (start s) (timerS s) (about s) (atLives s).

Definition with_timer (t : timer) (s : suspicion) : suspicion :=
  mkSuspicion (minTimeout s) (maxTimeout s) (confirmCap s) (confirmMap s)
    (start s) t (about s) (atLives s).

(** [Confirm]: the new state, whether the confirmation is new information,
    and whether [timeoutFn] was started in a goroutine of its own. *)
Definition Confirm (s : suspicion) (from : string) (now : Z)
    : suspicion * bool * bool :=
  if confirmCap s <=? confirms s then (s, false, false)
  else if bool_decide (from ∈ confirmMap s) then (s, false, false)
  else
    let s := with_confirm from s in
    let remaining := remainingTime s now in
    match timerS s with
    | Armed _ =>
        if 0 <? remaining
        then (with_timer (Armed (now + remaining)) s, true, false)
        else (with_timer Inactive s, true, true)
    | Inactive => (s, true, false)
    end.

(** [minSuspicionTimeout]. *)
Definition nodeScale1000 (n : Z) : Z :=
  let nodeScale :=
    f64.max (f64.of_Z 1) (f64.Log10 (f64.max (f64.of_Z 1) (f64.of_Z n))) in
  f64.trunc (f64.mul nodeScale (f64.of_Z 1000)).

Definition minSuspicionTimeout (scale n interval : Z) : Z :=
  Z.quot (i64 (i64 (scale * interval) * nodeScale1000 n)) 1000.

Example minSuspicionTimeout_100 :
  minSuspicionTimeout 4 100 1100000000 = 2 * 4 * 1100000000.
Proof. vm_compute. reflexivity. Qed.

(** The values of the program's own tests. *)
Example interpolate_tests :
  map (interpolate 2000000000 30000000000 4) [1; 2; 3]
  = [30000000000; 16000000000; 7810000000].
Proof. vm_compute. reflexivity. Qed.

(** ** Confirmations *)

Lemma confirms_with_confirm from s :
  from ∉ confirmMap s -> confirms (with_confirm from s) = confirms s + 1.
Proof.
  intros Hf. unfold confirms, with_confirm; simpl.
  rewrite size_union by set_solver. rewrite size_singleton. lia.
Qed.

Lemma timeoutFor_with_timer t s : timeoutFor (with_timer t s) = timeoutFor s.
Proof. done. Qed.

(** The events in the life of a suspicion: a confirmation, or the expiry of
    the timer. The flag of a step says that [timeoutFn] was started. *)
Inductive susp_event := EvConfirm (from : string) (now : Z) | EvExpire (now : Z).

Definition expire (s : suspicion) (now : Z) : suspicion * bool :=
  match timerS s with
  | Armed d => if d <=? now then (with_timer Inactive s, true) else (s, false)
  | Inactive => (s, false)
  end.

Definition susp_step (s : suspicion) (ev : susp_event) : suspicion * bool :=
  match ev with
  | EvConfirm from now => let '(s, _, started) := Confirm s from now in (s, started)
  | EvExpire now => expire s now
  end.

Fixpoint susp_run (s : suspicion) (evs : list susp_event) : suspicion * nat :=
  match evs with
  | [] => (s, 0%nat)
  | ev :: evs =>
      let '(s, started) := susp_step s ev in
      let '(s, n) := susp_run s evs in
      (s, ((if started then 1 else 0) + n)%nat)
  end.

Definition armed (s : suspicion) : nat :=
  match timerS s with Armed _ => 1 | Inactive => 0 end.

Lemma susp_step_armed s ev s' started :
  susp_step s ev = (s', started) ->
  (armed s' + (if started then 1 else 0) = armed s)%nat.
Proof.
  unfold armed. destruct ev as [from now|now]; simpl.
  - destruct (Confirm s from now) as [[s1 b] st] eqn:E. intros [= <- <-].
    unfold Confirm in E. simpl in E.
    destruct (timerS s) eqn:Et; repeat case_match; simplify_eq/=; congruence.
  - unfold expire. intros E.
    destruct (timerS s) eqn:Et; repeat case_match; simplify_eq/=; congruence.
Qed.

Lemma susp_run_armed evs s s' n :
  susp_run s evs = (s', n) -> (armed s' + n = armed s)%nat.
Proof.
  revert s n. induction evs as [|ev evs IH]; intros s n; simpl.
  - intros [= <- <-]. lia.
  - destruct (susp_step s ev) as [s1 st] eqn:E1.
    destruct (susp_run s1 evs) as [s2 k] eqn:E2. intros [= <- <-].
    apply susp_step_armed in E1. apply IH in E2. lia.
Qed.

(** Whatever confirmations and expiries follow the creation of a
    suspicion, in any order and at any time, its [timeoutFn] is started at
    most once, and exactly once as soon as the timer is no longer armed. *)
Theorem timeoutFn_at_most_once minT maxT cap from about lives now evs s n :
  susp_run (newSuspicion minT maxT cap from about lives now) evs = (s, n) ->
  (n <= 1)%nat /\ (n = 1%nat <-> timerS s = Inactive).
Proof.
  intros H%susp_run_armed. unfold armed in H at 2. simpl in H.
  unfold armed in H. destruct (timerS s); split; try split; intros; lia || done.
Qed.

Lemma timeoutFn_at_most_once_witness :
  let '(s, n) :=
    susp_run (newSuspicion 500000000 2000000000 4 "me" "n" 3 0)
      [EvConfirm "foo" 10; EvConfirm "foo" 20; EvConfirm "bar" 900000000;
       EvExpire 1000000000; EvConfirm "baz" 1100000000] in
  (n <= 1)%nat /\ (n = 1%nat <-> timerS s = Inactive).
Proof.
  destruct (susp_run _ _) as [s n] eqn:E.
  exact (timeoutFn_at_most_once 500000000 2000000000 4 "me" "n" 3 0
    [EvConfirm "foo" 10; EvConfirm "foo" 20; EvConfirm "bar" 900000000;
     EvExpire 1000000000; EvConfirm "baz" 1100000000] s n E).
Defined.

(** C28: [Confirm] accepts a confirmation exactly when the cap is not
    reached and the node has not confirmed before; it then counts one more,
    and an armed timer is moved to [start + timeout] for the new count, a time
    that does not depend on when the confirmation came, or, if that time has
    passed, replaced by an immediate start of [timeoutFn]. With the cap
    reached that time is [start + minTimeout]. A refused confirmation changes
    nothing. *)
Theorem Confirm_spec s from now s' ok started :
  Confirm s from now = (s', ok, started) ->
  (ok = true <-> confirms s < confirmCap s /\ from ∉ confirmMap s) /\
  (ok = false -> s' = s /\ started = false) /\
  (ok = true ->
     confirmMap s' = {[ from ]} ∪ confirmMap s /\
     confirms s' = confirms s + 1 /\
     (confirms s' = confirmCap s -> timeoutFor s' = minTimeout s) /\
     let deadline := start s + timeoutFor s' in
     match timerS s with
     | Inactive => timerS s' = Inactive /\ started = false
     | Armed _ =>
         (now < deadline /\ timerS s' = Armed deadline /\ started = false) \/
         (deadline <= now /\ timerS s' = Inactive /\ started = true)
     end).
Proof.
  unfold Confirm.
  destruct (Z.leb_spec (confirmCap s) (confirms s)) as [Hcap|Hcap].
  { intros [= <- <- <-]. split_and!; naive_solver lia. }
  case_bool_decide as Hin.
  { intros [= <- <- <-]. split_and!; naive_solver. }
  pose proof (confirms_with_confirm from s Hin) as Hc.
  set (s1 := with_confirm from s) in *.
  assert (confirms s1 = confirmCap s -> timeoutFor s1 = minTimeout s) as Hmin.
  { intros E. unfold timeoutFor. rewrite E. simpl. by rewrite Z.leb_refl. }
  assert (forall t, timeoutFor (with_timer t s1) = timeoutFor s1) as Ht by done.
  assert (remainingTime s1 now = start s + timeoutFor s1 - now) as Hr
    by (unfold remainingTime; simpl; lia).
  change (timerS s1) with (timerS s). rewrite Hr.
  destruct (timerS s) as [d|] eqn:Et.
  - destruct (Z.ltb_spec 0 (start s + timeoutFor s1 - now)) as [Hpos|Hneg];
      intros [= <- <- <-]; split_and!; try done; intros _; split_and!; try done.
    + left. rewrite Ht. split_and!; [lia| |done]. simpl. f_equal. lia.
    + right. rewrite Ht. split_and!; [lia|done|done].
  - intros [= <- <- <-]. split_and!; try done; intros _; split_and!; try done.
Qed.

Lemma Confirm_spec_witness :
  let s := newSuspicion 500000000 2000000000 2 "me" "n" 3 0 in
  Confirm s "foo" 100
    = (with_timer (Armed 500000000) (with_confirm "foo" s), true, false) ∧
  confirms (with_confirm "foo" s) = confirms s + 1.
Proof.
  assert (Confirm (newSuspicion 500000000 2000000000 2 "me" "n" 3 0) "foo" 100
    = (with_timer (Armed 500000000)
         (with_confirm "foo" (newSuspicion 500000000 2000000000 2 "me" "n" 3 0)),
       true, false)) as E by (vm_compute; reflexivity).
  split; [exact E|].
  destruct (Confirm_spec _ _ _ _ _ _ E) as (_ & _ & H).
  destruct (H eq_refl) as (_ & Hc & _). exact Hc.
Defined.

(** ** Numbers *)

Definition nodeScale_check (n : Z) : bool :=
  let x := nodeScale1000 n in
  (1000 <=? x) && (x <=? 3011) && (x <=? nodeScale1000 (n + 1))
    && implb (n <=? 10) (x =? 1000).

Lemma nodeScale_check_ok n : 1 <= n <= 1024 -> nodeScale_check n = true.
Proof. intros H. apply (seqZ_forallb _ 1 1024); [vm_compute; reflexivity|lia]. Qed.

Lemma nodeScale1000_bounds n :
  1 <= n <= 1024 ->
  1000 <= nodeScale1000 n <= 3011 /\ nodeScale1000 n <= nodeScale1000 (n + 1) /\
  (n <= 10 -> nodeScale1000 n = 1000).
Proof.
  intros Hn%nodeScale_check_ok. unfold nodeScale_check in Hn.
  rewrite !andb_true_iff, !Z.leb_le in Hn.
  destruct Hn as [[[H1 H2] H3] H4]. split_and!; try done.
  intros Hn%Z.leb_le. rewrite Hn in H4. by apply Z.eqb_eq.
Qed.

(** The minimal suspicion timeout of a cluster of up to 1024 nodes is
    between one and 3.011 times [scale * interval], is exactly
    [scale * interval] up to ten nodes, and does not decrease as the cluster
    grows, as long as the products fit 64 bits. *)
Theorem minSuspicionTimeout_bounds scale n interval :
  1 <= n <= 1024 -> 0 <= scale -> 0 <= interval ->
  scale * interval * 3100 < 2 ^ 63 ->
  let t := minSuspicionTimeout scale n interval in
  scale * interval <= t <= scale * interval * 3011 / 1000 /\
  (n <= 10 -> t = scale * interval) /\
  (n < 1024 -> t <= minSuspicionTimeout scale (n + 1) interval).
Proof.
  intros Hn Hs Hi Hov t. unfold t, minSuspicionTimeout.
  set (p := scale * interval) in *. assert (0 <= p) by (unfold p; nia).
  rewrite (i64_small p) by lia.
  destruct (nodeScale1000_bounds n Hn) as (Hx & Hmono & Hsmall).
  rewrite (i64_small (p * nodeScale1000 n)) by nia.
  rewrite Z.quot_div_nonneg by nia. split_and!.
  - apply Z.div_le_lower_bound; nia.
  - apply Z.div_le_mono; nia.
  - intros Hle. rewrite Hsmall by done. by rewrite Z.div_mul by lia.
  - intros Hlt. destruct (nodeScale1000_bounds (n + 1)) as (Hx' & _ & _); [lia|].
    rewrite i64_small by nia. rewrite Z.quot_div_nonneg by nia.
    apply Z.div_le_mono; nia.
Qed.

Lemma minSuspicionTimeout_bounds_witness :
  let t := minSuspicionTimeout 4 100 1100000000 in
  4 * 1100000000 <= t <= 4 * 1100000000 * 3011 / 1000 /\
  (100 <= 10 -> t = 4 * 1100000000) /\
  (100 < 1024 -> t <= minSuspicionTimeout 4 (100 + 1) 1100000000).
Proof. apply (minSuspicionTimeout_bounds 4 100 1100000000); lia. Defined.
