(* ===== verification/Interfaces.v ===== *)
(** * Interfaces to code outside the repository

    Two third-party packages take part in the modelled behaviour and are not
    part of the repository: the MessagePack codec
    ([hashicorp/go-msgpack]) and the indexed priority queue ([mbver/heap]).
    Each is a type class of operations with a second class of the laws that
    the program relies on; every result that needs a law has it as an explicit
    hypothesis. The concrete instances at the end show that the laws can be
    met and let examples run. *)

From S2P Require Import Prelude Types.
From Stdlib Require Import Strings.Byte.

(** ** The MessagePack codec *)

Inductive kind :=
| KAlive | KSuspect | KDead | KPing | KAck | KIndirectPing | KIndirectAck
| KErrResp | KHeader | KState | KCompressed.

Definition kind_of (p : payload) : kind :=
  match p with
  | PAlive _ => KAlive | PSuspect _ => KSuspect | PDead _ => KDead
  | PPing _ => KPing | PAck _ => KAck | PIndirectPing _ => KIndirectPing
  | PIndirectAck _ => KIndirectAck | PErrResp _ => KErrResp
  | PHeader _ => KHeader | PState _ => KState | PCompressed _ => KCompressed
  end.

(** [enc p] is what [Encoder.Encode] appends to its buffer, [None] an
    encoding error. [dec k b] is [Decoder.Decode] into a variable of type [k]:
    the value and the bytes it leaves unread. *)
Class Codec := {
  enc : payload -> option (list byte);
  dec : kind -> list byte -> option (payload * list byte)
}.

(** The values the Go types of a payload can hold. *)
Definition is_u32 (z : Z) : bool := (0 <=? z) && (z <? 2 ^ 32).
Definition is_u16 (z : Z) : bool := (0 <=? z) && (z <? 2 ^ 16).
Definition is_int (z : Z) : bool := (- 2 ^ 63 <=? z) && (z <? 2 ^ 63).

Definition in_range (p : payload) : bool :=
  match p with
  | PAlive a => is_u32 (a_Lives a) && is_u16 (a_Port a)
  | PSuspect s => is_u32 (s_Lives s)
  | PDead d => is_u32 (d_Lives d)
  | PPing p => is_u32 (p_SeqNo p) && is_u16 (p_SourcePort p)
  | PAck a => is_u32 (k_SeqNo a)
  | PIndirectPing i => is_u32 (i_SeqNo i) && is_u16 (i_Port i) && is_u16 (i_SourcePort i)
  | PIndirectAck i => is_u32 (ia_SeqNo i)
  | PErrResp _ => true
  | PHeader h => is_int (Nodes h) && is_int (UserStateLen h)
  | PState s => is_u32 (m_Lives s) && is_u16 (m_Port s) && is_int (m_State s)
  | PCompressed c => (0 <=? c_Algo c) && (c_Algo c <? 2 ^ 8)
  end.

Class CodecLaws (C : Codec) : Prop := {
  (** What was encoded is decoded to the same value, and the decoder stops at
      the end of the value. *)
  dec_enc p b rest : enc p = Some b -> dec (kind_of p) (b ++ rest) = Some (p, rest);
  (** The decoder fills a variable of the type it is given. *)
  dec_kind k b p rest : dec k b = Some (p, rest) -> kind_of p = k;
  (** A number that the variable cannot hold is a decoding error. *)
  dec_range k b p rest : dec k b = Some (p, rest) -> in_range p = true;
  (** A value takes at least one byte. *)
  enc_nonempty p b : enc p = Some b -> b <> []
}.

(** [encode] of [util.go]: the type byte, then the encoded value. *)
Definition encode_msg `{Codec} (t : msgType) (p : payload) : option (list byte) :=
  match enc p with
  | Some b => Some (msgByte t :: b)
  | None => None
  end.

(** [decode] of [util.go]: bytes after the value are ignored. *)
Definition decode_msg `{Codec} (k : kind) (b : list byte) : option payload :=
  match dec k b with
  | Some (p, _) => Some p
  | None => None
  end.

Lemma decode_msg_kind `{CodecLaws} k b p : decode_msg k b = Some p -> kind_of p = k.
Proof.
  unfold decode_msg. destruct (dec k b) as [[q rest]|] eqn:E; [|done].
  intros [= <-]. by eapply dec_kind.
Qed.

Lemma decode_msg_range `{CodecLaws} k b p : decode_msg k b = Some p -> in_range p = true.
Proof.
  unfold decode_msg. destruct (dec k b) as [[q rest]|] eqn:E; [|done].
  intros [= <-]. by eapply dec_range.
Qed.

Lemma decode_encode_msg `{CodecLaws} t p b :
  encode_msg t p = Some b -> exists b', b = msgByte t :: b' /\ decode_msg (kind_of p) b' = Some p.
Proof.
  unfold encode_msg, decode_msg. destruct (enc p) as [b'|] eqn:E; [|done].
  intros [= <-]. exists b'. split; [done|].
  rewrite <- (app_nil_r b'), dec_enc by done. done.
Qed.

Lemma dec_encode_msg `{CodecLaws} t p c :
  encode_msg t p = Some (msgByte t :: c) -> dec (kind_of p) c = Some (p, []).
Proof.
  unfold encode_msg. destruct (enc p) as [x|] eqn:Ex; [|done]. intros [= ->].
  rewrite <- (app_nil_r c). by apply dec_enc.
Qed.

(** The type under which news about members is sent. *)
Definition gossipType (p : payload) : option msgType :=
  match p with
  | PAlive _ => Some aliveMsg | PSuspect _ => Some suspectMsg | PDead _ => Some deadMsg
  | _ => None
  end.

(** ** The indexed heap *)

(** [Item] of the heap package: an identifier and a strict order. *)
Class HeapItem (item : Type) := {
  item_id : item -> Z;
  item_less : item -> item -> bool
}.

Class HeapOps (item : Type) := {
  heap : Type;
  NewHeap : heap;
  heapPush : item -> heap -> heap;
  heapPop : heap -> option (item * heap);
  heapRemove : Z -> heap -> heap;
  heapLen : heap -> Z
}.

(** The heap holds a multiset of items with pairwise distinct identifiers:
    [Push] adds one whose identifier is new, [Pop] takes one that no other
    item precedes, [Remove] takes out the one with the identifier. *)
Class HeapLaws (item : Type) `{HeapItem item} (H : HeapOps item) := {
  contents : heap -> list item;
  contents_new : contents NewHeap = [];
  contents_push x h :
    item_id x ∉ (item_id <$> contents h) -> contents (heapPush x h) ≡ₚ x :: contents h;
  contents_pop_None h : heapPop h = None <-> contents h = [];
  contents_pop_Some h x h' :
    heapPop h = Some (x, h') ->
    contents h ≡ₚ x :: contents h' /\
    Forall (fun y => item_less y x = false) (contents h');
  contents_remove i h :
    contents (heapRemove i h) ≡ₚ List.filter (fun x => negb (item_id x =? i)) (contents h);
  contents_len h : heapLen h = len (contents h)
}.

(** ** Instances *)

(** A list as a heap: [Pop] searches for a minimum. *)
Section ListHeap.
Context {item : Type} `{HeapItem item}.

Fixpoint pop_min (x : item) (l : list item) : item * list item :=
  match l with
  | [] => (x, [])
  | y :: l =>
      if item_less y x
      then let '(z, l) := pop_min y l in (z, x :: l)
      else let '(z, l) := pop_min x l in (z, y :: l)
  end.

Definition list_heap : HeapOps item := {|
  heap := list item;
  NewHeap := [];
  heapPush := cons;
  heapPop h := match h with [] => None | x :: l => Some (pop_min x l) end;
  heapRemove i := List.filter (fun x => negb (item_id x =? i));
  heapLen h := len h
|}.

(** The order must be a strict weak one. *)
Hypothesis less_asym : forall x y, item_less x y = true -> item_less y x = false.
Hypothesis less_ntrans : forall x y z,
  item_less y x = false -> item_less z y = false -> item_less z x = false.

Lemma pop_min_spec l x z l' :
  pop_min x l = (z, l') ->
  x :: l ≡ₚ z :: l' /\ Forall (fun y => item_less y z = false) (x :: l).
Proof using less_asym less_ntrans.
  assert (forall x, item_less x x = false) as Hirr.
  { intros y. destruct (item_less y y) eqn:E; [|done].
    apply less_asym in E as E'. congruence. }
  revert x z l'. induction l as [|y l IH]; intros x z l'; simpl.
  { intros [= <- <-]. split; [done|]. constructor; [apply Hirr|constructor]. }
  destruct (item_less y x) eqn:E.
  - destruct (pop_min y l) as [z0 l0] eqn:Ep. intros [= <- <-].
    destruct (IH _ _ _ Ep) as [Hp Hf]. split.
    + rewrite Hp. apply perm_swap.
    + constructor; [|done]. apply Forall_cons in Hf as [Hy _].
      apply (less_ntrans _ y); [done|]. by apply less_asym.
  - destruct (pop_min x l) as [z0 l0] eqn:Ep. intros [= <- <-].
    destruct (IH _ _ _ Ep) as [Hp Hf]. split.
    + rewrite (perm_swap y x l), Hp. apply perm_swap.
    + apply Forall_cons in Hf as [Hx Hf]. constructor; [done|].
      constructor; [|done]. by apply (less_ntrans _ x).
Qed.

Definition list_heap_laws : HeapLaws item list_heap.
Proof using less_asym less_ntrans.
  refine {| contents := fun h : @heap _ list_heap => h : list item |}; simpl.
  - done.
  - done.
  - intros [|x l]; split; intros; done.
  - intros [|x0 l] x h'; [done|]. intros [= Hp].
    destruct (pop_min_spec _ _ _ _ Hp) as [Hperm Hf]. split; [done|].
    rewrite Hperm in Hf. by apply Forall_cons in Hf as [_ Hf].
  - done.
  - done.
Defined.
End ListHeap.

(** A self-delimiting codec built from an enumeration of the payloads: the
    bits of the number of a value, one per byte, then a terminator. *)
Section BitCodec.

#[local] Instance byte_countable : Countable byte :=
  inj_countable Byte.to_N Byte.of_N Byte.of_to_N.

#[local] Instance alive_countable : Countable alive.
Proof.
  refine (inj_countable'
    (fun a => (a_Lives a, a_ID a, a_IP a, a_Port a, a_Tags a))
    (fun '(l, i, a, p, t) => mkAlive l i a p t) _). by intros [].
Defined.

#[local] Instance suspect_countable : Countable suspect.
Proof.
  refine (inj_countable' (fun s => (s_Lives s, s_ID s, s_From s))
    (fun '(l, i, f) => mkSuspect l i f) _). by intros [].
Defined.

#[local] Instance dead_countable : Countable dead.
Proof.
  refine (inj_countable' (fun d => (d_Lives d, d_ID d, d_Left d))
    (fun '(l, i, f) => mkDead l i f) _). by intros [].
Defined.

#[local] Instance ping_countable : Countable ping.
Proof.
  refine (inj_countable' (fun p => (p_SeqNo p, p_ID p, p_SourceIP p, p_SourcePort p))
    (fun '(s, i, a, q) => mkPing s i a q) _). by intros [].
Defined.

#[local] Instance ack_countable : Countable ack.
Proof.
  refine (inj_countable' (fun a => (k_SeqNo a, k_Payload a))
    (fun '(s, p) => mkAck s p) _). by intros [].
Defined.

#[local] Instance indirectPing_countable : Countable indirectPing.
Proof.
  refine (inj_countable'
    (fun i => (i_SeqNo i, i_ID i, i_IP i, i_Port i, i_SourceIP i, i_SourcePort i))
    (fun '(s, i, a, p, sa, sp) => mkIndirectPing s i a p sa sp) _). by intros [].
Defined.

#[local] Instance indirectAck_countable : Countable indirectAck.
Proof.
  refine (inj_countable' (fun i => (ia_SeqNo i, ia_Success i))
    (fun '(s, b) => mkIndirectAck s b) _). by intros [].
Defined.

#[local] Instance pushPullHeader_countable : Countable pushPullHeader.
Proof.
  refine (inj_countable' (fun h => (Nodes h, UserStateLen h))
    (fun '(n, u) => mkPushPullHeader n u) _). by intros [].
Defined.

#[local] Instance stateToMerge_countable : Countable stateToMerge.
Proof.
  refine (inj_countable'
    (fun s => (m_Lives s, m_ID s, m_IP s, m_Port s, m_Tags s, m_State s))
    (fun '(l, i, a, p, t, st) => mkStateToMerge l i a p t st) _). by intros [].
Defined.

#[local] Instance compressed_countable : Countable compressed.
Proof.
  refine (inj_countable' (fun c => (c_Algo c, c_Buf c))
    (fun '(a, b) => mkCompressed a b) _). by intros [].
Defined.

#[local] Instance payload_countable : Countable payload.
Proof.
  refine (inj_countable'
    (fun p => match p with
     | PAlive a => inl (inl (inl a)) | PSuspect s => inl (inl (inr s))
     | PDead d => inl (inr (inl d)) | PPing x => inl (inr (inr x))
     | PAck a => inr (inl (inl (inl a))) | PIndirectPing i => inr (inl (inl (inr i)))
     | PIndirectAck i => inr (inl (inr (inl i))) | PErrResp e => inr (inl (inr (inr e)))
     | PHeader h => inr (inr (inl (inl h))) | PState s => inr (inr (inl (inr s)))
     | PCompressed c => inr (inr (inr c))
     end)
    (fun x => match x with
     | inl (inl (inl a)) => PAlive a | inl (inl (inr s)) => PSuspect s
     | inl (inr (inl d)) => PDead d | inl (inr (inr x)) => PPing x
     | inr (inl (inl (inl a))) => PAck a | inr (inl (inl (inr i))) => PIndirectPing i
     | inr (inl (inr (inl i))) => PIndirectAck i | inr (inl (inr (inr e))) => PErrResp e
     | inr (inr (inl (inl h))) => PHeader h | inr (inr (inl (inr s))) => PState s
     | inr (inr (inr c)) => PCompressed c
     end) _). by intros [].
Defined.

Fixpoint bits_of (p : positive) : list byte :=
  match p with
  | xH => [x02]
  | xO p => x00 :: bits_of p
  | xI p => x01 :: bits_of p
  end.

Fixpoint bits_to (b : list byte) : option (positive * list byte) :=
  match b with
  | x02 :: rest => Some (xH, rest)
  | x00 :: b =>
      match bits_to b with Some (p, rest) => Some (xO p, rest) | None => None end
  | x01 :: b =>
      match bits_to b with Some (p, rest) => Some (xI p, rest) | None => None end
  | _ => None
  end.

Lemma bits_to_of p rest : bits_to (bits_of p ++ rest) = Some (p, rest).
Proof. induction p as [p IH|p IH|]; simpl; by rewrite ?IH. Qed.

#[local] Instance kind_eq_dec : EqDecision kind.
Proof. solve_decision. Defined.

Definition bit_codec : Codec := {|
  enc p := if in_range p then Some (bits_of (encode p)) else None;
  dec k b :=
    match bits_to b with
    | Some (n, rest) =>
        match decode n with
        | Some p =>
            if bool_decide (kind_of p = k) && in_range p then Some (p, rest) else None
        | None => None
        end
    | None => None
    end
|}.

Lemma bit_codec_laws : CodecLaws bit_codec.
Proof.
  split; simpl.
  - intros p b rest. destruct (in_range p) eqn:Hr; [|done]. intros [= <-].
    by rewrite bits_to_of, decode_encode, bool_decide_eq_true_2, Hr.
  - intros k b p rest. repeat case_match; try done. intros; simplify_eq.
    match goal with H : _ && _ = true |- _ => apply andb_true_iff in H as [H _] end.
    by eapply bool_decide_eq_true_1.
  - intros k b p rest. repeat case_match; try done. intros; simplify_eq.
    by match goal with H : _ && _ = true |- _ => apply andb_true_iff in H as [_ H] end.
  - intros p b. destruct (in_range p); [|done]. intros [= <-]. by destruct (encode p).
Qed.

End BitCodec.
