(* ===== verification/Broadcast.v ===== *)
(** * The broadcast queue ([broadcast.go])

    Messages to gossip wait in a priority queue; each is handed out a bounded
    number of times, those sent least first, and a newer message about a node
    replaces the older one. *)

From S2P Require Import Prelude GoMath Types Interfaces.
From Stdlib Require Import Strings.Byte.

Record TransmitCapItem := mkItem {
  name : string;
  id : Z;                  (* uint64 *)
  transmits : Z;
  msg : list byte;
  notify : option Z        (* a channel; None is nil *)
}.

#[global] Instance TransmitCapItem_eq_dec : EqDecision TransmitCapItem.
Proof. solve_decision. Defined.

Definition Less (i i1 : TransmitCapItem) : bool :=
  if transmits i =? transmits i1 then
    if len (msg i) =? len (msg i1) then id i1 <? id i
    else len (msg i1) <? len (msg i)
  else transmits i <? transmits i1.

#[global] Instance TransmitCapItem_HeapItem : HeapItem TransmitCapItem :=
  {| item_id := id; item_less := Less |}.

(** [Finish] signals the channel of the item, if it has one. *)
Definition Finish (i : TransmitCapItem) : list Z := option_list (notify i).

Definition transmitLimit (scale n : Z) : Z :=
  let nodeScale := f64.ceil (f64.Log10 (f64.of_Z (n + 1))) in
  i64 (scale * nodeScale).

Section Queue.
Context `{HO : HeapOps TransmitCapItem} `{CO : Codec}.

(** [finished] records the [Finish] signals, oldest first. *)
Record TransmitCapQueue := mkQueue {
  TransmitScale : Z;
  queue : heap;
  exists_ : gmap string TransmitCapItem;
  idSeq : Z;               (* uint64 *)
  finished : list Z
}.

Definition NewBroadcastQueue (transmitScale : Z) : TransmitCapQueue :=
  mkQueue transmitScale NewHeap ∅ 0 [].

Definition set_heap (h : heap) (q : TransmitCapQueue) : TransmitCapQueue :=
  mkQueue (TransmitScale q) h (exists_ q) (idSeq q) (finished q).
Definition set_exists (m : gmap string TransmitCapItem) (q : TransmitCapQueue)
    : TransmitCapQueue :=
  mkQueue (TransmitScale q) (queue q) m (idSeq q) (finished q).
Definition set_idSeq (n : Z) (q : TransmitCapQueue) : TransmitCapQueue :=
  mkQueue (TransmitScale q) (queue q) (exists_ q) n (finished q).
Definition finish (i : TransmitCapItem) (q : TransmitCapQueue) : TransmitCapQueue :=
  mkQueue (TransmitScale q) (queue q) (exists_ q) (idSeq q) (finished q ++ Finish i).

Definition Push (q : TransmitCapQueue) (item : TransmitCapItem) : TransmitCapQueue :=
  let q :=
    if bool_decide (name item <> "") then
      let q :=
        match exists_ q !! name item with
        | Some old => set_heap (heapRemove (id old) (queue q)) (finish old q)
        | None => q
        end in
      set_exists (<[ name item := item ]> (exists_ q)) q
    else q in
  set_heap (heapPush item (queue q)) q.

Definition Pop (q : TransmitCapQueue) : option (TransmitCapItem * TransmitCapQueue) :=
  match heapPop (queue q) with
  | None => None
  | Some (item, h) => Some (item, set_exists (delete (name item) (exists_ q)) (set_heap h q))
  end.

Definition Len (q : TransmitCapQueue) : Z := heapLen (queue q).

Definition QueueMsg (q : TransmitCapQueue) (nm : string) (t : msgType) (p : payload)
    (notify : option Z) : TransmitCapQueue :=
  match encode_msg t p with
  | None => q
  | Some encoded =>
      let item := mkItem nm (idSeq q) 0 encoded notify in
      Push (set_idSeq (u64 (idSeq q + 1)) q) item
  end.

(** The selection loop of [GetMessages]; [None] when the fuel is used up. Byte
    counts and transmissions are [int] in the code and unbounded here: the
    messages of a queue do not fill half of the address space. *)
Fixpoint pickLoop (fuel : nat) (overhead size bytesUsed : Z) (q : TransmitCapQueue)
    (picked notPicked : list TransmitCapItem)
    : option (TransmitCapQueue * list TransmitCapItem * list TransmitCapItem) :=
  match fuel with
  | O => None
  | S fuel =>
      if size <? bytesUsed + 20 + overhead then Some (q, picked, notPicked)
      else
        match Pop q with
        | None => Some (q, picked, notPicked)
        | Some (item, q) =>
            if size <? bytesUsed + len (msg item) + overhead
            then pickLoop fuel overhead size bytesUsed q picked (notPicked ++ [item])
            else pickLoop fuel overhead size (bytesUsed + (len (msg item) + overhead))
                   q (picked ++ [item]) notPicked
        end
  end.

Definition incr (i : TransmitCapItem) : TransmitCapItem :=
  mkItem (name i) (id i) (transmits i + 1) (msg i) (notify i).

(** One iteration of the last loop: count the transmission, and requeue or
    finish. *)
Definition resend (transLimit : Z) (q : TransmitCapQueue) (i : TransmitCapItem)
    : TransmitCapQueue :=
  let i := incr i in
  if transLimit <=? transmits i then finish i q else Push q i.

(** [GetMessages]; [numNodes] is the value of the [NumNodes] callback. *)
Definition GetMessages (q : TransmitCapQueue) (numNodes overhead size : Z)
    : outcome (list (list byte) * TransmitCapQueue) :=
  if (size <=? overhead) || (Len q =? 0) then Ret ([], q)
  else
    match pickLoop (S (Z.to_nat (Len q))) overhead size 0 q [] [] with
    | None => Hang
    | Some (q, picked, notPicked) =>
        let q := foldl Push q notPicked in
        let transLimit := transmitLimit (TransmitScale q) numNodes in
        let q := foldl (resend transLimit) q picked in
        let q := if heapLen (queue q) =? 0 then set_idSeq 0 q else q in
        Ret (map msg picked, q)
    end.

(** [Resize] pops and finishes items until at most [size] are left; popping
    an empty queue gives a nil item, whose [Finish] panics. *)
Fixpoint resizeLoop (fuel : nat) (size : Z) (q : TransmitCapQueue)
    : outcome TransmitCapQueue :=
  match fuel with
  | O => Hang
  | S fuel =>
      if size <? Len q then
        match Pop q with
        | None => Panic
        | Some (item, q) => resizeLoop fuel size (finish item q)
        end
      else Ret q
  end.

Definition Resize (q : TransmitCapQueue) (size : Z) : outcome TransmitCapQueue :=
  resizeLoop (S (Z.to_nat (Len q))) size q.

(** [getBroadcasts] of the memberlist: the gossip first, then the user's own
    broadcasts ([None] when there is no delegate) in the room that is left. *)
Definition userMsgOverhead : Z := 1.

Definition used (overhead : Z) (msgs : list (list byte)) : Z :=
  foldr (fun m n => len m + overhead + n) 0 msgs.

Definition getBroadcasts (q : TransmitCapQueue)
    (ubroadcasts : option (Z -> Z -> list (list byte))) (numNodes overhead limit : Z)
    : outcome (list (list byte) * TransmitCapQueue) :=
  if limit <=? overhead then Ret ([], q)
  else
    let! (msgs, q) := GetMessages q numNodes overhead limit in
    match ubroadcasts with
    | None => Ret (msgs, q)
    | Some get =>
        let limit := limit - used overhead msgs in
        let umsgs := get (overhead + userMsgOverhead) limit in
        Ret (msgs ++ map (fun m => msgByte userMsg :: m) umsgs, q)
    end.

End Queue.

(** ** The order *)

Lemma Less_irrefl x : Less x x = false.
Proof. unfold Less. rewrite !Z.eqb_refl. lia. Qed.

Lemma Less_asym x y : Less x y = true -> Less y x = false.
Proof.
  unfold Less. intros. repeat case_match; lia.
Qed.

Lemma Less_trans x y z : Less x y = true -> Less y z = true -> Less x z = true.
Proof. unfold Less. intros. repeat case_match; lia. Qed.

Lemma Less_ntrans x y z : Less y x = false -> Less z y = false -> Less z x = false.
Proof. unfold Less. intros. repeat case_match; lia. Qed.

Lemma Less_total x y : id x <> id y -> Less x y = true \/ Less y x = true.
Proof. unfold Less. intros. repeat case_match; lia. Qed.

(** The list heap is a heap for the items. *)
Definition item_heap : HeapOps TransmitCapItem := list_heap.
Definition item_heap_laws : HeapLaws TransmitCapItem item_heap :=
  list_heap_laws Less_asym Less_ntrans.
