(* ===== verification/BroadcastFacts.v ===== *)
(** * Correctness of the broadcast queue

    Everything here is proved against the interface of the heap
    ([HeapLaws]): the heap is used within its contract (identifiers stay
    pairwise distinct), the name index agrees with the heap, and [GetMessages]
    and [QueueMsg] do to the multiset of waiting messages what they promise. *)

From S2P Require Import Prelude GoMath Types Interfaces Broadcast.
From Stdlib Require Import Strings.Byte.

Section Facts.
Context {HO : HeapOps TransmitCapItem} {HL : HeapLaws TransmitCapItem HO}.
Context {CO : Codec}.

Abbreviation Q := (TransmitCapQueue (HO := HO)).

(** The messages that wait in the queue. *)
Definition waiting (q : Q) : list TransmitCapItem := contents (queue q).

(** The invariant of a queue from which the items [out] have been popped for
    the time being. *)
Record queue_inv (q : Q) (out : list TransmitCapItem) : Prop := {
  inv_ids : NoDup (id <$> waiting q ++ out);
  inv_seq : Forall (fun i => 0 <= id i < idSeq q) (waiting q ++ out);
  inv_exists : forall nm i,
    exists_ q !! nm = Some i <-> i ∈ waiting q /\ name i = nm /\ nm <> "";
  inv_out : forall i, i ∈ out -> name i <> "" -> exists_ q !! name i = None;
  inv_names : NoDup (name <$> List.filter (fun i => bool_decide (name i <> "")) out)
}.

Definition queue_ok (q : Q) : Prop := queue_inv q [].

#[global] Instance queue_inv_perm q :
  Proper ((≡ₚ) ==> iff) (queue_inv q).
Proof.
  assert (forall o o', o ≡ₚ o' -> queue_inv q o -> queue_inv q o') as H.
  { intros o o' Hp [H1 H2 H3 H4 H5]. split; try done.
    - by rewrite <- Hp.
    - by rewrite <- Hp.
    - intros i Hi. apply H4. by rewrite Hp.
    - by rewrite <- Hp. }
  intros o o' Hp. split; apply H; [done|by symmetry].
Qed.

Lemma queue_inv_drop q x out : queue_inv q (x :: out) -> queue_inv q out.
Proof.
  intros [H1 H2 H3 H4 H5]. split; try done.
  - rewrite <- Permutation_middle in H1. by apply NoDup_cons in H1 as [_ ?].
  - rewrite <- Permutation_middle in H2. by apply Forall_cons in H2 as [_ ?].
  - intros i Hi. apply H4. by right.
  - simpl in H5. case_match; [|done]. by apply NoDup_cons in H5 as [_ ?].
Qed.

(** Items are determined by their identifier. *)
Lemma queue_inv_id_inj q out i j :
  queue_inv q out -> i ∈ waiting q ++ out -> j ∈ waiting q ++ out -> id i = id j -> i = j.
Proof.
  intros [H1 _ _ _ _] Hi Hj Heq.
  apply list_elem_of_lookup in Hi as [a Ha]. apply list_elem_of_lookup in Hj as [b Hb].
  assert (a = b) as ->; [|congruence].
  eapply NoDup_lookup; [exact H1| |]; rewrite list_lookup_fmap, ?Ha, ?Hb; simpl; by rewrite ?Heq.
Qed.

Lemma Pop_None q out : queue_inv q out -> Pop q = None <-> waiting q = [].
Proof.
  intros _. unfold Pop, waiting. rewrite <- contents_pop_None.
  destruct (heapPop (queue q)) as [[x h]|]; split; done.
Qed.

Lemma Pop_Some q out x q' :
  queue_inv q out -> Pop q = Some (x, q') ->
  waiting q ≡ₚ x :: waiting q' /\
  Forall (fun y => Less y x = false) (waiting q') /\
  queue_inv q' (x :: out) /\
  TransmitScale q' = TransmitScale q /\ idSeq q' = idSeq q /\ finished q' = finished q.
Proof.
  intros Hinv. unfold Pop.
  destruct (heapPop (queue q)) as [[y h]|] eqn:E; [|done]. intros [= <- <-].
  apply contents_pop_Some in E as [Hp Hf].
  split_and!; try done. destruct Hinv as [H1 H2 H3 H4 H5]. unfold waiting in *.
  assert (contents h ++ y :: out ≡ₚ contents (queue q) ++ out) as Hall
    by (rewrite Hp, <- Permutation_middle; done).
  split; simpl.
  - unfold waiting; simpl. by rewrite Hall.
  - unfold waiting; simpl. by rewrite Hall.
  - intros nm i. unfold waiting; simpl. rewrite lookup_delete_Some, H3, Hp, elem_of_cons.
    split.
    + intros (Hne & [->|Hin] & <- & Hnm); [done|]. done.
    + intros (Hin & <- & Hnm). split_and!; try done; [|by right].
      intros Heq.
      assert (exists_ q !! name i = Some i) as E1 by (apply H3; rewrite Hp; set_solver).
      assert (exists_ q !! name y = Some y) as E2
        by (apply H3; rewrite Hp, Heq; set_solver).
      rewrite Heq in E2. simplify_eq.
      rewrite Hp in H1. simpl in H1. apply NoDup_cons in H1 as [H1 _]. apply H1.
      rewrite fmap_app. apply elem_of_app. left. by apply list_elem_of_fmap_2.
  - intros i [->|Hi]%elem_of_cons Hnm; [by rewrite lookup_delete_eq|].
    rewrite lookup_delete_None. right. by apply H4.
  - case_bool_decide as Hy; [|done]. simpl. apply NoDup_cons. split; [|done].
    intros (i & Hn & Hin)%list_elem_of_fmap.
    apply list_elem_of_In, List.filter_In in Hin as [Hin%list_elem_of_In _].
    assert (exists_ q !! name y = Some y) as E1 by (apply H3; rewrite Hp; set_solver).
    rewrite Hn in E1, Hy. by rewrite (H4 i Hin Hy) in E1.
Qed.

(** Pushing an item whose identifier and name are new. *)
Lemma Push_fresh q out x :
  queue_inv q out ->
  id x ∉ (id <$> waiting q ++ out) -> 0 <= id x < idSeq q ->
  (name x <> "" -> exists_ q !! name x = None /\ name x ∉ (name <$> out)) ->
  waiting (Push q x) ≡ₚ x :: waiting q /\ queue_inv (Push q x) out /\
  TransmitScale (Push q x) = TransmitScale q /\ idSeq (Push q x) = idSeq q /\
  finished (Push q x) = finished q.
Proof.
  intros [H1 H2 H3 H4 H5] Hid Hseq Hnm.
  rewrite fmap_app, not_elem_of_app in Hid. destruct Hid as [Hid1 Hid2].
  assert (waiting (Push q x) ≡ₚ x :: waiting q /\ finished (Push q x) = finished q /\
    TransmitScale (Push q x) = TransmitScale q /\ idSeq (Push q x) = idSeq q /\
    exists_ (Push q x) = if bool_decide (name x <> "") then <[ name x := x ]> (exists_ q)
                         else exists_ q) as (Hw & Hfin & Hts & Hids & Hex).
  { unfold Push, waiting. case_bool_decide as Hn; simpl.
    - destruct (Hnm Hn) as [-> _]. simpl. split_and!; try done.
      by apply contents_push.
    - split_and!; try done. by apply contents_push. }
  split_and!; try done. split.
  - rewrite Hw. simpl. apply NoDup_cons. rewrite fmap_app, not_elem_of_app.
    by rewrite <- fmap_app.
  - rewrite Hw, Hids. simpl. by constructor.
  - intros nm i. rewrite Hex, Hw, elem_of_cons. case_bool_decide as Hn.
    + rewrite lookup_insert_Some, H3. destruct (Hnm Hn) as [Hx _]. split.
      * intros [[<- <-]|(Hne & Hin & <- & Hnn)]; [by split_and!; [left| |]|].
        by split_and!; [right| |].
      * intros ([->|Hin] & <- & Hnn); [by left|right]. split; [|done].
        intros Heq. assert (exists_ q !! name i = Some i) as E by by apply H3.
        rewrite <- Heq in E. congruence.
    + rewrite H3. split; [naive_solver|].
      intros ([->|Hin] & <- & Hnn); [done|]. done.
  - intros i Hi Hn. rewrite Hex. case_bool_decide; [|by apply H4].
    destruct (Hnm ltac:(done)) as [_ Hx]. rewrite lookup_insert_None.
    split; [by apply H4|]. intros Heq. apply Hx. rewrite Heq.
    by apply list_elem_of_fmap_2.
  - done.
Qed.

(** Putting back an item that was popped, its count of transmissions
    possibly changed. *)
Lemma Push_back q out x x' :
  queue_inv q (x :: out) -> id x' = id x -> name x' = name x ->
  waiting (Push q x') ≡ₚ x' :: waiting q /\ queue_inv (Push q x') out /\
  TransmitScale (Push q x') = TransmitScale q /\ idSeq (Push q x') = idSeq q /\
  finished (Push q x') = finished q.
Proof.
  intros Hinv Hid Hname. pose proof Hinv as [H1 H2 _ H4 H5].
  apply Push_fresh.
  - by eapply queue_inv_drop.
  - rewrite Hid. rewrite <- Permutation_middle in H1. simpl in H1.
    by apply NoDup_cons in H1 as [? _].
  - rewrite Hid. rewrite <- Permutation_middle in H2.
    by apply Forall_cons in H2 as [? _].
  - rewrite Hname. intros Hn. split; [apply H4; [by left|done]|].
    simpl in H5. rewrite bool_decide_eq_true_2 in H5 by done. simpl in H5.
    apply NoDup_cons in H5 as [H5 _]. intros (i & Hi & Hin)%list_elem_of_fmap.
    apply H5. rewrite Hi. apply list_elem_of_fmap_2, list_elem_of_In, List.filter_In.
    split; [by apply list_elem_of_In|]. apply bool_decide_eq_true_2. by rewrite <- Hi.
Qed.

Lemma finish_inv q out x : queue_inv q out -> queue_inv (finish x q) out.
Proof. by intros []; split. Qed.

(** ** Selecting messages *)

Definition total (overhead : Z) (l : list TransmitCapItem) : Z :=
  used overhead (map msg l).

Lemma total_app ov l1 l2 : total ov (l1 ++ l2) = total ov l1 + total ov l2.
Proof. induction l1; unfold total in *; simpl in *; lia. Qed.

(** The loop ends, partitions what was waiting, stays within the budget. *)
Lemma pickLoop_spec ov size : 0 <= ov ->
  forall fuel q out bytesUsed pk0 np0,
  queue_inv q out -> (length (waiting q) < fuel)%nat -> bytesUsed <= size ->
  exists q' pk np,
    pickLoop fuel ov size bytesUsed q pk0 np0 = Some (q', pk0 ++ pk, np0 ++ np) /\
    waiting q ≡ₚ pk ++ np ++ waiting q' /\
    queue_inv q' (pk ++ np ++ out) /\
    bytesUsed + total ov pk <= size /\
    TransmitScale q' = TransmitScale q /\ idSeq q' = idSeq q /\
    finished q' = finished q.
Proof.
  intros Hov. induction fuel as [|fuel IH]; intros q out bu pk0 np0 Hinv Hfuel Hbu; [lia|].
  simpl. destruct (Z.ltb_spec size (bu + 20 + ov)).
  { exists q, [], []. rewrite !app_nil_r. split_and!; try done. unfold total; simpl; lia. }
  destruct (Pop q) as [[x q1]|] eqn:EP.
  2: { apply (Pop_None _ _ Hinv) in EP. exists q, [], []. rewrite !app_nil_r, EP.
       split_and!; try done. unfold total; simpl; lia. }
  destruct (Pop_Some _ _ _ _ Hinv EP) as (Hp & _ & Hinv1 & Hts & Hid & Hfin).
  rewrite Hp in Hfuel. simpl in Hfuel.
  destruct (Z.ltb_spec size (bu + len (msg x) + ov)).
  - destruct (IH q1 (x :: out) bu pk0 (np0 ++ [x]) Hinv1 ltac:(lia) ltac:(lia))
      as (q' & pk & np & -> & Hw & Hi & Ht & Hts' & Hid' & Hfin').
    exists q', pk, (x :: np). rewrite <- app_assoc.
    split_and!; try done; try congruence.
    + rewrite Hp, Hw. simpl. by rewrite Permutation_middle.
    + by rewrite <- (Permutation_middle np) in Hi.
  - destruct (IH q1 (x :: out) (bu + (len (msg x) + ov)) (pk0 ++ [x]) np0 Hinv1
      ltac:(lia) ltac:(lia)) as (q' & pk & np & -> & Hw & Hi & Ht & Hts' & Hid' & Hfin').
    exists q', (x :: pk), np. rewrite <- app_assoc.
    split_and!; try done; try congruence.
    + rewrite Hp, Hw. done.
    + by rewrite <- (Permutation_middle np), <- (Permutation_middle pk) in Hi.
    + unfold total in *. simpl. lia.
Qed.

Lemma pushAll_spec np q out :
  queue_inv q (np ++ out) ->
  waiting (foldl Push q np) ≡ₚ np ++ waiting q /\ queue_inv (foldl Push q np) out /\
  TransmitScale (foldl Push q np) = TransmitScale q /\
  idSeq (foldl Push q np) = idSeq q /\ finished (foldl Push q np) = finished q.
Proof.
  revert q. induction np as [|x np IH]; intros q Hinv; simpl; [done|].
  destruct (Push_back q (np ++ out) x x Hinv eq_refl eq_refl)
    as (Hw & Hi & Hts & Hid & Hfin).
  destruct (IH _ Hi) as (Hw' & Hi' & Hts' & Hid' & Hfin').
  split_and!; [|done|congruence..].
  by rewrite Hw', Hw, Permutation_middle.
Qed.

Definition survives (limit : Z) (i : TransmitCapItem) : bool := transmits i + 1 <? limit.

Lemma resendAll_spec limit pk q out :
  queue_inv q (pk ++ out) ->
  let q' := foldl (resend limit) q pk in
  waiting q' ≡ₚ map incr (List.filter (survives limit) pk) ++ waiting q /\
  queue_inv q' out /\ TransmitScale q' = TransmitScale q /\ idSeq q' = idSeq q /\
  finished q' = finished q ++
    concat (map Finish (List.filter (fun i => negb (survives limit i)) pk)).
Proof.
  revert q. induction pk as [|x pk IH]; intros q Hinv; simpl.
  { by rewrite app_nil_r. }
  destruct (survives limit x) eqn:Hs; simpl.
  - assert (resend limit q x = Push q (incr x)) as ->.
    { unfold resend, survives in *. simpl. apply Z.ltb_lt in Hs.
      by rewrite (proj2 (Z.leb_gt _ _)). }
    destruct (Push_back q (pk ++ out) x (incr x) Hinv eq_refl eq_refl)
      as (Hw & Hi & Hts & Hid & Hfin).
    destruct (IH _ Hi) as (Hw' & Hi' & Hts' & Hid' & Hfin').
    split_and!; [|done|congruence..|by rewrite Hfin', Hfin].
    by rewrite Hw', Hw, Permutation_middle.
  - assert (resend limit q x = finish (incr x) q) as ->.
    { unfold resend, survives in *. simpl. apply Z.ltb_ge in Hs.
      by rewrite (proj2 (Z.leb_le _ _)). }
    destruct (IH (finish (incr x) q)) as (Hw & Hi & Hts & Hid & Hfin).
    { apply finish_inv. by eapply queue_inv_drop. }
    split_and!; try done. rewrite Hfin. simpl. by rewrite <- app_assoc.
Qed.

(** ** Priorities *)

Lemma Pop_first q out x q' :
  queue_inv q out -> Pop q = Some (x, q') ->
  forall y, y ∈ waiting q' -> Less x y = true.
Proof.
  intros Hinv HP y Hy.
  destruct (Pop_Some _ _ _ _ Hinv HP) as (Hp & Hf & Hinv' & _).
  rewrite Forall_forall in Hf. specialize (Hf y Hy).
  destruct (Less_total x y) as [?|?]; [|done|congruence].
  intros Heq. apply (inv_ids _ _) in Hinv'.
  rewrite <- Permutation_middle in Hinv'. simpl in Hinv'.
  apply NoDup_cons in Hinv' as [Hx _]. apply Hx.
  rewrite Heq. apply list_elem_of_fmap_2, elem_of_app. by left.
Qed.

(** Room taken by the picked items that precede [y]. *)
Definition before (ov : Z) (pk : list TransmitCapItem) (y : TransmitCapItem) : Z :=
  total ov (List.filter (fun z => Less z y) pk).

Lemma before_snoc_skip ov pk x y : Less x y = false -> before ov (pk ++ [x]) y = before ov pk y.
Proof.
  intros H. unfold before. rewrite List.filter_app. simpl. rewrite H.
  by rewrite app_nil_r.
Qed.

Lemma before_all ov pk y : (forall z, z ∈ pk -> Less z y = true) -> before ov pk y = total ov pk.
Proof.
  intros H. unfold before. f_equal. induction pk as [|z pk IH]; simpl; [done|].
  rewrite (H z) by (by left). f_equal. apply IH. intros u Hu. apply H. by right.
Qed.

Lemma pickLoop_priority ov size fuel q out bytesUsed pk0 np0 q' pk np :
  queue_inv q out ->
  pickLoop fuel ov size bytesUsed q pk0 np0 = Some (q', pk, np) ->
  bytesUsed = total ov pk0 ->
  (forall z, z ∈ pk0 ++ np0 -> forall y, y ∈ waiting q -> Less z y = true) ->
  (forall y, y ∈ np0 -> size < before ov pk0 y + len (msg y) + ov) ->
  (forall z, z ∈ pk -> forall y, y ∈ waiting q' -> Less z y = true) /\
  (forall y, y ∈ np -> size < before ov pk y + len (msg y) + ov).
Proof.
  revert q out bytesUsed pk0 np0. induction fuel as [|fuel IH]; intros q out bu pk0 np0 Hinv; [done|].
  simpl. intros Hrun Hbu Hord Hnp.
  assert (forall z, z ∈ pk0 -> forall y, y ∈ waiting q -> Less z y = true) as Hord'.
  { intros z Hz. apply Hord, elem_of_app. by left. }
  destruct (Z.ltb_spec size (bu + 20 + ov)); [by simplify_eq|].
  destruct (Pop q) as [[x q1]|] eqn:EP; [|by simplify_eq].
  destruct (Pop_Some _ _ _ _ Hinv EP) as (Hp & _ & Hinv1 & _).
  pose proof (Pop_first _ _ _ _ Hinv EP) as Hfirst.
  assert (x ∈ waiting q) as Hxq by (rewrite Hp; left).
  assert (forall y, y ∈ waiting q1 -> y ∈ waiting q) as Hsub
    by (intros y Hy; rewrite Hp; by right).
  destruct (Z.ltb_spec size (bu + len (msg x) + ov)).
  - apply (IH _ _ _ _ _ Hinv1 Hrun Hbu).
    + intros z Hz y Hy. rewrite app_assoc, elem_of_app, list_elem_of_singleton in Hz.
      destruct Hz as [Hz| ->]; [by apply Hord, Hsub|by apply Hfirst].
    + intros y. rewrite elem_of_app, list_elem_of_singleton. intros [Hy| ->]; [by apply Hnp|].
      rewrite before_all; [lia|]. intros z Hz. by apply Hord'.
  - apply (IH _ _ _ _ _ Hinv1 Hrun).
    + rewrite total_app. unfold total at 2. simpl. lia.
    + intros z Hz y Hy. rewrite <- app_assoc, !elem_of_app, list_elem_of_singleton in Hz.
      destruct Hz as [Hz|[->|Hz]]; [by apply Hord', Hsub|by apply Hfirst|].
      apply Hord, Hsub; [|done]. apply elem_of_app. by right.
    + intros y Hy. rewrite before_snoc_skip; [by apply Hnp|].
      apply Less_asym, Hord; [|done]. apply elem_of_app. by right.
Qed.

(** When nothing is picked although a small message would fit, the loop has
    gone through the whole queue. *)
Lemma pickLoop_grow fuel ov size bu q pk0 np0 q' pk np :
  pickLoop fuel ov size bu q pk0 np0 = Some (q', pk, np) ->
  (length pk0 <= length pk)%nat.
Proof.
  revert bu q pk0 np0. induction fuel as [|fuel IH]; intros bu q pk0 np0; [done|].
  simpl. repeat case_match; intros Hr; simplify_eq; try lia.
  - by apply IH in Hr.
  - apply IH in Hr. rewrite length_app in Hr. simpl in Hr. lia.
Qed.

Lemma pickLoop_exhaust fuel ov size bu q out pk0 np0 q' pk np :
  queue_inv q out ->
  pickLoop fuel ov size bu q pk0 np0 = Some (q', pk, np) ->
  length pk = length pk0 -> bu + 20 + ov <= size -> waiting q' = [].
Proof.
  revert q out np0. induction fuel as [|fuel IH]; intros q out np0 Hinv; [done|].
  simpl. intros Hr Hlen Hsz. rewrite (proj2 (Z.ltb_ge _ _)) in Hr by lia.
  destruct (Pop q) as [[x q1]|] eqn:EP.
  - destruct (Pop_Some _ _ _ _ Hinv EP) as (_ & _ & Hinv1 & _).
    case_match; [by eapply IH|].
    apply pickLoop_grow in Hr. rewrite length_app in Hr. simpl in Hr. lia.
  - simplify_eq. by apply (Pop_None _ _ Hinv).
Qed.

(** ** [GetMessages] as a whole *)

Lemma GetMessages_full q n ov size :
  queue_ok q -> 0 <= ov ->
  exists pk rest q',
    GetMessages q n ov size = Ret (map msg pk, q') /\
    let limit := transmitLimit (TransmitScale q) n in
    waiting q ≡ₚ pk ++ rest /\
    waiting q' ≡ₚ map incr (List.filter (survives limit) pk) ++ rest /\
    finished q' = finished q ++
      concat (map Finish (List.filter (fun i => negb (survives limit i)) pk)) /\
    TransmitScale q' = TransmitScale q /\
    queue_ok q' /\
    total ov pk <= Z.max 0 size /\
    (forall y, y ∈ rest -> forall z, z ∈ pk -> Less y z = true ->
       size < before ov pk y + len (msg y) + ov) /\
    (pk = [] -> size <= ov \/ size < 20 + ov \/
       (forall y, y ∈ waiting q -> size < len (msg y) + ov)).
Proof.
  intros Hok Hov. unfold GetMessages.
  destruct ((size <=? ov) || (Len q =? 0)) eqn:E0.
  { exists [], (waiting q), q. simpl. rewrite app_nil_r. split_and!; try done.
    - unfold total; simpl; lia.
    - intros y Hy z Hz. by apply elem_of_nil in Hz.
    - intros _. apply orb_true_iff in E0 as [E0|E0]; [left; lia|].
      right; right. unfold Len in E0. rewrite contents_len in E0.
      unfold waiting. destruct (contents (queue q)); [|simpl in E0; lia].
      intros y Hy. by apply elem_of_nil in Hy. }
  apply orb_false_iff in E0 as [E1 E2].
  assert (Z.to_nat (Len q) = length (waiting q)) as HL'
    by (unfold Len; rewrite contents_len; unfold waiting; lia).
  destruct (pickLoop_spec ov size Hov (S (Z.to_nat (Len q))) q [] 0 [] [])
    as (q1 & pk & np & Hrun & Hw & Hi & Ht & Hts & Hid & Hfin); [done|lia|lia|].
  rewrite Hrun. simpl app. cbv zeta.
  destruct (pickLoop_priority ov size _ q [] 0 [] [] q1 pk np Hok Hrun)
    as [Hpri Hskip]; [done|intros z Hz; by apply elem_of_nil in Hz..|].
  rewrite app_nil_r in Hi.
  destruct (pushAll_spec np q1 pk) as (Hw1 & Hi1 & Hts1 & Hid1 & Hfin1).
  { by rewrite Permutation_app_comm. }
  set (q2 := foldl Push q1 np) in *.
  set (limit := transmitLimit (TransmitScale q2) n).
  destruct (resendAll_spec limit pk q2 []) as (Hw2 & Hi2 & Hts2 & Hid2 & Hfin2).
  { by rewrite app_nil_r. }
  set (q3 := foldl (resend limit) q2 pk) in *.
  assert (limit = transmitLimit (TransmitScale q) n) as Hlim
    by (unfold limit; by rewrite Hts1, Hts).
  exists pk, (np ++ waiting q1),
    (if heapLen (queue q3) =? 0 then set_idSeq 0 q3 else q3).
  split_and!; try done.
  - rewrite <- Hlim, <- Hw1, <- Hw2. by case_match.
  - rewrite <- Hlim, <- Hfin, <- Hfin1, <- Hfin2. by case_match.
  - rewrite <- Hts, <- Hts1, <- Hts2. by case_match.
  - case_match eqn:Elen; [|done]. apply Z.eqb_eq in Elen.
    rewrite contents_len in Elen.
    destruct Hi2 as [? ? ? ? ?]. split; try done. unfold waiting in *. simpl.
    destruct (contents (queue q3)); [constructor|simpl in Elen; lia].
  - lia.
  - intros y [Hy|Hy]%elem_of_app z Hz Hless; [by apply Hskip|].
    rewrite (Less_asym z y) in Hless; [done|]. by apply Hpri.
  - intros ->. destruct (Z.ltb_spec size (0 + 20 + ov)); [right; left; lia|].
    right; right. intros y Hy. rewrite Hw in Hy. simpl in Hy.
    rewrite (pickLoop_exhaust _ _ _ _ _ _ _ _ _ _ _ Hok Hrun), app_nil_r in Hy
      by (done || lia).
    specialize (Hskip y Hy). unfold before, total in Hskip. simpl in Hskip. lia.
Qed.

(** ** Queueing a message *)

(** The waiting item with the name of a new message, which it invalidates. *)
Definition replaced (nm : string) (i : TransmitCapItem) : bool :=
  bool_decide (nm <> "" /\ name i = nm).

Lemma filter_same_id q i :
  queue_ok q -> i ∈ waiting q ->
  waiting q ≡ₚ i :: List.filter (fun x => negb (id x =? id i)) (waiting q) /\
  forall y, y ∈ List.filter (fun x => negb (id x =? id i)) (waiting q) <->
            y ∈ waiting q /\ y <> i.
Proof.
  intros Hok Hi. split.
  - pose proof (inv_ids _ _ Hok) as Hnd. rewrite app_nil_r in Hnd.
    apply list_elem_of_split in Hi as (l1 & l2 & Hl). rewrite Hl in *.
    rewrite fmap_app in Hnd. simpl in Hnd.
    apply NoDup_app in Hnd as (_ & H1 & [H2 _]%NoDup_cons).
    rewrite List.filter_app. simpl. rewrite Z.eqb_refl. simpl.
    assert (forall l, id i ∉ (id <$> l) ->
      List.filter (fun x => negb (id x =? id i)) l = l) as Hid.
    { induction l as [|z l IH]; simpl; [done|]. rewrite not_elem_of_cons.
      intros [Hz Hl']. destruct (Z.eqb_spec (id z) (id i)); [congruence|].
      simpl. by rewrite IH. }
    rewrite !Hid; [by rewrite Permutation_middle|done|].
    intros Hin. apply (H1 _ Hin). left.
  - intros y. rewrite list_elem_of_In, List.filter_In, <- list_elem_of_In.
    split; intros [Hy Hne]; split; try done.
    + intros ->. by rewrite Z.eqb_refl in Hne.
    + destruct (Z.eqb_spec (id y) (id i)) as [Heq|]; [|done].
      destruct Hne. eapply (queue_inv_id_inj q []); rewrite ?app_nil_r; done.
Qed.

Definition evict (nm : string) (old : TransmitCapItem) (q : Q) : Q :=
  set_exists (delete nm (exists_ q)) (set_heap (heapRemove (id old) (queue q)) (finish old q)).

Lemma evict_spec q nm old :
  queue_ok q -> exists_ q !! nm = Some old ->
  waiting q ≡ₚ old :: waiting (evict nm old q) /\ queue_ok (evict nm old q).
Proof.
  intros Hok Hold. pose proof Hok as [H1 H2 H3 H4 H5].
  apply H3 in Hold as Hold'. destruct Hold' as (Hin & Hname & Hnm).
  destruct (filter_same_id q old Hok Hin) as [Hp Hmem].
  assert (waiting (evict nm old q) ≡ₚ
    List.filter (fun x => negb (id x =? id old)) (waiting q)) as Hw
    by exact (contents_remove (id old) (queue q)).
  assert (waiting q ≡ₚ old :: waiting (evict nm old q)) as Hw' by by rewrite Hw.
  split; [done|]. rewrite app_nil_r in H1, H2. rewrite Hw' in H1, H2.
  split; rewrite ?app_nil_r.
  - by apply NoDup_cons in H1 as [_ ?].
  - by apply Forall_cons in H2 as [_ ?].
  - intros nm' i. rewrite Hw, Hmem. simpl. rewrite lookup_delete_Some, H3. split.
    + intros (Hne & Hi & <- & Hn). split_and!; try done. intros ->. congruence.
    + intros ((Hi & Hne) & <- & Hn). split_and!; try done. intros ->.
      destruct Hne. assert (exists_ q !! name i = Some i) by by apply H3.
      congruence.
  - intros i Hi. by apply elem_of_nil in Hi.
  - constructor.
Qed.

Lemma Push_evict q item old :
  name item <> "" -> exists_ q !! name item = Some old ->
  Push q item = Push (evict (name item) old q) item.
Proof.
  intros Hn Hold. unfold Push. rewrite bool_decide_eq_true_2 by done.
  rewrite Hold. simpl. rewrite lookup_delete_eq. simpl.
  by rewrite insert_delete_eq.
Qed.

Lemma set_idSeq_ok q n : queue_ok q -> idSeq q <= n -> queue_ok (set_idSeq n q).
Proof.
  intros [H1 H2 H3 H4 H5] Hle. split; try done.
  eapply Forall_impl; [exact H2|]. simpl. lia.
Qed.

Lemma fresh_idSeq q : queue_ok q -> idSeq q ∉ (id <$> waiting q ++ []).
Proof.
  intros [_ H2 _ _ _] (i & Hi & Hin)%list_elem_of_fmap.
  rewrite Forall_forall in H2. specialize (H2 i Hin). lia.
Qed.

Lemma QueueMsg_full q nm t p nt b :
  queue_ok q -> 0 <= idSeq q -> idSeq q + 1 < 2 ^ 64 -> encode_msg t p = Some b ->
  let q' := QueueMsg q nm t p nt in
  queue_ok q' /\ idSeq q' = idSeq q + 1 /\ TransmitScale q' = TransmitScale q /\
  exists kept,
    waiting q ≡ₚ List.filter (replaced nm) (waiting q) ++ kept /\
    Forall (fun i => replaced nm i = false) kept /\
    waiting q' ≡ₚ mkItem nm (idSeq q) 0 b nt :: kept /\
    finished q' = finished q ++ concat (map Finish (List.filter (replaced nm) (waiting q))).
Proof.
  intros Hok H0 Hov Henc. unfold QueueMsg. rewrite Henc.
  rewrite u64_small by lia. set (item := mkItem nm (idSeq q) 0 b nt).
  set (q0 := set_idSeq (idSeq q + 1) q). cbv zeta.
  assert (queue_ok q0) as Hok0 by (apply set_idSeq_ok; [done|lia]).
  pose proof (fresh_idSeq q Hok) as Hfresh.
  destruct (exists_ q0 !! nm) as [old|] eqn:Eold.
  - pose proof (proj1 (inv_exists _ _ Hok0 _ _) Eold) as (Hin & Hname & Hnm).
    rewrite (Push_evict q0 item old Hnm Eold).
    destruct (evict_spec q0 nm old Hok0 Eold) as [Hw Hok1].
    destruct (Push_fresh (evict nm old q0) [] item Hok1)
      as (Hw2 & Hok2 & Hts & Hid & Hfin).
    + intros Hx. apply Hfresh. rewrite app_nil_r in *.
      change (waiting q) with (waiting q0). rewrite Hw. simpl. right. exact Hx.
    + simpl. lia.
    + intros _. simpl. split; [by rewrite lookup_delete_eq|apply not_elem_of_nil].
    + split_and!; try done. exists (waiting (evict nm old q0)).
      assert (Forall (fun i => replaced nm i = false) (waiting (evict nm old q0))) as Hkept.
      { apply Forall_forall. intros i Hi. apply bool_decide_eq_false. intros [_ Hni].
        assert (exists_ (evict nm old q0) !! name i = Some i) as E.
        { apply (inv_exists _ _ Hok1). rewrite Hni. done. }
        rewrite Hni in E. simpl in E. by rewrite lookup_delete_eq in E. }
      assert (List.filter (replaced nm) (waiting q) = [old]) as Hrep.
      { apply Permutation_singleton_r. change (waiting q) with (waiting q0).
        rewrite Hw. simpl. unfold replaced at 1.
        rewrite bool_decide_eq_true_2 by done.
        by rewrite filter_none by (by apply Forall_forall). }
      rewrite Hrep. split_and!; try done.
      etrans; [exact Hfin|]. simpl. by rewrite app_nil_r.
  - destruct (Push_fresh q0 [] item Hok0) as (Hw2 & Hok2 & Hts & Hid & Hfin).
    + done.
    + simpl. lia.
    + intros _. split; [done|apply not_elem_of_nil].
    + split_and!; try done. exists (waiting q).
      assert (Forall (fun i => replaced nm i = false) (waiting q)) as Hkept.
      { apply Forall_forall. intros i Hi. apply bool_decide_eq_false. intros [Hnm Hni].
        assert (exists_ q0 !! name i = Some i) as E.
        { apply (inv_exists _ _ Hok0). by rewrite Hni. }
        rewrite Hni in E. congruence. }
      rewrite filter_none by (by apply Forall_forall).
      split_and!; try done. etrans; [exact Hfin|]. simpl. by rewrite app_nil_r.
Qed.

(** ** Shrinking the queue *)

Lemma resizeLoop_spec fuel size q :
  0 <= size -> queue_ok q -> (length (waiting q) < fuel)%nat ->
  exists q', resizeLoop fuel size q = Ret q' /\ queue_ok q' /\
             Len q' <= size /\ idSeq q' = idSeq q.
Proof.
  intros Hs. revert q. induction fuel as [|fuel IH]; intros q Hok Hf; [lia|]. simpl.
  destruct (Z.ltb_spec size (Len q)) as [Hlt|Hge]; [|by eauto].
  destruct (Pop q) as [[x q1]|] eqn:EP.
  - destruct (Pop_Some _ _ _ _ Hok EP) as (Hp & _ & Hinv & _ & Hid & _).
    rewrite Hp in Hf. simpl in Hf.
    destruct (IH (finish x q1)) as (q' & -> & Hok' & Hlen & Hid').
    { by eapply finish_inv, queue_inv_drop. }
    { change (waiting (finish x q1)) with (waiting q1). lia. }
    exists q'. split_and!; try done. by rewrite Hid'.
  - apply (Pop_None _ _ Hok) in EP. unfold Len in Hlt. rewrite contents_len in Hlt.
    unfold waiting in EP. rewrite EP in Hlt. simpl in Hlt. lia.
Qed.

Lemma Resize_spec q size :
  0 <= size -> queue_ok q ->
  exists q', Resize q size = Ret q' /\ queue_ok q' /\ Len q' <= size /\ idSeq q' = idSeq q.
Proof.
  intros Hs Hok. apply resizeLoop_spec; [done..|].
  unfold Len. rewrite contents_len. unfold waiting. lia.
Qed.

(** ** Histories *)

Inductive queue_op :=
| OpQueueMsg (nm : string) (t : msgType) (p : payload) (nt : option Z)
| OpGetMessages (numNodes overhead size : Z)
| OpResize (size : Z).

Definition queue_step (q : Q) (op : queue_op) : outcome Q :=
  match op with
  | OpQueueMsg nm t p nt => Ret (QueueMsg q nm t p nt)
  | OpGetMessages n ov size => outcome_map snd (GetMessages q n ov size)
  | OpResize size => Resize q size
  end.

Fixpoint queue_run (q : Q) (ops : list queue_op) : outcome Q :=
  match ops with
  | [] => Ret q
  | op :: ops => let! q := queue_step q op in queue_run q ops
  end.

(** The arguments the program calls with: no negative overhead or size. *)
Definition op_args_ok (op : queue_op) : Prop :=
  match op with
  | OpQueueMsg _ _ _ _ => True
  | OpGetMessages _ ov _ => 0 <= ov
  | OpResize size => 0 <= size
  end.

Lemma GetMessages_idSeq q n ov size msgs q' :
  GetMessages q n ov size = Ret (msgs, q') -> queue_ok q -> 0 <= ov -> 0 <= idSeq q ->
  0 <= idSeq q' <= idSeq q.
Proof.
  intros Hget Hok Hov H0. unfold GetMessages in Hget.
  case_match; [by simplify_eq; lia|].
  destruct (pickLoop_spec ov size Hov (S (Z.to_nat (Len q))) q [] 0 [] [])
    as (q1 & pk & np & Hrun & _ & Hi & _ & _ & Hid & _).
  { done. }
  { unfold Len. rewrite contents_len. unfold waiting. lia. }
  { lia. }
  rewrite Hrun in Hget. cbv zeta in Hget. simpl app in Hget.
  rewrite app_nil_r in Hi.
  destruct (pushAll_spec np q1 pk) as (_ & Hi1 & _ & Hid1 & _).
  { by rewrite Permutation_app_comm. }
  destruct (resendAll_spec (transmitLimit (TransmitScale (foldl Push q1 np)) n) pk
              (foldl Push q1 np) []) as (_ & _ & _ & Hid2 & _).
  { by rewrite app_nil_r. }
  case_match; simplify_eq; simpl; [lia|]. rewrite Hid2, Hid1, Hid. lia.
Qed.

Lemma queue_step_ok q op :
  queue_ok q -> 0 <= idSeq q -> idSeq q + 1 < 2 ^ 64 -> op_args_ok op ->
  exists q', queue_step q op = Ret q' /\ queue_ok q' /\ 0 <= idSeq q' <= idSeq q + 1.
Proof.
  intros Hok H0 Hov Hargs. destruct op as [nm t p nt|n ov size|size]; simpl in *.
  - exists (QueueMsg q nm t p nt). split; [done|].
    destruct (encode_msg t p) as [b|] eqn:E.
    + destruct (QueueMsg_full q nm t p nt b Hok H0 Hov E) as (Hok' & Hid & _).
      split; [done|lia].
    + unfold QueueMsg. rewrite E. split; [done|lia].
  - destruct (GetMessages_full q n ov size Hok Hargs)
      as (pk & rest & q' & Hget & _ & _ & _ & _ & Hok' & _).
    pose proof (GetMessages_idSeq _ _ _ _ _ _ Hget Hok Hargs H0).
    rewrite Hget. exists q'. split_and!; try done; lia.
  - destruct (Resize_spec q size Hargs Hok) as (q' & -> & Hok' & _ & Hid).
    exists q'. split_and!; try done; lia.
Qed.

Lemma queue_run_ok ops q :
  queue_ok q -> 0 <= idSeq q -> idSeq q + len ops < 2 ^ 64 -> Forall op_args_ok ops ->
  exists q', queue_run q ops = Ret q' /\ queue_ok q'.
Proof.
  revert q. induction ops as [|op ops IH]; intros q Hok H0 Hov Hargs; simpl; [eauto|].
  apply Forall_cons in Hargs as [Harg Hargs]. cbn [length] in Hov.
  destruct (queue_step_ok q op Hok H0) as (q' & -> & Hok' & Hid); [lia|done|].
  simpl. apply IH; try done; lia.
Qed.

Lemma NewBroadcastQueue_ok scale : queue_ok (NewBroadcastQueue scale).
Proof.
  unfold queue_ok. split; unfold waiting; simpl; rewrite ?contents_new; simpl.
  - constructor.
  - constructor.
  - intros nm i. rewrite lookup_empty. split; [done|].
    intros [Hi _]. by apply elem_of_nil in Hi.
  - intros i Hi. by apply elem_of_nil in Hi.
  - constructor.
Qed.

(** ** Draining *)

Definition weight1 (limit : Z) (i : TransmitCapItem) : nat :=
  Z.to_nat (Z.max 1 (limit - transmits i)).

Definition weight (limit : Z) (l : list TransmitCapItem) : nat :=
  sum_list_with (weight1 limit) l.

#[global] Instance weight_perm limit : Proper ((≡ₚ) ==> eq) (weight limit).
Proof. intros l l' Hp. unfold weight. induction Hp; simpl; lia. Qed.

Lemma weight_incr limit l :
  (weight limit (map incr (List.filter (survives limit) l)) + length l <= weight limit l)%nat.
Proof.
  unfold weight. induction l as [|x l IH]; simpl; [lia|].
  assert (1 <= weight1 limit x)%nat by (unfold weight1; lia).
  destruct (survives limit x) eqn:E; simpl; [|lia].
  assert (weight1 limit (incr x) + 1 = weight1 limit x)%nat.
  { unfold survives in E. unfold weight1. simpl. lia. }
  lia.
Qed.

Fixpoint getN (k : nat) (n ov size : Z) (q : Q) : outcome Q :=
  match k with
  | O => Ret q
  | S k => let! (_, q) := GetMessages q n ov size in getN k n ov size q
  end.

Definition fits_in (ov size : Z) (i : TransmitCapItem) : Prop := len (msg i) + ov <= size.

Lemma GetMessages_progress q n ov size :
  queue_ok q -> 0 <= ov -> 20 + ov <= size -> Forall (fits_in ov size) (waiting q) ->
  exists msgs q', GetMessages q n ov size = Ret (msgs, q') /\ queue_ok q' /\
    TransmitScale q' = TransmitScale q /\ Forall (fits_in ov size) (waiting q') /\
    let limit := transmitLimit (TransmitScale q) n in
    (weight limit (waiting q') + length msgs <= weight limit (waiting q))%nat /\
    (waiting q <> [] -> msgs <> []).
Proof.
  intros Hok Hov Hsz Hfit.
  destruct (GetMessages_full q n ov size Hok Hov)
    as (pk & rest & q' & Hget & Hw & Hw' & _ & Hts & Hok' & _ & _ & Hempty).
  exists (map msg pk), q'. rewrite Hw in Hfit. apply Forall_app in Hfit as [Hfp Hfr].
  cbv zeta. split_and!; try done.
  - rewrite Hw'. apply Forall_app. split; [|done].
    apply List.Forall_map, List.Forall_forall. intros i [Hi _]%List.filter_In.
    rewrite Forall_forall in Hfp. apply (Hfp i). by apply list_elem_of_In.
  - rewrite Hw', Hw. unfold weight. rewrite !sum_list_with_app, length_map.
    pose proof (weight_incr (transmitLimit (TransmitScale q) n) pk) as Hi.
    unfold weight in Hi. lia.
  - intros Hne Hm%map_eq_nil. destruct (Hempty Hm) as [?|[?|Hall]]; [lia..|].
    destruct (waiting q) as [|y l] eqn:E; [done|].
    specialize (Hall y ltac:(left)).
    assert (y ∈ pk ++ rest) as Hy by (rewrite <- Hw; left).
    rewrite Forall_forall in Hfr. rewrite Hm in Hy. specialize (Hfr y Hy).
    unfold fits_in in Hfr. lia.
Qed.

Lemma getN_drains k q n ov size :
  queue_ok q -> 0 <= ov -> 20 + ov <= size -> Forall (fits_in ov size) (waiting q) ->
  (weight (transmitLimit (TransmitScale q) n) (waiting q) <= k)%nat ->
  exists q', getN k n ov size q = Ret q' /\ waiting q' = [].
Proof.
  revert q. induction k as [|k IH]; intros q Hok Hov Hsz Hfit Hk; simpl.
  - exists q. split; [done|]. destruct (waiting q) as [|x l]; [done|].
    unfold weight in Hk. simpl in Hk. unfold weight1 in Hk at 1. lia.
  - destruct (GetMessages_progress q n ov size Hok Hov Hsz Hfit)
      as (msgs & q' & -> & Hok' & Hts & Hfit' & Hweight & Hprog).
    simpl. apply IH; try done. rewrite Hts.
    destruct (waiting q) as [|x l] eqn:E.
    + change (weight _ []) with 0%nat in Hweight. lia.
    + assert (msgs <> []) as Hne by by apply Hprog.
      destruct msgs; [done|]. cbn [length] in Hweight. lia.
Qed.

(** ** Properties *)

(** C32: every history of [QueueMsg], [GetMessages] and [Resize] calls on a
    new queue (fewer than 2^64 of them, with nonnegative overheads and sizes)
    runs without blocking or panicking and ends in a queue whose waiting
    items have distinct identifiers below the next one to be given, and whose
    name index maps each nonempty name to the one waiting item that bears it.
    The heap is therefore only ever used within its contract. *)
Theorem broadcast_queue_invariant scale ops :
  len ops < 2 ^ 64 -> Forall op_args_ok ops ->
  exists q, queue_run (NewBroadcastQueue scale) ops = Ret q /\ queue_ok q.
Proof.
  intros Hlen Hargs. apply queue_run_ok; try done. apply NewBroadcastQueue_ok.
Qed.

(** C4: [GetMessages] always returns. It takes some of the waiting items
    [pk], within the byte budget, and returns their messages; each of them
    goes back with one more transmission counted or, at the limit, leaves the
    queue and is signalled; the other items stay as they are. An item that is
    passed over in favour of one with lower priority would not have fitted
    into the room left by the items picked before it. *)
Theorem GetMessages_spec q n ov size :
  queue_ok q -> 0 <= ov ->
  exists pk rest q',
    GetMessages q n ov size = Ret (map msg pk, q') /\
    let limit := transmitLimit (TransmitScale q) n in
    waiting q ≡ₚ pk ++ rest /\
    waiting q' ≡ₚ map incr (List.filter (survives limit) pk) ++ rest /\
    finished q' = finished q ++
      concat (map Finish (List.filter (fun i => negb (survives limit i)) pk)) /\
    queue_ok q' /\
    used ov (map msg pk) <= Z.max 0 size /\
    (forall y, y ∈ rest -> forall z, z ∈ pk -> Less y z = true ->
       size < before ov pk y + len (msg y) + ov).
Proof.
  intros Hok Hov. destruct (GetMessages_full q n ov size Hok Hov)
    as (pk & rest & q' & Hget & Hw & Hw' & Hfin & _ & Hok' & Htot & Hpri & _).
  by exists pk, rest, q'.
Qed.

(** [QueueMsg] with a message that encodes puts it in the queue with no
    transmissions and a new identifier; a waiting message with the same
    nonempty name is removed and signalled, every other one stays. *)
Theorem QueueMsg_spec q nm t p nt b :
  queue_ok q -> 0 <= idSeq q -> idSeq q + 1 < 2 ^ 64 -> encode_msg t p = Some b ->
  let q' := QueueMsg q nm t p nt in
  queue_ok q' /\
  exists kept,
    waiting q ≡ₚ List.filter (replaced nm) (waiting q) ++ kept /\
    Forall (fun i => replaced nm i = false) kept /\
    waiting q' ≡ₚ mkItem nm (idSeq q) 0 b nt :: kept /\
    finished q' = finished q ++ concat (map Finish (List.filter (replaced nm) (waiting q))).
Proof.
  intros Hok H0 Hov Henc.
  destruct (QueueMsg_full q nm t p nt b Hok H0 Hov Henc) as (Hok' & _ & _ & Hrest).
  by split.
Qed.

(** C33: the queue drains. If every waiting message fits the packet on its
    own, then as many calls of [GetMessages] as there are transmissions left
    (at least one per message, at most the retransmission limit) empty it. *)
Theorem broadcast_queue_drains k q n ov size :
  queue_ok q -> 0 <= ov -> 20 + ov <= size -> Forall (fits_in ov size) (waiting q) ->
  (weight (transmitLimit (TransmitScale q) n) (waiting q) <= k)%nat ->
  exists q', getN k n ov size q = Ret q' /\ waiting q' = [].
Proof. apply getN_drains. Qed.

Lemma used_app ov l1 l2 : used ov (l1 ++ l2) = used ov l1 + used ov l2.
Proof. induction l1; simpl in *; lia. Qed.

Lemma used_user ov msgs :
  used ov (map (fun m => msgByte userMsg :: m) msgs) = used (ov + userMsgOverhead) msgs.
Proof.
  induction msgs as [|m msgs IH]; [done|].
  change (used ov (map (fun m => msgByte userMsg :: m) (m :: msgs)))
    with (len (msgByte userMsg :: m) + ov
          + used ov (map (fun m => msgByte userMsg :: m) msgs)).
  rewrite IH. unfold userMsgOverhead. unfold used. cbn [foldr length]. lia.
Qed.

Lemma getBroadcasts_full q ub n ov limit :
  queue_ok q -> 0 <= ov ->
  (forall get o l, ub = Some get -> used o (get o l) <= Z.max 0 l) ->
  exists msgs q',
    getBroadcasts q ub n ov limit = Ret (msgs, q') /\ queue_ok q' /\
    used ov msgs <= Z.max 0 limit.
Proof.
  intros Hok Hov Hub. unfold getBroadcasts.
  destruct (Z.leb_spec limit ov).
  { exists [], q. split_and!; try done. simpl. lia. }
  destruct (GetMessages_full q n ov limit Hok Hov)
    as (pk & rest & q' & -> & _ & _ & _ & _ & Hok' & Htot & _). simpl.
  unfold total in Htot. destruct ub as [get|]; [|by eauto].
  eexists _, q'. split_and!; [done|done|].
  rewrite used_app, used_user.
  specialize (Hub get (ov + userMsgOverhead) (limit - used ov (map msg pk)) eq_refl). lia.
Qed.

(** [getBroadcasts] keeps to its limit, the overhead per message
    included, when the user's delegate keeps to the limit it is given (one
    more byte of overhead per message, for the type byte). *)
Theorem getBroadcasts_budget q ub n ov limit :
  queue_ok q -> 0 <= ov ->
  (forall get o l, ub = Some get -> used o (get o l) <= Z.max 0 l) ->
  exists msgs q',
    getBroadcasts q ub n ov limit = Ret (msgs, q') /\ queue_ok q' /\
    used ov msgs <= Z.max 0 limit.
Proof. apply getBroadcasts_full. Qed.

End Facts.

(** The retransmission limit of a cluster of [n] nodes, computed in
    floating point, is [scale] times the number [k] of decimal digits needed
    to go past [n] ([10^(k-1) < n + 1 <= 10^k]), for up to 1023 nodes and a
    scale for which the product does not overflow. *)
Theorem transmitLimit_log10 scale n :
  1 <= n <= 1023 -> 0 <= scale < 2 ^ 60 ->
  exists k, transmitLimit scale n = scale * k /\ 1 <= k <= 4 /\
            10 ^ (k - 1) < n + 1 <= 10 ^ k.
Proof.
  intros Hn Hs. pose proof (log10_bracket_ok (n + 1) ltac:(lia)) as Hb.
  unfold log10_bracket in Hb. unfold transmitLimit.
  set (k := f64.ceil (f64.Log10 (f64.of_Z (n + 1)))) in *.
  rewrite !andb_true_iff, orb_true_iff, !Z.leb_le, Z.ltb_lt, Z.eqb_eq in Hb.
  destruct Hb as [[Hup [Hlow|]] Hk0]; [|lia].
  assert (1 <= k).
  { destruct (decide (k = 0)) as [E|]; [|lia]. rewrite E in Hup. simpl in Hup. lia. }
  assert (k <= 4).
  { destruct (decide (k <= 4)) as [|Hgt]; [done|].
    pose proof (Z.pow_le_mono_r 10 4 (k - 1)). lia. }
  exists k. split_and!; try done. apply i64_small. nia.
Qed.

Lemma transmitLimit_log10_witness :
  exists k, transmitLimit 4 100 = 4 * k /\ 1 <= k <= 4 /\
            10 ^ (k - 1) < 100 + 1 <= 10 ^ k.
Proof. apply (transmitLimit_log10 4 100); lia. Defined.

(** ** Witnesses, with the list heap and the enumeration codec *)

Section Witnesses.
#[local] Existing Instance item_heap.
#[local] Existing Instance item_heap_laws.
#[local] Existing Instance bit_codec.

Definition ex_queue : TransmitCapQueue :=
  QueueMsg (NewBroadcastQueue 4) "n1" deadMsg (PDead (mkDead 3 "n1" false)) (Some 7).

Lemma ex_queue_ok : queue_ok ex_queue.
Proof.
  destruct (QueueMsg_full (NewBroadcastQueue 4) "n1" deadMsg
    (PDead (mkDead 3 "n1" false)) (Some 7) _ (NewBroadcastQueue_ok 4)
    ltac:(done) ltac:(done) eq_refl) as (Hok & _).
  exact Hok.
Qed.

Lemma broadcast_queue_invariant_witness :
  exists q,
    queue_run (NewBroadcastQueue 4)
      [OpQueueMsg "n1" deadMsg (PDead (mkDead 3 "n1" false)) None;
       OpQueueMsg "n1" aliveMsg (PAlive (mkAlive 4 "n1" [] 7946 [])) (Some 1);
       OpGetMessages 3 2 1400; OpResize 0] = Ret q /\ queue_ok q.
Proof.
  apply (broadcast_queue_invariant 4
      [OpQueueMsg "n1" deadMsg (PDead (mkDead 3 "n1" false)) None;
       OpQueueMsg "n1" aliveMsg (PAlive (mkAlive 4 "n1" [] 7946 [])) (Some 1);
       OpGetMessages 3 2 1400; OpResize 0]).
  - simpl. lia.
  - repeat constructor; simpl; lia.
Defined.

Lemma GetMessages_spec_witness :
  exists pk rest q',
    GetMessages ex_queue 3 2 1400 = Ret (map msg pk, q') /\
    let limit := transmitLimit (TransmitScale ex_queue) 3 in
    waiting ex_queue ≡ₚ pk ++ rest /\
    waiting q' ≡ₚ map incr (List.filter (survives limit) pk) ++ rest /\
    finished q' = finished ex_queue ++
      concat (map Finish (List.filter (fun i => negb (survives limit i)) pk)) /\
    queue_ok q' /\
    used 2 (map msg pk) <= Z.max 0 1400 /\
    (forall y, y ∈ rest -> forall z, z ∈ pk -> Less y z = true ->
       1400 < before 2 pk y + len (msg y) + 2).
Proof. apply (GetMessages_spec ex_queue 3 2 1400); [apply ex_queue_ok|lia]. Defined.

Lemma QueueMsg_spec_witness :
  exists kept,
    waiting ex_queue ≡ₚ List.filter (replaced "n1") (waiting ex_queue) ++ kept /\
    finished (QueueMsg ex_queue "n1" suspectMsg (PSuspect (mkSuspect 4 "n1" "n2")) None)
      = [7].
Proof.
  destruct (QueueMsg_spec ex_queue "n1" suspectMsg (PSuspect (mkSuspect 4 "n1" "n2"))
    None _ ex_queue_ok ltac:(vm_compute; done) ltac:(vm_compute; done) eq_refl)
    as (_ & kept & Hw & _ & _ & Hfin).
  exists kept. split; [exact Hw|]. rewrite Hfin. vm_compute. reflexivity.
Defined.

Lemma broadcast_queue_drains_witness :
  exists q', getN 4 3 2 1400 ex_queue = Ret q' /\ waiting q' = [].
Proof.
  apply (broadcast_queue_drains 4 ex_queue 3 2 1400); [apply ex_queue_ok|lia|lia| |].
  - repeat constructor. vm_compute. discriminate.
  - vm_compute. lia.
Defined.

Lemma getBroadcasts_budget_witness :
  exists msgs q',
    getBroadcasts ex_queue (Some (fun o l => if o + 3 <=? l then [[x01; x02; x03]] else []))
      3 2 1400 = Ret (msgs, q') /\ queue_ok q' /\ used 2 msgs <= Z.max 0 1400.
Proof.
  apply (getBroadcasts_budget ex_queue _ 3 2 1400); [apply ex_queue_ok|lia|].
  intros get o l [= <-]. destruct (Z.leb_spec (o + 3) l); simpl; lia.
Defined.

End Witnesses.
