(* ===== verification/Config.v ===== *)
(** * Configuration and address filtering

    The [Config] record and its LAN defaults ([config.go]), and [IPAllowed]
    ([net_transport.go]) with the part of [net.IPNet] it uses. *)

From S2P Require Import Prelude Types.
From Stdlib Require Import Strings.Byte.

Record IPNet := mkIPNet { netIP : ip; netMask : list byte }.

(** Durations are in nanoseconds. *)
Module Cfg.
Record Config := mkConfig {
  ID : string;
  BindAddr : string;
  BindPort : Z;
  AdvertiseAddr : string;
  AdvertisePort : Z;
  CIDRsAllowed : list IPNet;
  Label : string;
  UDPBufferSize : Z;
  DNSConfigPath : string;
  EnableCompression : bool;
  EncryptionVersion : Z;
  TcpTimeout : Z;
  NumIndirectChecks : Z;
  PingTimeout : Z;
  ProbeInterval : Z;
  MaxRTT : Z;
  GossipNodes : Z;
  GossipInterval : Z;
  DeadNodeExpiredTimeout : Z;
  BroadcastWaitTimeout : Z;
  EventTimeout : Z;
  ReapInterval : Z;
  MaxPushPulls : Z;
  PushPullInterval : Z;
  MaxAwarenessHealth : Z;
  SuspicionMult : Z;
  SuspicionMaxTimeoutMult : Z;
  MaxLongRunQueueDepth : Z;
  QueueCheckInterval : Z;
  RetransmitMult : Z;
  Tags : list byte
}.
End Cfg.

Definition millisecond : Z := 1000000.
Definition second : Z := 1000 * millisecond.

Definition DefaultLANConfig : Cfg.Config := {|
  Cfg.ID := "";
  Cfg.BindAddr := "0.0.0.0";
  Cfg.BindPort := 7946;
  Cfg.AdvertiseAddr := "";
  Cfg.AdvertisePort := 7946;
  Cfg.CIDRsAllowed := [];
  Cfg.Label := "";
  Cfg.UDPBufferSize := 1400;
  Cfg.DNSConfigPath := "/etc/resolv.conf";
  Cfg.EnableCompression := true;
  Cfg.EncryptionVersion := 0;
  Cfg.TcpTimeout := 10 * second;
  Cfg.NumIndirectChecks := 3;
  Cfg.PingTimeout := 500 * millisecond;
  Cfg.ProbeInterval := 1100 * millisecond;
  Cfg.MaxRTT := 30 * millisecond;
  Cfg.GossipNodes := 3;
  Cfg.GossipInterval := 200 * millisecond;
  Cfg.DeadNodeExpiredTimeout := 30 * second;
  Cfg.BroadcastWaitTimeout := 3 * second;
  Cfg.EventTimeout := 5 * second;
  Cfg.ReapInterval := 3 * second;
  Cfg.MaxPushPulls := 128;
  Cfg.PushPullInterval := 30 * second;
  Cfg.MaxAwarenessHealth := 8;
  Cfg.SuspicionMult := 4;
  Cfg.SuspicionMaxTimeoutMult := 6;
  Cfg.MaxLongRunQueueDepth := 1024;
  Cfg.QueueCheckInterval := 30 * second;
  Cfg.RetransmitMult := 4;
  Cfg.Tags := []
|}.

(** ** [net.IP.To4] and [net.IPNet.Contains] *)

Definition To4 (a : ip) : option ip :=
  if (length a =? 4)%nat then Some a
  else if (length a =? 16)%nat
          && bool_decide (take 12 a = replicate 10 x00 ++ [xff; xff])
  then Some (drop 12 a) else None.

Definition networkNumberAndMask (n : IPNet) : ip * list byte :=
  let check (a : ip) :=
    if (length (netMask n) =? 4)%nat
    then if (length a =? 4)%nat then (a, netMask n) else ([], [])
    else if (length (netMask n) =? 16)%nat
    then if (length a =? 4)%nat then (a, drop 12 (netMask n)) else (a, netMask n)
    else ([], []) in
  match To4 (netIP n) with
  | Some a => check a
  | None => if (length (netIP n) =? 16)%nat then check (netIP n) else ([], [])
  end.

Fixpoint maskedEqual (nn m a : list byte) : bool :=
  match nn, m, a with
  | n :: nn, k :: m, b :: a =>
      (Z.land (b2z n) (b2z k) =? Z.land (b2z b) (b2z k)) && maskedEqual nn m a
  | _, _, _ => true
  end.

Definition Contains (n : IPNet) (a : ip) : bool :=
  let '(nn, m) := networkNumberAndMask n in
  let a := default a (To4 a) in
  if (length a =? length nn)%nat then maskedEqual nn m a else false.

Definition IPAllowed (c : Cfg.Config) (a : ip) : bool :=
  match Cfg.CIDRsAllowed c with
  | [] => true
  | nets => existsb (fun n => Contains n a) nets
  end.

(** 10.0.0.0/8 accepts its addresses, in both representations. *)
Example Contains_v4 :
  let n := mkIPNet [x0a; x00; x00; x00] [xff; x00; x00; x00] in
  Contains n [x0a; x01; x02; x03] = true /\
  Contains n (replicate 10 x00 ++ [xff; xff; x0a; x01; x02; x03]) = true /\
  Contains n [x0b; x01; x02; x03] = false.
Proof. vm_compute. done. Qed.
