(* ===== verification/NetAddr.v ===== *)
(** * Addresses ([hasPort], [parsePort], [GetAdvertiseAddr] of
    [net_transport.go]; [joinHostPort], [combineErrors] of [util.go])

    With what they use of Go's [net], [strconv] and [strings]. A string is
    handled as the list of its characters. An error is [None]: the callers
    only test for it. *)

From S2P Require Import Prelude Types Config.
From Stdlib Require Import Strings.Byte.
From Stdlib Require Import Ascii.

Abbreviation chars := (list ascii).
Definition chr (s : string) : chars := String.list_ascii_of_string s.
Definition str (l : chars) : string := String.string_of_list_ascii l.

Lemma chr_str l : chr (str l) = l.
Proof. apply String.list_ascii_of_string_of_list_ascii. Qed.
Lemma str_chr s : str (chr s) = s.
Proof. apply String.string_of_list_ascii_of_string. Qed.

#[local] Open Scope char_scope.
#[local] Open Scope Z_scope.

(** ** [strings] *)

Fixpoint IndexByte (l : chars) (c : ascii) : Z :=
  match l with
  | [] => -1
  | x :: l =>
      if bool_decide (x = c) then 0
      else let i := IndexByte l c in if i <? 0 then -1 else i + 1
  end.

Fixpoint LastIndexByte (l : chars) (c : ascii) : Z :=
  match l with
  | [] => -1
  | x :: l =>
      let i := LastIndexByte l c in
      if 0 <=? i then i + 1 else if bool_decide (x = c) then 0 else -1
  end.

Definition Count (l : chars) (c : ascii) : Z :=
  len (List.filter (fun x => bool_decide (x = c)) l).

Definition hasPort (l : chars) : bool :=
  if LastIndexByte l "[" =? 0 then LastIndexByte l "]" <? LastIndexByte l ":"
  else Count l ":" =? 1.

(** ** [strconv] *)

Definition digit (c : ascii) : option Z :=
  let n := Z.of_nat (nat_of_ascii c) in
  if (48 <=? n) && (n <=? 57) then Some (n - 48) else None.

Definition digitChar (d : Z) : ascii := ascii_of_nat (Z.to_nat (d + 48)).

(** [ParseUint(s, 10, bits)]; the running value never gets beyond the bound
    by more than one digit. *)
Fixpoint parseDigits (bound acc : Z) (l : chars) : option Z :=
  match l with
  | [] => Some acc
  | c :: l =>
      match digit c with
      | None => None
      | Some d =>
          let acc := acc * 10 + d in
          if bound <=? acc then None else parseDigits bound acc l
      end
  end.

Definition ParseUint (l : chars) (bits : Z) : option Z :=
  match l with [] => None | _ => parseDigits (2 ^ bits) 0 l end.

(** [Itoa] of a number below [10 ^ fuel]. *)
Fixpoint itoa (fuel : nat) (n : Z) (acc : chars) : chars :=
  match fuel with
  | O => acc
  | S fuel =>
      let acc := digitChar (n mod 10) :: acc in
      if n <? 10 then acc else itoa fuel (n / 10) acc
  end.

Definition Itoa (n : Z) : chars := itoa 20 n [].

(** ** [net] *)

Definition has (c : ascii) (l : chars) : bool := 0 <=? IndexByte l c.

Definition SplitHostPort (hostport : chars) : option (chars * chars) :=
  let i := LastIndexByte hostport ":" in
  if i <? 0 then None
  else
    let r :=
      match hostport with
      | "[" :: _ =>
          let e := IndexByte hostport "]" in
          if e <? 0 then None
          else if e + 1 =? len hostport then None
          else if e + 1 =? i
          then Some (take (Z.to_nat e - 1) (drop 1 hostport), 1, e + 1)
          else None
      | _ =>
          let host := take (Z.to_nat i) hostport in
          if has ":" host then None else Some (host, 0, 0)
      end in
    match r with
    | None => None
    | Some (host, j, k) =>
        if has "[" (drop (Z.to_nat j) hostport) then None
        else if has "]" (drop (Z.to_nat k) hostport) then None
        else Some (host, drop (Z.to_nat (i + 1)) hostport)
    end.

Definition JoinHostPort (host port : chars) : chars :=
  if has ":" host then "[" :: host ++ "]" :: ":" :: port else host ++ ":" :: port.

Definition joinHostPort (host : chars) (port : Z) : chars := JoinHostPort host (Itoa port).

Definition parsePort (s : chars) : option (chars * Z) :=
  match SplitHostPort s with
  | None => None
  | Some (host, sport) =>
      match ParseUint sport 16 with
      | None => None
      | Some iport => Some (host, u16 iport)
      end
  end.

(** The fields of a dotted IPv4 address. *)
Fixpoint parseIPv4Fields (l : chars) (start : bool) (val digLen pos : Z) (fields : list Z)
    : option (list Z) :=
  match l with
  | [] => if pos <? 3 then None else Some (fields ++ [u8 val])
  | c :: l =>
      match digit c with
      | Some d =>
          if (digLen =? 1) && (val =? 0) then None
          else
            let val := val * 10 + d in
            if 255 <? val then None
            else parseIPv4Fields l false val (digLen + 1) pos fields
      | None =>
          if bool_decide (c = ".") then
            (* at the start, at the end, or after another dot *)
            if start || (digLen =? 0) || bool_decide (l = []) then None
            else if pos =? 3 then None
            else parseIPv4Fields l false 0 0 (pos + 1) (fields ++ [u8 val])
          else None
      end
  end.

Definition hexDigit (c : ascii) : option Z :=
  let n := Z.of_nat (nat_of_ascii c) in
  if (48 <=? n) && (n <=? 57) then Some (n - 48)
  else if (97 <=? n) && (n <=? 102) then Some (n - 97 + 10)
  else if (65 <=? n) && (n <=? 70) then Some (n - 65 + 10)
  else None.

(** One group of hexadecimal digits: its value, length, and the rest. *)
Fixpoint hexGroup (l : chars) (off acc : Z) : option (Z * Z * chars) :=
  match l with
  | [] => Some (acc, off, [])
  | c :: l' =>
      match hexDigit c with
      | None => Some (acc, off, l)
      | Some d =>
          let acc := acc * 16 + d in
          if 3 <? off then None
          else if 65535 <? acc then None
          else hexGroup l' (off + 1) acc
      end
  end.

(** The groups of an IPv6 address from byte [i] on: the bytes, the place of
    the ellipsis ([-1] if there is none yet), and what is left unread. *)
Fixpoint parseIPv6Groups (fuel : nat) (s : chars) (i ellipsis : Z) (acc : list Z)
    : option (list Z * Z * chars) :=
  match fuel with
  | O => Some (acc, ellipsis, s)
  | S fuel =>
      match hexGroup s 0 0 with
      | None => None
      | Some (v, off, rest) =>
          if off =? 0 then None
          else
            match rest with
            | "." :: _ =>
                if (ellipsis <? 0) && negb (i =? 12) then None
                else if 16 <? i + 4 then None
                else
                  match parseIPv4Fields s true 0 0 0 [] with
                  | None => None
                  | Some f => Some (acc ++ f, ellipsis, [])
                  end
            | _ =>
                let acc := acc ++ [v / 256; v mod 256] in
                let i := i + 2 in
                match rest with
                | [] => Some (acc, ellipsis, [])
                | ":" :: [] => None
                | ":" :: ":" :: s =>
                    if 0 <=? ellipsis then None
                    else match s with
                         | [] => Some (acc, i, [])
                         | _ => parseIPv6Groups fuel s i i acc
                         end
                | ":" :: s => parseIPv6Groups fuel s i ellipsis acc
                | _ => None
                end
            end
      end
  end.

Definition expandIPv6 (acc : list Z) (ellipsis : Z) (rest : chars) : option (list Z) :=
  if negb (bool_decide (rest = [])) then None
  else if len acc <? 16 then
    if ellipsis <? 0 then None
    else Some (take (Z.to_nat ellipsis) acc ++ replicate (16 - length acc) 0
               ++ drop (Z.to_nat ellipsis) acc)
  else if 0 <=? ellipsis then None
  else Some acc.

Definition parseIPv6 (s : chars) : option (list Z) :=
  match s with
  | ":" :: ":" :: [] => Some (replicate 16 0)
  | ":" :: ":" :: s =>
      match parseIPv6Groups 8 s 0 0 [] with
      | Some (acc, e, rest) => expandIPv6 acc e rest
      | None => None
      end
  | _ =>
      match parseIPv6Groups 8 s 0 (-1) [] with
      | Some (acc, e, rest) => expandIPv6 acc e rest
      | None => None
      end
  end.

(** The first dot, colon or percent sign decides the family. *)
Fixpoint family (l : chars) : option ascii :=
  match l with
  | [] => None
  | c :: l =>
      if bool_decide (c = ".") || bool_decide (c = ":") || bool_decide (c = "%")
      then Some c else family l
  end.

Definition v4InV6Prefix : list Z := replicate 10 0 ++ [255; 255].

(** [ParseIP]: 16 bytes; an address with a zone is refused. *)
Definition ParseIP (s : string) : option ip :=
  let l := chr s in
  let r :=
    match family l with
    | Some "." =>
        match parseIPv4Fields l true 0 0 0 [] with
        | Some f => Some (v4InV6Prefix ++ f)
        | None => None
        end
    | Some ":" => if has "%" l then None else parseIPv6 l
    | _ => None
    end in
  match r with Some bs => Some (map z2b bs) | None => None end.

(** [GetAdvertiseAddr]. *)
Definition GetAdvertiseAddr (c : Cfg.Config) : option (ip * Z) :=
  match ParseIP (Cfg.AdvertiseAddr c) with
  | None => None
  | Some a => Some (a, u16 (Cfg.AdvertisePort c))
  end.

(** [combineErrors]: the messages joined by semicolons; [None] is nil. *)
Fixpoint joinSemi (errs : list chars) : chars :=
  match errs with
  | [] => []
  | e :: errs => e ++ ";" :: joinSemi errs
  end.

Definition TrimSuffix (s suffix : chars) : chars :=
  let n := (length s - length suffix)%nat in
  if bool_decide (drop n s = suffix) then take n s else s.

Definition combineErrors (errs : list chars) : option chars :=
  match errs with
  | [] => None
  | _ => Some (TrimSuffix (joinSemi errs) [";"])
  end.

Example ParseIP_v4 :
  (map b2z <$> ParseIP "127.0.0.1"%string)
  = Some (replicate 10 0 ++ [255; 255; 127; 0; 0; 1]).
Proof. reflexivity. Qed.

Example ParseIP_v6 :
  (map b2z <$> ParseIP "2001:db8::ff00:42:8329"%string)
  = Some [32; 1; 13; 184; 0; 0; 0; 0; 0; 0; 255; 0; 0; 66; 131; 41].
Proof. reflexivity. Qed.

Example ParseIP_bad :
  map ParseIP ["127.0.0"%string; "127.0.0.256"%string; "01.2.3.4"%string; "::1::"%string; ":1"%string; "1:2:3:4:5:6:7:8:9"%string;
               "fe80::1%eth0"%string; "host"%string; ""%string]
  = replicate 9 None.
Proof. reflexivity. Qed.

Example hasPort_tests :
  map (fun s => hasPort (chr s))
    ["127.0.0.1:80"%string; "127.0.0.1"%string; "[::1]:80"%string; "[::1]"%string; "::1"%string; "::1:80"%string]
  = [true; false; true; false; false; false].
Proof. reflexivity. Qed.

(** ** Searching *)

Lemma IndexByte_range l c : -1 <= IndexByte l c < len l.
Proof. induction l as [|x l IH]; simpl; [lia|]. repeat case_match; lia. Qed.

Lemma IndexByte_absent l c : c ∉ l -> IndexByte l c = -1.
Proof.
  induction l as [|x l IH]; [done|]. simpl. rewrite not_elem_of_cons. intros [Hne Hl].
  rewrite bool_decide_eq_false_2 by done. by rewrite IH.
Qed.

Lemma IndexByte_at l1 c l2 : c ∉ l1 -> IndexByte (l1 ++ c :: l2) c = len l1.
Proof.
  induction l1 as [|x l1 IH]; simpl; [by rewrite bool_decide_eq_true_2|].
  rewrite not_elem_of_cons. intros [Hne Hl]. rewrite bool_decide_eq_false_2 by done.
  rewrite IH by done. case_match; lia.
Qed.

Lemma LastIndexByte_absent l c : c ∉ l -> LastIndexByte l c = -1.
Proof.
  induction l as [|x l IH]; [done|]. simpl. rewrite not_elem_of_cons. intros [Hne Hl].
  rewrite IH by done. simpl. by rewrite bool_decide_eq_false_2.
Qed.

Lemma LastIndexByte_at l1 c l2 : c ∉ l2 -> LastIndexByte (l1 ++ c :: l2) c = len l1.
Proof.
  intros H2. induction l1 as [|x l1 IH]; simpl.
  - rewrite LastIndexByte_absent by done. simpl. by rewrite bool_decide_eq_true_2.
  - rewrite IH. case_match; lia.
Qed.

Lemma has_spec c l : has c l = true <-> c ∈ l.
Proof.
  unfold has. split.
  - intros H. destruct (decide (c ∈ l)); [done|]. by rewrite IndexByte_absent in H.
  - intros H. apply list_elem_of_split_l in H as (l1 & l2 & -> & H1).
    rewrite IndexByte_at by done. apply Z.leb_le; lia.
Qed.

Lemma has_false c l : has c l = false <-> c ∉ l.
Proof. rewrite <- has_spec. by destruct (has c l). Qed.

(** ** Decimal numbers *)

Definition digitVal (c : ascii) : Z := default 0 (digit c).
Definition decimal (acc : Z) (l : chars) : Z :=
  foldl (fun a c => a * 10 + digitVal c) acc l.
Definition is_digit (c : ascii) : Prop := is_Some (digit c).

Lemma digit_digitChar d : 0 <= d < 10 -> digit (digitChar d) = Some d.
Proof.
  intros Hd. unfold digit, digitChar. rewrite nat_ascii_embedding by lia.
  rewrite Z2Nat.id by lia. rewrite !(proj2 (Z.leb_le _ _)) by lia. simpl. f_equal. lia.
Qed.

Lemma digit_range c d : digit c = Some d -> 0 <= d < 10.
Proof. unfold digit. intros H. repeat case_match; simplify_eq. lia. Qed.

Lemma decimal_ge l acc : 0 <= acc -> Forall is_digit l -> acc <= decimal acc l.
Proof.
  intros Ha H. revert acc Ha. induction H as [|c l [d Hd] _ IH]; intros acc Ha; simpl; [lia|].
  unfold digitVal. rewrite Hd. simpl. apply digit_range in Hd.
  etrans; [|apply IH; lia]. lia.
Qed.

Lemma decimal_cons acc c d l :
  digit c = Some d -> decimal acc (c :: l) = decimal (acc * 10 + d) l.
Proof. intros Hd. unfold decimal, digitVal. simpl. by rewrite Hd. Qed.

Lemma parseDigits_decimal bound l acc :
  0 <= acc -> Forall is_digit l -> decimal acc l < bound ->
  parseDigits bound acc l = Some (decimal acc l).
Proof.
  intros Ha H. revert acc Ha. induction H as [|c l [d Hd] Hl IH]; intros acc Ha Hb; [done|].
  cbn [parseDigits]. rewrite (decimal_cons _ _ _ _ Hd) in *. rewrite Hd.
  pose proof (digit_range _ _ Hd) as Hr.
  pose proof (decimal_ge l (acc * 10 + d) ltac:(lia) Hl) as Hge.
  zcmp. apply IH; [lia|done].
Qed.

Lemma itoa_spec fuel n acc :
  0 <= n < 10 ^ Z.of_nat fuel ->
  exists ds, itoa fuel n acc = ds ++ acc /\ (fuel <> 0%nat -> ds <> []) /\
    Forall is_digit ds /\ decimal 0 ds = n.
Proof.
  revert n acc. induction fuel as [|fuel IH]; intros n acc Hn.
  { exists []. simpl in Hn. split_and!; [done..|]. simpl. lia. }
  cbn [itoa]. pose proof (Z.mod_pos_bound n 10).
  assert (is_digit (digitChar (n mod 10))) as Hd by (unfold is_digit; rewrite digit_digitChar by lia; eauto).
  destruct (Z.ltb_spec n 10).
  - exists [digitChar (n mod 10)]. split_and!; [done..|by repeat constructor|].
    unfold decimal, digitVal. simpl. rewrite digit_digitChar by lia. simpl.
    rewrite Z.mod_small; lia.
  - destruct (IH (n / 10) (digitChar (n mod 10) :: acc)) as (ds & E & _ & Hds & Hv).
    { rewrite Nat2Z.inj_succ, Z.pow_succ_r in Hn by lia.
      split; [apply Z.div_pos; lia|]. apply Z.div_lt_upper_bound; lia. }
    exists (ds ++ [digitChar (n mod 10)]). rewrite E, <- app_assoc. split_and!; [done|..].
    + by destruct ds.
    + apply Forall_app. by repeat constructor.
    + unfold decimal in *. rewrite foldl_app, Hv. simpl. unfold digitVal.
      rewrite digit_digitChar by lia. simpl. pose proof (Z.div_mod n 10). lia.
Qed.

Lemma Itoa_spec n :
  0 <= n < 10 ^ 20 -> Itoa n <> [] /\ Forall is_digit (Itoa n) /\ decimal 0 (Itoa n) = n.
Proof.
  intros Hn. destruct (itoa_spec 20 n [] Hn) as (ds & E & Hne & Hd & Hv).
  unfold Itoa. rewrite E, app_nil_r. split_and!; auto.
Qed.

Lemma ParseUint_Itoa n bits :
  0 <= n < 2 ^ bits -> 2 ^ bits <= 10 ^ 20 -> ParseUint (Itoa n) bits = Some n.
Proof.
  intros Hn Hb. destruct (Itoa_spec n) as (Hne & Hd & Hv); [lia|].
  unfold ParseUint. destruct (Itoa n) as [|c l]; [done|].
  rewrite parseDigits_decimal; [by f_equal|lia|done|]. rewrite Hv. lia.
Qed.

Lemma not_in_digits c l : Forall is_digit l -> digit c = None -> c ∉ l.
Proof.
  intros H Hc Hin. apply (proj1 (Forall_forall _ _) H) in Hin as [d Hd]. congruence.
Qed.

(** ** Host and port *)

Lemma SplitHostPort_Join host port :
  "[" ∉ host -> "]" ∉ host -> "[" ∉ port -> "]" ∉ port -> ":" ∉ port ->
  SplitHostPort (JoinHostPort host port) = Some (host, port).
Proof.
  intros H1 H2 H3 H4 H5. unfold JoinHostPort. destruct (has ":" host) eqn:Eh.
  - set (s := "[" :: host ++ "]" :: ":" :: port).
    assert (LastIndexByte s ":" = len host + 2) as El.
    { unfold s. change ("[" :: host ++ "]" :: ":" :: port)
        with (("[" :: host) ++ ["]"] ++ ":" :: port).
      rewrite app_assoc, LastIndexByte_at by done. rewrite length_app. simpl. lia. }
    assert (IndexByte s "]" = len host + 1) as Ei.
    { unfold s. change ("[" :: host ++ "]" :: ":" :: port)
        with (("[" :: host) ++ "]" :: ":" :: port).
      rewrite IndexByte_at; [simpl; lia|]. rewrite not_elem_of_cons. done. }
    unfold SplitHostPort. rewrite El, Ei. unfold s.
    zcmp. cbv zeta iota.
    zcmp.
    rewrite (proj2 (Z.eqb_neq _ _)) by (simpl; rewrite length_app; simpl; lia).
    zcmp.
    replace (Z.to_nat (len host + 1) - 1)%nat with (length host) by lia.
    cbn [drop]; rewrite ?drop_0.
    rewrite take_app_length.
    replace (Z.to_nat 1) with 1%nat by lia. cbn [drop]; rewrite ?drop_0.
    replace (Z.to_nat (len host + 1 + 1)) with (S (S (length host)))%nat by lia.
    replace (Z.to_nat (len host + 2 + 1)) with (S (S (S (length host))))%nat by lia.
    cbn [drop]; rewrite ?drop_0.
    rewrite (proj2 (has_false "[" _)) by (rewrite elem_of_app, !elem_of_cons; naive_solver).
    replace (S (length host)) with (length host + 1)%nat by lia.
    rewrite drop_app_add. cbn [drop]; rewrite ?drop_0.
    rewrite (proj2 (has_false "]" _)) by (rewrite elem_of_cons; naive_solver).
    replace (S (length host + 1)) with (length host + 2)%nat by lia.
    by rewrite drop_app_add.
  - apply has_false in Eh. unfold SplitHostPort.
    rewrite LastIndexByte_at by done. zcmp. cbv zeta.
    rewrite Nat2Z.id, take_app_length, (proj2 (has_false ":" host) Eh).
    assert (forall X Y : option (chars * Z * Z),
      match host ++ ":" :: port with "[" :: _ => X | _ => Y end = Y) as Hm.
    { intros X Y. destruct host as [|c host]; [done|]. simpl.
      rewrite not_elem_of_cons in H1. destruct c as [[] [] [] [] [] [] [] []]; naive_solver. }
    rewrite Hm. change (Z.to_nat 0) with 0%nat. cbn [drop]; rewrite ?drop_0.
    rewrite !(proj2 (has_false _ _)) by (rewrite elem_of_app, elem_of_cons; naive_solver).
    replace (Z.to_nat (len host + 1)) with (length host + 1)%nat by lia.
    by rewrite drop_app_add.
Qed.

Lemma parsePort_join host port :
  "[" ∉ host -> "]" ∉ host -> 0 <= port < 2 ^ 16 ->
  parsePort (joinHostPort host port) = Some (host, port).
Proof.
  intros H1 H2 Hp. unfold parsePort, joinHostPort.
  destruct (Itoa_spec port) as (_ & Hd & _); [lia|].
  rewrite SplitHostPort_Join by (done || by apply (not_in_digits _ _ Hd)).
  rewrite ParseUint_Itoa by lia. unfold u16. by rewrite Z.mod_small by lia.
Qed.

(** An address printed by [joinHostPort] is read back by [parsePort]
    with the same host and port, for every host without square brackets
    (IPv6 addresses, which contain colons, included) and every 16-bit port. *)
Theorem joinHostPort_roundtrip host port :
  "[" ∉ host -> "]" ∉ host -> 0 <= port < 2 ^ 16 ->
  parsePort (joinHostPort host port) = Some (host, port).
Proof. apply parsePort_join. Qed.

Lemma joinHostPort_roundtrip_witness :
  parsePort (joinHostPort (chr "fe80::1"%string) 7946) = Some (chr "fe80::1"%string, 7946).
Proof.
  apply (joinHostPort_roundtrip (chr "fe80::1"%string) 7946); [..|lia];
    apply has_false; reflexivity.
Defined.
