(* ===== verification/IPText.v ===== *)
(** * IP addresses as text ([net.IP.String], [net.UDPAddr.String])

    What the code prints of addresses with Go's [net], and that
    [net.ParseIP] reads it back: dotted decimals for IPv4 (also for IPv4
    addresses in their 16-byte form), and hexadecimal groups with the longest
    run of zero groups left out for IPv6. *)

From S2P Require Import Prelude Types Config NetAddr.
From Stdlib Require Import Strings.Byte.
From Stdlib Require Import Ascii.

#[local] Open Scope char_scope.
#[local] Open Scope Z_scope.

(** ** Printing *)

Definition hexChar (d : Z) : ascii :=
  if d <? 10 then digitChar d else ascii_of_nat (Z.to_nat (d - 10 + 97)).

(** A 16-bit group, without leading zeros. *)
Definition appendHex (x : Z) : chars :=
  (if 4096 <=? x then [hexChar (Z.shiftr x 12)] else [])
  ++ (if 256 <=? x then [hexChar (Z.land (Z.shiftr x 8) 15)] else [])
  ++ (if 16 <=? x then [hexChar (Z.land (Z.shiftr x 4) 15)] else [])
  ++ [hexChar (Z.land x 15)].

(** Pairs of bytes as big-endian 16-bit numbers. *)
Fixpoint v6u16 (bs : list byte) : list Z :=
  match bs with
  | a :: b :: bs => b2z a * 256 + b2z b :: v6u16 bs
  | _ => []
  end.

(** The number of zeros at the front. *)
Fixpoint zeros (gs : list Z) : nat :=
  match gs with
  | g :: gs => if g =? 0 then S (zeros gs) else 0%nat
  | [] => 0%nat
  end.

(** The first of the longest runs of at least two zero groups: where it
    starts and ends; [gs] are the groups from [i] on. *)
Fixpoint zeroRun (gs : list Z) (i : nat) (best : option (nat * nat)) : option (nat * nat) :=
  match gs with
  | [] => best
  | _ :: gs' =>
      let l := zeros gs in
      let best :=
        if (2 <=? l)%nat && (match best with Some (s, e) => e - s | None => 0 end <? l)%nat
        then Some (i, i + l)%nat else best in
      zeroRun gs' (S i) best
  end.

Fixpoint joinGroups (gs : list Z) : chars :=
  match gs with
  | [] => []
  | [g] => appendHex g
  | g :: gs => appendHex g ++ ":" :: joinGroups gs
  end.

Definition string6 (a : ip) : chars :=
  let gs := v6u16 a in
  match zeroRun gs 0 None with
  | None => joinGroups gs
  | Some (s, e) => joinGroups (take s gs) ++ ":" :: ":" :: joinGroups (drop e gs)
  end.

Fixpoint string4 (a : ip) : chars :=
  match a with
  | [] => []
  | [b] => Itoa (b2z b)
  | b :: a => Itoa (b2z b) ++ "." :: string4 a
  end.

(** Two digits for each byte. *)
Definition hexString (bs : list byte) : chars :=
  concat (map (fun b => [hexChar (Z.shiftr (b2z b) 4); hexChar (Z.land (b2z b) 15)]) bs).

(** [net.IP.String]. *)
Definition IPString (a : ip) : chars :=
  if (length a =? 0)%nat then chr "<nil>"
  else if negb (length a =? 4)%nat && negb (length a =? 16)%nat then "?" :: hexString a
  else match To4 a with Some a4 => string4 a4 | None => string6 a end.

(** [net.UDPAddr.String], without a zone. *)
Definition UDPAddrString (u : UDPAddr) : chars :=
  let '(mkUDPAddr a p) := u in
  JoinHostPort (if (length a =? 0)%nat then [] else IPString a) (Itoa p).

(** [net.IP.To16]. *)
Definition To16 (a : ip) : ip :=
  if (length a =? 4)%nat then map z2b v4InV6Prefix ++ a else a.

Example IPString_tests :
  map (fun l => str (IPString (map z2b l)))
    [[127; 0; 0; 1]; replicate 10 0 ++ [255; 255; 10; 0; 20; 3]; replicate 15 0 ++ [1]; replicate 16 0;
     [32; 1; 13; 184; 0; 0; 0; 0; 0; 1; 0; 0; 0; 0; 0; 1]; [254; 128; 0; 0; 0; 1; 0; 0; 0; 0; 0; 2; 0; 0; 0; 0];
     [32; 1; 0; 0; 0; 1; 0; 2; 0; 3; 0; 4; 0; 5; 240; 10]; []; [1; 2; 171]]
  = ["127.0.0.1"; "10.0.20.3"; "::1"; "::"; "2001:db8::1:0:0:1"; "fe80:0:1::2:0:0";
     "2001:0:1:2:3:4:5:f00a"; "<nil>"; "?0102ab"]%string.
Proof. reflexivity. Qed.

(** ** Reading groups back *)

Definition not_hex (l : chars) : Prop :=
  match l with [] => True | c :: _ => hexDigit c = None end.

Definition hexVal (acc : Z) (ds : list Z) : Z := foldl (fun a d => a * 16 + d) acc ds.

Lemma hexDigit_hexChar d : 0 <= d < 16 -> hexDigit (hexChar d) = Some d.
Proof.
  intros Hd. assert (d = 0 \/ d = 1 \/ d = 2 \/ d = 3 \/ d = 4 \/ d = 5 \/ d = 6 \/ d = 7 \/
    d = 8 \/ d = 9 \/ d = 10 \/ d = 11 \/ d = 12 \/ d = 13 \/ d = 14 \/ d = 15) by lia.
  by destruct_or!; subst d.
Qed.

Lemma hexGroup_digits ds rest off acc :
  Forall (fun d => 0 <= d < 16) ds -> not_hex rest ->
  0 <= off -> off + len ds <= 4 -> 0 <= acc < 16 ^ off ->
  hexGroup (map hexChar ds ++ rest) off acc = Some (hexVal acc ds, off + len ds, rest).
Proof.
  intros Hds Hr. revert off acc. induction Hds as [|d ds Hd Hds IH]; intros off acc Ho Hl Ha.
  - simpl. rewrite Z.add_0_r. destruct rest as [|c rest]; [done|]. simpl in Hr. simpl. by rewrite Hr.
  - cbn [map app hexGroup]. rewrite hexDigit_hexChar by done. simpl length in Hl.
    assert (acc * 16 + d < 16 ^ (off + 1)) by (rewrite Z.pow_add_r by lia; lia).
    assert (16 ^ (off + 1) <= 16 ^ 4) by (apply Z.pow_le_mono_r; lia).
    change (16 ^ 4) with 65536 in *. zcmp. zcmp.
    rewrite IH by lia. simpl length. unfold hexVal. cbn [foldl]. do 3 f_equal. lia.
Qed.

Definition hexDigits (x : Z) : list Z :=
  (if 4096 <=? x then [x / 4096] else [])
  ++ (if 256 <=? x then [x / 256 mod 16] else [])
  ++ (if 16 <=? x then [x / 16 mod 16] else [])
  ++ [x mod 16].

Lemma appendHex_digits x : 0 <= x -> appendHex x = map hexChar (hexDigits x).
Proof.
  intros Hx. unfold appendHex, hexDigits.
  change 15 with (Z.ones 4). rewrite !Z.land_ones, !Z.shiftr_div_pow2 by lia.
  change (2 ^ 4) with 16. change (2 ^ 8) with 256. change (2 ^ 12) with 4096.
  rewrite !map_app. by repeat case_match.
Qed.

Lemma hexDigits_spec x :
  0 <= x < 65536 ->
  Forall (fun d => 0 <= d < 16) (hexDigits x) /\ 1 <= len (hexDigits x) <= 4 /\
  hexVal 0 (hexDigits x) = x.
Proof.
  intros Hx. unfold hexDigits.
  assert (0 <= x / 4096 < 16) by (split; [apply Z.div_pos; lia|apply Z.div_lt_upper_bound; lia]).
  assert (Forall (fun d => 0 <= d < 16) [x / 256 mod 16; x / 16 mod 16; x mod 16]) as Hm
    by (repeat constructor; apply Z.mod_pos_bound; lia).
  rewrite !Forall_cons in Hm. destruct Hm as (? & ? & ? & _).
  assert (x / 256 = x / 16 / 16 /\ x / 4096 = x / 16 / 16 / 16) as [E1 E2]
    by (by rewrite !Z.div_div).
  pose proof (Z.div_mod x 16 ltac:(lia)). pose proof (Z.div_mod (x / 16) 16 ltac:(lia)).
  pose proof (Z.div_mod (x / 16 / 16) 16 ltac:(lia)).
  rewrite E1, E2 in *.
  destruct (Z.leb_spec 4096 x), (Z.leb_spec 256 x), (Z.leb_spec 16 x); try lia;
    (split; [repeat constructor; lia|split; [simpl; lia|]]); unfold hexVal; simpl; lia.
Qed.

Lemma hexGroup_append x rest :
  0 <= x < 65536 -> not_hex rest ->
  exists n, 0 < n /\ hexGroup (appendHex x ++ rest) 0 0 = Some (x, n, rest).
Proof.
  intros Hx Hr. destruct (hexDigits_spec x Hx) as (H1 & H2 & H3).
  rewrite appendHex_digits by lia. rewrite hexGroup_digits by (done || lia).
  rewrite H3. eexists. split; [|done]. lia.
Qed.

(** The characters of a printed group. *)
Definition is_hex (c : ascii) : Prop := is_Some (hexDigit c).

Lemma appendHex_hex x : 0 <= x < 65536 -> Forall is_hex (appendHex x) /\ appendHex x <> [].
Proof.
  intros Hx. destruct (hexDigits_spec x Hx) as (H1 & H2 & _). rewrite appendHex_digits by lia.
  split.
  - apply Forall_map. eapply Forall_impl; [exact H1|]. intros d Hd. simpl. unfold is_hex.
    rewrite hexDigit_hexChar by done. eauto.
  - destruct (hexDigits x); simpl in *; [lia|done].
Qed.

Definition pair (v : Z) : list Z := [v / 256; v mod 256].
Definition pairs (gs : list Z) : list Z := concat (map pair gs).

(** One turn of the loop: at the end, before a colon, before an ellipsis. *)
Lemma groups_end fuel s i e acc v off :
  hexGroup s 0 0 = Some (v, off, []) -> 0 < off ->
  parseIPv6Groups (S fuel) s i e acc = Some (acc ++ pair v, e, []).
Proof. intros E Ho. cbn [parseIPv6Groups]. rewrite E, (proj2 (Z.eqb_neq off 0)) by lia. done. Qed.

Lemma groups_colon fuel s i e acc v off c s' :
  hexGroup s 0 0 = Some (v, off, ":" :: c :: s') -> 0 < off -> c <> ":" ->
  parseIPv6Groups (S fuel) s i e acc = parseIPv6Groups fuel (c :: s') (i + 2) e (acc ++ pair v).
Proof.
  intros E Ho Hc. cbn [parseIPv6Groups]. rewrite E, (proj2 (Z.eqb_neq off 0)) by lia. cbv zeta.
  destruct c as [[] [] [] [] [] [] [] []]; try done.
Qed.

Lemma groups_ellipsis fuel s i acc v off s' :
  hexGroup s 0 0 = Some (v, off, ":" :: ":" :: s') -> 0 < off ->
  parseIPv6Groups (S fuel) s i (-1) acc
  = match s' with
    | [] => Some (acc ++ pair v, i + 2, [])
    | _ => parseIPv6Groups fuel s' (i + 2) (i + 2) (acc ++ pair v)
    end.
Proof. intros E Ho. cbn [parseIPv6Groups]. rewrite E, (proj2 (Z.eqb_neq off 0)) by lia. done. Qed.

Definition groups_ok (gs : list Z) : Prop := Forall (fun g => 0 <= g < 65536) gs.

Lemma joinGroups_cons g gs :
  gs <> [] -> joinGroups (g :: gs) = appendHex g ++ ":" :: joinGroups gs.
Proof. by destruct gs. Qed.

Lemma joinGroups_head gs :
  groups_ok gs -> gs <> [] -> exists c s, joinGroups gs = c :: s /\ is_hex c.
Proof.
  intros [|g gs' Hg Hgs] Hne; [done|]. destruct (appendHex_hex g Hg) as [H1 H2].
  assert (exists t, joinGroups (g :: gs') = appendHex g ++ t) as [t ->].
  { destruct gs'; [exists []; by rewrite app_nil_r|]. by eexists. }
  destruct (appendHex g) as [|c s]; [done|]. apply Forall_cons in H1 as [Hc _].
  by exists c, (s ++ t).
Qed.

Lemma is_hex_colon c : is_hex c -> c <> ":".
Proof. by intros [d Hd] ->. Qed.

Lemma parse_joined fuel gs i e acc :
  groups_ok gs -> gs <> [] -> (length gs <= fuel)%nat ->
  parseIPv6Groups fuel (joinGroups gs) i e acc = Some (acc ++ pairs gs, e, []).
Proof.
  intros Hgs. revert fuel i acc. induction Hgs as [|g gs Hg Hgs IH]; intros fuel i acc Hne Hf; [done|].
  destruct fuel as [|fuel]; simpl in Hf; [lia|]. unfold pairs. simpl map. simpl concat.
  destruct (decide (gs = [])) as [->|Hgs'].
  - simpl joinGroups. destruct (hexGroup_append g [] Hg I) as (n & Hn & E). rewrite app_nil_r in E.
    erewrite groups_end by eassumption. done.
  - rewrite joinGroups_cons by done. destruct (joinGroups_head gs Hgs Hgs') as (c & s & Es & Hc).
    destruct (hexGroup_append g (":" :: joinGroups gs) Hg eq_refl) as (n & Hn & E).
    rewrite Es in E. rewrite Es. erewrite groups_colon; [|exact E|done|by apply is_hex_colon].
    rewrite <- Es, IH by (done || lia). by rewrite <- app_assoc.
Qed.

(** Groups before an ellipsis. *)
Lemma parse_ellipsis fuel xs ys i acc :
  groups_ok xs -> groups_ok ys -> xs <> [] -> (length xs + length ys <= fuel)%nat ->
  parseIPv6Groups fuel (joinGroups xs ++ ":" :: ":" :: joinGroups ys) i (-1) acc
  = Some (acc ++ pairs xs ++ pairs ys, i + 2 * len xs, []).
Proof.
  intros Hxs Hys. revert fuel i acc. induction Hxs as [|g xs Hg Hxs IH]; intros fuel i acc Hne Hf; [done|].
  destruct fuel as [|fuel]; simpl in Hf; [lia|]. unfold pairs. simpl map. simpl concat.
  destruct (decide (xs = [])) as [->|Hxs'].
  - simpl joinGroups at 1.
    destruct (hexGroup_append g (":" :: ":" :: joinGroups ys) Hg eq_refl) as (n & Hn & E).
    erewrite groups_ellipsis by eassumption. simpl app at 3.
    destruct (decide (ys = [])) as [->|Hys'].
    + simpl. by rewrite ?app_nil_r.
    + destruct (joinGroups_head ys Hys Hys') as (c & s & Es & Hc). rewrite Es, <- Es.
      rewrite parse_joined by (done || simpl in Hf; lia). rewrite <- app_assoc. done.
  - rewrite joinGroups_cons by done. rewrite <- app_assoc. simpl app at 2.
    destruct (joinGroups_head xs Hxs Hxs') as (c & s & Es & Hc).
    destruct (hexGroup_append g (":" :: joinGroups xs ++ ":" :: ":" :: joinGroups ys) Hg eq_refl)
      as (n & Hn & E).
    rewrite Es in E. simpl in E. rewrite Es. simpl app at 2.
    erewrite groups_colon; [|exact E|done|by apply is_hex_colon].
    change (c :: s ++ ":" :: ":" :: joinGroups ys) with ((c :: s) ++ ":" :: ":" :: joinGroups ys).
    rewrite <- Es, IH by (done || lia). rewrite <- !app_assoc. simpl. do 3 f_equal. lia.
Qed.

(** ** The run of zeros *)

Lemma zeros_spec gs :
  (zeros gs <= length gs)%nat /\ take (zeros gs) gs = replicate (zeros gs) 0.
Proof.
  induction gs as [|g gs [IH1 IH2]]; simpl; [done|]. destruct (Z.eqb_spec g 0) as [->|]; simpl; [|split; [lia|done]].
  split; [lia|]. by rewrite IH2.
Qed.

Definition run_ok (all : list Z) (r : option (nat * nat)) : Prop :=
  match r with
  | None => True
  | Some (s, e) => (s + 2 <= e <= length all)%nat /\
      all = take s all ++ replicate (e - s) 0 ++ drop e all
  end.

Lemma zeroRun_spec pre gs best :
  run_ok (pre ++ gs) best -> run_ok (pre ++ gs) (zeroRun gs (length pre) best).
Proof.
  revert pre best. induction gs as [|g gs IH]; intros pre best Hb; [done|].
  cbn [zeroRun]. replace (pre ++ g :: gs) with ((pre ++ [g]) ++ gs) in * by by rewrite <- app_assoc.
  replace (S (length pre)) with (length (pre ++ [g])) by (rewrite length_app; simpl; lia).
  apply IH. case_match eqn:Ec; [|done]. apply andb_true_iff in Ec as [Hl _].
  apply Nat.leb_le in Hl. destruct (zeros_spec (g :: gs)) as [H1 H2].
  set (l := zeros (g :: gs)) in *. cbn [run_ok].
  rewrite <- app_assoc. simpl app. split; [rewrite length_app; simpl in *; lia|].
  rewrite take_app_length. replace (length pre + l - length pre)%nat with l by lia.
  rewrite drop_app_add. f_equal. by rewrite <- H2, take_drop.
Qed.

Lemma v6u16_ok a : groups_ok (v6u16 a).
Proof.
  cut (forall n a, (length a <= n)%nat -> groups_ok (v6u16 a)); [intros H; by eapply H|].
  induction n as [|n IH]; intros [|x [|y a']] Hl; simpl in *; try (lia || constructor).
  - pose proof (b2z_range x). pose proof (b2z_range y). lia.
  - apply IH. lia.
Qed.

Lemma v6u16_pairs a : Nat.Even (length a) -> pairs (v6u16 a) = map b2z a.
Proof.
  cut (forall n a, (length a <= n)%nat -> Nat.Even (length a) -> pairs (v6u16 a) = map b2z a);
    [intros H; by eapply H|].
  induction n as [|n IH]; intros [|x [|y a']] Hl He; simpl in *; try lia; try done.
  - by destruct He as [k Hk]; lia.
  - unfold pairs in *. simpl. rewrite IH; [|lia|by destruct He as [k Hk]; exists (k - 1)%nat; lia].
    pose proof (b2z_range x). pose proof (b2z_range y).
    rewrite Z.div_add_l, Z.div_small, Z.add_0_r by lia.
    rewrite Z.add_comm, Z.mod_add, Z.mod_small by lia. done.
Qed.

Lemma length_pairs gs : length (pairs gs) = (2 * length gs)%nat.
Proof. unfold pairs. induction gs; simpl in *; lia. Qed.

Lemma pairs_app xs ys : pairs (xs ++ ys) = pairs xs ++ pairs ys.
Proof. unfold pairs. by rewrite map_app, concat_app. Qed.

Lemma pairs_zeros n : pairs (replicate n 0) = replicate (2 * n) 0.
Proof.
  unfold pairs. induction n as [|n IH]; [done|]. simpl. rewrite IH.
  by replace (n + S (n + 0))%nat with (S (2 * n)) by lia.
Qed.

Lemma expand_pairs xs ys :
  (length xs + length ys < 8)%nat ->
  expandIPv6 (pairs xs ++ pairs ys) (2 * len xs) []
  = Some (pairs (xs ++ replicate (8 - length xs - length ys) 0 ++ ys)).
Proof.
  intros Hl. unfold expandIPv6. rewrite bool_decide_eq_true_2 by done. cbn [negb].
  rewrite length_app, !length_pairs. zcmp. zcmp.
  replace (Z.to_nat (2 * len xs)) with (length (pairs xs)) by (rewrite length_pairs; lia).
  rewrite take_app_length, drop_app_length, !pairs_app, pairs_zeros.
  do 4 f_equal. lia.
Qed.

(** ** IPv6 *)

Lemma parseIPv6_hex c s :
  c <> ":" -> parseIPv6 (c :: s) = match parseIPv6Groups 8 (c :: s) 0 (-1) [] with
    | Some (acc, e, rest) => expandIPv6 acc e rest | None => None end.
Proof. intros Hc. unfold parseIPv6. by destruct c as [[] [] [] [] [] [] [] []]. Qed.

Lemma parseIPv6_ellipsis c s :
  parseIPv6 (":" :: ":" :: c :: s) = match parseIPv6Groups 8 (c :: s) 0 0 [] with
    | Some (acc, e, rest) => expandIPv6 acc e rest | None => None end.
Proof. done. Qed.

Lemma length_v6u16 a : length a = 16%nat -> length (v6u16 a) = 8%nat.
Proof.
  intros H. pose proof (length_pairs (v6u16 a)) as E.
  rewrite v6u16_pairs, length_map in E by (exists 8%nat; lia). lia.
Qed.

Lemma string6_parse a : length a = 16%nat -> parseIPv6 (string6 a) = Some (map b2z a).
Proof.
  intros Ha. rewrite <- (v6u16_pairs a) by (exists 8%nat; lia). unfold string6.
  pose proof (v6u16_ok a) as Hok. pose proof (length_v6u16 a Ha) as H8.
  pose proof (zeroRun_spec [] (v6u16 a) None I) as Hr. simpl app in Hr. simpl length in Hr.
  set (gs := v6u16 a) in *. destruct (zeroRun gs 0 None) as [[s e]|].
  - destruct Hr as [Hse Hall].
    assert (groups_ok (take s gs)) as Hxs by by apply Forall_take.
    assert (groups_ok (drop e gs)) as Hys by by apply Forall_drop.
    pose proof (length_take gs s) as Lx. pose proof (length_drop gs e) as Ly.
    pose proof (expand_pairs (take s gs) (drop e gs) ltac:(lia)) as Hex.
    replace (8 - length (take s gs) - length (drop e gs))%nat with (e - s)%nat in Hex by lia.
    rewrite <- Hall in Hex. destruct (decide (s = 0%nat)) as [->|Hs].
    + simpl take. simpl joinGroups at 1. simpl app. rewrite take_0 in Hex. cbn [length] in Hex.
      destruct (decide (drop e gs = [])) as [E|Hne].
      * rewrite E. simpl joinGroups. cbn [parseIPv6]. rewrite Hall. rewrite take_0, E, app_nil_r, app_nil_l.
        rewrite pairs_zeros. assert (e = 8)%nat as -> by (rewrite E in Ly; simpl in Ly; lia). done.
      * destruct (joinGroups_head _ Hys Hne) as (c & t & Et & Hc). rewrite Et, parseIPv6_ellipsis, <- Et.
        rewrite parse_joined by (done || lia). simpl app. simpl in Hex. exact Hex.
    + assert (take s gs <> []) as Hne by (intros E; rewrite E in Lx; simpl in Lx; lia).
      destruct (joinGroups_head _ Hxs Hne) as (c & t & Et & Hc). rewrite Et. simpl app at 1.
      rewrite parseIPv6_hex by by apply is_hex_colon.
      change (c :: t ++ ":" :: ":" :: joinGroups (drop e gs)) with ((c :: t) ++ ":" :: ":" :: joinGroups (drop e gs)).
      rewrite <- Et, parse_ellipsis by (done || lia). simpl app at 1. rewrite Z.add_0_l. exact Hex.
  - assert (gs <> []) as Hne by (intros E; rewrite E in H8; done).
    destruct (joinGroups_head _ Hok Hne) as (c & t & Et & Hc). rewrite Et.
    rewrite parseIPv6_hex, <- Et by by apply is_hex_colon.
    rewrite parse_joined by (done || lia). simpl app. unfold expandIPv6.
    rewrite bool_decide_eq_true_2 by done. cbn [negb]. rewrite length_pairs, H8. done.
Qed.

(** The characters of a printed address. *)
Definition addr_char (c : ascii) : Prop := is_hex c \/ c = ":" \/ c = ".".

Lemma joinGroups_chars gs : groups_ok gs -> Forall (fun c => is_hex c \/ c = ":") (joinGroups gs).
Proof.
  induction 1 as [|g gs Hg Hgs IH]; [constructor|].
  assert (Forall (fun c => is_hex c \/ c = ":") (appendHex g)) as H
    by (eapply Forall_impl; [by apply appendHex_hex|auto]).
  destruct (decide (gs = [])) as [->|Hne]; [done|]. rewrite joinGroups_cons by done.
  apply Forall_app; split; [done|]. constructor; [by right|done].
Qed.

Lemma string6_chars a : Forall (fun c => is_hex c \/ c = ":") (string6 a).
Proof.
  unfold string6. pose proof (v6u16_ok a) as Hok. destruct (zeroRun _ _ _) as [[s e]|].
  - apply Forall_app; split; [by apply joinGroups_chars, Forall_take|].
    do 2 (constructor; [by right|]). by apply joinGroups_chars, Forall_drop.
  - by apply joinGroups_chars.
Qed.

Lemma family_hex l t : Forall is_hex l -> family (l ++ ":" :: t) = Some ":".
Proof.
  induction 1 as [|c l [d Hd] _ IH]; [done|]. cbn [app family].
  rewrite !bool_decide_eq_false_2 by (by intros ->). done.
Qed.

Lemma family_joined gs t :
  groups_ok gs -> family (joinGroups gs ++ ":" :: t) = Some ":".
Proof.
  intros [|g gs' Hg Hgs]; [done|]. destruct (decide (gs' = [])) as [->|Hne].
  - by apply family_hex, appendHex_hex.
  - rewrite joinGroups_cons, <- app_assoc by done. by apply family_hex, appendHex_hex.
Qed.

Lemma string6_family a : length a = 16%nat -> family (string6 a) = Some ":".
Proof.
  intros Ha. unfold string6. pose proof (v6u16_ok a) as Hok. pose proof (length_v6u16 a Ha) as H8.
  destruct (zeroRun _ _ _) as [[s e]|].
  - apply family_joined. by apply Forall_take.
  - destruct (v6u16 a) as [|g [|h gs]]; try done. rewrite joinGroups_cons by done.
    apply family_hex. apply Forall_cons in Hok as [Hg _]. by apply appendHex_hex.
Qed.

Lemma map_z2b_b2z a : map z2b (map b2z a) = a.
Proof. rewrite map_map. rewrite <- (map_id a) at 2. apply map_ext. apply z2b_b2z. Qed.

Lemma ParseIP_string6 a : length a = 16%nat -> ParseIP (str (string6 a)) = Some a.
Proof.
  intros Ha. unfold ParseIP. rewrite chr_str, string6_family by done. cbv zeta iota beta.
  rewrite (proj2 (has_false "%" _)).
  - rewrite string6_parse by done. by rewrite map_z2b_b2z.
  - intros Hin. pose proof (string6_chars a) as H. rewrite Forall_forall in H.
    apply H in Hin as [[d Hd]|Hd]; done.
Qed.

(** ** IPv4 *)

Lemma ipv4_digits b rest start pos fields :
  parseIPv4Fields (Itoa (b2z b) ++ rest) start 0 0 pos fields
  = parseIPv4Fields rest false (b2z b) (len (Itoa (b2z b))) pos fields.
Proof. by destruct b. Qed.

Lemma ipv4_dot v n pos fields l :
  0 < n -> l <> [] -> pos < 3 ->
  parseIPv4Fields ("." :: l) false v n pos fields
  = parseIPv4Fields l false 0 0 (pos + 1) (fields ++ [u8 v]).
Proof.
  intros Hn Hl Hp. cbn [parseIPv4Fields]. change (digit ".") with (@None Z). cbv iota beta.
  rewrite (bool_decide_eq_true_2 ("." = ".")), (proj2 (Z.eqb_neq n 0)),
    (bool_decide_eq_false_2 (l = [])), (proj2 (Z.eqb_neq pos 3)) by (done || lia).
  done.
Qed.

Lemma Itoa_byte b : 0 < len (Itoa (b2z b)) /\ family (Itoa (b2z b) ++ ["."]) = Some ".".
Proof. by destruct b. Qed.

Lemma string4_parse a b c d :
  parseIPv4Fields (string4 [a; b; c; d]) true 0 0 0 [] = Some (map b2z [a; b; c; d]).
Proof.
  pose proof (Itoa_byte a) as [Ha _]. pose proof (Itoa_byte b) as [Hb _].
  pose proof (Itoa_byte c) as [Hc _]. pose proof (Itoa_byte d) as [Hd _].
  assert (forall x t, 0 < len (Itoa (b2z x)) -> Itoa (b2z x) ++ t <> []) as Hne
    by (intros x t Hx E; apply app_eq_nil in E as [E _]; by rewrite E in Hx).
  assert (Itoa (b2z d) <> []) by (intros E; by rewrite E in Hd).
  cbn [string4]. rewrite ipv4_digits, ipv4_dot by (auto || lia).
  rewrite ipv4_digits, ipv4_dot by (auto || lia). rewrite ipv4_digits, ipv4_dot by (auto || lia).
  rewrite <- (app_nil_r (Itoa (b2z d))), ipv4_digits. cbn -[u8 b2z].
  unfold u8. rewrite !Z.mod_small by apply b2z_range. done.
Qed.

Lemma string4_family a b c d : family (string4 [a; b; c; d]) = Some ".".
Proof.
  cbn [string4]. generalize (Itoa (b2z b) ++ "." :: Itoa (b2z c) ++ "." :: Itoa (b2z d)).
  intros t. by destruct a.
Qed.

Lemma ParseIP_string4 a :
  length a = 4%nat -> ParseIP (str (string4 a)) = Some (map z2b v4InV6Prefix ++ a).
Proof.
  intros Ha. destruct a as [|a [|b [|c [|d []]]]]; try done.
  unfold ParseIP. rewrite chr_str, string4_family. cbv zeta iota beta. rewrite string4_parse.
  rewrite map_app, map_z2b_b2z. done.
Qed.

Lemma string4_chars a : Forall (fun c => is_digit c \/ c = ".") (string4 a).
Proof.
  assert (forall b, Forall (fun c => is_digit c \/ c = ".") (Itoa (b2z b))) as H.
  { intros b. pose proof (b2z_range b). destruct (Itoa_spec (b2z b)) as (_ & Hd & _); [lia|].
    eapply Forall_impl; [exact Hd|auto]. }
  induction a as [|x [|y a] IH]; [constructor|apply H|]. cbn [string4].
  apply Forall_app; split; [apply H|]. constructor; [by right|exact IH].
Qed.

(** ** Every address *)

Definition valid_ip (a : ip) : Prop := length a = 4%nat \/ length a = 16%nat.

Lemma To4_Some a a4 : To4 a = Some a4 -> length a4 = 4%nat /\ To16 a = map z2b v4InV6Prefix ++ a4.
Proof.
  unfold To4, To16. destruct (length a =? 4)%nat eqn:E4.
  - intros [= <-]. split; [by apply Nat.eqb_eq|done].
  - destruct (length a =? 16)%nat eqn:E16; [|done]. apply Nat.eqb_eq in E16.
    cbn [andb]. case_bool_decide as Ht; [|done]. intros [= <-].
    split; [rewrite length_drop; lia|]. rewrite <- (take_drop 12 a) at 1. by rewrite Ht.
Qed.

Lemma To4_None a : valid_ip a -> To4 a = None -> length a = 16%nat /\ To16 a = a.
Proof.
  intros [H|H] E; unfold To4, To16 in *; rewrite H in *; simpl in *; [done|auto].
Qed.

Lemma ParseIP_IPString a : valid_ip a -> ParseIP (str (IPString a)) = Some (To16 a).
Proof.
  intros Ha. unfold IPString. destruct (To4 a) as [a4|] eqn:E.
  - assert (IPString a = string4 a4) as Hs by (unfold IPString; rewrite E; by destruct Ha as [-> | ->]).
    unfold IPString in Hs. rewrite E in Hs. rewrite Hs. apply To4_Some in E as [H4 ->].
    by apply ParseIP_string4.
  - destruct (To4_None a Ha E) as [H16 ->]. rewrite H16. cbn -[string6]. by apply ParseIP_string6.
Qed.

Lemma To4_To16 a : valid_ip a -> To4 (To16 a) = To4 a.
Proof.
  intros [H|H]; unfold To16; rewrite H; [|done]. cbn [Nat.eqb]. unfold To4.
  rewrite length_app, H. cbn -[take drop bool_decide]. by rewrite bool_decide_eq_true_2.
Qed.

(** The two forms of an IPv4 address print alike. *)
Lemma IPString_To16 a : valid_ip a -> IPString (To16 a) = IPString a.
Proof.
  intros Ha. pose proof (To4_To16 a Ha) as E. destruct Ha as [H|H]; [|unfold To16; by rewrite H].
  unfold IPString. rewrite E. unfold To16, To4. rewrite H. cbn [Nat.eqb]. by rewrite length_app, H.
Qed.

Lemma IPString_chars a : valid_ip a -> Forall addr_char (IPString a).
Proof.
  intros Ha. unfold IPString, addr_char.
  assert (forall a4, Forall (fun c => is_hex c \/ c = ":" \/ c = ".") (string4 a4)) as H4.
  { intros a4. eapply Forall_impl; [apply string4_chars|]. intros c [[d Hd]|Hd]; [left|auto].
    unfold is_hex, hexDigit. unfold digit in Hd. by case_match. }
  assert (forall a6, Forall (fun c => is_hex c \/ c = ":" \/ c = ".") (string6 a6)) as H6.
  { intros a6. eapply Forall_impl; [apply string6_chars|]. intros c [?|?]; auto. }
  destruct Ha as [-> | ->]; simpl; case_match; auto.
Qed.

(** Every address, printed and read again, is the same address in its
    16-byte form; so two addresses print alike only if they are the same. *)
Theorem IP_roundtrip a :
  valid_ip a -> ParseIP (str (IPString a)) = Some (To16 a).
Proof. apply ParseIP_IPString. Qed.

Lemma IP_roundtrip_witness :
  ParseIP (str (IPString (map z2b [32; 1; 13; 184; 0; 0; 0; 0; 0; 1; 0; 0; 0; 0; 0; 1])))
  = Some (map z2b [32; 1; 13; 184; 0; 0; 0; 0; 0; 1; 0; 0; 0; 0; 0; 1]).
Proof.
  apply (IP_roundtrip (map z2b [32; 1; 13; 184; 0; 0; 0; 0; 0; 1; 0; 0; 0; 0; 0; 1])).
  right. reflexivity.
Defined.
