(* ===== verification/Resolve.v ===== *)
(** * Resolution of addresses ([ResolveAddr], [tcpLookupIP] of
    [net_transport.go])

    The package [miekg/dns] and Go's own resolver are parameters: the
    configuration read from a file, the answer of a server to a question of
    type ANY, and [net.LookupIP]. An error is [None]. *)

From S2P Require Import Prelude Types Config NetAddr IPText.
From Stdlib Require Import Strings.Byte.
From Stdlib Require Import Ascii.

#[local] Open Scope char_scope.
#[local] Open Scope Z_scope.

(** A record of an answer; only the addresses matter. *)
Inductive RR := RR_A (a : ip) | RR_AAAA (a : ip) | RR_other.

Record ClientConfig := mkClientConfig { Servers : list chars; ServerPort : chars }.

Record DNS := mkDNS {
  ClientConfigFromFile : string -> option ClientConfig;
  dnsExchange : chars -> chars -> option (list RR);   (* question, server *)
  LookupIP : chars -> option (list ip)
}.

Definition addresses (rrs : list RR) : list ip :=
  omap (fun r => match r with RR_A a | RR_AAAA a => Some a | RR_other => None end) rrs.

(** The name, terminated with a dot; [host] is not empty. *)
Definition fqdn (host : chars) : chars :=
  if bool_decide (last host = Some ".") then host else host ++ ["."].

Definition tcpLookupIP (dns : DNS) (host : chars) (dnsConfPath : string) : option (list ip) :=
  if negb (has "." host) then Some []
  else
    let host := fqdn host in
    match ClientConfigFromFile dns dnsConfPath with
    | None => None
    | Some cc =>
        match Servers cc with
        | [] => Some []
        | server :: _ =>
            let server := if hasPort server then server else JoinHostPort server (ServerPort cc) in
            addresses <$> dnsExchange dns host server
        end
    end.

Definition ResolveAddr (dns : DNS) (hostStr : chars) (dnsConfPath : string)
    : option (list ip * Z) :=
  let hostStr := if hasPort hostStr then hostStr else hostStr ++ [":"; "0"] in
  match parsePort hostStr with
  | None => None
  | Some (host, port) =>
      match ParseIP (str host) with
      | Some a => Some ([a], port)
      | None =>
          match tcpLookupIP dns host dnsConfPath with
          | None => None
          | Some [] =>
              match LookupIP dns host with None => None | Some ips => Some (ips, port) end
          | Some ips => Some (ips, port)
          end
      end
  end.

(** ** Which addresses have a port *)

Lemma Count_app l1 l2 c : Count (l1 ++ l2) c = Count l1 c + Count l2 c.
Proof. unfold Count. rewrite List.filter_app, length_app. lia. Qed.

Lemma Count_absent l c : c ∉ l -> Count l c = 0.
Proof.
  intros H. unfold Count. rewrite filter_none; [done|]. intros x Hx.
  apply bool_decide_eq_false_2. by intros ->.
Qed.

Lemma Count_cons c x l : Count (x :: l) c = (if bool_decide (x = c) then 1 else 0) + Count l c.
Proof. unfold Count. simpl. case_bool_decide; simpl; lia. Qed.

Lemma Count_nonneg l c : 0 <= Count l c.
Proof. unfold Count. lia. Qed.

Lemma LastIndexByte_0 l c : c ∉ l -> (LastIndexByte l c =? 0) = false.
Proof. intros H. by rewrite LastIndexByte_absent. Qed.

Lemma hasPort_plain host port :
  "[" ∉ host -> ":" ∉ host -> Forall is_digit port -> hasPort (host ++ ":" :: port) = true.
Proof.
  intros H1 H2 Hp. unfold hasPort. rewrite LastIndexByte_0.
  - rewrite Count_app, Count_cons, bool_decide_eq_true_2, !Count_absent
      by (done || by apply (not_in_digits _ _ Hp)). done.
  - rewrite elem_of_app, elem_of_cons. intros [?|[?|?]]; [done..|]. by apply (not_in_digits _ _ Hp) in H.
Qed.

Lemma hasPort_bracketed host port :
  "[" ∉ host -> "]" ∉ host -> Forall is_digit port ->
  hasPort ("[" :: host ++ "]" :: ":" :: port) = true.
Proof.
  intros H1 H2 Hp. unfold hasPort.
  assert (forall c, digit c = None -> c ∉ port) as Hd by (intros c Hc; by apply (not_in_digits _ _ Hp)).
  assert (LastIndexByte ("[" :: host ++ "]" :: ":" :: port) "[" = 0) as ->.
  { apply (LastIndexByte_at []). rewrite elem_of_app, !elem_of_cons. intros [?|[?|[?|?]]]; try done.
    by apply (Hd "["). }
  assert (LastIndexByte ("[" :: host ++ "]" :: ":" :: port) "]" = len host + 1) as ->.
  { change ("[" :: host ++ "]" :: ":" :: port) with (("[" :: host) ++ "]" :: ":" :: port).
    rewrite LastIndexByte_at; [simpl; lia|]. rewrite elem_of_cons. intros [?|?]; [done|].
    by apply (Hd "]"). }
  change ("[" :: host ++ "]" :: ":" :: port) with (("[" :: host) ++ ["]"] ++ ":" :: port).
  rewrite app_assoc, LastIndexByte_at by by apply Hd. simpl. rewrite length_app. simpl.
  apply Z.ltb_lt. lia.
Qed.

Lemma addr_no_brackets a : valid_ip a -> ("[" ∉ IPString a) /\ ("]" ∉ IPString a).
Proof.
  intros Ha. pose proof (IPString_chars a Ha) as H. rewrite Forall_forall in H.
  split; intros Hin; apply H in Hin as [[d Hd]|[?|?]]; done.
Qed.

Lemma hasPort_joined a port :
  valid_ip a -> 0 <= port < 2 ^ 16 -> hasPort (joinHostPort (IPString a) port) = true.
Proof.
  intros Ha Hp. destruct (addr_no_brackets a Ha) as [H1 H2].
  destruct (Itoa_spec port) as (_ & Hd & _); [lia|].
  unfold joinHostPort, JoinHostPort. destruct (has ":" (IPString a)) eqn:E.
  - by apply hasPort_bracketed.
  - apply has_false in E. by apply hasPort_plain.
Qed.

(** ** Literal addresses *)

Lemma ResolveAddr_joined dns a port path :
  valid_ip a -> 0 <= port < 2 ^ 16 ->
  ResolveAddr dns (joinHostPort (IPString a) port) path = Some ([To16 a], port).
Proof.
  intros Ha Hp. destruct (addr_no_brackets a Ha) as [H1 H2]. unfold ResolveAddr.
  rewrite hasPort_joined, parsePort_join, ParseIP_IPString by done. done.
Qed.

Lemma hasPort_two_colons l : "[" ∉ l -> 2 <= Count l ":" -> hasPort l = false.
Proof. intros H1 H2. unfold hasPort. rewrite LastIndexByte_0 by done. apply Z.eqb_neq. lia. Qed.

Lemma string6_colons a : length a = 16%nat -> 2 <= Count (string6 a) ":".
Proof.
  intros Ha. unfold string6. pose proof (length_v6u16 a Ha) as H8.
  assert (forall gs t, gs <> [] -> Count (joinGroups gs ++ t) ":" >= len gs - 1 + Count t ":") as Hj.
  { induction gs as [|g gs IH]; intros t Hne; [done|]. destruct (decide (gs = [])) as [->|Hgs].
    - simpl. rewrite Count_app. pose proof (Count_nonneg (appendHex g) ":"). lia.
    - rewrite joinGroups_cons, <- app_assoc, Count_app by done. simpl app.
      rewrite Count_cons, bool_decide_eq_true_2 by done.
      pose proof (IH t Hgs). pose proof (Count_nonneg (appendHex g) ":"). simpl length. lia. }
  destruct (zeroRun _ _ _) as [[s e]|].
  - rewrite Count_app, !Count_cons, bool_decide_eq_true_2 by done.
    pose proof (Count_nonneg (joinGroups (take s (v6u16 a))) ":").
    pose proof (Count_nonneg (joinGroups (drop e (v6u16 a))) ":"). lia.
  - pose proof (Hj (v6u16 a) [] ltac:(by intros E; rewrite E in H8)) as H.
    rewrite app_nil_r, H8 in H. change (Count [] ":") with 0 in H. lia.
Qed.

Lemma SplitHostPort_two_colons host port :
  "[" ∉ host -> ":" ∈ host -> ":" ∉ port -> SplitHostPort (host ++ ":" :: port) = None.
Proof.
  intros H1 H2 H3. unfold SplitHostPort. rewrite LastIndexByte_at by done. zcmp. cbv zeta.
  assert (forall X Y : option (chars * Z * Z),
    match host ++ ":" :: port with "[" :: _ => X | _ => Y end = Y) as Hm.
  { intros X Y. destruct host as [|c host]; [done|]. simpl.
    rewrite not_elem_of_cons in H1. destruct c as [[] [] [] [] [] [] [] []]; naive_solver. }
  rewrite Hm, Nat2Z.id, take_app_length, (proj2 (has_spec ":" host) H2). done.
Qed.

Lemma has_Count c l : 0 < Count l c -> c ∈ l.
Proof. intros H. destruct (decide (c ∈ l)); [done|]. rewrite Count_absent in H by done. lia. Qed.

Lemma ResolveAddr_bare_v6 dns a path :
  length a = 16%nat -> To4 a = None -> ResolveAddr dns (IPString a) path = None.
Proof.
  intros Ha E4. assert (IPString a = string6 a) as Es by (unfold IPString; by rewrite Ha, E4).
  destruct (addr_no_brackets a) as [H1 H2]; [by right|]. rewrite Es in *.
  pose proof (string6_colons a Ha) as Hc. unfold ResolveAddr.
  rewrite hasPort_two_colons by done. unfold parsePort. rewrite SplitHostPort_two_colons; [done..| |].
  - apply has_Count. lia.
  - by apply has_false.
Qed.

Lemma IPString_v4 a a4 : To4 a = Some a4 -> IPString a = string4 a4 /\ valid_ip a.
Proof.
  intros E. unfold IPString, To4, valid_ip in *. destruct (length a =? 4)%nat eqn:E1; simpl in E.
  - apply Nat.eqb_eq in E1. rewrite E1. simpl. split; [congruence|auto].
  - destruct (length a =? 16)%nat eqn:E2; [|done]. apply Nat.eqb_eq in E2.
    rewrite E2 in *. simpl in *. split; [|auto]. rewrite E. done.
Qed.

Lemma ResolveAddr_bare_v4 dns a a4 path :
  To4 a = Some a4 -> ResolveAddr dns (IPString a) path = Some ([To16 a], 0).
Proof.
  intros E. destruct (IPString_v4 a a4 E) as [Es Ha].
  destruct (addr_no_brackets a Ha) as [H1 H2].
  assert (":" ∉ IPString a) as H3.
  { rewrite Es. intros Hin. pose proof (string4_chars a4) as H. rewrite Forall_forall in H.
    apply H in Hin as [[d Hd]|?]; done. }
  assert (IPString a ++ [":"; "0"] = joinHostPort (IPString a) 0) as Ej.
  { unfold joinHostPort, JoinHostPort. by rewrite (proj2 (has_false _ _) H3). }
  unfold ResolveAddr. unfold hasPort. rewrite LastIndexByte_0, Count_absent by done.
  cbn [Z.eqb]. rewrite Ej, parsePort_join, ParseIP_IPString by (done || lia). done.
Qed.

(** Literal addresses resolve to themselves without a look-up: with a port,
    in the form [joinHostPort] gives them; without one, IPv4 only. An IPv6
    address without brackets and port is refused: the port [:0] is appended
    to it without brackets, and the result does not split. *)
Theorem resolve_literal dns path a :
  valid_ip a ->
  (forall port, 0 <= port < 2 ^ 16 ->
     ResolveAddr dns (joinHostPort (IPString a) port) path = Some ([To16 a], port)) /\
  ResolveAddr dns (IPString a) path
  = (if bool_decide (is_Some (To4 a)) then Some ([To16 a], 0) else None).
Proof.
  intros Ha. split; [intros; by apply ResolveAddr_joined|].
  case_bool_decide as E; [destruct E as [a4 E]; exact (ResolveAddr_bare_v4 _ _ _ _ E)|].
  apply eq_None_not_Some in E. apply ResolveAddr_bare_v6; [|done]. exact (proj1 (To4_None a Ha E)).
Qed.

Lemma resolve_literal_witness :
  ResolveAddr (mkDNS (fun _ => None) (fun _ _ => None) (fun _ => None))
    (joinHostPort (IPString (replicate 15 x00 ++ [x01])) 7946) "" = Some ([replicate 15 x00 ++ [x01]], 7946) /\
  ResolveAddr (mkDNS (fun _ => None) (fun _ _ => None) (fun _ => None)) (chr "::1") "" = None.
Proof.
  destruct (resolve_literal (mkDNS (fun _ => None) (fun _ _ => None) (fun _ => None)) ""
    (replicate 15 x00 ++ [x01])) as [H1 H2]; [right; reflexivity|].
  split; [apply (H1 7946); lia|exact H2].
Defined.

(** ** Names *)

Lemma fqdn_last host : last (fqdn host) = Some ".".
Proof. unfold fqdn. case_bool_decide; [done|]. apply last_snoc. Qed.

(** A name is looked up over TCP at the first configured server if it has a
    dot, under its name with one dot at the end, and the addresses of the
    answer are returned in order, IPv4 and IPv6. Go's resolver is asked only
    for names without a dot, or if there is no server or no address. *)
Theorem resolve_name dns host port path :
  "[" ∉ host -> "]" ∉ host -> ":" ∉ host -> 0 <= port < 2 ^ 16 ->
  ParseIP (str host) = None ->
  ResolveAddr dns (joinHostPort host port) path
  = match (if has "." host then
             match ClientConfigFromFile dns path with
             | None => None
             | Some (mkClientConfig [] _) => Some []
             | Some (mkClientConfig (server :: _) p) =>
                 addresses <$> dnsExchange dns (fqdn host)
                   (if hasPort server then server else JoinHostPort server p)
             end
           else Some []) with
    | None => None
    | Some [] => (fun ips => (ips, port)) <$> LookupIP dns host
    | Some ips => Some (ips, port)
    end.
Proof.
  intros H1 H2 H3 Hp Hn. unfold ResolveAddr.
  destruct (Itoa_spec port) as (_ & Hd & _); [lia|].
  assert (hasPort (joinHostPort host port) = true) as ->.
  { unfold joinHostPort, JoinHostPort. rewrite (proj2 (has_false ":" host)) by done. by apply hasPort_plain. }
  rewrite parsePort_join, Hn by done. unfold tcpLookupIP. destruct (has "." host); simpl; [|by destruct (LookupIP dns host)].
  destruct (ClientConfigFromFile dns path) as [[[|server rest] p]|]; simpl; [by destruct (LookupIP dns host)| |done].
  destruct (dnsExchange _ _ _) as [rrs|]; simpl; [|done].
  destruct (addresses rrs); [by destruct (LookupIP dns host)|done].
Qed.

Definition exampleDNS : DNS :=
  mkDNS (fun _ => Some (mkClientConfig [chr "10.0.0.53"] (chr "53")))
    (fun q s => if bool_decide (q = chr "a.b.") && bool_decide (s = chr "10.0.0.53:53")
                then Some [RR_other; RR_A [x0a; x00; x00; x01]; RR_AAAA (replicate 16 x00)] else None)
    (fun h => if bool_decide (h = chr "localhost") then Some [[x7f; x00; x00; x01]] else None).

Lemma resolve_name_witness :
  ResolveAddr exampleDNS (chr "a.b:7946") "" = Some ([[x0a; x00; x00; x01]; replicate 16 x00], 7946) /\
  ResolveAddr exampleDNS (chr "localhost") "" = Some ([[x7f; x00; x00; x01]], 0).
Proof.
  split; [|vm_compute; reflexivity].
  etransitivity; [apply (resolve_name exampleDNS (chr "a.b") 7946 "")|vm_compute; reflexivity];
    [apply has_false; reflexivity..|lia|reflexivity].
Defined.
