(* ===== verification/Cidr.v ===== *)
(** * Networks ([ParseCIDRs] of [net_transport.go])

    With what it uses of Go's [net.ParseCIDR], and what the networks it
    returns admit through [IPAllowed]: the addresses whose first bits are
    those of the network. *)

From S2P Require Import Prelude Types Config NetAddr IPText.
From Stdlib Require Import Strings.Byte.
From Stdlib Require Import Ascii.

#[local] Open Scope char_scope.
#[local] Open Scope Z_scope.

(** ** [strings.TrimSpace]: the UTF-8 encodings of white space *)

Definition whiteSpace : list chars :=
  map (fun c => [ascii_of_nat c]) [9; 10; 11; 12; 13; 32]%nat
  ++ map (map ascii_of_nat)
       ([[194; 133]; [194; 160]; [225; 154; 128]; [226; 128; 168]; [226; 128; 169];
         [226; 128; 175]; [226; 129; 159]; [227; 128; 128]]
        ++ map (fun k => [226; 128; 128 + k]) (seq 0 11))%nat.

(** Drops one of the given words from the front. *)
Fixpoint dropOne (words : list chars) (l : chars) : option chars :=
  match words with
  | [] => None
  | w :: words =>
      if bool_decide (take (length w) l = w) then Some (drop (length w) l) else dropOne words l
  end.

Fixpoint trimLeft (words : list chars) (fuel : nat) (l : chars) : chars :=
  match fuel with
  | O => l
  | S fuel => match dropOne words l with Some l => trimLeft words fuel l | None => l end
  end.

Definition TrimSpace (l : chars) : chars :=
  let l := trimLeft whiteSpace (length l) l in
  rev (trimLeft (map (@rev ascii) whiteSpace) (length l) (rev l)).

(** ** [net.ParseCIDR] *)

Fixpoint cut (c : ascii) (l : chars) : option (chars * chars) :=
  match l with
  | [] => None
  | x :: l => if bool_decide (x = c) then Some ([], l)
              else match cut c l with Some (a, b) => Some (x :: a, b) | None => None end
  end.

(** [netip.ParseAddr] without a zone: the number of bits, and the 16 bytes. *)
Definition ParseAddr (l : chars) : option (Z * ip) :=
  match ParseIP (str l) with
  | None => None
  | Some a => Some (if bool_decide (family l = Some ".") then 32 else 128, a)
  end.

(** [dtoi] up to the end of the string. *)
Definition dtoi (l : chars) : option Z :=
  match l with [] => None | _ => parseDigits 16777215 0 l end.

(** [CIDRMask(ones, 8 * n)]. *)
Fixpoint CIDRMask (ones : Z) (n : nat) : list byte :=
  match n with
  | O => []
  | S n =>
      if 8 <=? ones then xff :: CIDRMask (ones - 8) n
      else z2b (Z.lnot (Z.shiftr 255 ones)) :: CIDRMask 0 n
  end.

Fixpoint zipAnd (a m : list byte) : list byte :=
  match a, m with
  | x :: a, y :: m => z2b (Z.land (b2z x) (b2z y)) :: zipAnd a m
  | _, _ => []
  end.

(** [IP.Mask] of a 16-byte address, with a mask of 4 or 16 bytes. *)
Definition Mask (a : ip) (m : list byte) : ip :=
  let a := if (length m =? 4)%nat && bool_decide (take 12 a = map z2b v4InV6Prefix)
           then drop 12 a else a in
  if (length a =? length m)%nat then zipAnd a m else [].

Definition ParseCIDR (s : chars) : option IPNet :=
  match cut "/" s with
  | None => None
  | Some (addr, mask) =>
      match ParseAddr addr with
      | None => None
      | Some (bits, a) =>
          match dtoi mask with
          | None => None
          | Some n =>
              if bits <? n then None
              else
                let m := CIDRMask n (Z.to_nat (bits / 8)) in
                Some (mkIPNet (Mask a m) m)
          end
      end
  end.

(** The networks, and the arguments that are none, of which the errors
    speak. *)
Fixpoint ParseCIDRs (v : list chars) : list IPNet * list chars :=
  match v with
  | [] => ([], [])
  | p :: v =>
      let '(nets, errs) := ParseCIDRs v in
      match ParseCIDR (TrimSpace p) with
      | None => (nets, p :: errs)
      | Some n => (n :: nets, errs)
      end
  end.

Example ParseCIDR_tests :
  map (fun s => (fun n => (map b2z (netIP n), map b2z (netMask n))) <$> ParseCIDR (TrimSpace (chr s)))
    [" 10.1.2.3/8 "; "192.168.1.77/27"; "10.0.0.1"; "10.0.0.1/33"; "10.0.0.0/"; "10.0.0/8"; "::1/129"; "10.0.0.1/008"]%string
  = [Some ([10; 0; 0; 0], [255; 0; 0; 0]); Some ([192; 168; 1; 64], [255; 255; 255; 224]);
     None; None; None; None; None; Some ([10; 0; 0; 0], [255; 0; 0; 0])].
Proof. vm_compute. reflexivity. Qed.

(** ** Prefixes *)

Lemma length_CIDRMask ones n : length (CIDRMask ones n) = n.
Proof. revert ones. induction n; intros ones; simpl; [done|]. case_match; simpl; auto. Qed.

Lemma length_zipAnd a m : length a = length m -> length (zipAnd a m) = length a.
Proof. revert m. induction a as [|x a IH]; intros [|y m]; simpl; auto. Qed.

(** A mask byte with [k] ones. *)
Lemma mask_byte b k :
  0 <= k < 8 ->
  Z.land (b2z b) (b2z (z2b (Z.lnot (Z.shiftr 255 k)))) = b2z b / 2 ^ (8 - k) * 2 ^ (8 - k).
Proof.
  intros Hk. assert (k = 0 \/ k = 1 \/ k = 2 \/ k = 3 \/ k = 4 \/ k = 5 \/ k = 6 \/ k = 7) as H by lia.
  destruct_or!; subst k; by destruct b.
Qed.

Lemma mask_byte_eq a b k :
  0 <= k < 8 ->
  Z.land (b2z a) (b2z (z2b (Z.lnot (Z.shiftr 255 k))))
    = Z.land (b2z b) (b2z (z2b (Z.lnot (Z.shiftr 255 k))))
  <-> b2z a / 2 ^ (8 - k) = b2z b / 2 ^ (8 - k).
Proof.
  intros Hk. rewrite !mask_byte by done.
  assert (0 < 2 ^ (8 - k)) by (apply Z.pow_pos_nonneg; lia). nia.
Qed.

Lemma land_ff b : Z.land (b2z b) (b2z xff) = b2z b.
Proof. by destruct b. Qed.

Lemma b2z_z2b_land a b : b2z (z2b (Z.land (b2z a) (b2z b))) = Z.land (b2z a) (b2z b).
Proof.
  rewrite b2z_z2b. unfold u8. apply Z.mod_small.
  pose proof (b2z_range a). pose proof (b2z_range b). split; [apply Z.land_nonneg; lia|].
  rewrite <- (land_ff b), Z.land_assoc. change (b2z xff) with (Z.ones 8).
  rewrite Z.land_ones by lia. apply Z.mod_pos_bound. lia.
Qed.

Lemma land_idemp a b : Z.land (b2z (z2b (Z.land (b2z a) (b2z b)))) (b2z b) = Z.land (b2z a) (b2z b).
Proof. rewrite b2z_z2b_land, <- Z.land_assoc. by rewrite Z.land_diag. Qed.

(** Masking the network first does not change the comparison. *)
Lemma maskedEqual_zipAnd a m b :
  length a = length m -> maskedEqual (zipAnd a m) m b = maskedEqual a m b.
Proof.
  revert m b. induction a as [|x a IH]; intros [|y m] [|z b] Hl; simpl in *; try done.
  by rewrite land_idemp, IH by lia.
Qed.

Lemma maskedEqual_0 a b n : maskedEqual a (CIDRMask 0 n) b = true.
Proof.
  revert a b. induction n as [|n IH]; intros [|x a] [|y b]; simpl; try done.
  change (z2b (Z.lnot (Z.shiftr 255 0))) with x00. rewrite IH, andb_true_r, !Z.land_0_r. done.
Qed.

Lemma be_get_cons x l : be_get (x :: l) = b2z x * 2 ^ (8 * len l) + be_get l.
Proof. change (be_get (x :: l)) with (foldl (fun acc b => acc * 256 + b2z b) (0 * 256 + b2z x) l). rewrite be_get_acc. lia. Qed.

(** The first [n] bits of an address. *)
Definition prefix (n : Z) (a : list byte) : Z := be_get a / 2 ^ (8 * len a - n).

Lemma prefix_byte x l k :
  0 <= k <= 8 -> prefix k (x :: l) = b2z x / 2 ^ (8 - k).
Proof.
  intros Hk. unfold prefix. rewrite be_get_cons. pose proof (be_get_range l) as Hr.
  replace (8 * len (x :: l) - k) with (8 * len l + (8 - k)) by (simpl length; lia).
  rewrite Z.pow_add_r, <- Z.div_div, Z.div_add_l, (Z.div_small (be_get l)) by lia. f_equal. lia.
Qed.

Lemma prefix_cons x l n :
  8 <= n <= 8 + 8 * len l ->
  prefix n (x :: l) = b2z x * 2 ^ (n - 8) + prefix (n - 8) l.
Proof.
  intros Hn. unfold prefix. rewrite be_get_cons.
  replace (8 * len (x :: l) - n) with (8 * len l - (n - 8)) by (simpl length; lia).
  replace (b2z x * 2 ^ (8 * len l)) with (b2z x * 2 ^ (n - 8) * 2 ^ (8 * len l - (n - 8)))
    by (rewrite <- Z.mul_assoc, <- Z.pow_add_r by lia; do 2 f_equal; lia).
  rewrite Z.div_add_l; [done|]. apply Z.pow_nonzero; lia.
Qed.

Lemma prefix_range n l : 0 <= n <= 8 * len l -> 0 <= prefix n l < 2 ^ n.
Proof.
  intros Hn. unfold prefix. pose proof (be_get_range l).
  assert (0 < 2 ^ (8 * len l - n)) by (apply Z.pow_pos_nonneg; lia).
  split; [apply Z.div_pos; lia|]. apply Z.div_lt_upper_bound; [done|].
  rewrite <- Z.pow_add_r by lia. replace (8 * len l - n + n) with (8 * len l) by lia. lia.
Qed.

Lemma maskedEqual_prefix a b n :
  length a = length b -> 0 <= n <= 8 * len a ->
  maskedEqual a (CIDRMask n (length a)) b = true <-> prefix n a = prefix n b.
Proof.
  revert b n. induction a as [|x a IH]; intros [|y b] n Hl Hn; simpl in Hl; try lia.
  { simpl in *. by replace n with 0 by lia. }
  injection Hl as Hl. cbn [length CIDRMask]. destruct (Z.leb_spec 8 n).
  - cbn [maskedEqual]. rewrite !land_ff, andb_true_iff, Z.eqb_eq, IH by (simpl in Hn; lia).
    rewrite !prefix_cons by (simpl in Hn; lia).
    pose proof (prefix_range (n - 8) a ltac:(simpl in Hn; lia)).
    pose proof (prefix_range (n - 8) b ltac:(simpl in Hn; lia)). split; [intros [-> ->]; done|].
    intros E. apply (Z.div_mod_unique (2 ^ (n - 8))); [by left..|lia].
  - cbn [maskedEqual]. rewrite maskedEqual_0, andb_true_r, Z.eqb_eq, !prefix_byte by lia.
    apply mask_byte_eq. lia.
Qed.

(** ** Printing and parsing a network *)

Lemma cut_at c l1 l2 : c ∉ l1 -> cut c (l1 ++ c :: l2) = Some (l1, l2).
Proof.
  induction l1 as [|x l1 IH]; simpl; [by rewrite bool_decide_eq_true_2|].
  rewrite not_elem_of_cons. intros [H1 H2]. rewrite bool_decide_eq_false_2, IH by done. done.
Qed.

Lemma dtoi_Itoa n : 0 <= n < 16777215 -> dtoi (Itoa n) = Some n.
Proof.
  intros Hn. destruct (Itoa_spec n) as (Hne & Hd & Hv); [lia|]. unfold dtoi.
  destruct (Itoa n) as [|c l]; [done|]. rewrite parseDigits_decimal; [by f_equal|lia|done|]. lia.
Qed.

Definition cidrString (a : ip) (n : Z) : chars := IPString a ++ "/" :: Itoa n.

(** The bytes the address is compared on. *)
Definition shortIP (a : ip) : ip := match To4 a with Some a4 => a4 | None => a end.

Lemma shortIP_length a : valid_ip a -> valid_ip (shortIP a).
Proof.
  intros Ha. unfold shortIP. destruct (To4 a) eqn:E; [|done]. left. exact (proj1 (To4_Some _ _ E)).
Qed.

Lemma To16_16 a : valid_ip a -> length (To16 a) = 16%nat.
Proof. intros [H|H]; unfold To16; rewrite H; simpl; lia. Qed.

Lemma ParseCIDR_print a n :
  valid_ip a -> 0 <= n <= 8 * len (shortIP a) ->
  exists net, ParseCIDR (cidrString a n) = Some net /\
    netMask net = CIDRMask n (length (shortIP a)) /\
    netIP net = zipAnd (shortIP a) (netMask net).
Proof.
  intros Ha Hn. unfold ParseCIDR, cidrString. rewrite cut_at.
  2: { pose proof (IPString_chars a Ha) as H. rewrite Forall_forall in H. intros Hin.
       apply H in Hin as [[d Hd]|[?|?]]; done. }
  unfold ParseAddr. rewrite ParseIP_IPString by done.
  pose proof (shortIP_length a Ha) as Hs.
  rewrite dtoi_Itoa by (destruct Hs as [E|E]; rewrite E in Hn; lia).
  unfold shortIP in *. destruct (To4 a) as [a4|] eqn:E4.
  - destruct (To4_Some a a4 E4) as [H4 H16].
    assert (family (IPString a) = Some ".") as ->.
    { assert (IPString a = string4 a4) as -> by (unfold IPString; rewrite E4; by destruct Ha as [-> | ->]).
      destruct a4 as [|w [|x [|y [|z []]]]]; try done. apply string4_family. }
    rewrite bool_decide_eq_true_2 by done. rewrite H4 in Hn. rewrite H4.
    rewrite (proj2 (Z.ltb_ge 32 n)) by lia. eexists. split; [reflexivity|].
    cbn [netMask netIP]. change (Z.to_nat (32 / 8)) with 4%nat. split; [done|]. unfold Mask.
    rewrite length_CIDRMask, H16, bool_decide_eq_true_2 by done.
    change (drop 12 (map z2b v4InV6Prefix ++ a4)) with a4. cbn [Nat.eqb andb]. by rewrite H4.
  - destruct (To4_None a Ha E4) as [H16 ->].
    assert (IPString a = string6 a) as -> by (unfold IPString; by rewrite E4, H16).
    rewrite string6_family, bool_decide_eq_false_2 by done. rewrite H16 in Hn. rewrite H16.
    rewrite (proj2 (Z.ltb_ge 128 n)) by lia. eexists. split; [reflexivity|].
    cbn [netMask netIP]. change (Z.to_nat (128 / 8)) with 16%nat. split; [done|]. unfold Mask.
    rewrite length_CIDRMask. cbn [Nat.eqb andb]. by rewrite H16.
Qed.

(** ** Admission *)

Lemma CIDRMask_full n k j :
  8 * Z.of_nat j <= n -> (j <= k)%nat -> take j (CIDRMask n k) = replicate j xff.
Proof.
  revert n j. induction k as [|k IH]; intros n [|j] Hn Hj; simpl; try (done || lia).
  zcmp. simpl. by rewrite IH by lia.
Qed.

Lemma CIDRMask_partial n k j m :
  0 <= n < 8 * (Z.of_nat j + 1) -> CIDRMask n k !! j = Some m -> m <> xff.
Proof.
  revert n j. induction k as [|k IH]; intros n [|j] Hn; simpl; try done; case_match; simpl; intros E; try lia.
  - injection E as <-. assert (n = 0 \/ n = 1 \/ n = 2 \/ n = 3 \/ n = 4 \/ n = 5 \/ n = 6 \/ n = 7) by lia.
    by destruct_or!; subst n.
  - apply IH in E; [done|]. lia.
  - apply IH in E; [done|]. lia.
Qed.

Lemma take_zipAnd j a m : take j (zipAnd a m) = zipAnd (take j a) (take j m).
Proof. revert a m. induction j as [|j IH]; intros [|x a] [|y m]; simpl; try done. by rewrite IH. Qed.

Lemma zipAnd_ff a : zipAnd a (replicate (length a) xff) = a.
Proof. induction a as [|x a IH]; simpl; [done|]. by rewrite land_ff, z2b_b2z, IH. Qed.

Lemma lookup_zipAnd a m j c :
  zipAnd a m !! j = Some c ->
  exists x y, a !! j = Some x /\ m !! j = Some y /\ c = z2b (Z.land (b2z x) (b2z y)).
Proof.
  revert a m. induction j as [|j IH]; intros [|x a] [|y m]; simpl; try done; [|apply IH].
  intros [= <-]. eauto.
Qed.

(** Masking a proper IPv6 address does not make an IPv4 address of it. *)
Lemma To4_masked a n :
  length a = 16%nat -> 0 <= n -> To4 a = None -> To4 (zipAnd a (CIDRMask n 16)) = None.
Proof.
  intros Ha Hn E. assert (length (zipAnd a (CIDRMask n 16)) = 16%nat) as Hl
    by (rewrite length_zipAnd; by rewrite ?length_CIDRMask).
  unfold To4 in *. rewrite Hl. rewrite Ha in E. cbn [Nat.eqb andb] in *.
  revert E. case_bool_decide as Ha4; [done|]. intros _. case_bool_decide as Ht; [exfalso|done].
  destruct (decide (96 <= n)) as [H96|H96].
  - rewrite take_zipAnd, CIDRMask_full in Ht by lia.
    replace 12%nat with (length (take 12 a)) in Ht at 2 by (rewrite length_take; lia).
    by rewrite zipAnd_ff in Ht.
  - assert (zipAnd a (CIDRMask n 16) !! 11%nat = Some xff) as H.
    { rewrite <- (lookup_take_lt _ 12) by lia. by rewrite Ht. }
    apply lookup_zipAnd in H as (x & y & _ & Hy & Hxy).
    apply (CIDRMask_partial n 16 11 y); [lia|done|].
    apply b2z_inj. rewrite <- (land_ff y), Z.land_comm. pose proof (land_idemp x y) as Hi.
    rewrite <- Hxy in Hi. rewrite Hi, <- b2z_z2b_land, <- Hxy. done.
Qed.

Lemma Contains_print a n net b :
  valid_ip a -> valid_ip b -> 0 <= n <= 8 * len (shortIP a) ->
  ParseCIDR (cidrString a n) = Some net ->
  Contains net b = true
  <-> length (shortIP b) = length (shortIP a) /\ prefix n (shortIP b) = prefix n (shortIP a).
Proof.
  intros Ha Hb Hn E. destruct (ParseCIDR_print a n Ha Hn) as (net' & E' & Hm & Hi).
  rewrite E' in E. injection E as ->.
  pose proof (shortIP_length a Ha) as Hs. fold (valid_ip (shortIP a)) in Hs.
  assert (length (netMask net) = length (shortIP a)) as Lm by by rewrite Hm, length_CIDRMask.
  assert (length (netIP net) = length (shortIP a)) as Li by (rewrite Hi; by apply length_zipAnd).
  assert (networkNumberAndMask net = (netIP net, netMask net)) as Enn.
  { unfold networkNumberAndMask. destruct Hs as [Hs|Hs]; rewrite Hs in Li, Lm.
    - unfold To4. rewrite Li, Lm. cbn [Nat.eqb]. by rewrite Li.
    - assert (To4 (netIP net) = None) as ->; [|by rewrite Li, Lm]. rewrite Hi, Hm, Hs.
      destruct (To4 a) as [a4|] eqn:E4.
      { unfold shortIP in Hs. rewrite E4 in Hs. apply To4_Some in E4 as [H4 _]. lia. }
      unfold shortIP in Hs |- *. rewrite E4 in Hs |- *. apply To4_masked; [done|lia|done]. }
  unfold Contains. rewrite Enn. change (default b (To4 b)) with (shortIP b). cbv zeta.
  destruct (Nat.eqb_spec (length (shortIP b)) (length (netIP net))) as [El|El]; [|split; [done|intros [? _]; congruence]].
  rewrite Li in El. rewrite Hi, Hm, maskedEqual_zipAnd, maskedEqual_prefix
    by (done || by rewrite length_CIDRMask). naive_solver.
Qed.

(** ** Lists of networks *)

Lemma ParseCIDRs_spec v :
  ParseCIDRs v = (omap (fun p => ParseCIDR (TrimSpace p)) v,
                  List.filter (fun p => bool_decide (ParseCIDR (TrimSpace p) = None)) v).
Proof.
  induction v as [|p v IH]; [done|]. cbn [ParseCIDRs]. rewrite IH. simpl.
  destruct (ParseCIDR (TrimSpace p)); [rewrite bool_decide_eq_false_2 by done|rewrite bool_decide_eq_true_2 by done]; done.
Qed.

(** White space starts and ends with characters that addresses do not use. *)
Definition starts (words : list chars) (c : ascii) : bool :=
  existsb (fun w => match w with x :: _ => bool_decide (x = c) | [] => true end) words.

Lemma trimLeft_none words fuel c l :
  starts words c = false -> trimLeft words fuel (c :: l) = c :: l.
Proof.
  intros H. destruct fuel; [done|]. cbn [trimLeft].
  assert (dropOne words (c :: l) = None) as ->; [|done].
  induction words as [|[|x w] words IH]; [done|done|]. simpl in H. apply orb_false_iff in H as [H1 H2].
  apply bool_decide_eq_false in H1. cbn [dropOne]. rewrite bool_decide_eq_false_2; [by apply IH|].
  simpl. intros [= E _]. done.
Qed.

Lemma starts_addr c :
  addr_char c -> starts whiteSpace c = false /\ starts (map (@rev ascii) whiteSpace) c = false.
Proof.
  intros H. destruct c as [[] [] [] [] [] [] [] []]; try (split; vm_compute; reflexivity);
    destruct H as [[d Hd]|[H|H]]; done.
Qed.

Lemma TrimSpace_id l c1 c2 :
  head l = Some c1 -> last l = Some c2 -> addr_char c1 -> addr_char c2 -> TrimSpace l = l.
Proof.
  intros H1 H2 A1 A2. unfold TrimSpace. destruct l as [|c l]; [done|]. injection H1 as ->.
  rewrite trimLeft_none by by apply starts_addr. cbv zeta.
  apply last_Some in H2 as [l' E]. rewrite E, rev_app_distr. cbn [rev app].
  rewrite trimLeft_none by by apply starts_addr. cbn [rev]. by rewrite rev_involutive.
Qed.

Lemma cidrString_trim a n : valid_ip a -> 0 <= n <= 128 -> TrimSpace (cidrString a n) = cidrString a n.
Proof.
  intros Ha Hn. pose proof (IPString_chars a Ha) as Hc.
  assert (exists c l, IPString a = c :: l) as (c & l & E).
  { destruct (IPString a) as [|c l] eqn:E; [|by eexists _, _].
    pose proof (ParseIP_IPString a Ha) as H. rewrite E in H. done. }
  destruct (Itoa_spec n) as (Hne & Hd & _); [lia|].
  destruct (exists_last Hne) as (d & x & Ex).
  apply (TrimSpace_id _ c x).
  - unfold cidrString. by rewrite E.
  - unfold cidrString. rewrite Ex. change ("/" :: d ++ [x]) with (("/" :: d) ++ [x]).
    rewrite app_assoc. apply last_snoc.
  - rewrite E in Hc. by apply Forall_cons in Hc as [Hc _].
  - rewrite Ex in Hd. apply Forall_app in Hd as [_ Hd]. apply Forall_cons in Hd as [[v Hv] _].
    left. unfold is_hex, hexDigit. unfold digit in Hv. by case_match.
Qed.

Definition good_net (an : ip * Z) : Prop := valid_ip an.1 /\ 0 <= an.2 <= 8 * len (shortIP an.1).
Definition admits (an : ip * Z) (b : ip) : Prop :=
  length (shortIP b) = length (shortIP an.1) /\ prefix an.2 (shortIP b) = prefix an.2 (shortIP an.1).

Lemma ParseCIDR_good an :
  good_net an ->
  exists net, ParseCIDR (TrimSpace (cidrString an.1 an.2)) = Some net /\
    forall b, valid_ip b -> Contains net b = true <-> admits an b.
Proof.
  intros [Ha Hn]. assert (0 <= an.2 <= 128) by (destruct (shortIP_length _ Ha) as [E|E]; rewrite E in Hn; lia).
  rewrite cidrString_trim by done. destruct (ParseCIDR_print _ _ Ha Hn) as (net & E & _ & _).
  exists net. split; [done|]. intros b Hb. by apply Contains_print.
Qed.

(** A configuration whose networks were parsed from text admits exactly the
    addresses of the same family that agree with one of the networks on its
    leading bits; the parser reports no error for them. *)
Theorem cidrs_admit c nets b :
  nets <> [] -> Forall good_net nets -> valid_ip b ->
  Cfg.CIDRsAllowed c = (ParseCIDRs (map (fun an => cidrString an.1 an.2) nets)).1 ->
  (ParseCIDRs (map (fun an => cidrString an.1 an.2) nets)).2 = [] /\
  (IPAllowed c b = true <-> exists an, an ∈ nets /\ admits an b).
Proof.
  intros Hne Hg Hb Hc. rewrite ParseCIDRs_spec in *. cbn [fst snd] in *. split.
  - apply filter_none. intros p Hp. apply list_elem_of_fmap in Hp as (an & -> & Hin).
    rewrite Forall_forall in Hg. destruct (ParseCIDR_good an (Hg _ Hin)) as (net & -> & _). done.
  - assert (IPAllowed c b = existsb (fun n => Contains n b) (Cfg.CIDRsAllowed c)) as ->.
    { unfold IPAllowed. destruct (Cfg.CIDRsAllowed c) eqn:E; [|done]. exfalso.
      destruct nets as [|an nets]; [done|]. apply Forall_cons in Hg as [H1 _].
      destruct (ParseCIDR_good an H1) as (net & E1 & _). simpl in Hc. by rewrite E1 in Hc. }
    rewrite Hc. clear Hne Hc. induction Hg as [|an nets H1 _ IH]; simpl.
    { split; [done|]. by intros (? & []%not_elem_of_nil & _). }
    destruct (ParseCIDR_good an H1) as (net & -> & Hnet). simpl. rewrite orb_true_iff, IH, Hnet by done.
    setoid_rewrite elem_of_cons. naive_solver.
Qed.

Definition cidrConfig : Cfg.Config :=
  Cfg.mkConfig "" "" 0 "" 0 (ParseCIDRs [chr "10.0.0.0/8"; chr "fe80::/10"]).1 "" 0 "" false 0 0 0 0 0 0 0 0 0 0 0 0 0 0 0 0 0 0 0 0 [].

Lemma cidrs_admit_witness :
  IPAllowed cidrConfig [x0a; x01; x02; x03] = true /\ IPAllowed cidrConfig [x0b; x01; x02; x03] = false.
Proof.
  assert (Forall good_net [([x0a; x00; x00; x00], 8); (xfe :: x80 :: replicate 14 x00, 10)]) as Hg.
  { apply Forall_cons; split; [split; [by left|vm_compute; split; discriminate]|].
    apply Forall_cons; split; [split; [by right|vm_compute; split; discriminate]|constructor]. }
  split.
  - apply (cidrs_admit cidrConfig [([x0a; x00; x00; x00], 8); (xfe :: x80 :: replicate 14 x00, 10)]
      [x0a; x01; x02; x03]); [done|exact Hg|by left|vm_compute; reflexivity|].
    exists ([x0a; x00; x00; x00], 8). split; [by left|]. split; vm_compute; reflexivity.
  - vm_compute. reflexivity.
Defined.
