(* ===== verification/Listener.v ===== *)
(** * Sockets and listeners ([NetTransport] of [net_transport.go])

    Opening and closing of the sockets, and the goroutines that accept
    connections and read packets from them. The operating system is a
    parameter: it answers the [n]-th call of the process. A socket is named
    by the number of the call that opened it. *)

From S2P Require Import Prelude Types Config NetAddr IPText.
From Stdlib Require Import Strings.Byte.

Record OS := mkOS {
  listenTCP : nat -> option ip -> Z -> option Z;   (* the port of the listener *)
  listenUDP : nat -> option ip -> Z -> bool;
  setReadBuffer : nat -> Z -> bool
}.

Record socket := mkSocket { fd : nat; sockIP : option ip; sockPort : Z }.

(** The transport, with the calls made, the sockets that are open in the
    kernel, and the pairs of listeners that were started. *)
Record NetTransport := mkNetTransport {
  bindAddrs : list string;
  bindPort : Z;
  udpConns : list socket;
  tcpListeners : list socket;
  tshutdown : bool;
  calls : nat;
  openFds : list nat;
  running : list (socket * socket)
}.

Definition NewNetTransport (addrs : list string) (port : Z) (logger : bool) : option NetTransport :=
  if (length addrs =? 0)%nat then None
  else if negb logger then None
  else Some (mkNetTransport addrs port [] [] false 0 [] []).

Definition set_shut (b : bool) (t : NetTransport) : NetTransport :=
  mkNetTransport (bindAddrs t) (bindPort t) (udpConns t) (tcpListeners t) b (calls t)
    (openFds t) (running t).

(** [Shutdown] up to the wait for the listeners. *)
Definition closeSockets (t : NetTransport) : NetTransport :=
  if tshutdown t then t
  else
    mkNetTransport (bindAddrs t) (bindPort t) [] [] true (calls t)
      (List.filter (fun f => negb (existsb (Nat.eqb f) (map fd (tcpListeners t) ++ map fd (udpConns t))))
         (openFds t)) (running t).

(** ** [setUDPSocketBuf] *)

Definition udpSocketBufSize : Z := 2 * 1024 * 1024.

Fixpoint bufLoop (os : OS) (fuel n : nat) (size : Z) : bool * nat :=
  match fuel with
  | O => (false, n)
  | S fuel =>
      if 0 <? size then
        if setReadBuffer os n size then (true, S n) else bufLoop os fuel (S n) (size / 2)
      else (false, n)
  end.

(** It halves the size until it reaches 0. *)
Definition setUDPSocketBuf (os : OS) (n : nat) : bool * nat := bufLoop os 23 n udpSocketBufSize.

(** ** [Start] *)

Inductive start_error := errTCP (addr : string) | errUDP (addr : string) | errBuffer.

#[global] Instance start_error_eq_dec : EqDecision start_error.
Proof. solve_decision. Defined.

Definition with_calls (n : nat) (t : NetTransport) : NetTransport :=
  mkNetTransport (bindAddrs t) (bindPort t) (udpConns t) (tcpListeners t) (tshutdown t) n
    (openFds t) (running t).

Definition add_tcp (a : option ip) (port : Z) (t : NetTransport) : NetTransport :=
  mkNetTransport (bindAddrs t) (if bindPort t =? 0 then port else bindPort t) (udpConns t)
    (tcpListeners t ++ [mkSocket (calls t) a port]) (tshutdown t) (S (calls t))
    (openFds t ++ [calls t]) (running t).

(** The socket is open before its buffer is set, and added to the list
    after. *)
Definition open_udp (t : NetTransport) : NetTransport :=
  mkNetTransport (bindAddrs t) (bindPort t) (udpConns t) (tcpListeners t) (tshutdown t)
    (S (calls t)) (openFds t ++ [calls t]) (running t).

Definition add_udp (s : socket) (t : NetTransport) : NetTransport :=
  mkNetTransport (bindAddrs t) (bindPort t) (udpConns t ++ [s]) (tcpListeners t) (tshutdown t)
    (calls t) (openFds t) (running t).

Fixpoint openAll (os : OS) (addrs : list string) (t : NetTransport)
    : option start_error * NetTransport :=
  match addrs with
  | [] => (None, t)
  | addr :: addrs =>
      let a := ParseIP addr in
      match listenTCP os (calls t) a (bindPort t) with
      | None => (Some (errTCP addr), with_calls (S (calls t)) t)
      | Some port =>
          let t := add_tcp a port t in
          if listenUDP os (calls t) a (bindPort t) then
            let s := mkSocket (calls t) a (bindPort t) in
            let t := open_udp t in
            let '(ok, n) := setUDPSocketBuf os (calls t) in
            let t := with_calls n t in
            if ok : bool then openAll os addrs (add_udp s t) else (Some errBuffer, t)
          else (Some (errUDP addr), with_calls (S (calls t)) t)
      end
  end.

(** The listeners of the [i]-th address. *)
Definition startListeners (t : NetTransport) : NetTransport :=
  let n := length (bindAddrs t) in
  mkNetTransport (bindAddrs t) (bindPort t) (udpConns t) (tcpListeners t) (tshutdown t) (calls t)
    (openFds t) (running t ++ zip (take n (tcpListeners t)) (take n (udpConns t))).

(** On an error the deferred call shuts the transport down; no listener runs
    yet, so it does not wait. *)
Definition Start (os : OS) (t : NetTransport) : option start_error * NetTransport :=
  let '(err, t) := openAll os (bindAddrs t) (set_shut false t) in
  match err with
  | Some e => (Some e, closeSockets t)
  | None => (None, startListeners t)
  end.

(** ** [ZeroBindPortTransport] *)

(** Whatever the error, the loop goes on. *)
Fixpoint startLoop (os : OS) (i : nat) (t : NetTransport) : option NetTransport * NetTransport :=
  match i with
  | O => (None, t)
  | S i =>
      let '(err, t) := Start os t in
      match err with
      | None => (Some t, t)
      | Some _ => startLoop os i t
      end
  end.

(** The transport, and what is left of it in either case. *)
Definition ZeroBindPortTransport (os : OS) (addrs : list string) (logger : bool)
    : option (option NetTransport * NetTransport) :=
  match NewNetTransport addrs 0 logger with
  | None => None
  | Some t => Some (startLoop os 10 t)
  end.

(** ** Sending *)

Definition getFirstConn (t : NetTransport) : option socket := head (udpConns t).

(** [write] says whether the operating system takes the packet. *)
Definition SendUdp (write : socket -> UDPAddr -> list byte -> bool) (t : NetTransport)
    (msg : list byte) (addr : UDPAddr) : bool :=
  match getFirstConn t with
  | None => false
  | Some c => write c addr msg
  end.

(** [GetPrivateIP] of [go-sockaddr] ([None] for an error) and the address
    of a socket are given. *)
Definition GetFirstAddr (privateIP : option string) (localIP : socket -> ip) (t : NetTransport)
    : outcome (option (ip * Z)) :=
  match bindAddrs t with
  | [] => Panic
  | a :: _ =>
      if bool_decide (a = "0.0.0.0") then
        match privateIP with
        | None => Ret None
        | Some ipStr =>
            if bool_decide (ipStr = "") then Ret None
            else match ParseIP ipStr with None => Ret None | Some a => Ret (Some (a, bindPort t)) end
        end
      else
        match getFirstConn t with
        | None => Ret None
        | Some c => Ret (Some (localIP c, bindPort t))
        end
  end.

(** [finalizeAdvertiseAddr], given the result of [GetFirstAddr]. A failure of
    [GetFirstAddr] leaves the configuration as it is. *)
Definition set_advertise (a : string) (p : Z) (c : Cfg.Config) : Cfg.Config :=
  Cfg.mkConfig (Cfg.ID c) (Cfg.BindAddr c) (Cfg.BindPort c) a p (Cfg.CIDRsAllowed c) (Cfg.Label c)
    (Cfg.UDPBufferSize c) (Cfg.DNSConfigPath c) (Cfg.EnableCompression c) (Cfg.EncryptionVersion c)
    (Cfg.TcpTimeout c) (Cfg.NumIndirectChecks c) (Cfg.PingTimeout c) (Cfg.ProbeInterval c)
    (Cfg.MaxRTT c) (Cfg.GossipNodes c) (Cfg.GossipInterval c) (Cfg.DeadNodeExpiredTimeout c)
    (Cfg.BroadcastWaitTimeout c) (Cfg.EventTimeout c) (Cfg.ReapInterval c) (Cfg.MaxPushPulls c)
    (Cfg.PushPullInterval c) (Cfg.MaxAwarenessHealth c) (Cfg.SuspicionMult c)
    (Cfg.SuspicionMaxTimeoutMult c) (Cfg.MaxLongRunQueueDepth c) (Cfg.QueueCheckInterval c)
    (Cfg.RetransmitMult c) (Cfg.Tags c).

Definition finalizeAdvertiseAddr (c : Cfg.Config) (first : outcome (option (ip * Z)))
    : outcome (option Cfg.Config) :=
  if bool_decide (Cfg.AdvertiseAddr c <> "") then
    match ParseIP (Cfg.AdvertiseAddr c) with
    | None => Ret None
    | Some a =>
        Ret (Some (set_advertise (str (IPString (default a (To4 a)))) (Cfg.AdvertisePort c) c))
    end
  else
    let! r := first in
    match r with
    | None => Ret (Some c)
    | Some (a, port) => Ret (Some (set_advertise (str (IPString a)) port c))
    end.
