(* ===== verification/ListenerFacts.v ===== *)
(** * Opening and closing of sockets

    What [Start] and [ZeroBindPortTransport] leave behind on success and on
    every error, and what a node advertises. *)

From S2P Require Import Prelude Types Config NetAddr IPText Listener.
From Stdlib Require Import Strings.Byte.

(** What the code relies on: a listener has the port that was asked for, or
    some port if 0 was asked for. *)
Class OSLaws (os : OS) : Prop := {
  tcp_port n a p q : listenTCP os n a p = Some q -> q <> 0 /\ (p <> 0 -> q = p)
}.

(** ** The buffer *)

Lemma bufLoop_spec os fuel n k :
  0 <= k < Z.of_nat fuel ->
  match bufLoop os fuel n (2 ^ k) with
  | (true, m) => exists j, Z.of_nat j <= k /\ m = (n + j + 1)%nat /\
      setReadBuffer os (n + j) (2 ^ (k - Z.of_nat j)) = true /\
      forall i, (i < j)%nat -> setReadBuffer os (n + i) (2 ^ (k - Z.of_nat i)) = false
  | (false, m) => Z.of_nat m = Z.of_nat n + k + 1 /\
      forall i, Z.of_nat i <= k -> setReadBuffer os (n + i) (2 ^ (k - Z.of_nat i)) = false
  end.
Proof.
  revert n k. induction fuel as [|fuel IH]; intros n k Hk; [lia|]. cbn [bufLoop].
  assert (0 < 2 ^ k) by (apply Z.pow_pos_nonneg; lia). rewrite (proj2 (Z.ltb_lt _ _)) by done.
  destruct (setReadBuffer os n (2 ^ k)) eqn:E.
  { exists 0%nat. rewrite Nat.add_0_r, Z.sub_0_r. split_and!; try done; lia. }
  assert (forall i, (i < 1)%nat -> setReadBuffer os (n + i) (2 ^ (k - Z.of_nat i)) = false) as H0.
  { intros i Hi. replace i with 0%nat by lia. by rewrite Nat.add_0_r, Z.sub_0_r. }
  destruct (decide (k = 0)) as [->|Hk0].
  - change (2 ^ 0 / 2) with 0. destruct fuel; simpl; (split; [lia|]); intros i Hi; apply H0; lia.
  - replace (2 ^ k / 2) with (2 ^ (k - 1))
      by (rewrite <- (Z.div_mul (2 ^ (k - 1)) 2), Z.mul_comm, <- Z.pow_succ_r by lia; do 2 f_equal; lia).
    specialize (IH (S n) (k - 1) ltac:(lia)).
    assert (forall i, setReadBuffer os (S n + i) (2 ^ (k - 1 - Z.of_nat i)) = false ->
      setReadBuffer os (n + S i) (2 ^ (k - Z.of_nat (S i))) = false) as Hsh.
    { intros i. replace (n + S i)%nat with (S n + i)%nat by lia.
      by replace (k - Z.of_nat (S i)) with (k - 1 - Z.of_nat i) by lia. }
    destruct (bufLoop os fuel (S n) (2 ^ (k - 1))) as [[] m].
    + destruct IH as (j & Hj & -> & Ht & Hf). exists (S j). split_and!; [lia|lia| |].
      * replace (n + S j)%nat with (S n + j)%nat by lia.
        by replace (k - Z.of_nat (S j)) with (k - 1 - Z.of_nat j) by lia.
      * intros [|i] Hi; [apply H0; lia|]. apply Hsh, Hf. lia.
    + destruct IH as [Hm Hf]. split; [lia|]. intros [|i] Hi; [apply H0; lia|]. apply Hsh, Hf. lia.
Qed.

(** The buffer gets the largest size that is granted among the powers of two
    from 2 MiB down to 1; there is an error only if all 22 are refused. *)
Lemma setUDPSocketBuf_spec os n :
  match setUDPSocketBuf os n with
  | (true, m) => exists j, (j <= 21)%nat /\ m = (n + j + 1)%nat /\
      setReadBuffer os (n + j) (2 ^ (21 - Z.of_nat j)) = true /\
      forall i, (i < j)%nat -> setReadBuffer os (n + i) (2 ^ (21 - Z.of_nat i)) = false
  | (false, m) => m = (n + 22)%nat /\
      forall i, (i <= 21)%nat -> setReadBuffer os (n + i) (2 ^ (21 - Z.of_nat i)) = false
  end.
Proof.
  unfold setUDPSocketBuf. change udpSocketBufSize with (2 ^ 21).
  pose proof (bufLoop_spec os 23 n 21 ltac:(lia)) as H.
  destruct (bufLoop os 23 n (2 ^ 21)) as [[] m].
  - destruct H as (j & Hj & ? & ? & ?). exists j. split_and!; try done. lia.
  - destruct H as [Hm Hf]. split; [lia|]. intros i Hi. apply Hf. lia.
Qed.

Lemma setUDPSocketBuf_calls os n ok m : setUDPSocketBuf os n = (ok, m) -> (n < m)%nat.
Proof.
  pose proof (setUDPSocketBuf_spec os n) as H. intros E. rewrite E in H.
  destruct ok; [destruct H as (j & _ & -> & _)|destruct H as [-> _]]; lia.
Qed.

(** ** [Start] *)

Definition fds (t : NetTransport) : list nat := map fd (tcpListeners t) ++ map fd (udpConns t).

(** The sockets open in the kernel are those of [L], opened before, those
    the transport knows, and [extra]. *)
Record fd_inv (base : nat) (L extra : list nat) (t : NetTransport) : Prop := {
  fi_open f : f ∈ openFds t <-> f ∈ L \/ f ∈ extra \/ f ∈ fds t;
  fi_new f : f ∈ fds t -> (base <= f < calls t)%nat;
  fi_base : (base <= calls t)%nat;
  fi_extra f : f ∈ extra -> (f ∉ fds t) /\ (base <= f < calls t)%nat
}.

(** The addresses [opened] so far, all on one port. *)
Record open_inv (opened : list string) (t : NetTransport) : Prop := {
  oi_tcp : map sockIP (tcpListeners t) = map ParseIP opened;
  oi_udp : map sockIP (udpConns t) = map ParseIP opened;
  oi_port : Forall (fun s => sockPort s = bindPort t) (tcpListeners t ++ udpConns t);
  oi_nz : opened <> [] -> bindPort t <> 0
}.

(** What does not change. *)
Definition same_frame (t t' : NetTransport) : Prop :=
  bindAddrs t' = bindAddrs t /\ running t' = running t /\ tshutdown t' = tshutdown t /\
  (bindPort t <> 0 -> bindPort t' = bindPort t).

Lemma fds_add_tcp a p t f : f ∈ fds (add_tcp a p t) <-> f ∈ fds t \/ f = calls t.
Proof. unfold fds. simpl. rewrite map_app, !elem_of_app. simpl. rewrite list_elem_of_singleton. tauto. Qed.

Lemma fd_inv_add_tcp base L a p t : fd_inv base L [] t -> fd_inv base L [] (add_tcp a p t).
Proof.
  intros [H1 H2 H3 H4]. split.
  - intros f. rewrite fds_add_tcp. simpl. rewrite elem_of_app, H1, list_elem_of_singleton. tauto.
  - intros f. rewrite fds_add_tcp. simpl. intros [Hf|Hf]; [apply H2 in Hf; lia|lia].
  - simpl. lia.
  - by intros f []%not_elem_of_nil.
Qed.

Lemma fds_add_udp s t f : f ∈ fds (add_udp s t) <-> f ∈ fds t \/ f = fd s.
Proof.
  unfold fds. simpl. rewrite map_app, !elem_of_app. simpl. rewrite list_elem_of_singleton. tauto.
Qed.

Lemma fd_inv_open_udp base L t :
  fd_inv base L [] t -> fd_inv base L [calls t] (open_udp t).
Proof.
  intros [H1 H2 H3 H4]. change (fds t) with (fds (open_udp t)) in *. split.
  - intros f. simpl. rewrite elem_of_app, H1, !list_elem_of_singleton. rewrite elem_of_nil. tauto.
  - intros f Hf. apply H2 in Hf. simpl. lia.
  - simpl. lia.
  - intros f ->%list_elem_of_singleton. split; [|simpl; lia]. intros Hf. apply H2 in Hf. lia.
Qed.

Lemma fd_inv_calls base L extra n t :
  fd_inv base L extra t -> (calls t <= n)%nat -> fd_inv base L extra (with_calls n t).
Proof.
  intros [H1 H2 H3 H4] Hn. split; try done; simpl; [|lia|].
  - intros f Hf. apply H2 in Hf. lia.
  - intros f Hf. apply H4 in Hf as [? ?]. split; [done|lia].
Qed.

Lemma fd_inv_add_udp base L s t :
  fd_inv base L [fd s] t -> fd_inv base L [] (add_udp s t).
Proof.
  intros [H1 H2 H3 H4]. split.
  - intros f. rewrite fds_add_udp. simpl. rewrite H1, list_elem_of_singleton, elem_of_nil. tauto.
  - intros f. rewrite fds_add_udp. simpl. intros [Hf| ->]; [by apply H2|].
    by apply H4; left.
  - done.
  - by intros f []%not_elem_of_nil.
Qed.

Lemma open_inv_add opened addr p t n t2 :
  open_inv opened t -> p <> 0 -> (bindPort t <> 0 -> p = bindPort t) ->
  tcpListeners t2 = tcpListeners (add_tcp (ParseIP addr) p t) ->
  udpConns t2 = udpConns (add_tcp (ParseIP addr) p t) -> bindPort t2 = bindPort (add_tcp (ParseIP addr) p t) ->
  open_inv (opened ++ [addr]) (add_udp (mkSocket n (ParseIP addr) (bindPort t2)) t2).
Proof.
  intros [H1 H2 H3 H4] Hp Hport E1 E2 E3.
  assert (bindPort t2 = p) as Ep by (rewrite E3; simpl; destruct (Z.eqb_spec (bindPort t) 0); [done|by rewrite Hport]).
  split; simpl.
  - rewrite E1. simpl. by rewrite !map_app, H1.
  - rewrite E2. simpl. by rewrite !map_app, H2.
  - rewrite E1, E2, Ep. simpl. rewrite Forall_app in H3. destruct H3 as [Ht Hu].
    assert (forall l, (l = [] \/ bindPort t <> 0) -> Forall (fun s => sockPort s = bindPort t) l ->
      Forall (fun s => sockPort s = p) l) as Hl.
    { intros l [->|Hnz] Hf; [constructor|]. by rewrite Hport. }
    assert (opened = [] \/ bindPort t <> 0) as Ho by (destruct opened; [by left|right; by apply H4]).
    rewrite !Forall_app. split_and!; [apply Hl; [|done]|by repeat constructor|apply Hl; [|done]|by repeat constructor].
    + destruct Ho as [->|]; [left|by right]. simpl in H1. by destruct (tcpListeners t).
    + destruct Ho as [->|]; [left|by right]. simpl in H2. by destruct (udpConns t).
  - intros _. by rewrite Ep.
Qed.

Section Opening.
Context (os : OS) {OL : OSLaws os}.

Lemma openAll_spec base L addrs opened t err t' :
  fd_inv base L [] t -> open_inv opened t -> openAll os addrs t = (err, t') ->
  same_frame t t' /\
  match err with
  | None => fd_inv base L [] t' /\ open_inv (opened ++ addrs) t'
  | Some errBuffer => exists f, fd_inv base L [f] t'
  | Some _ => fd_inv base L [] t'
  end.
Proof using OL.
  revert opened t. induction addrs as [|addr addrs IH]; intros opened t Hf Ho; cbn [openAll].
  { intros [= <- <-]. rewrite app_nil_r. done. }
  destruct (listenTCP os (calls t) (ParseIP addr) (bindPort t)) as [p|] eqn:Et.
  2: { intros [= <- <-]. split; [done|]. apply fd_inv_calls; [done|apply Nat.le_succ_diag_r]. }
  apply tcp_port in Et as [Hp Hport]. cbv zeta.
  pose proof (fd_inv_add_tcp base L (ParseIP addr) p t Hf) as Hf1.
  assert (same_frame t (add_tcp (ParseIP addr) p t)) as Hs1.
  { split_and!; try done. simpl. intros Hnz. by rewrite (proj2 (Z.eqb_neq _ _)). }
  set (t1 := add_tcp (ParseIP addr) p t) in *.
  destruct (listenUDP os (calls t1) (ParseIP addr) (bindPort t1)).
  2: { intros [= <- <-]. split; [done|]. apply fd_inv_calls; [done|apply Nat.le_succ_diag_r]. }
  pose proof (fd_inv_open_udp base L t1 Hf1) as Hf2. set (t2 := open_udp t1) in *.
  destruct (setUDPSocketBuf os (calls t2)) as [ok n] eqn:Eb.
  pose proof (setUDPSocketBuf_calls _ _ _ _ Eb) as Hn. change (calls t2) with (S (calls t1)) in Hn.
  pose proof (fd_inv_calls _ _ _ n t2 Hf2 ltac:(change (calls t2) with (S (calls t1)); lia)) as Hf3.
  destruct ok.
  - intros E. apply (IH (opened ++ [addr])) in E as [Hs Hr].
    + split; [|by rewrite <- app_assoc in Hr]. destruct Hs as (A1 & A2 & A3 & A4).
      destruct Hs1 as (B1 & B2 & B3 & B4). split_and!; [by rewrite A1|by rewrite A2|by rewrite A3|].
      intros Hnz. rewrite A4; [by apply B4|]. change (bindPort t1 <> 0). by rewrite B4.
    + by apply fd_inv_add_udp.
    + exact (open_inv_add opened addr p t (calls t1) (with_calls n t2) Ho Hp
        (fun H => Hport H) eq_refl eq_refl eq_refl).
  - intros [= <- <-]. split; [done|]. by eexists.
Qed.

End Opening.

Section Started.
Context (os : OS) {OL : OSLaws os}.

(** A transport without sockets. *)
Definition idle (t : NetTransport) : Prop :=
  tcpListeners t = [] /\ udpConns t = [] /\ forall f, f ∈ openFds t -> (f < calls t)%nat.

Lemma idle_inv t : idle t -> fd_inv (calls t) (openFds t) [] (set_shut false t) /\ open_inv [] (set_shut false t).
Proof.
  intros (E1 & E2 & Hb).
  assert (fds (set_shut false t) = []) as Ef by (unfold fds; simpl; by rewrite E1, E2).
  split; split; simpl; rewrite ?Ef, ?E1, ?E2; try done; try set_solver.
Qed.

Lemma elem_of_filter_fds t f :
  f ∈ openFds (closeSockets t) <-> f ∈ openFds t /\ (tshutdown t = true \/ f ∉ fds t).
Proof.
  unfold closeSockets, fds. destruct (tshutdown t); [tauto|]. simpl.
  rewrite list_elem_of_In, List.filter_In, <- list_elem_of_In, negb_true_iff.
  rewrite <- not_true_iff_false, existsb_exists. setoid_rewrite <- list_elem_of_In.
  setoid_rewrite Nat.eqb_eq. split; [intros [? H]; split; [done|right; intros Hf; apply H; eauto]|].
  intros [? [?|H]]; [done|]. split; [done|]. by intros (x & Hx & ->).
Qed.

Lemma Start_outcome t err t' :
  idle t -> Start os t = (err, t') ->
  bindAddrs t' = bindAddrs t /\ (bindPort t <> 0 -> bindPort t' = bindPort t) /\
  (forall f, f ∈ openFds t' -> (f < calls t')%nat) /\
  match err with
  | None =>
      tshutdown t' = false /\ (bindAddrs t <> [] -> bindPort t' <> 0) /\
      map sockIP (tcpListeners t') = map ParseIP (bindAddrs t) /\
      map sockIP (udpConns t') = map ParseIP (bindAddrs t) /\
      Forall (fun s => sockPort s = bindPort t') (tcpListeners t' ++ udpConns t') /\
      running t' = running t ++ zip (tcpListeners t') (udpConns t') /\
      (forall f, f ∈ openFds t' <-> f ∈ openFds t \/ f ∈ fds t')
  | Some e =>
      tshutdown t' = true /\ tcpListeners t' = [] /\ udpConns t' = [] /\ running t' = running t /\
      exists extra, (forall f, f ∈ openFds t' <-> f ∈ openFds t \/ f ∈ extra) /\
        length extra = (if decide (e = errBuffer) then 1 else 0)%nat /\
        forall f, f ∈ extra -> (calls t <= f)%nat
  end.
Proof using OL.
  intros Hi. destruct (idle_inv t Hi) as [Hf Ho]. pose proof Hi as (_ & _ & Hb). unfold Start.
  change (bindAddrs t) with (bindAddrs (set_shut false t)) at 1.
  destruct (openAll os (bindAddrs (set_shut false t)) (set_shut false t)) as [e t1] eqn:E.
  apply (openAll_spec os (calls t) (openFds t) _ []) in E as [(A1 & A2 & A3 & A4) Hr]; [|done..].
  assert (forall extra, fd_inv (calls t) (openFds t) extra t1 ->
    forall f, f ∈ openFds t1 -> (f < calls t1)%nat) as Hlt.
  { intros extra [H1 H2 H3 H4] f [Hq|[Hq|Hq]]%H1; [apply Hb in Hq; lia|apply H4 in Hq; lia|apply H2 in Hq; lia]. }
  destruct e as [e|].
  - intros [= <- <-].
    assert (exists extra, fd_inv (calls t) (openFds t) extra t1 /\
      length extra = (if decide (e = errBuffer) then 1 else 0)%nat) as (extra & Hx & Hlen).
    { destruct e; [exists []|exists []|]; try (split; [done|by rewrite decide_False by done]).
      destruct Hr as [f Hr]. exists [f]. split; [done|]. by rewrite decide_True. }
    assert (closeSockets t1 = mkNetTransport (bindAddrs t1) (bindPort t1) [] [] true (calls t1)
      (openFds (closeSockets t1)) (running t1)) as Ec by (unfold closeSockets; by rewrite A3).
    assert (forall f, f ∈ openFds (closeSockets t1) <-> f ∈ openFds t \/ f ∈ extra) as Hopen.
    { intros f. rewrite elem_of_filter_fds, A3. destruct Hx as [H1 H2 H3 H4]. rewrite H1. split.
      - intros [[?|[?|?]] [?|?]]; simpl in *; auto; done.
      - intros [Hq|Hq]; (split; [auto|right]); [|by apply H4]. intros Hq2. apply H2 in Hq2. apply Hb in Hq. lia. }
    split_and!.
    + rewrite Ec. exact A1.
    + intros Hnz. rewrite Ec. by apply A4.
    + intros f Hq. rewrite Ec. apply elem_of_filter_fds in Hq as [Hq _]. by apply (Hlt extra).
    + by rewrite Ec.
    + by rewrite Ec.
    + by rewrite Ec.
    + rewrite Ec. exact A2.
    + exists extra. split_and!; [exact Hopen|done|]. intros f Hq. apply (fi_extra _ _ _ _ Hx) in Hq. lia.
  - intros [= <- <-]. destruct Hr as [Hx Hop]. simpl app in Hop.
    assert (length (tcpListeners t1) = length (bindAddrs t)) as L1
      by (rewrite <- (length_map sockIP), (oi_tcp _ _ Hop); by rewrite length_map).
    assert (length (udpConns t1) = length (bindAddrs t)) as L2
      by (rewrite <- (length_map sockIP), (oi_udp _ _ Hop); by rewrite length_map).
    unfold startListeners. rewrite A1. simpl bindAddrs.
    rewrite !take_ge by lia. split_and!; simpl.
    + done.
    + exact A4.
    + exact (Hlt [] Hx).
    + exact A3.
    + apply Hop.
    + apply Hop.
    + apply Hop.
    + apply Hop.
    + by rewrite A2.
    + intros f. rewrite (fi_open _ _ _ _ Hx), elem_of_nil. unfold fds. simpl. tauto.
Qed.

(** C36: [Start] opens a TCP listener and a UDP socket for every address, all on
    the same port (the one configured, or the one the first listener got),
    and starts one pair of goroutines for each. An address that is no literal
    is opened on every interface. On an error every socket it opened is
    closed again, except one: the UDP socket whose buffer could not be set is
    not in the list yet, and stays open with nobody to close it. *)
Theorem Start_spec t err t' :
  idle t -> Start os t = (err, t') ->
  match err with
  | None =>
      tshutdown t' = false /\ (bindAddrs t <> [] -> bindPort t' <> 0) /\
      (bindPort t <> 0 -> bindPort t' = bindPort t) /\
      map sockIP (tcpListeners t') = map ParseIP (bindAddrs t) /\
      map sockIP (udpConns t') = map ParseIP (bindAddrs t) /\
      Forall (fun s => sockPort s = bindPort t') (tcpListeners t' ++ udpConns t') /\
      running t' = running t ++ zip (tcpListeners t') (udpConns t') /\
      (forall f, f ∈ openFds t' <-> f ∈ openFds t \/ f ∈ fds t')
  | Some e =>
      idle t' /\ tshutdown t' = true /\ running t' = running t /\
      exists extra, (forall f, f ∈ openFds t' <-> f ∈ openFds t \/ f ∈ extra) /\
        length extra = (if decide (e = errBuffer) then 1 else 0)%nat /\
        forall f, f ∈ extra -> (calls t <= f)%nat
  end.
Proof using OL.
  intros Hi E. destruct (Start_outcome t err t' Hi E) as (H1 & H2 & H3 & H4). destruct err.
  - destruct H4 as (? & ? & ? & ? & ?). unfold idle. by split_and!.
  - destruct H4 as (? & ? & ? & ? & ? & ? & ?). by split_and!.
Qed.

(** ** Retrying *)

Lemma Start_idle t e t' : idle t -> Start os t = (Some e, t') -> idle t' /\ bindAddrs t' = bindAddrs t /\
  (bindPort t <> 0 -> bindPort t' = bindPort t).
Proof using OL.
  intros Hi E. destruct (Start_outcome t _ t' Hi E) as (H1 & H2 & H3 & H4).
  destruct H4 as (? & ? & ? & ? & ?). unfold idle. by split_and!.
Qed.

(** A transport with a port keeps trying that port. *)
Lemma startLoop_port i t p :
  idle t -> bindPort t = p -> p <> 0 -> bindAddrs t <> [] ->
  (forall n a, listenUDP os n a p = false) -> (startLoop os i t).1 = None.
Proof using OL.
  intros Hi Hp Hnz Hne Hu. revert t Hi Hp Hne. induction i as [|i IH]; intros t Hi Hp Hne; [done|].
  cbn [startLoop]. destruct (Start os t) as [[e|] t'] eqn:E.
  - destruct (Start_idle t e t' Hi E) as (? & Ha & Hp'). apply IH; [done| |by rewrite Ha].
    rewrite Hp' by by rewrite Hp. done.
  - exfalso. unfold Start in E. destruct (bindAddrs t) as [|addr addrs] eqn:Ea; [done|].
    cbn [openAll set_shut calls bindPort] in E.
    destruct (listenTCP os (calls t) (ParseIP addr) (bindPort t)) as [q|]; [|done].
    assert (bindPort (add_tcp (ParseIP addr) q (set_shut false t)) = p) as Eb
      by (simpl; by rewrite Hp, (proj2 (Z.eqb_neq p 0))).
    cbv zeta in E. rewrite Eb, Hu in E. done.
Qed.

(** [ZeroBindPortTransport] means to try ten ports, but [Start] records the
    first one it is given and every later attempt asks for the same again:
    if only the UDP side of that port is taken, all ten attempts fail,
    whatever other ports are free. *)
Theorem zero_bind_sticks addr addrs p :
  listenTCP os 0 (ParseIP addr) 0 = Some p -> (forall n a, listenUDP os n a p = false) ->
  exists t, ZeroBindPortTransport os (addr :: addrs) true = Some (None, t).
Proof using OL.
  intros Et Hu. unfold ZeroBindPortTransport, NewNetTransport. cbn [length Nat.eqb negb].
  set (t := mkNetTransport _ _ _ _ _ _ _ _).
  assert (idle t) as Hi by (split_and!; [done..|by intros f []%not_elem_of_nil]).
  change (startLoop os 10 t) with (let '(err, t) := Start os t in
    match err with None => (Some t, t) | Some _ => startLoop os 9 t end).
  destruct (tcp_port _ _ _ _ Et) as [Hp _].
  assert (Start os t = (Some (errUDP addr), closeSockets (with_calls 2 (add_tcp (ParseIP addr) p (set_shut false t))))) as E.
  { unfold Start. simpl. rewrite Et. simpl. rewrite Hu. done. }
  destruct (Start_idle _ _ _ Hi E) as (Hi' & Ha & _).
  rewrite E. set (t' := closeSockets _) in *.
  assert ((startLoop os 9 t').1 = None) as H by (apply (startLoop_port 9 t' p); [done..|by rewrite Ha|done]).
  destruct (startLoop os 9 t') as [r t2]. simpl in H. subst r. by exists t2.
Qed.

(** An attempt that succeeds ends the loop with a running transport. *)
Lemma startLoop_result i t r t' :
  idle t -> bindAddrs t <> [] -> startLoop os i t = (r, t') ->
  match r with
  | None => idle t'
  | Some t1 => t1 = t' /\ tshutdown t' = false /\ bindPort t' <> 0 /\
      length (udpConns t') = length (bindAddrs t) /\ bindAddrs t' = bindAddrs t
  end.
Proof using OL.
  revert t. induction i as [|i IH]; intros t Hi Hne; cbn [startLoop]; [by intros [= <- <-]|].
  destruct (Start os t) as [[e|] t1] eqn:E.
  - intros E2. destruct (Start_idle _ _ _ Hi E) as (? & Ha & _). rewrite <- Ha.
    apply IH; [done|by rewrite Ha|done].
  - intros [= <- <-]. destruct (Start_outcome _ _ _ Hi E) as (Ha & _ & _ & ? & Hp & _ & Hu & _).
    split_and!; auto. by rewrite <- (length_map sockIP), Hu, length_map.
Qed.

End Started.

(** ** The advertised address *)

(** What a node advertises: the configured address, or the first one it
    listens on, printed into the configuration and read back without loss.
    If the transport has no address, the error is dropped here, and the
    next reading of the empty configuration fails. *)
Theorem advertise_roundtrip c :
  (forall a p, Cfg.AdvertiseAddr c = "" -> valid_ip a ->
     exists c', finalizeAdvertiseAddr c (Ret (Some (a, p))) = Ret (Some c') /\
       GetAdvertiseAddr c' = Some (To16 a, u16 p)) /\
  (Cfg.AdvertiseAddr c = "" ->
     finalizeAdvertiseAddr c (Ret None) = Ret (Some c) /\ GetAdvertiseAddr c = None) /\
  (forall first a p, Cfg.AdvertiseAddr c <> "" -> GetAdvertiseAddr c = Some (a, p) -> length a = 16%nat ->
     exists c', finalizeAdvertiseAddr c first = Ret (Some c') /\ GetAdvertiseAddr c' = Some (a, p)).
Proof.
  split_and!.
  - intros a p E Ha. unfold finalizeAdvertiseAddr. rewrite bool_decide_eq_false_2 by tauto.
    eexists. split; [reflexivity|]. unfold GetAdvertiseAddr. simpl. by rewrite ParseIP_IPString.
  - intros E. unfold finalizeAdvertiseAddr, GetAdvertiseAddr.
    rewrite bool_decide_eq_false_2 by tauto. split; [done|]. by rewrite E.
  - intros first a p E. unfold GetAdvertiseAddr, finalizeAdvertiseAddr.
    rewrite bool_decide_eq_true_2 by done. destruct (ParseIP (Cfg.AdvertiseAddr c)) as [b|]; [|done].
    intros [= -> <-] Ha. eexists. split; [reflexivity|]. simpl.
    destruct (To4 a) as [a4|] eqn:E4; simpl.
    + destruct (To4_Some _ _ E4) as [H4 H16]. rewrite ParseIP_IPString by by left.
      unfold To16 in *. rewrite Ha in H16. rewrite H4. simpl in *. by rewrite H16.
    + rewrite ParseIP_IPString by by right. unfold To16. by rewrite Ha.
Qed.

Section Witnesses.

(** Gives port 4000 to whoever asks for any, and refuses large buffers. *)
Definition osW : OS :=
  mkOS (fun _ _ p => Some (if p =? 0 then 4000 else p)) (fun _ _ _ => true) (fun _ size => size <=? 65536).
Definition osBusy : OS :=
  mkOS (fun n _ p => Some (if p =? 0 then 4000 + Z.of_nat n else p)) (fun _ _ p => negb (p =? 4000)) (fun _ _ => true).

Lemma osW_laws : OSLaws osW.
Proof. split. simpl. intros n a p q. destruct (Z.eqb_spec p 0); intros [= <-]; split; lia. Qed.
Lemma osBusy_laws : OSLaws osBusy.
Proof. split. simpl. intros n a p q. destruct (Z.eqb_spec p 0); intros [= <-]; split; lia. Qed.

Definition tW : NetTransport := mkNetTransport ["127.0.0.1"; "10.0.0.1"] 0 [] [] false 0 [] [].

Lemma Start_spec_witness :
  exists t', Start osW tW = (None, t') /\ tshutdown t' = false /\ bindPort t' <> 0.
Proof.
  destruct (Start osW tW) as [err t'] eqn:E.
  assert (err = None) as ->.
  { assert ((Start osW tW).1 = None) as H by (vm_compute; reflexivity). rewrite E in H. exact H. }
  pose proof (@Start_spec osW osW_laws tW None t') as H.
  destruct H as (H1 & H2 & _); [|exact E|].
  - split; [reflexivity|]. split; [reflexivity|]. intros f Hf. inversion Hf.
  - exists t'. split; [reflexivity|]. split; [exact H1|]. apply H2. discriminate.
Defined.

Lemma zero_bind_sticks_witness :
  (exists t, ZeroBindPortTransport osBusy ["127.0.0.1"] true = Some (None, t)) /\
  forall n, (0 < n)%nat -> exists p, listenTCP osBusy n (ParseIP "127.0.0.1") 0 = Some p /\ listenUDP osBusy n None p = true.
Proof.
  split.
  - apply (@zero_bind_sticks osBusy osBusy_laws "127.0.0.1" [] 4000); [reflexivity|reflexivity].
  - intros n Hn. exists (4000 + Z.of_nat n). split; [reflexivity|]. simpl.
    destruct (Z.eqb_spec (4000 + Z.of_nat n) 4000); [lia|reflexivity].
Defined.

Lemma advertise_roundtrip_witness :
  exists c', finalizeAdvertiseAddr DefaultLANConfig (Ret (Some ([x0a; x00; x00; x01], 7946))) = Ret (Some c') /\
    GetAdvertiseAddr c' = Some (To16 [x0a; x00; x00; x01], u16 7946).
Proof.
  apply (proj1 (advertise_roundtrip DefaultLANConfig) [x0a; x00; x00; x01] 7946); [reflexivity|].
  left. reflexivity.
Defined.

End Witnesses.
