(* ===== verification/Listening.v ===== *)
(** * The listener goroutines and their shutdown ([tcpListen], [udpListen],
    [Shutdown] of [net_transport.go]; [receivePacket], [receiveTcpConn] of
    [net_handlers.go]; [Shutdown] of [memberlist.go])

    The goroutines hand what they receive to the two loops of the node over
    unbuffered channels. [Shutdown] sets the flag, closes the sockets, waits
    for the goroutines, and only then tells the loops to stop. A transition
    is one turn of one of them; all interleavings are runs. The packet loop
    calls [handlePacket] itself: the call may return, block for ever (on the
    mutex of the long-running queue, [overflow_deadlocks]) or panic (on a
    packet that is empty but for its checksum, [empty_packet_panics]). *)

From S2P Require Import Prelude Types Config.
From Stdlib Require Import Strings.Byte.

(** ** Exponential back-off of [tcpListen] *)

Definition baseDelay : Z := 5 * millisecond.
Definition maxDelay : Z := 1 * second.

Definition backoff (loopDelay : Z) : Z :=
  let loopDelay := if loopDelay =? 0 then baseDelay else loopDelay * 2 in
  if maxDelay <? loopDelay then maxDelay else loopDelay.

(** After [n] errors in a row. *)
Lemma backoff_iter n :
  Nat.iter (S n) backoff 0 = Z.min (baseDelay * 2 ^ Z.of_nat n) maxDelay.
Proof.
  induction n as [|n IH]; [done|]. rewrite Nat.iter_succ, IH.
  rewrite Nat2Z.inj_succ, Z.pow_succ_r by lia.
  assert (0 < 2 ^ Z.of_nat n) by (apply Z.pow_pos_nonneg; lia).
  unfold backoff, baseDelay, maxDelay, second, millisecond in *.
  rewrite (proj2 (Z.eqb_neq _ _)) by lia. destruct (Z.ltb_spec (1 * (1000 * 1000000)) (Z.min (5 * 1000000 * 2 ^ Z.of_nat n) (1 * (1000 * 1000000)) * 2)); lia.
Qed.

(** ** States *)

Record Packet := mkPacket { Buf : list byte; From : UDPAddr; Timestamp : Z }.

Inductive tcp_state :=
| Accepting (loopDelay : Z)
| Sleeping (loopDelay : Z)
| Offering                    (* [t.tcpConnCh <- conn] *)
| TcpDone.

Inductive udp_state :=
| Reading
| Forwarding (p : Packet)     (* [t.packetCh <- p] *)
| UdpDone.

(** Where [receivePacket] is. *)
Inductive loop_state :=
| Selecting                   (* in the [select] *)
| Handling (p : Packet)       (* in [handlePacket] *)
| Stuck (p : Packet)          (* in a call of [handlePacket] that never returns *)
| Crashed (p : Packet)        (* [handlePacket] has panicked, which ends the program *)
| LoopDone.                   (* returned, or never started *)

(** Where the call of [Shutdown] is. *)
Inductive phase := Open | Flagged | Waiting | Returned.

#[global] Instance phase_eq_dec : EqDecision phase.
Proof. solve_decision. Defined.

Record LState := mkLState {
  tcps : list tcp_state;
  udps : list udp_state;
  ph : phase;
  packetLoop : loop_state;    (* [receivePacket] *)
  connLoop : bool;            (* [receiveTcpConn] runs *)
  received : list Packet;     (* packets with at least one byte that were read *)
  handled : list Packet;      (* packets [handlePacket] is done with *)
  conns : nat                 (* connections given to [handleTcpConn] *)
}.

(** [hasShutdown] is true, and the sockets are closed. *)
Definition flag (s : LState) : bool := negb (bool_decide (ph s = Open)).
Definition closed (s : LState) : bool :=
  bool_decide (ph s = Waiting) || bool_decide (ph s = Returned).

Definition set_tcp (i : nat) (x : tcp_state) (s : LState) : LState :=
  mkLState (<[i := x]> (tcps s)) (udps s) (ph s) (packetLoop s) (connLoop s) (received s) (handled s) (conns s).
Definition set_udp (i : nat) (x : udp_state) (s : LState) : LState :=
  mkLState (tcps s) (<[i := x]> (udps s)) (ph s) (packetLoop s) (connLoop s) (received s) (handled s) (conns s).
Definition set_ph (p : phase) (s : LState) : LState :=
  mkLState (tcps s) (udps s) p (packetLoop s) (connLoop s) (received s) (handled s) (conns s).
Definition read_packet (p : Packet) (s : LState) : LState :=
  mkLState (tcps s) (udps s) (ph s) (packetLoop s) (connLoop s) (received s ++ [p]) (handled s) (conns s).
Definition packet_done (p : Packet) (s : LState) : LState :=
  mkLState (tcps s) (udps s) (ph s) Selecting (connLoop s) (received s) (handled s ++ [p]) (conns s).
Definition handle_conn (s : LState) : LState :=
  mkLState (tcps s) (udps s) (ph s) (packetLoop s) (connLoop s) (received s) (handled s) (S (conns s)).
Definition set_packetLoop (x : loop_state) (s : LState) : LState :=
  mkLState (tcps s) (udps s) (ph s) x (connLoop s) (received s) (handled s) (conns s).
Definition set_connLoop (x : bool) (s : LState) : LState :=
  mkLState (tcps s) (udps s) (ph s) (packetLoop s) x (received s) (handled s) (conns s).

(** ** Transitions *)

(** [tcpListen]: a connection, or an error; a closed listener only fails. A
    connection goes to [receiveTcpConn], which starts its handler. *)
Inductive tcp_step (s : LState) : LState -> Prop :=
| tcp_accept i d :
    tcps s !! i = Some (Accepting d) -> closed s = false ->
    tcp_step s (set_tcp i Offering s)
| tcp_error i d :
    tcps s !! i = Some (Accepting d) ->
    tcp_step s (set_tcp i (if flag s then TcpDone else Sleeping (backoff d)) s)
| tcp_wake i d :
    tcps s !! i = Some (Sleeping d) -> tcp_step s (set_tcp i (Accepting d) s)
| tcp_offer i :
    tcps s !! i = Some Offering -> connLoop s = true ->
    tcp_step s (handle_conn (set_tcp i (Accepting 0) s)).

(** [udpListen]: a packet of no bytes is dropped; another one is handed over
    when [receivePacket] is at its [select]. *)
Inductive udp_step (s : LState) : LState -> Prop :=
| udp_read i p :
    udps s !! i = Some Reading -> closed s = false -> 1 <= len (Buf p) ->
    udp_step s (read_packet p (set_udp i (Forwarding p) s))
| udp_short i :
    udps s !! i = Some Reading -> closed s = false -> udp_step s (set_udp i Reading s)
| udp_error i :
    udps s !! i = Some Reading ->
    udp_step s (set_udp i (if flag s || closed s then UdpDone else Reading) s)
| udp_forward i p :
    udps s !! i = Some (Forwarding p) -> packetLoop s = Selecting ->
    udp_step s (set_packetLoop (Handling p) (set_udp i Reading s)).

(** [Shutdown] of the transport. *)
Inductive shut_step (s : LState) : LState -> Prop :=
| shut_flag : ph s = Open -> shut_step s (set_ph Flagged s)
| shut_close : ph s = Flagged -> shut_step s (set_ph Waiting s)
| shut_wait :
    ph s = Waiting -> Forall (eq TcpDone) (tcps s) -> Forall (eq UdpDone) (udps s) ->
    shut_step s (set_ph Returned s).

(** [receivePacket]: what becomes of a call of [handlePacket], and the end of
    the loop. The loops stop when [shutdownCh] is closed, which [Shutdown] of
    the node does after that of the transport has returned. *)
Inductive receivePacket_step (s : LState) : LState -> Prop :=
| packet_returns p :
    packetLoop s = Handling p -> receivePacket_step s (packet_done p s)
| packet_blocks p :
    packetLoop s = Handling p -> receivePacket_step s (set_packetLoop (Stuck p) s)
| packet_panics p :
    packetLoop s = Handling p -> receivePacket_step s (set_packetLoop (Crashed p) s)
| stop_packets :
    ph s = Returned -> packetLoop s = Selecting -> receivePacket_step s (set_packetLoop LoopDone s).
Inductive receiveTcpConn_step (s : LState) : LState -> Prop :=
| stop_conns :
    ph s = Returned -> connLoop s = true -> receiveTcpConn_step s (set_connLoop false s).

(** A panic in one goroutine ends them all. *)
Definition crashed (s : LState) : bool := match packetLoop s with Crashed _ => true | _ => false end.

Inductive lstep (s s' : LState) : Prop :=
| by_tcp : crashed s = false -> tcp_step s s' -> lstep s s'
| by_udp : crashed s = false -> udp_step s s' -> lstep s s'
| by_shut : crashed s = false -> shut_step s s' -> lstep s s'
| by_packets : receivePacket_step s s' -> lstep s s'
| by_conns : crashed s = false -> receiveTcpConn_step s s' -> lstep s s'.

(** [n] addresses; [loops] says whether the node's loops were started. *)
Definition linit (n : nat) (loops : bool) : LState :=
  mkLState (replicate n (Accepting 0)) (replicate n Reading) Open
    (if loops then Selecting else LoopDone) loops [] [] 0.

(** ** Invariants *)

Definition in_flight (x : udp_state) : list Packet :=
  match x with Forwarding p => [p] | _ => [] end.
Definition in_hand (x : loop_state) : list Packet :=
  match x with Handling p | Stuck p | Crashed p => [p] | _ => [] end.
Definition in_flights (s : LState) : list Packet :=
  in_hand (packetLoop s) ++ concat (map in_flight (udps s)).

Definition delay_ok (x : tcp_state) : Prop :=
  match x with
  | Sleeping d => baseDelay <= d <= maxDelay
  | Accepting d => d = 0 \/ baseDelay <= d <= maxDelay
  | _ => True
  end.

(** No packet is lost or handled twice on the way, delays are within their
    bounds, and the loops run as long as a listener may need them. *)
Record linv (loops : bool) (s : LState) : Prop := {
  li_packets : received s ≡ₚ handled s ++ in_flights s;
  li_nonempty : Forall (fun p => 1 <= len (Buf p)) (received s);
  li_delay : Forall delay_ok (tcps s);
  li_loops : ph s <> Returned -> (packetLoop s = LoopDone <-> loops = false) /\ connLoop s = loops;
  li_returned : ph s = Returned -> Forall (eq TcpDone) (tcps s) /\ Forall (eq UdpDone) (udps s)
}.

Lemma concat_insert {A B} (f : A -> list B) l i x y :
  l !! i = Some x -> f x ++ concat (map f (<[i := y]> l)) ≡ₚ f y ++ concat (map f l).
Proof.
  revert i. induction l as [|z l IH]; intros [|i] H; simplify_eq/=; [apply Permutation_app_swap_app|].
  rewrite Permutation_app_swap_app, IH by done. apply Permutation_app_swap_app.
Qed.

Lemma Forall_insert_done {A} (P : A -> Prop) l i x : Forall P l -> P x -> Forall P (<[i := x]> l).
Proof. apply Forall_insert. Qed.

Lemma backoff_ok d : delay_ok (Accepting d) -> delay_ok (Sleeping (backoff d)).
Proof.
  unfold delay_ok, backoff, baseDelay, maxDelay, second, millisecond.
  intros [->|H]; [done|]. rewrite (proj2 (Z.eqb_neq d 0)) by lia. case_match; lia.
Qed.

Lemma linv_init n loops : linv loops (linit n loops).
Proof.
  split; simpl; try done.
  - unfold in_flights. simpl. destruct loops; simpl; induction n; simpl in *; auto.
  - apply Forall_replicate. by left.
  - intros _. by destruct loops.
Qed.

(** No listener is left once [Shutdown] has returned. *)
Lemma returned_no_tcp loops s i x :
  linv loops s -> tcps s !! i = Some x -> x <> TcpDone -> ph s <> Returned.
Proof.
  intros H Hi Hx Hr. apply (li_returned _ _ H) in Hr as [Ht _].
  rewrite Forall_forall in Ht. apply Hx. symmetry. apply Ht. by eapply list_elem_of_lookup_2.
Qed.

Lemma returned_no_udp loops s i x :
  linv loops s -> udps s !! i = Some x -> x <> UdpDone -> ph s <> Returned.
Proof.
  intros H Hi Hx Hr. apply (li_returned _ _ H) in Hr as [_ Ht].
  rewrite Forall_forall in Ht. apply Hx. symmetry. apply Ht. by eapply list_elem_of_lookup_2.
Qed.

Lemma linv_set_tcp loops s i x y :
  linv loops s -> tcps s !! i = Some x -> x <> TcpDone -> delay_ok y -> linv loops (set_tcp i y s).
Proof.
  intros H Hi Hx Hy. pose proof (returned_no_tcp _ _ _ _ H Hi Hx) as Hr. destruct H as [H1 H2 H3 H4 H5].
  split; try done. simpl. by apply Forall_insert.
Qed.

(** Packets are read ([rs]), move from the [i]-th reader to the loop, or are
    done with ([hs]). *)
Lemma linv_set_udp loops s i x y l rs hs :
  linv loops s -> udps s !! i = Some x -> x <> UdpDone ->
  (packetLoop s = LoopDone <-> l = LoopDone) ->
  in_flight y ++ in_hand l ++ hs ≡ₚ in_flight x ++ in_hand (packetLoop s) ++ rs ->
  Forall (fun p => 1 <= len (Buf p)) rs ->
  linv loops (mkLState (tcps s) (<[i := y]> (udps s)) (ph s) l (connLoop s)
    (received s ++ rs) (handled s ++ hs) (conns s)).
Proof.
  intros H Hi Hx Hl Hxy Hrs. pose proof (returned_no_udp _ _ _ _ H Hi Hx) as Hr. destruct H as [H1 H2 H3 H4 H5].
  split; try done; simpl; [|by apply Forall_app|].
  - pose proof (concat_insert in_flight (udps s) i x y Hi) as Hc. unfold in_flights in *. simpl.
    apply (Permutation_app_inv_l (in_flight x)). rewrite H1.
    revert Hc Hxy. generalize (concat (map in_flight (<[i:=y]> (udps s)))) (concat (map in_flight (udps s)))
      (in_flight x) (in_flight y) (in_hand l) (in_hand (packetLoop s)) (handled s).
    intros C C' X Y L L' D Hc Hxy.
    assert (X ++ (D ++ hs) ++ L ++ C ≡ₚ D ++ (L ++ hs) ++ (X ++ C)) as -> by solve_Permutation.
    rewrite Hc.
    assert (D ++ (L ++ hs) ++ Y ++ C' ≡ₚ D ++ (Y ++ L ++ hs) ++ C') as -> by solve_Permutation.
    rewrite Hxy. solve_Permutation.
  - intros _. destruct (H4 Hr) as [H6 H7]. split; [|done]. by rewrite <- H6.
Qed.

(** The loop goes on with the packet it has. *)
Lemma linv_set_loop loops s l hs :
  linv loops s -> packetLoop s <> LoopDone -> l <> LoopDone ->
  in_hand l ++ hs ≡ₚ in_hand (packetLoop s) ->
  linv loops (mkLState (tcps s) (udps s) (ph s) l (connLoop s) (received s) (handled s ++ hs) (conns s)).
Proof.
  intros [H1 H2 H3 H4 H5] Hs Hl Hh. split; try done; simpl.
  - unfold in_flights in *. simpl. rewrite H1, <- Hh. solve_Permutation.
  - intros Hr. destruct (H4 Hr) as [H6 H7]. split; [|done]. split; [done|]. intros E. by apply H6 in E.
Qed.

Lemma lstep_inv loops s s' : linv loops s -> lstep s s' -> linv loops s'.
Proof.
  intros H Hs. destruct Hs as [_ [i d Hi Hc|i d Hi|i d Hi|i Hi Hl]|_ [i p Hi Hc Hp|i Hi Hc|i Hi|i p Hi Hl]
    |_ [Hp|Hp|Hp H1 H2]|[p Hl|p Hl|p Hl|Hp Hl]|_ [Hp Hl]].
  1-3: assert (delay_ok (Accepting d)) as Hd || assert (delay_ok (Sleeping d)) as Hd.
  - exact (Forall_lookup_1 _ _ _ _ (li_delay _ _ H) Hi).
  - by eapply linv_set_tcp.
  - exact (Forall_lookup_1 _ _ _ _ (li_delay _ _ H) Hi).
  - eapply linv_set_tcp; [done..|]. destruct (flag s); [done|by apply backoff_ok].
  - right. exact (Forall_lookup_1 _ _ _ _ (li_delay _ _ H) Hi).
  - by eapply linv_set_tcp.
  - apply (linv_set_tcp _ _ i Offering (Accepting 0)) in H; [|done..|by left]. by destruct H.
  - apply (linv_set_udp _ _ i Reading (Forwarding p) (packetLoop s) [p] []) in H;
      [|done..|simpl; solve_Permutation|by repeat constructor].
    rewrite app_nil_r in H. exact H.
  - apply (linv_set_udp _ _ i Reading Reading (packetLoop s) [] []) in H; [|done..|constructor].
    rewrite !app_nil_r in H. exact H.
  - apply (linv_set_udp _ _ i Reading (if flag s || closed s then UdpDone else Reading) (packetLoop s) [] []) in H;
      [|done..|by destruct (flag s || closed s)|constructor].
    rewrite !app_nil_r in H. exact H.
  - apply (linv_set_udp _ _ i (Forwarding p) Reading (Handling p) [] []) in H;
      [|done|done|by rewrite Hl|by rewrite Hl|constructor].
    rewrite !app_nil_r in H. exact H.
  - destruct H as [A1 A2 A3 A4 A5]. split; try done. intros _. apply A4. by rewrite Hp.
  - destruct H as [A1 A2 A3 A4 A5]. split; try done. intros _. apply A4. by rewrite Hp.
  - destruct H as [A1 A2 A3 A4 A5]. split; done.
  - apply linv_set_loop; [done|by rewrite Hl|done|by rewrite Hl].
  - apply (linv_set_loop _ _ (Stuck p) []) in H; [|by rewrite Hl|done|by rewrite Hl].
    rewrite app_nil_r in H. exact H.
  - apply (linv_set_loop _ _ (Crashed p) []) in H; [|by rewrite Hl|done|by rewrite Hl].
    rewrite app_nil_r in H. exact H.
  - destruct H as [A1 A2 A3 A4 A5]. unfold in_flights in A1. rewrite Hl in A1. split; done.
  - destruct H as [A1 A2 A3 A4 A5]. split; done.
Qed.

Lemma rtc_linv loops s s' : linv loops s -> rtc lstep s s' -> linv loops s'.
Proof. intros H. induction 1; eauto using lstep_inv. Qed.

(** ** Shutdown *)

(** What the goroutines have still to do once the sockets are closed. *)
Definition tcp_work (x : tcp_state) : nat :=
  match x with TcpDone => 0 | Accepting _ => 1 | _ => 2 end.
Definition udp_work (x : udp_state) : nat :=
  match x with UdpDone => 0 | Reading => 1 | Forwarding _ => 3 end.
Definition loop_work (x : loop_state) : nat :=
  match x with Selecting => 1 | Handling _ => 2 | _ => 0 end.
Definition phase_work (p : phase) : nat :=
  match p with Returned => 0 | Waiting => 1 | Flagged => 2 | Open => 3 end.
Definition work (s : LState) : nat :=
  (sum_list (map tcp_work (tcps s)) + sum_list (map udp_work (udps s)) + phase_work (ph s)
   + loop_work (packetLoop s) + (if connLoop s then 1 else 0))%nat.

Lemma sum_insert {A} (f : A -> nat) l i x y :
  l !! i = Some x -> (sum_list (map f (<[i := y]> l)) + f x = sum_list (map f l) + f y)%nat.
Proof. revert i. induction l as [|z l IH]; intros [|i] H; simplify_eq/=; [lia|]. apply IH in H. lia. Qed.

Lemma work_set_tcp s i x y :
  tcps s !! i = Some x -> (tcp_work y < tcp_work x)%nat -> (work (set_tcp i y s) < work s)%nat.
Proof. intros Hi Hw. unfold work. simpl. pose proof (sum_insert tcp_work _ _ _ y Hi). lia. Qed.

Lemma work_set_udp s i x y :
  udps s !! i = Some x -> (udp_work y < udp_work x)%nat -> (work (set_udp i y s) < work s)%nat.
Proof. intros Hi Hw. unfold work. simpl. pose proof (sum_insert udp_work _ _ _ y Hi). lia. Qed.

(** Every step of a closed transport is progress. *)
Lemma closed_step_decreases s s' :
  closed s = true -> lstep s s' -> (work s' < work s)%nat /\ closed s' = true.
Proof.
  intros Hc Hs.
  assert (flag s = true) as Hf by (unfold closed, flag in *; by destruct (ph s)).
  destruct Hs as [_ [i d Hi Hc'|i d Hi|i d Hi|i Hi Hl]|_ [i p Hi Hc' Hp|i Hi Hc'|i Hi|i p Hi Hl]
    |_ [Hp|Hp|Hp H1 H2]|[p Hl|p Hl|p Hl|Hp Hl]|_ [Hp Hl]];
    try congruence; try (unfold closed in Hc; rewrite Hp in Hc; done).
  - split; [|done]. rewrite Hf. eapply work_set_tcp; [done|simpl; lia].
  - split; [|done]. eapply work_set_tcp; [done|simpl; lia].
  - split; [|done]. eapply (work_set_tcp s i Offering (Accepting 0)); [done|simpl; lia].
  - split; [|done]. rewrite Hf. simpl. eapply work_set_udp; [done|simpl; lia].
  - split; [|done]. unfold work. simpl. rewrite Hl. pose proof (sum_insert udp_work _ _ _ Reading Hi). simpl in *. lia.
  - split; [unfold work; simpl; rewrite Hp; simpl; lia|done].
  - split; [|done]. unfold work. simpl. rewrite Hl. simpl. lia.
  - split; [|done]. unfold work. simpl. rewrite Hl. simpl. lia.
  - split; [|done]. unfold work. simpl. rewrite Hl. simpl. lia.
  - split; [|done]. unfold work. simpl. rewrite Hl. simpl. lia.
  - split; [|done]. unfold work. simpl. rewrite Hl. lia.
Qed.

(** What a listener of a closed transport still does. *)
Lemma tcp_moves s :
  crashed s = false -> connLoop s = true -> ~ Forall (eq TcpDone) (tcps s) -> exists s', lstep s s'.
Proof.
  intros Hcr Hc Ht.
  destruct (decide (Forall (fun x => tcp_work x = 0%nat) (tcps s))) as [Ht'|Ht'].
  { destruct Ht. eapply Forall_impl; [exact Ht'|]. intros [] Hx; by simpl in Hx. }
  apply not_Forall_Exists in Ht'; [|intros x; apply _]. apply Exists_exists in Ht' as (x & Hx & Hn).
  apply list_elem_of_lookup in Hx as [i Hi]. destruct x as [d|d| |]; [..|by destruct Hn].
  - eexists. apply by_tcp; [done|]. by eapply tcp_error.
  - eexists. apply by_tcp; [done|]. by eapply tcp_wake.
  - eexists. apply by_tcp; [done|]. by eapply tcp_offer.
Qed.

Definition waits_for_loop (x : udp_state) : Prop := x = UdpDone \/ exists p, x = Forwarding p.

Lemma udp_moves s : crashed s = false -> ~ Forall waits_for_loop (udps s) -> exists s', lstep s s'.
Proof.
  intros Hcr Hu. destruct (decide (Forall (fun x => udp_work x <> 1%nat) (udps s))) as [Hu'|Hu'].
  { destruct Hu. eapply Forall_impl; [exact Hu'|]. intros [|p|] Hx; [done|right; by exists p|by left]. }
  apply not_Forall_Exists in Hu'; [|intros x; apply _]. apply Exists_exists in Hu' as (x & Hx & Hn).
  apply list_elem_of_lookup in Hx as [i Hi]. destruct x as [|p|]; [|by destruct Hn..].
  eexists. apply by_udp; [done|]. by eapply udp_error.
Qed.

#[local] Instance eq_tcp_done_dec l : Decision (Forall (eq TcpDone) l).
Proof. apply Forall_dec. intros []; (by left) || (by right). Defined.
#[local] Instance eq_udp_done_dec l : Decision (Forall (eq UdpDone) l).
Proof. apply Forall_dec. intros []; (by left) || (by right). Defined.
#[local] Instance waits_for_loop_dec l : Decision (Forall waits_for_loop l).
Proof.
  apply Forall_dec. intros [|p|]; [right; by intros [|[]]|left; right; by exists p|left; by left].
Defined.

(** Where a run of a closed transport can end. *)
Lemma closed_stuck s :
  linv true s -> closed s = true -> (forall s', ~ lstep s s') ->
  match packetLoop s with
  | LoopDone => ph s = Returned /\ connLoop s = false
  | Stuck _ => Forall (eq TcpDone) (tcps s) /\ Forall waits_for_loop (udps s) /\
      (ph s = Returned <-> Forall (eq UdpDone) (udps s))
  | Crashed _ => True
  | _ => False
  end.
Proof.
  intros H Hc Hst.
  destruct (crashed s) eqn:Hcr; [unfold crashed in Hcr; by destruct (packetLoop s)|].
  assert (packetLoop s = LoopDone -> ph s = Returned) as Hdone.
  { intros E. destruct (decide (ph s = Returned)) as [|Hr]; [done|].
    destruct (li_loops _ _ H Hr) as [[Hl _] _]. by apply Hl in E. }
  destruct (decide (ph s = Returned)) as [Hr|Hr].
  { destruct (li_returned _ _ H Hr) as [Ht Hu].
    destruct (connLoop s) eqn:Ecl; [destruct (Hst (set_connLoop false s)); by apply by_conns, stop_conns|].
    destruct (packetLoop s) as [|p|p|p|] eqn:El; try done.
    - edestruct Hst. by apply by_packets, stop_packets.
    - edestruct Hst. apply by_packets. by eapply packet_returns.
    - split_and!; [done| |done]. eapply Forall_impl; [exact Hu|]. intros x <-. by left. }
  assert (ph s = Waiting) as Hw by (unfold closed in Hc; by destruct (ph s)).
  destruct (li_loops _ _ H Hr) as [Hl Hcl].
  destruct (decide (Forall (eq TcpDone) (tcps s))) as [Ht|Ht].
  2:{ destruct (tcp_moves s Hcr Hcl Ht) as [s2 Hs2]. by destruct (Hst s2). }
  destruct (decide (Forall waits_for_loop (udps s))) as [Hu|Hu].
  2:{ destruct (udp_moves s Hcr Hu) as [s2 Hs2]. by destruct (Hst s2). }
  destruct (decide (Forall (eq UdpDone) (udps s))) as [Hud|Hud].
  { edestruct Hst. apply by_shut; [done|]. by apply shut_wait. }
  destruct (packetLoop s) as [|p|p|p|] eqn:El; try done.
  - assert (exists i p, udps s !! i = Some (Forwarding p)) as (i & p & Hi).
    { apply not_Forall_Exists in Hud; [|intros []; (by left) || (by right)].
      apply Exists_exists in Hud as (x & Hx & Hn). rewrite Forall_forall in Hu.
      destruct (Hu x Hx) as [->|[p ->]]; [done|]. apply list_elem_of_lookup in Hx as [i Hi]. by exists i, p. }
    edestruct Hst. apply by_udp; [done|]. by eapply udp_forward.
  - edestruct Hst. apply by_packets. by eapply packet_returns.
  - by specialize (Hdone eq_refl).
Qed.

Lemma closed_run s n s' : closed s = true -> nsteps lstep n s s' -> (n + work s' <= work s)%nat /\ closed s' = true.
Proof.
  intros Hc Hn. revert Hc. induction Hn as [|n x y z Hxy _ IH]; intros Hc; [split; [lia|done]|].
  destruct (closed_step_decreases _ _ Hc Hxy) as [Hw Hc']. destruct (IH Hc'). split; [lia|done].
Qed.

Lemma no_flights s : Forall (eq UdpDone) (udps s) -> concat (map in_flight (udps s)) = [].
Proof. induction 1 as [|x l <- _ IH]; [done|exact IH]. Qed.

(** C25: whatever the listeners and the loops were doing when the sockets were
    closed, every run from there has at most [work s] steps. If the calls of
    [handlePacket] return, it ends with [Shutdown] of the transport returned,
    all listeners and the two loops [receivePacket] and [receiveTcpConn]
    stopped, and every packet that was read handled exactly once. If a call
    of [handlePacket] blocks for ever, the stream listeners stop, each packet
    listener stops or waits with a packet for the loop, and [Shutdown]
    returns only if none of them waits. (If the call panics the program has
    ended. Other goroutines, such as those of connections, are not
    considered.) *)
Theorem shutdown_completes n s s' k :
  rtc lstep (linit n true) s -> closed s = true -> nsteps lstep k s s' ->
  (k <= work s)%nat /\
  ((forall s2, ~ lstep s' s2) ->
   match packetLoop s' with
   | LoopDone => ph s' = Returned /\ connLoop s' = false /\
       Forall (eq TcpDone) (tcps s') /\ Forall (eq UdpDone) (udps s') /\ received s' ≡ₚ handled s'
   | Stuck _ => Forall (eq TcpDone) (tcps s') /\
       Forall (fun x => x = UdpDone \/ exists p, x = Forwarding p) (udps s') /\
       (ph s' = Returned <-> Forall (eq UdpDone) (udps s'))
   | Crashed _ => True
   | Selecting | Handling _ => False
   end).
Proof.
  intros Hr Hc Hk. destruct (closed_run _ _ _ Hc Hk) as [Hw Hc']. split; [lia|]. intros Hstuck.
  assert (linv true s') as Hi.
  { apply (rtc_linv _ s); [by apply (rtc_linv _ _ _ (linv_init n true))|]. eapply rtc_nsteps_2; eassumption. }
  pose proof (closed_stuck s' Hi Hc' Hstuck) as Hend. destruct (packetLoop s') eqn:El; try done.
  destruct Hend as [H1 H2]. destruct (li_returned _ _ Hi H1) as [H4 H5]. split_and!; try done.
  pose proof (li_packets _ _ Hi) as Hp. unfold in_flights in Hp.
  by rewrite El, (no_flights _ H5), !app_nil_r in Hp.
Qed.

(** ** Without the loops *)

(** A listener holds something for a loop that does not run, or is stuck. *)
Definition blocked (s : LState) : Prop :=
  ph s <> Returned /\
  ((packetLoop s = LoopDone \/ exists p, packetLoop s = Stuck p) /\
     (exists i p, udps s !! i = Some (Forwarding p)) \/
   connLoop s = false /\ exists i, tcps s !! i = Some Offering).

Lemma blocked_step s s' : blocked s -> lstep s s' -> blocked s'.
Proof.
  intros (H3 & H4) Hs.
  assert (forall i x, tcps s !! i = Some x -> x <> Offering \/ connLoop s = true -> forall y,
    ((packetLoop s = LoopDone \/ exists p, packetLoop s = Stuck p) /\ (exists i p, udps s !! i = Some (Forwarding p)) \/
     connLoop s = false /\ (exists j, <[i := y]> (tcps s) !! j = Some Offering))) as Ht.
  { intros i x Hi Hx y. destruct H4 as [H4|[Hc [j Hj]]]; [by left|right]. split; [done|]. exists j.
    rewrite list_lookup_insert_ne; [done|]. intros E. subst j. destruct Hx; congruence. }
  assert (forall i x, udps s !! i = Some x -> (forall p, x <> Forwarding p) -> forall y,
    ((packetLoop s = LoopDone \/ exists p, packetLoop s = Stuck p) /\
       (exists j p, <[i := y]> (udps s) !! j = Some (Forwarding p)) \/
     connLoop s = false /\ (exists j, tcps s !! j = Some Offering))) as Hu.
  { intros i x Hi Hx y. destruct H4 as [[Hp (j & p & Hj)]|H4]; [left|by right]. split; [done|]. exists j, p.
    rewrite list_lookup_insert_ne; [done|]. intros E. subst j. rewrite Hi in Hj. injection Hj as ->. by destruct (Hx p). }
  destruct Hs as [_ [i d Hi Hc'|i d Hi|i d Hi|i Hi Hl]|_ [i p Hi Hc' Hp|i Hi Hc'|i Hi|i p Hi Hl]
    |_ [Hp|Hp|Hp A1 A2]|[p Hl|p Hl|p Hl|Hp Hl]|_ [Hp Hl]];
    try congruence; split; simpl; try done; try (eapply Ht; [exact Hi|auto; by left]); try (by eapply Hu).
  - destruct H4 as [[[E|[q E]] _]|[Hc [j Hj]]]; try congruence. right. split; [done|by exists j].
  - rewrite Forall_forall in A1. rewrite Forall_forall in A2.
    destruct H4 as [[_ (i & p & Hi)]|[_ [i Hi]]]; apply list_elem_of_lookup_2 in Hi; [by apply A2 in Hi|by apply A1 in Hi].
  - destruct H4 as [[[E|[q E]] _]|[Hc [j Hj]]]; try congruence. right. split; [done|by exists j].
  - destruct H4 as [[[E|[q E]] _]|[Hc [j Hj]]]; try congruence. right. split; [done|by exists j].
  - destruct H4 as [[[E|[q E]] _]|[Hc [j Hj]]]; try congruence. right. split; [done|by exists j].
Qed.

Lemma blocked_run s s' : blocked s -> rtc lstep s s' -> ph s' <> Returned.
Proof.
  intros Hb Hr. assert (blocked s') as (H & _); [|done].
  revert Hb. induction Hr; eauto using blocked_step.
Qed.

(** [Build] shuts the transport down when [start] fails, before the loops
    are started. A listener that has received something by then waits for
    ever on its channel, and [Shutdown], which waits for it, never returns. *)
Theorem build_failure_hangs n s s' :
  rtc lstep (linit n false) s -> ph s <> Returned ->
  (exists i p, udps s !! i = Some (Forwarding p)) \/ (exists i, tcps s !! i = Some Offering) ->
  rtc lstep s s' -> ph s' <> Returned.
Proof.
  intros Hr Hp Hl. apply blocked_run. destruct (rtc_linv _ _ _ (linv_init n false) Hr) as [_ _ _ H _].
  destruct (H Hp) as [[_ Hpl] Hcl]. split; [done|].
  destruct Hl as [Hl|Hl]; [left|by right]. split; [left; by apply Hpl|done].
Qed.

(** A node whose [handlePacket] is blocked for ever, as by an overflow of the
    long-running queue, cannot be shut down once a listener has read another
    packet: the listener never gets rid of it, and [Shutdown] waits for the
    listener. *)
Theorem stuck_packet_hangs n s s' p q i :
  rtc lstep (linit n true) s -> packetLoop s = Stuck p -> udps s !! i = Some (Forwarding q) ->
  rtc lstep s s' -> ph s' <> Returned.
Proof.
  intros Hr Hl Hi. apply blocked_run.
  pose proof (rtc_linv _ _ _ (linv_init n true) Hr) as Hinv. split; [by eapply returned_no_udp|].
  left. split; [right; by exists p|by exists i, q].
Qed.

Definition packetW : Packet := mkPacket [x09] (mkUDPAddr [x7f; x00; x00; x01] 7946) 0.

Definition readW (loops : bool) : LState :=
  read_packet packetW (set_udp 0 (Forwarding packetW) (linit 1 loops)).

Lemma reach_readW loops : lstep (linit 1 loops) (readW loops).
Proof.
  apply by_udp; [by destruct loops|]. apply (udp_read (linit 1 loops) 0 packetW); [reflexivity..|simpl; lia].
Qed.

Lemma reach_closed loops :
  rtc lstep (linit 1 loops) (set_ph Waiting (set_ph Flagged (readW loops))).
Proof.
  apply rtc_l with (readW loops); [apply reach_readW|].
  apply rtc_l with (set_ph Flagged (readW loops)).
  - apply by_shut; [by destruct loops|]. apply shut_flag. reflexivity.
  - apply rtc_once. apply by_shut; [by destruct loops|]. apply shut_close. reflexivity.
Qed.

Definition closedW : LState := set_ph Waiting (set_ph Flagged (readW true)).
Definition endW : LState := mkLState [TcpDone] [UdpDone] Returned LoopDone false [packetW] [packetW] 0.

Lemma run_closedW : nsteps lstep 7 closedW endW.
Proof.
  eapply nsteps_l; [apply by_udp; [reflexivity|apply (udp_forward _ 0 packetW); reflexivity]|].
  eapply nsteps_l; [apply by_udp; [reflexivity|apply (udp_error _ 0); reflexivity]|].
  eapply nsteps_l; [apply by_packets, (packet_returns _ packetW); reflexivity|].
  eapply nsteps_l; [apply by_tcp; [reflexivity|apply (tcp_error _ 0 0); reflexivity]|].
  eapply nsteps_l; [apply by_shut; [reflexivity|apply shut_wait; [reflexivity|repeat constructor..]]|].
  eapply nsteps_l; [apply by_packets, stop_packets; reflexivity|].
  eapply nsteps_l; [apply by_conns; [reflexivity|apply stop_conns; reflexivity]|].
  constructor.
Qed.

Lemma endW_stuck s : ~ lstep endW s.
Proof.
  assert (forall i x, tcps endW !! i = Some x -> x = TcpDone) as Ht by (intros [|i] x; simpl; [by intros [= <-]|done]).
  assert (forall i x, udps endW !! i = Some x -> x = UdpDone) as Hu by (intros [|i] x; simpl; [by intros [= <-]|done]).
  intros [_ [i d Hi|i d Hi|i d Hi|i Hi]|_ [i p Hi|i Hi|i Hi|i p Hi]|_ H|H|_ H];
    try (apply Ht in Hi; discriminate Hi); try (apply Hu in Hi; discriminate Hi);
    inversion H; discriminate.
Qed.

Lemma shutdown_completes_witness :
  (7 <= work closedW)%nat /\ ph endW = Returned /\ received endW ≡ₚ handled endW.
Proof.
  destruct (shutdown_completes 1 closedW endW 7 (reach_closed true) eq_refl run_closedW) as [H1 H2].
  destruct (H2 endW_stuck) as (H3 & _ & _ & _ & H4).
  split; [exact H1|]. split; [exact H3|exact H4].
Defined.

Lemma build_failure_hangs_witness :
  rtc lstep (linit 1 false) (set_ph Waiting (set_ph Flagged (readW false))) /\
  forall s', rtc lstep (set_ph Waiting (set_ph Flagged (readW false))) s' -> ph s' <> Returned.
Proof.
  split; [apply reach_closed|]. intros s'.
  apply (build_failure_hangs 1 (set_ph Waiting (set_ph Flagged (readW false))) s' (reach_closed false)).
  - discriminate.
  - left. exists 0%nat, packetW. reflexivity.
Defined.

(** The handler is stuck with one packet, and the listener has the next. *)
Definition stuckW : LState :=
  read_packet packetW (set_udp 0 (Forwarding packetW)
    (set_packetLoop (Stuck packetW) (set_packetLoop (Handling packetW) (set_udp 0 Reading (readW true))))).

Lemma reach_stuckW : rtc lstep (linit 1 true) stuckW.
Proof.
  eapply rtc_l; [apply (reach_readW true)|].
  eapply rtc_l; [apply by_udp; [reflexivity|apply (udp_forward _ 0 packetW); reflexivity]|].
  eapply rtc_l; [apply by_packets, (packet_blocks _ packetW); reflexivity|].
  apply rtc_once. apply by_udp; [reflexivity|]. apply (udp_read _ 0 packetW); [reflexivity..|simpl; lia].
Qed.

Lemma stuck_packet_hangs_witness : forall s', rtc lstep stuckW s' -> ph s' <> Returned.
Proof.
  intros s'. apply (stuck_packet_hangs 1 stuckW s' packetW packetW 0%nat reach_stuckW); reflexivity.
Defined.
