(* ===== verification/Spec.v ===== *)
(** * The membership protocol, abstractly

    What a node knows of the others is a finite map from node names to node
    states. The three gossip messages update it by the SWIM precedence
    rules: [Lives] (the incarnation number of the node) first, then
    alive < suspect < dead at equal [Lives]. This file states the rules and
    what follows from them alone; [StateFacts] shows that the handlers of
    [state.go] implement them. *)

From S2P Require Import Prelude Types.

Abbreviation membership := (gmap string nodeState).

(** A node seen for the first time. *)
Definition new_node (a : alive) (now : Z) : nodeState :=
  mkNodeState (mkNode (a_ID a) (a_IP a) (a_Port a) (a_Tags a))
    (a_Lives a) StateAlive now.

(** A known node with a newer alive message: only its tags are taken over. *)
Definition accept_alive (a : alive) (now : Z) (n : nodeState) : nodeState :=
  mkNodeState (mkNode (ID (node n)) (IP (node n)) (Port (node n)) (a_Tags a))
    (a_Lives a) StateAlive
    (if bool_decide (State n = StateAlive) then StateChange n else now).

Definition accept_suspect (s : suspect) (now : Z) (n : nodeState) : nodeState :=
  mkNodeState (node n) (s_Lives s) StateSuspect now.

Definition accept_dead (d : dead) (now : Z) (n : nodeState) : nodeState :=
  mkNodeState (node n) (d_Lives d) (if d_Left d then StateLeft else StateDead) now.

Definition with_lives (l : Z) (n : nodeState) : nodeState :=
  mkNodeState (node n) l (State n) (StateChange n).

Section Rules.

(** The name of the local node, and whether it has left. *)
Context (self : string) (gone : bool).

(** [allowed]: the address of the node passes the filter. *)
Definition spec_alive (allowed : bool) (a : alive) (now : Z) (M : membership)
    : membership :=
  if (gone && bool_decide (a_ID a = self)) || negb allowed then M
  else
    match M !! a_ID a with
    | None => <[ a_ID a := new_node a now ]> M
    | Some n =>
        if a_Lives a <=? Lives n then M
        else <[ a_ID a := accept_alive a now n ]> M
    end.

(** [newLives]: the number with which the local node refutes. *)
Definition spec_suspect (newLives : Z) (s : suspect) (now : Z) (M : membership)
    : membership :=
  match M !! s_ID s with
  | None => M
  | Some n =>
      if (s_Lives s <? Lives n) || bool_decide (State n <> StateAlive) then M
      else if bool_decide (s_ID s = self)
      then <[ s_ID s := with_lives newLives n ]> M
      else <[ s_ID s := accept_suspect s now n ]> M
  end.

Definition spec_dead (newLives : Z) (d : dead) (now : Z) (M : membership)
    : membership :=
  match M !! d_ID d with
  | None => M
  | Some n =>
      if (d_Lives d <? Lives n) || DeadOrLeft n then M
      else if bool_decide (d_ID d = self) && negb gone
      then <[ d_ID d := with_lives newLives n ]> M
      else <[ d_ID d := accept_dead d now n ]> M
  end.

End Rules.

(** ** Precedence *)

Definition rank (t : StateType) : Z :=
  match t with
  | StateAlive => 0 | StateSuspect => 1 | StateDead => 2 | StateLeft => 2
  end.

(** [n'] is at least as recent as [n]: lexicographic on [Lives], [rank]. *)
Definition supersedes (n n' : nodeState) : Prop :=
  Lives n < Lives n' \/ (Lives n = Lives n' /\ rank (State n) <= rank (State n')).

#[global] Instance supersedes_preorder : PreOrder supersedes.
Proof.
  split.
  - intros n. right. lia.
  - intros a b c. unfold supersedes. lia.
Qed.

(** Nothing is forgotten, and what is known only gets more recent. *)
Definition advances (M M' : membership) : Prop :=
  forall x n, M !! x = Some n ->
    exists n', M' !! x = Some n' /\ supersedes n n' /\ nid n' = nid n.

#[global] Instance advances_preorder : PreOrder advances.
Proof.
  split.
  - intros M x n Hx. exists n. by split_and!.
  - intros M1 M2 M3 H12 H23 x n Hx.
    destruct (H12 x n Hx) as (n2 & Hx2 & Hs2 & Hn2).
    destruct (H23 x n2 Hx2) as (n3 & Hx3 & Hs3 & Hn3).
    exists n3. split_and!; [done|by etrans|congruence].
Qed.

Lemma advances_insert M x n n' :
  M !! x = Some n -> supersedes n n' -> nid n' = nid n -> advances M (<[ x := n' ]> M).
Proof.
  intros Hx Hs Hn y k Hy. destruct (decide (x = y)) as [->|Hne].
  - exists n'. rewrite lookup_insert_eq. by simplify_eq.
  - exists k. rewrite lookup_insert_ne by done. by split_and!.
Qed.

Lemma advances_new M x n : M !! x = None -> advances M (<[ x := n ]> M).
Proof.
  intros Hx y k Hy. exists k. rewrite lookup_insert_ne by congruence. by split_and!.
Qed.

Lemma spec_alive_advances self gone allowed a now M :
  advances M (spec_alive self gone allowed a now M).
Proof.
  unfold spec_alive. case_match; [done|].
  destruct (M !! a_ID a) as [n|] eqn:E.
  - destruct (Z.leb_spec (a_Lives a) (Lives n)); [done|].
    apply (advances_insert _ _ n); [done|left; simpl; lia|done].
  - by apply advances_new.
Qed.

Lemma spec_suspect_advances self newLives s now M :
  s_Lives s < newLives -> advances M (spec_suspect self newLives s now M).
Proof.
  intros Hl. unfold spec_suspect. destruct (M !! s_ID s) as [n|] eqn:E; [|done].
  destruct (Z.ltb_spec (s_Lives s) (Lives n)); [done|]. simpl.
  case_bool_decide as Hst; [done|].
  case_bool_decide; apply (advances_insert _ _ n); try done; unfold supersedes; simpl.
  - lia.
  - rewrite Hst. simpl. lia.
Qed.

Lemma spec_dead_advances self gone newLives d now M :
  d_Lives d < newLives -> advances M (spec_dead self gone newLives d now M).
Proof.
  intros Hl. unfold spec_dead. destruct (M !! d_ID d) as [n|] eqn:E; [|done].
  destruct (Z.ltb_spec (d_Lives d) (Lives n)); [done|]. simpl.
  case_match eqn:Hd; [done|].
  case_match; apply (advances_insert _ _ n); try done; unfold supersedes; simpl.
  - lia.
  - unfold DeadOrLeft in Hd. destruct (State n); simpl in *; try done;
      destruct (d_Left d); simpl; lia.
Qed.

(** The refuting number matters for the local node only. *)
Lemma spec_suspect_other self l l' s now M :
  s_ID s <> self -> spec_suspect self l s now M = spec_suspect self l' s now M.
Proof. intros Hx. unfold spec_suspect. by rewrite (bool_decide_eq_false_2 _ Hx). Qed.

Lemma spec_dead_other self gone l l' d now M :
  d_ID d <> self \/ gone = true ->
  spec_dead self gone l d now M = spec_dead self gone l' d now M.
Proof.
  intros Hx. unfold spec_dead. destruct (bool_decide (d_ID d = self) && negb gone) eqn:E; [|done].
  apply andb_true_iff in E as [E1%bool_decide_eq_true E2]. destruct gone; naive_solver.
Qed.

(** Receiving the same message twice is receiving it once. *)
Lemma spec_alive_idemp self gone allowed a now now' M :
  spec_alive self gone allowed a now' (spec_alive self gone allowed a now M)
  = spec_alive self gone allowed a now M.
Proof.
  unfold spec_alive. destruct (_ || _); [done|].
  destruct (M !! a_ID a) as [n|] eqn:E.
  - destruct (Z.leb_spec (a_Lives a) (Lives n)) as [Hle|Hgt].
    + rewrite E. by rewrite (proj2 (Z.leb_le _ _)).
    + rewrite lookup_insert_eq. simpl. by rewrite Z.leb_refl.
  - rewrite lookup_insert_eq. simpl. by rewrite Z.leb_refl.
Qed.

Lemma spec_dead_idemp self gone l l' d now now' M :
  (d_ID d = self -> gone = false -> d_Lives d < l) ->
  spec_dead self gone l' d now' (spec_dead self gone l d now M)
  = spec_dead self gone l d now M.
Proof.
  intros Hl. unfold spec_dead. destruct (M !! d_ID d) as [n|] eqn:E; [|by rewrite E].
  destruct ((d_Lives d <? Lives n) || DeadOrLeft n) eqn:E1; [by rewrite E, E1|].
  destruct (bool_decide (d_ID d = self) && negb gone) eqn:E2; rewrite lookup_insert_eq.
  - apply andb_true_iff in E2 as [Hx%bool_decide_eq_true Hg%negb_true_iff].
    simpl. by rewrite (proj2 (Z.ltb_lt _ _)) by auto.
  - assert (DeadOrLeft (accept_dead d now n) = true) as ->
      by (unfold accept_dead; by destruct (d_Left d)).
    by rewrite orb_true_r.
Qed.

Lemma spec_suspect_idemp self l l' s now now' M :
  (s_ID s = self -> s_Lives s < l) ->
  spec_suspect self l' s now' (spec_suspect self l s now M)
  = spec_suspect self l s now M.
Proof.
  intros Hl. unfold spec_suspect. destruct (M !! s_ID s) as [n|] eqn:E; [|by rewrite E].
  destruct ((s_Lives s <? Lives n) || bool_decide (State n ≠ StateAlive)) eqn:E1;
    [by rewrite E, E1|].
  destruct (bool_decide (s_ID s = self)) eqn:E2; rewrite lookup_insert_eq.
  - apply bool_decide_eq_true in E2. simpl. by rewrite (proj2 (Z.ltb_lt _ _)) by auto.
  - rewrite (bool_decide_eq_true_2 (State (accept_suspect s now n) ≠ StateAlive)) by done.
    by rewrite orb_true_r.
Qed.
