(* ===== verification/State.v ===== *)
(** * The member list and its gossip handlers ([state.go])

    The state of a node and the three handlers [aliveNode], [suspectNode],
    [deadNode] with [refute] and the suspicion timeout. [nodeState] and
    [suspicion] objects are shared by pointer: [nodes] and [nodeMap] hold the
    same pointers, and a [suspicion] that was removed from [suspicions] lives
    on with its timer. A handler runs under [nodeL] and is one transition; the
    timeout function, which drops the lock between its test and its call of
    [deadNode], is two. The broadcast and the events of [aliveNode] follow the
    release of the lock: [aliveLocked] is the part under the lock and returns
    what is left to do, and [aliveNode] is the call in one piece. *)

From S2P Require Import Prelude Types Interfaces Awareness Suspicion Broadcast Config.
From Stdlib Require Import Strings.Byte.

Abbreviation loc := positive.

(** What [aliveNode] does after it has released the lock. *)
Inductive deferred :=
| DeferBroadcast (x : string) (a : alive) (nt : option Z)
| DeferJoin (n : Node)
| DeferUpdate (n : Node).

(** What a goroutine has still to do: [timeoutFn] of a suspicion, about to
    make its test, or past it and about to call [deadNode]; a call of
    [aliveNode] that has released the lock. *)
Inductive task :=
| TimeoutStart (s : loc) | TimeoutDead (d : dead) | AliveDeferred (ds : list deferred).

(** What a handler reads from its surroundings: the clock, a random 32-bit
    number, and which node events the consumer takes in time. *)
Record Env := mkEnv { now : Z; rnd : Z; takes : NodeEvent -> bool }.

Section Memberlist.
Context {HO : HeapOps TransmitCapItem} {CO : Codec}.

Record Memberlist := mkMemberlist {
  config : Cfg.Config;
  lives : Z;   (* uint32 *)
  awr : awareness;
  left : bool;
  shutdown : bool;
  mbroadcasts : TransmitCapQueue;
  eventCh : bool;   (* eventMng.ch is not nil *)
  delivered : list NodeEvent;   (* what eventMng has delivered, oldest first *)
  store : gmap loc nodeState;   (* the nodeState objects *)
  nodes : list loc;
  nodeMap : gmap string loc;
  numNodes : Z;   (* int32 *)
  suspStore : gmap loc suspicion;   (* the suspicion objects *)
  suspicions : gmap string loc;
  tasks : list task;   (* started goroutines of suspicion timers *)
  probeIdx : Z
}.

Definition set_config (x : Cfg.Config) (m : Memberlist) : Memberlist :=
  mkMemberlist x (lives m) (awr m) (left m) (shutdown m) (mbroadcasts m) (eventCh m)
    (delivered m) (store m) (nodes m) (nodeMap m) (numNodes m) (suspStore
    m) (suspicions m) (tasks m) (probeIdx m).
Definition set_lives (x : Z) (m : Memberlist) : Memberlist :=
  mkMemberlist (config m) x (awr m) (left m) (shutdown m) (mbroadcasts m) (eventCh m)
    (delivered m) (store m) (nodes m) (nodeMap m) (numNodes m) (suspStore
    m) (suspicions m) (tasks m) (probeIdx m).
Definition set_awr (x : awareness) (m : Memberlist) : Memberlist :=
  mkMemberlist (config m) (lives m) x (left m) (shutdown m) (mbroadcasts m) (eventCh
    m) (delivered m) (store m) (nodes m) (nodeMap m) (numNodes m)
    (suspStore m) (suspicions m) (tasks m) (probeIdx m).
Definition set_left (x : bool) (m : Memberlist) : Memberlist :=
  mkMemberlist (config m) (lives m) (awr m) x (shutdown m) (mbroadcasts m) (eventCh
    m) (delivered m) (store m) (nodes m) (nodeMap m) (numNodes m)
    (suspStore m) (suspicions m) (tasks m) (probeIdx m).
Definition set_shutdown (x : bool) (m : Memberlist) : Memberlist :=
  mkMemberlist (config m) (lives m) (awr m) (left m) x (mbroadcasts m) (eventCh m)
    (delivered m) (store m) (nodes m) (nodeMap m) (numNodes m) (suspStore
    m) (suspicions m) (tasks m) (probeIdx m).
Definition set_mbroadcasts (x : TransmitCapQueue) (m : Memberlist) : Memberlist :=
  mkMemberlist (config m) (lives m) (awr m) (left m) (shutdown m) x (eventCh m)
    (delivered m) (store m) (nodes m) (nodeMap m) (numNodes m) (suspStore
    m) (suspicions m) (tasks m) (probeIdx m).
Definition set_delivered (x : list NodeEvent) (m : Memberlist) : Memberlist :=
  mkMemberlist (config m) (lives m) (awr m) (left m) (shutdown m) (mbroadcasts m)
    (eventCh m) x (store m) (nodes m) (nodeMap m) (numNodes m) (suspStore
    m) (suspicions m) (tasks m) (probeIdx m).
Definition set_store (x : gmap loc nodeState) (m : Memberlist) : Memberlist :=
  mkMemberlist (config m) (lives m) (awr m) (left m) (shutdown m) (mbroadcasts m)
    (eventCh m) (delivered m) x (nodes m) (nodeMap m) (numNodes m)
    (suspStore m) (suspicions m) (tasks m) (probeIdx m).
Definition set_nodes (x : list loc) (m : Memberlist) : Memberlist :=
  mkMemberlist (config m) (lives m) (awr m) (left m) (shutdown m) (mbroadcasts m)
    (eventCh m) (delivered m) (store m) x (nodeMap m) (numNodes m)
    (suspStore m) (suspicions m) (tasks m) (probeIdx m).
Definition set_nodeMap (x : gmap string loc) (m : Memberlist) : Memberlist :=
  mkMemberlist (config m) (lives m) (awr m) (left m) (shutdown m) (mbroadcasts m)
    (eventCh m) (delivered m) (store m) (nodes m) x (numNodes m)
    (suspStore m) (suspicions m) (tasks m) (probeIdx m).
Definition set_numNodes (x : Z) (m : Memberlist) : Memberlist :=
  mkMemberlist (config m) (lives m) (awr m) (left m) (shutdown m) (mbroadcasts m)
    (eventCh m) (delivered m) (store m) (nodes m) (nodeMap m) x (suspStore
    m) (suspicions m) (tasks m) (probeIdx m).
Definition set_suspStore (x : gmap loc suspicion) (m : Memberlist) : Memberlist :=
  mkMemberlist (config m) (lives m) (awr m) (left m) (shutdown m) (mbroadcasts m)
    (eventCh m) (delivered m) (store m) (nodes m) (nodeMap m) (numNodes m)
    x (suspicions m) (tasks m) (probeIdx m).
Definition set_suspicions (x : gmap string loc) (m : Memberlist) : Memberlist :=
  mkMemberlist (config m) (lives m) (awr m) (left m) (shutdown m) (mbroadcasts m)
    (eventCh m) (delivered m) (store m) (nodes m) (nodeMap m) (numNodes m)
    (suspStore m) x (tasks m) (probeIdx m).
Definition set_tasks (x : list task) (m : Memberlist) : Memberlist :=
  mkMemberlist (config m) (lives m) (awr m) (left m) (shutdown m) (mbroadcasts m)
    (eventCh m) (delivered m) (store m) (nodes m) (nodeMap m) (numNodes m)
    (suspStore m) (suspicions m) x (probeIdx m).
Definition set_probeIdx (x : Z) (m : Memberlist) : Memberlist :=
  mkMemberlist (config m) (lives m) (awr m) (left m) (shutdown m) (mbroadcasts m)
    (eventCh m) (delivered m) (store m) (nodes m) (nodeMap m) (numNodes m)
    (suspStore m) (suspicions m) (tasks m) x.

(** [Memberlist.ID]. *)
Definition selfID (m : Memberlist) : string := Cfg.ID (config m).

Definition GetNumNodes (m : Memberlist) : Z := numNodes m.

(** The object a name is bound to. *)
Definition getNode (m : Memberlist) (x : string) : option (loc * nodeState) :=
  match nodeMap m !! x with
  | Some p => match store m !! p with Some n => Some (p, n) | None => None end
  | None => None
  end.

Definition setNode (p : loc) (n : nodeState) (m : Memberlist) : Memberlist :=
  set_store (<[ p := n ]> (store m)) m.

(** [Memberlist.broadcast]. *)
Definition broadcast (x : string) (t : msgType) (p : payload) (nt : option Z)
    (m : Memberlist) : Memberlist :=
  set_mbroadcasts (QueueMsg (mbroadcasts m) x t p nt) m.

(** [EventManager.send]: delivered unless there is no channel or nobody takes
    the event in time. *)
Definition send (e : Env) (ev : NodeEvent) (m : Memberlist) : Memberlist :=
  if eventCh m && takes e ev then set_delivered (delivered m ++ [ev]) m else m.

Definition NotifyJoin (e : Env) (n : Node) : Memberlist -> Memberlist :=
  send e (mkNodeEvent NodeJoin n).
Definition NotifyLeave (e : Env) (n : Node) : Memberlist -> Memberlist :=
  send e (mkNodeEvent NodeLeave n).
Definition NotifyUpdate (e : Env) (n : Node) : Memberlist -> Memberlist :=
  send e (mkNodeEvent NodeUpdate n).

(** [nextLiveNo]: the number after the one given out last. *)
Definition nextLiveNo (l : Z) : Z := u32 (l + 1).

(** For [n] below [2 ^ 32]: a larger [n] is truncated, and for a multiple of
    [2 ^ 32] the code panics on a division by zero. Theorems that depend on the
    result ask for a list of fewer than [2 ^ 32] nodes. *)
Definition randIntN (r : Z) (n : nat) : nat :=
  if (n =? 0)%nat then 0%nat else Z.to_nat (r mod u32 (Z.of_nat n)).

(** A new object at the end of [nodes], swapped to a random place. *)
Definition addNode (e : Env) (x : string) (n : nodeState) (m : Memberlist) : Memberlist :=
  let p := fresh (dom (store m)) in
  let m := setNode p n m in
  let m := set_nodeMap (<[ x := p ]> (nodeMap m)) m in
  let ns := nodes m ++ [p] in
  let last := (length ns - 1)%nat in
  let m := set_nodes (swap (randIntN (rnd e) last) last ns) m in
  set_numNodes (i32 (numNodes m + 1)) m.

(** [aliveNode] while it holds the mutex, and what it leaves for later. *)
Definition aliveLocked (m : Memberlist) (a : alive) (nt : option Z) (e : Env)
    : Memberlist * list deferred :=
  match getNode m (a_ID a) with
  | None =>
      let n := mkNodeState (mkNode (a_ID a) (a_IP a) (a_Port a) (a_Tags a))
                 (a_Lives a) StateAlive (now e) in
      let m := addNode e (a_ID a) n m in
      (m, [DeferBroadcast (ID (node n)) a nt; DeferJoin (node n)])
  | Some (p, n) =>
      if a_Lives a <=? Lives n then (m, [])
      else
        let m := set_suspicions (delete (a_ID a) (suspicions m)) m in
        let notifyJoin := DeadOrLeft n in
        let notifyUpdate := negb (bool_decide (Tags (node n) = a_Tags a)) in
        let newNode :=
          if notifyUpdate
          then mkNode (ID (node n)) (IP (node n)) (Port (node n)) (a_Tags a)
          else node n in
        let n' :=
          if bool_decide (State n <> StateAlive)
          then mkNodeState newNode (a_Lives a) StateAlive (now e)
          else mkNodeState newNode (a_Lives a) (State n) (StateChange n) in
        let m := setNode p n' m in
        (m, [DeferBroadcast (ID newNode) a nt] ++
            (if notifyJoin then [DeferJoin newNode] else []) ++
            (if notifyUpdate then [DeferUpdate newNode] else []))
  end.

Definition runDeferred (e : Env) (m : Memberlist) (d : deferred) : Memberlist :=
  match d with
  | DeferBroadcast x a nt => broadcast x aliveMsg (PAlive a) nt m
  | DeferJoin n => NotifyJoin e n m
  | DeferUpdate n => NotifyUpdate e n m
  end.

(** [aliveNode] from where it takes the mutex on, in one piece. *)
Definition aliveBody (m : Memberlist) (a : alive) (nt : option Z) (e : Env) : Memberlist :=
  let '(m, ds) := aliveLocked m a nt e in foldl (runDeferred e) m ds.

(** Before that, it reads whether the node has left and the filter. *)
Definition aliveNode (m : Memberlist) (a : alive) (nt : option Z) (e : Env) : Memberlist :=
  let isLocalNode := bool_decide (a_ID a = selfID m) in
  if left m && isLocalNode then m
  else if negb (IPAllowed (config m) (a_IP a)) then m
  else aliveBody m a nt e.

(** The loop of [refute], [for l <= lives { l = nextLiveNo() }], unrolled
    [2 ^ depth] times: [inl] the final [l], or [inr] where it has got to. *)
Fixpoint refuteLoop (depth : nat) (lv l : Z) : Z + Z :=
  match depth with
  | O => if l <=? lv then inr (nextLiveNo l) else inl l
  | S depth =>
      match refuteLoop depth lv l with
      | inl l => inl l
      | inr l => refuteLoop depth lv l
      end
  end.

(** [2 ^ 33] iterations are more than a 32-bit counter needs to come round. *)
Definition refuteDepth : nat := 33.

Definition refute (m : Memberlist) (p : loc) (n : nodeState) (lv : Z) : outcome Memberlist :=
  match refuteLoop refuteDepth lv (nextLiveNo (lives m)) with
  | inr _ => Hang
  | inl l =>
      let m := set_lives l m in
      let m := setNode p (mkNodeState (node n) l (State n) (StateChange n)) m in
      let m := set_awr (Punish (awr m) 1) m in
      let a := mkAlive l (ID (node n)) (IP (node n)) (Port (node n)) (Tags (node n)) in
      Ret (broadcast (a_ID a) aliveMsg (PAlive a) None m)
  end.

(** The suspicion [suspectNode] creates. *)
Definition makeSuspicion (m : Memberlist) (s : suspect) (e : Env) : suspicion :=
  let mult := Cfg.SuspicionMult (config m) in
  let n := GetNumNodes m in
  let confirmCap := if n - 1 <? mult - 1 then 1 else mult - 1 in
  let minTimeout := minSuspicionTimeout mult n (Cfg.ProbeInterval (config m)) in
  let maxTimeout := i64 (Cfg.SuspicionMaxTimeoutMult (config m) * minTimeout) in
  newSuspicion minTimeout maxTimeout confirmCap (s_From s) (s_ID s) (s_Lives s) (now e).

Definition suspectNode (m : Memberlist) (s : suspect) (e : Env) : outcome Memberlist :=
  match getNode m (s_ID s) with
  | None => Ret m
  | Some (p, n) =>
      if s_Lives s <? Lives n then Ret m
      else
        match suspicions m !! s_ID s with
        | Some sl =>
            match suspStore m !! sl with
            | None => Panic
            | Some sc =>
                let '(sc, ok, started) := Confirm sc (s_From s) (now e) in
                let m := set_suspStore (<[ sl := sc ]> (suspStore m)) m in
                let m := if started then set_tasks (tasks m ++ [TimeoutStart sl]) m else m in
                Ret (if ok then broadcast (s_ID s) suspectMsg (PSuspect s) None m else m)
            end
        | None =>
            if bool_decide (State n <> StateAlive) then Ret m
            else if bool_decide (s_ID s = selfID m) then refute m p n (s_Lives s)
            else
              let m := broadcast (s_ID s) suspectMsg (PSuspect s) None m in
              let m := setNode p (mkNodeState (node n) (s_Lives s) StateSuspect (now e)) m in
              let sl := fresh (dom (suspStore m)) in
              let m := set_suspStore (<[ sl := makeSuspicion m s e ]> (suspStore m)) m in
              Ret (set_suspicions (<[ s_ID s := sl ]> (suspicions m)) m)
        end
  end.

Definition deadNode (m : Memberlist) (d : dead) (nt : option Z) (e : Env)
    : outcome Memberlist :=
  match getNode m (d_ID d) with
  | None => Ret m
  | Some (p, n) =>
      if (d_Lives d <? Lives n) || DeadOrLeft n then Ret m
      else
        let isLocalNode := bool_decide (d_ID d = selfID m) in
        if isLocalNode && negb (left m) then refute m p n (d_Lives d)
        else
          let m := set_suspicions (delete (d_ID d) (suspicions m)) m in
          let m := broadcast (d_ID d) deadMsg (PDead d) nt m in
          let st := if d_Left d then StateLeft else StateDead in
          let m := setNode p (mkNodeState (node n) (d_Lives d) st (now e)) m in
          Ret (NotifyLeave e (node n) m)
  end.

(** The test [timeoutFn] makes under the read lock. *)
Definition timeoutTest (m : Memberlist) (sc : suspicion) : option dead :=
  match getNode m (about sc) with
  | Some (_, n) =>
      if bool_decide (State n = StateSuspect) && (Lives n =? atLives sc)
      then Some (mkDead (Lives n) (ID (node n)) false) else None
  | None => None
  end.

(** The expiry of a suspicion timer starts [timeoutFn]. *)
Definition expireTimer (m : Memberlist) (sl : loc) (e : Env) : Memberlist :=
  match suspStore m !! sl with
  | None => m
  | Some sc =>
      let '(sc, started) := expire sc (now e) in
      let m := set_suspStore (<[ sl := sc ]> (suspStore m)) m in
      if started then set_tasks (tasks m ++ [TimeoutStart sl]) m else m
  end.

(** One step of the [i]-th started goroutine. *)
Definition runTask (m : Memberlist) (i : nat) (e : Env) : outcome Memberlist :=
  match tasks m !! i with
  | None => Ret m
  | Some (TimeoutStart sl) =>
      match suspStore m !! sl with
      | None => Panic
      | Some sc =>
          match timeoutTest m sc with
          | Some d => Ret (set_tasks (<[ i := TimeoutDead d ]> (tasks m)) m)
          | None => Ret (set_tasks (delete i (tasks m)) m)
          end
      end
  | Some (TimeoutDead d) => deadNode (set_tasks (delete i (tasks m)) m) d None e
  | Some (AliveDeferred []) => Ret (set_tasks (delete i (tasks m)) m)
  | Some (AliveDeferred (d :: ds)) =>
      Ret (runDeferred e (set_tasks (<[ i := AliveDeferred ds ]> (tasks m)) m) d)
  end.

End Memberlist.
