(* ===== verification/StateFacts.v ===== *)
(** * The handlers implement the membership rules

    The pointer structure of [State] is abstracted to the finite map of
    [Spec] ([view]); each handler acts on it as its rule says, and keeps the
    invariant that ties [nodes], [nodeMap], [suspicions] and the objects
    together. *)

From S2P Require Import Prelude Types Interfaces Awareness Suspicion Broadcast Config Spec State.

Section Facts.
Context {HO : HeapOps TransmitCapItem} {CO : Codec}.
Implicit Types m : Memberlist.

(** What a node knows: each name with the state of its object. *)
Definition view m : membership := omap (fun p => store m !! p) (nodeMap m).

Lemma lookup_view m x : view m !! x = match nodeMap m !! x with
  | Some p => store m !! p | None => None end.
Proof. unfold view. rewrite lookup_omap. by destruct (nodeMap m !! x). Qed.

Lemma getNode_Some m x p n :
  getNode m x = Some (p, n) <-> nodeMap m !! x = Some p /\ store m !! p = Some n.
Proof.
  unfold getNode. split.
  - repeat case_match; try done. by intros [= <- <-].
  - by intros [-> ->].
Qed.

Lemma getNode_view m x : view m !! x = snd <$> getNode m x.
Proof. rewrite lookup_view. unfold getNode. by repeat case_match. Qed.

(** ** Invariants *)

(** [nodes] and [nodeMap] hold the same objects, each bound to its own name,
    and the counter is their number. *)
Record mem_ok m : Prop := {
  ok_map x p : nodeMap m !! x = Some p ->
    p ∈ nodes m /\ exists n, store m !! p = Some n /\ nid n = x;
  ok_nodes p : p ∈ nodes m ->
    exists n, store m !! p = Some n /\ nodeMap m !! nid n = Some p;
  ok_nodup : NoDup (nodes m);
  ok_num : numNodes m = i32 (len (nodes m))
}.

(** [Lives] numbers are 32-bit. *)
Definition lives_ok m : Prop :=
  0 <= lives m < 2 ^ 32 /\ map_Forall (fun _ n => 0 <= Lives n < 2 ^ 32) (view m).

(** Exactly the suspected nodes have a suspicion, taken at their present
    [Lives]. *)
Record susp_ok m : Prop := {
  ok_susp x sl : suspicions m !! x = Some sl ->
    exists sc n, suspStore m !! sl = Some sc /\ about sc = x /\
      view m !! x = Some n /\ State n = StateSuspect /\ Lives n = atLives sc;
  ok_suspected x n : view m !! x = Some n -> State n = StateSuspect ->
    is_Some (suspicions m !! x)
}.

(** The local node does not suspect itself, and as long as it has not left
    it believes itself alive. *)
Definition local_ok m : Prop :=
  forall n, view m !! selfID m = Some n ->
    State n <> StateSuspect /\ (left m = false -> State n = StateAlive).

(** The goroutines of suspicion timers refer to existing suspicions, and the
    dead messages they are about to handle are about other nodes. *)
Definition task_ok m (t : task) : Prop :=
  match t with
  | TimeoutStart sl => is_Some (suspStore m !! sl)
  | TimeoutDead d => d_ID d <> selfID m /\ 0 <= d_Lives d < 2 ^ 32 /\ d_Left d = false
  | AliveDeferred _ => True
  end.

Definition tasks_ok m : Prop := Forall (task_ok m) (tasks m).

Record inv m : Prop := {
  inv_mem : mem_ok m;
  inv_lives : lives_ok m;
  inv_susp : susp_ok m;
  inv_local : local_ok m;
  inv_tasks : tasks_ok m
}.

Lemma getNode_None m x : mem_ok m -> getNode m x = None <-> nodeMap m !! x = None.
Proof.
  intros Hm. unfold getNode. destruct (nodeMap m !! x) as [p|] eqn:E; [|done].
  destruct (ok_map _ Hm _ _ E) as (_ & n & -> & _). done.
Qed.

Lemma getNode_nid m x p n : mem_ok m -> getNode m x = Some (p, n) -> nid n = x.
Proof.
  intros Hm [Hp Hn]%getNode_Some.
  destruct (ok_map _ Hm _ _ Hp) as (_ & n' & Hn' & <-). congruence.
Qed.

(** Every name of the view is the name of the node it is bound to. *)
Lemma view_nid m x n : mem_ok m -> view m !! x = Some n -> nid n = x.
Proof.
  rewrite getNode_view. intros Hm. destruct (getNode m x) as [[p k]|] eqn:E; [|done].
  intros [= <-]. by eapply getNode_nid.
Qed.

(** ** Changing an object *)

Lemma view_setNode m x p n :
  mem_ok m -> nodeMap m !! x = Some p -> view (setNode p n m) = <[ x := n ]> (view m).
Proof.
  intros Hm Hp. apply map_eq. intros y. rewrite lookup_view. simpl.
  destruct (decide (x = y)) as [->|Hne].
  - by rewrite Hp, !lookup_insert_eq.
  - rewrite lookup_insert_ne by done. rewrite lookup_view.
    destruct (nodeMap m !! y) as [q|] eqn:Hq; [|done].
    rewrite lookup_insert_ne; [done|]. intros ->.
    destruct (ok_map _ Hm _ _ Hp) as (_ & k & Hk & Hx).
    destruct (ok_map _ Hm _ _ Hq) as (_ & k' & Hk' & Hy). congruence.
Qed.

Lemma mem_ok_setNode m x p n :
  mem_ok m -> nodeMap m !! x = Some p -> nid n = x -> mem_ok (setNode p n m).
Proof.
  intros Hm Hp Hx. pose proof Hm as [H1 H2 H3 H4]. split; simpl; try done.
  - intros y q Hq. destruct (H1 y q Hq) as (Hin & k & Hk & Hy). split; [done|].
    destruct (decide (p = q)) as [->|Hne].
    + exists n. rewrite lookup_insert_eq. split; [done|].
      destruct (H1 x q Hp) as (_ & k' & Hk' & Hx'). congruence.
    + exists k. by rewrite lookup_insert_ne.
  - intros q Hq. destruct (H2 q Hq) as (k & Hk & Hmap).
    destruct (decide (p = q)) as [->|Hne].
    + exists n. rewrite lookup_insert_eq. by rewrite Hx.
    + exists k. by rewrite lookup_insert_ne.
Qed.

(** ** Adding an object *)

Lemma swap_elem_of {A} i j (l : list A) x : x ∈ swap i j l <-> x ∈ l.
Proof. by rewrite swap_Permutation. Qed.

Lemma fresh_store m p n : store m !! p = Some n -> p <> fresh (dom (store m)).
Proof.
  intros Hp ->. apply (is_fresh (dom (store m))). apply elem_of_dom. eauto.
Qed.

Lemma view_addNode e m x n :
  mem_ok m -> getNode m x = None -> view (addNode e x n m) = <[ x := n ]> (view m).
Proof.
  intros Hm Hx%getNode_None; [|done]. apply map_eq. intros y. rewrite lookup_view. simpl.
  destruct (decide (x = y)) as [->|Hne].
  - by rewrite !lookup_insert_eq.
  - rewrite !lookup_insert_ne by done. rewrite lookup_view.
    destruct (nodeMap m !! y) as [q|] eqn:Hq; [|done].
    destruct (ok_map _ Hm _ _ Hq) as (_ & k & Hk & _).
    apply lookup_insert_ne. by apply not_eq_sym, (fresh_store m q k).
Qed.

Lemma mem_ok_addNode e m x n :
  mem_ok m -> getNode m x = None -> nid n = x -> mem_ok (addNode e x n m).
Proof.
  intros Hm Hx%getNode_None Hn; [|done]. pose proof Hm as [H1 H2 H3 H4].
  set (p := fresh (dom (store m))).
  assert (p ∉ nodes m) as Hp.
  { intros (k & Hk & _)%H2. by apply (fresh_store m p k). }
  split; simpl; fold p.
  - intros y q. rewrite lookup_insert_Some. intros [[<- <-]|[Hne Hq]].
    + split; [|exists n; by rewrite lookup_insert_eq].
      apply swap_elem_of, elem_of_app. right. by apply list_elem_of_singleton.
    + destruct (H1 y q Hq) as (Hin & k & Hk & Hy). split.
      * apply swap_elem_of, elem_of_app. by left.
      * exists k. rewrite lookup_insert_ne; [done|].
        by apply not_eq_sym, (fresh_store m q k).
  - intros q. rewrite swap_elem_of, elem_of_app, list_elem_of_singleton. intros [Hq| ->].
    + destruct (H2 q Hq) as (k & Hk & Hmap). exists k.
      rewrite lookup_insert_ne by (by apply not_eq_sym, (fresh_store m q k)).
      split; [done|]. rewrite lookup_insert_ne; [done|].
      intros Heq. rewrite <- Heq in Hmap. congruence.
    + exists n. by rewrite lookup_insert_eq, Hn, lookup_insert_eq.
  - rewrite swap_Permutation. apply NoDup_app. split_and!; [done| |apply NoDup_singleton].
    intros q Hq ->%list_elem_of_singleton. done.
  - rewrite length_swap, length_app, H4, i32_add_l. simpl. f_equal. lia.
Qed.

(** The member list is apart from the rest of the state. *)
Lemma mem_ok_frame m m' :
  mem_ok m -> (store m', nodes m', nodeMap m', numNodes m')
              = (store m, nodes m, nodeMap m, numNodes m) -> mem_ok m'.
Proof.
  intros [H1 H2 H3 H4] E. injection E as E1 E2 E3 E4.
  split; rewrite ?E1, ?E2, ?E3, ?E4; done.
Qed.

Lemma map_Forall_insert' (P : string -> nodeState -> Prop) (M : membership) x n :
  map_Forall P M -> P x n -> map_Forall P (<[ x := n ]> M).
Proof. intros. by apply map_Forall_insert_2. Qed.

(** ** Frames

    The invariant depends on part of the state only: broadcasting, notifying
    and health updates are outside it. *)

Definition core m :=
  (config m, left m, lives m, store m, nodes m,
   (nodeMap m, numNodes m, suspStore m, suspicions m, tasks m)).

Lemma core_send e ev m : core (send e ev m) = core m.
Proof. unfold send. by case_match. Qed.

Lemma core_view m m' : core m' = core m -> view m' = view m.
Proof.
  unfold core, view. intros E. injection E as _ _ _ E4 _ E6 _ _ _ _.
  by rewrite E4, E6.
Qed.

Lemma core_suspicions m m' : core m' = core m -> suspicions m' = suspicions m.
Proof. unfold core. intros E. by simplify_eq. Qed.

Lemma core_tasks m m' : core m' = core m -> tasks m' = tasks m.
Proof. unfold core. intros E. by simplify_eq. Qed.

Lemma inv_core m m' : core m' = core m -> inv m -> inv m'.
Proof.
  intros E [[H1 H2 H3 H4] [H5 H6] [H7 H8] H9 H10].
  pose proof (core_view _ _ E) as Ev. unfold core in E.
  injection E as E1 E2 E3 E4 E5 E6 E7 E8 E9 E10.
  split.
  - split; rewrite ?E4, ?E5, ?E6, ?E7; try done; intros; rewrite ?E4, ?E5; eauto.
  - split; by rewrite ?E3, ?Ev.
  - split; rewrite Ev, ?E9; [|done]. intros x sl Hx. rewrite E8. eauto.
  - unfold local_ok, selfID. by rewrite Ev, E1, E2.
  - unfold tasks_ok. rewrite E10. eapply Forall_impl; [exact H10|].
    intros [sl|d|ds]; unfold task_ok, selfID; by rewrite ?E8, ?E1.
Qed.

(** ** Refutation *)

(** The number [refute] ends with, in closed form. *)
Definition refuteValue (lv c : Z) : Z :=
  let l := nextLiveNo c in if lv <? l then l else lv + 1.

Lemma refuteLoop_done depth lv l : lv < l -> refuteLoop depth lv l = inl l.
Proof.
  intros H. induction depth as [|d IH]; simpl.
  - by rewrite (proj2 (Z.leb_gt _ _)).
  - by rewrite IH.
Qed.

Lemma refuteLoop_count depth lv l :
  0 <= l <= lv -> lv < 2 ^ 32 - 1 ->
  refuteLoop depth lv l =
    if lv + 1 - l <? 2 ^ Z.of_nat depth then inl (lv + 1)
    else inr (l + 2 ^ Z.of_nat depth).
Proof.
  revert l. induction depth as [|d IH]; intros l Hl Hlv; cbn [refuteLoop].
  - rewrite (proj2 (Z.leb_le _ _)) by lia.
    zcmp.
    unfold nextLiveNo. by rewrite u32_small by lia.
  - rewrite IH by done.
    replace (2 ^ Z.of_nat (S d)) with (2 ^ Z.of_nat d + 2 ^ Z.of_nat d)
      by (rewrite Nat2Z.inj_succ, Z.pow_succ_r by lia; lia).
    pose proof (Z.pow_pos_nonneg 2 (Z.of_nat d)).
    destruct (Z.ltb_spec (lv + 1 - l) (2 ^ Z.of_nat d)) as [Hlt|Hge].
    + by zcmp.
    + destruct (decide (lv + 1 - l = 2 ^ Z.of_nat d)) as [Heq|Hne].
      * rewrite refuteLoop_done by lia. zcmp.
        f_equal. lia.
      * rewrite IH by lia.
        replace (lv + 1 - (l + 2 ^ Z.of_nat d)) with (lv + 1 - l - 2 ^ Z.of_nat d) by lia.
        destruct (Z.ltb_spec (lv + 1 - l - 2 ^ Z.of_nat d) (2 ^ Z.of_nat d)).
        -- by zcmp.
        -- zcmp. f_equal. lia.
Qed.

Lemma refuteLoop_value lv c :
  lv < 2 ^ 32 - 1 ->
  refuteLoop refuteDepth lv (nextLiveNo c) = inl (refuteValue lv c).
Proof.
  intros Hlv. unfold refuteValue. pose proof (u32_range (c + 1)) as Hr.
  fold (nextLiveNo c) in Hr. cbv zeta.
  destruct (Z.ltb_spec lv (nextLiveNo c)) as [Hlt|Hge].
  - by apply refuteLoop_done.
  - rewrite refuteLoop_count by lia. unfold refuteDepth.
    rewrite (proj2 (Z.ltb_lt _ _)); [done|]. simpl Z.of_nat. lia.
Qed.

Lemma refuteValue_range lv c :
  0 <= lv < 2 ^ 32 - 1 -> lv < refuteValue lv c < 2 ^ 32.
Proof.
  intros Hlv. unfold refuteValue. pose proof (u32_range (c + 1)) as Hr.
  fold (nextLiveNo c) in Hr. cbv zeta. case_match; lia.
Qed.

(** With the largest [uint32] the loop never ends. *)
Lemma refuteLoop_forever depth l :
  0 <= l < 2 ^ 32 ->
  refuteLoop depth (2 ^ 32 - 1) l = inr (u32 (l + 2 ^ Z.of_nat depth)).
Proof.
  revert l. induction depth as [|d IH]; intros l Hl; cbn [refuteLoop].
  - by zcmp.
  - rewrite IH by done. rewrite IH by apply u32_range. f_equal.
    unfold u32. rewrite Zplus_mod_idemp_l. f_equal.
    rewrite Nat2Z.inj_succ, Z.pow_succ_r by lia. lia.
Qed.

(** ** The suspicion invariant under a change of one node *)

Lemma susp_ok_unsuspect m m' x n :
  susp_ok m -> view m' = <[ x := n ]> (view m) -> State n <> StateSuspect ->
  suspicions m' = delete x (suspicions m) -> suspStore m' = suspStore m -> susp_ok m'.
Proof.
  intros [H1 H2] Hv Hn Hs Hst. split; rewrite Hv, Hs.
  - intros y sl [Hne Hy]%lookup_delete_Some.
    destruct (H1 y sl Hy) as (sc & k & ? & ? & ? & ? & ?).
    exists sc, k. rewrite Hst, lookup_insert_ne by done. done.
  - intros y k Hy Hk. destruct (decide (x = y)) as [->|Hne].
    + rewrite lookup_insert_eq in Hy. congruence.
    + rewrite lookup_insert_ne in Hy by done.
      rewrite lookup_delete_ne by done. eauto.
Qed.

Lemma susp_none m x :
  susp_ok m -> (forall n, view m !! x = Some n -> State n <> StateSuspect) ->
  suspicions m !! x = None.
Proof.
  intros [H1 _] Hx. destruct (suspicions m !! x) as [sl|] eqn:E; [|done].
  destruct (H1 _ _ E) as (sc & n & _ & _ & Hv & Hn & _). by destruct (Hx n Hv).
Qed.

(** ** [aliveNode] *)

(** The object a newer alive message leaves behind. *)
Lemma alive_update_node (a : alive) t (n : nodeState) :
  (if bool_decide (State n <> StateAlive)
   then mkNodeState (if negb (bool_decide (Tags (node n) = a_Tags a))
                     then mkNode (ID (node n)) (IP (node n)) (Port (node n)) (a_Tags a)
                     else node n) (a_Lives a) StateAlive t
   else mkNodeState (if negb (bool_decide (Tags (node n) = a_Tags a))
                     then mkNode (ID (node n)) (IP (node n)) (Port (node n)) (a_Tags a)
                     else node n) (a_Lives a) (State n) (StateChange n))
  = accept_alive a t n.
Proof.
  unfold accept_alive. destruct n as [[i ad po ta] l st ch]; simpl.
  destruct st; case_bool_decide; try done; case_bool_decide; simplify_eq/=; done.
Qed.

Lemma core_runDeferred e m d : core (runDeferred e m d) = core m.
Proof. destruct d; [done|apply core_send..]. Qed.

Lemma core_deferred e m ds : core (foldl (runDeferred e) m ds) = core m.
Proof.
  revert m. induction ds as [|d ds IH]; intros m; simpl; [done|].
  by rewrite IH, core_runDeferred.
Qed.

(** The three things [aliveNode] may do, up to broadcasts and events. *)
Lemma aliveLocked_cases m a nt e :
  (aliveLocked m a nt e).1 =
  match getNode m (a_ID a) with
  | None => addNode e (a_ID a) (new_node a (now e)) m
  | Some (p, n) =>
      if a_Lives a <=? Lives n then m
      else setNode p (accept_alive a (now e) n)
             (set_suspicions (delete (a_ID a) (suspicions m)) m)
  end.
Proof.
  unfold aliveLocked. cbv zeta. destruct (getNode m (a_ID a)) as [[p n]|]; [|done].
  destruct (a_Lives a <=? Lives n); [done|]. simpl. by rewrite alive_update_node.
Qed.

Lemma aliveBody_locked m a nt e :
  aliveBody m a nt e = foldl (runDeferred e) (aliveLocked m a nt e).1 (aliveLocked m a nt e).2.
Proof. unfold aliveBody. by destruct (aliveLocked m a nt e). Qed.

Lemma core_aliveBody m a nt e : core (aliveBody m a nt e) = core (aliveLocked m a nt e).1.
Proof. rewrite aliveBody_locked. apply core_deferred. Qed.

Lemma aliveBody_cases m a nt e :
  core (aliveBody m a nt e) =
  match getNode m (a_ID a) with
  | None => core (addNode e (a_ID a) (new_node a (now e)) m)
  | Some (p, n) =>
      if a_Lives a <=? Lives n then core m
      else core (setNode p (accept_alive a (now e) n)
                   (set_suspicions (delete (a_ID a) (suspicions m)) m))
  end.
Proof.
  rewrite core_aliveBody, aliveLocked_cases. by repeat case_match.
Qed.

Lemma aliveNode_body m a nt e :
  aliveNode m a nt e =
  if (left m && bool_decide (a_ID a = selfID m)) || negb (IPAllowed (config m) (a_IP a))
  then m else aliveBody m a nt e.
Proof. unfold aliveNode. by destruct (left m && _), (negb _). Qed.

Lemma aliveNode_cases m a nt e :
  core (aliveNode m a nt e) =
  if (left m && bool_decide (a_ID a = selfID m)) || negb (IPAllowed (config m) (a_IP a))
  then core m
  else match getNode m (a_ID a) with
       | None => core (addNode e (a_ID a) (new_node a (now e)) m)
       | Some (p, n) =>
           if a_Lives a <=? Lives n then core m
           else core (setNode p (accept_alive a (now e) n)
                        (set_suspicions (delete (a_ID a) (suspicions m)) m))
       end.
Proof. rewrite aliveNode_body. destruct (_ || _); [done|]. apply aliveBody_cases. Qed.

Lemma aliveBody_view m a nt e :
  mem_ok m ->
  view (aliveBody m a nt e) = spec_alive (selfID m) false true a (now e) (view m).
Proof.
  intros Hm. pose proof (aliveBody_cases m a nt e) as Hc. unfold spec_alive. cbn [andb orb negb].
  rewrite (getNode_view m (a_ID a)).
  destruct (getNode m (a_ID a)) as [[p n]|] eqn:E; simpl.
  - destruct (a_Lives a <=? Lives n); [by apply core_view|].
    rewrite (core_view _ _ Hc). apply getNode_Some in E as [Hp _].
    refine (view_setNode (set_suspicions _ m) _ _ _ _ Hp). by apply (mem_ok_frame m).
  - rewrite (core_view _ _ Hc). by apply view_addNode.
Qed.

Lemma aliveNode_view m a nt e :
  mem_ok m ->
  view (aliveNode m a nt e) =
    spec_alive (selfID m) (left m) (IPAllowed (config m) (a_IP a)) a (now e) (view m).
Proof.
  intros Hm. rewrite aliveNode_body. unfold spec_alive.
  destruct (_ || _); [done|]. by rewrite aliveBody_view.
Qed.

Lemma local_ok_insert m m' x n :
  local_ok m -> view m' = <[ x := n ]> (view m) -> config m' = config m -> left m' = left m ->
  (x = selfID m -> State n <> StateSuspect /\ (left m = false -> State n = StateAlive)) ->
  local_ok m'.
Proof.
  intros Hl Hv Hc Hle Hx k. unfold local_ok, selfID in *. rewrite Hc, Hle, Hv.
  rewrite lookup_insert_Some. intros [[Heq <-]|[Hne Hk]]; auto.
Qed.

Lemma lives_ok_insert m m' x n :
  lives_ok m -> view m' = <[ x := n ]> (view m) -> 0 <= lives m' < 2 ^ 32 ->
  0 <= Lives n < 2 ^ 32 -> lives_ok m'.
Proof.
  intros [Hl Hf] Hv Hl' Hn. split; [done|]. rewrite Hv. by apply map_Forall_insert'.
Qed.

Lemma aliveBody_inv m a nt e :
  inv m -> 0 <= a_Lives a < 2 ^ 32 -> inv (aliveBody m a nt e).
Proof.
  intros Hinv Ha. pose proof Hinv as [Hm Hl Hs Hloc Ht].
  pose proof (aliveBody_cases m a nt e) as Hc.
  destruct (getNode m (a_ID a)) as [[p n]|] eqn:E.
  - destruct (a_Lives a <=? Lives n); [by apply (inv_core m)|].
    eapply inv_core; [exact Hc|]. clear Hc.
    pose proof (getNode_nid _ _ _ _ Hm E) as Hnid. apply getNode_Some in E as [Hp Hn].
    set (m1 := set_suspicions (delete (a_ID a) (suspicions m)) m).
    assert (mem_ok m1) as Hm1 by by apply (mem_ok_frame m).
    assert (view (setNode p (accept_alive a (now e) n) m1)
            = <[ a_ID a := accept_alive a (now e) n ]> (view m)) as Hv
      by exact (view_setNode m1 _ _ _ Hm1 Hp).
    split.
    + apply (mem_ok_setNode m1 (a_ID a)); done.
    + apply (lives_ok_insert m _ _ _ Hl Hv); [apply Hl|done].
    + by apply (susp_ok_unsuspect m _ _ _ Hs Hv).
    + by apply (local_ok_insert m _ _ _ Hloc Hv).
    + done.
  - eapply inv_core; [exact Hc|]. clear Hc.
    pose proof (view_addNode e m (a_ID a) (new_node a (now e)) Hm E) as Hv.
    split.
    + by apply mem_ok_addNode.
    + apply (lives_ok_insert m _ _ _ Hl Hv); [apply Hl|done].
    + eapply (susp_ok_unsuspect m); [done|exact Hv|done| |done].
      symmetry. apply delete_id, (susp_none m); [done|].
      intros k Hk. rewrite getNode_view, E in Hk. done.
    + by apply (local_ok_insert m _ _ _ Hloc Hv).
    + done.
Qed.

Lemma aliveNode_inv m a nt e :
  inv m -> 0 <= a_Lives a < 2 ^ 32 -> inv (aliveNode m a nt e).
Proof. intros Hinv Ha. rewrite aliveNode_body. destruct (_ || _); [done|]. by apply aliveBody_inv. Qed.

(** ** [refute] *)

Lemma refute_inv m p n lv :
  inv m -> getNode m (selfID m) = Some (p, n) ->
  0 <= lv < 2 ^ 32 - 1 ->
  exists m', refute m p n lv = Ret m' /\ inv m' /\
    view m' = <[ selfID m := with_lives (refuteValue lv (lives m)) n ]> (view m) /\
    config m' = config m /\ left m' = left m /\ lives m' = refuteValue lv (lives m).
Proof.
  intros Hinv E Hlv. pose proof Hinv as [Hm Hl Hs Hloc Ht].
  unfold refute. rewrite refuteLoop_value by lia.
  eexists. split; [reflexivity|].
  set (l := refuteValue lv (lives m)).
  pose proof (refuteValue_range lv (lives m) ltac:(lia)) as Hr. fold l in Hr.
  pose proof (getNode_nid _ _ _ _ Hm E) as Hnid.
  assert (view m !! selfID m = Some n) as Hview by by rewrite getNode_view, E.
  apply getNode_Some in E as [Hp Hn].
  assert (view (setNode p (with_lives l n) m)
          = <[ selfID m := with_lives l n ]> (view m)) as Hv by by apply view_setNode.
  split_and!; try done.
  apply (inv_core (set_lives l (setNode p (with_lives l n) m))); [done|].
  destruct (Hloc n Hview) as [Hns Hal].
  split.
  - apply (mem_ok_frame (setNode p (with_lives l n) m)); [|done].
    by apply (mem_ok_setNode m (selfID m)).
  - eapply (lives_ok_insert m); [done|exact Hv|simpl; lia|simpl; lia].
  - eapply (susp_ok_unsuspect m); [done|exact Hv|done| |done].
    symmetry. apply delete_id, (susp_none m); [done|]. intros k Hk. congruence.
  - by apply (local_ok_insert m _ _ _ Hloc Hv).
  - done.
Qed.

(** ** [deadNode] *)

(** The messages the handlers can take: with a 32-bit number, which is not the
    largest one, that cannot be refuted, if it is about the local node. *)
Definition fine_suspect m (s : suspect) : Prop :=
  0 <= s_Lives s < 2 ^ 32 /\ (s_ID s = selfID m -> s_Lives s < 2 ^ 32 - 1).
Definition fine_dead m (d : dead) : Prop :=
  0 <= d_Lives d < 2 ^ 32 /\
  (d_ID d = selfID m -> left m = false -> d_Lives d < 2 ^ 32 - 1).

Lemma deadNode_refines m d nt e :
  inv m -> fine_dead m d ->
  exists m', deadNode m d nt e = Ret m' /\ inv m' /\
    view m' = spec_dead (selfID m) (left m) (refuteValue (d_Lives d) (lives m)) d
                (now e) (view m) /\
    config m' = config m /\ left m' = left m.
Proof.
  intros Hinv [Hlv Hself]. pose proof Hinv as [Hm Hl Hs Hloc Ht].
  unfold deadNode, spec_dead. rewrite (getNode_view m (d_ID d)).
  destruct (getNode m (d_ID d)) as [[p n]|] eqn:E; simpl; [|by exists m].
  destruct ((d_Lives d <? Lives n) || DeadOrLeft n); [by exists m|].
  destruct (bool_decide (d_ID d = selfID m) && negb (left m)) eqn:El.
  - apply andb_true_iff in El as [Hx%bool_decide_eq_true Hle%negb_true_iff].
    rewrite Hx in E. specialize (Hself Hx Hle).
    destruct (refute_inv m p n (d_Lives d) Hinv E ltac:(lia))
      as (m' & Hr & Hi & Hv & Hc & Hle' & _).
    exists m'. split_and!; try done. by rewrite Hx.
  - pose proof (getNode_nid _ _ _ _ Hm E) as Hnid. apply getNode_Some in E as [Hp Hn].
    eexists. split; [reflexivity|].
    set (m1 := set_suspicions (delete (d_ID d) (suspicions m)) m).
    set (n1 := accept_dead d (now e) n).
    match goal with |- inv ?m' /\ _ => assert (core m' = core (setNode p n1 m1)) as Hc end.
    { unfold NotifyLeave. by rewrite core_send. }
    assert (mem_ok m1) as Hm1 by by apply (mem_ok_frame m).
    assert (view (setNode p n1 m1) = <[ d_ID d := n1 ]> (view m)) as Hv
      by exact (view_setNode m1 _ _ _ Hm1 Hp).
    assert (State n1 <> StateSuspect) as Hns by (simpl; by destruct (d_Left d)).
    split_and!.
    + eapply inv_core; [exact Hc|]. split.
      * apply (mem_ok_setNode m1 (d_ID d)); done.
      * apply (lives_ok_insert m _ _ _ Hl Hv); [apply Hl|simpl; lia].
      * by apply (susp_ok_unsuspect m _ _ _ Hs Hv).
      * apply (local_ok_insert m _ _ _ Hloc Hv); [done..|]. intros Hx. split; [done|]. intros Hle.
        rewrite Hle in El. rewrite bool_decide_eq_true_2 in El by done. done.
      * done.
    + by rewrite (core_view _ _ Hc).
    + unfold core in Hc. by injection Hc.
    + unfold core in Hc. by injection Hc.
Qed.

(** ** [suspectNode] *)

(** A suspicion object keeps what its [timeoutFn] has captured. *)
Lemma inv_timer m sl sc sc' ts :
  inv m -> suspStore m !! sl = Some sc -> about sc' = about sc -> atLives sc' = atLives sc ->
  ts ⊆ TimeoutStart sl :: tasks m ->
  inv (set_tasks ts (set_suspStore (<[ sl := sc' ]> (suspStore m)) m)).
Proof.
  intros [Hm Hl [H1 H2] Hloc Ht] Hsl Ha Hat Hts. split; try done.
  - by apply (mem_ok_frame m).
  - split; [|done]. intros x sl' Hx. simpl in *.
    destruct (H1 x sl' Hx) as (k & n & Hk & ? & ? & ? & ?).
    destruct (decide (sl = sl')) as [->|Hne].
    + exists sc', n. rewrite lookup_insert_eq. split_and!; done || congruence.
    + exists k, n. by rewrite lookup_insert_ne.
  - apply Forall_forall. intros t Hin%Hts. simpl in *.
    assert (forall y, is_Some (suspStore m !! y) ->
                      is_Some (<[ sl := sc' ]> (suspStore m) !! y)) as Hmono.
    { intros y Hy. rewrite lookup_insert_is_Some'. auto. }
    apply elem_of_cons in Hin as [->|Hin].
    + simpl. apply Hmono. eauto.
    + apply (proj1 (Forall_forall _ _) Ht) in Hin. destruct t; simpl in *; auto.
Qed.

Lemma Confirm_same sc from t sc' ok st :
  Confirm sc from t = (sc', ok, st) -> about sc' = about sc /\ atLives sc' = atLives sc.
Proof. unfold Confirm. intros E. repeat case_match; by simplify_eq/=. Qed.

Lemma suspectNode_new_inv m p n s sc e :
  inv m -> getNode m (s_ID s) = Some (p, n) -> s_ID s <> selfID m ->
  0 <= s_Lives s < 2 ^ 32 -> about sc = s_ID s -> atLives sc = s_Lives s ->
  let sl := fresh (dom (suspStore m)) in
  let m' := set_suspicions (<[ s_ID s := sl ]> (suspicions m))
              (set_suspStore (<[ sl := sc ]> (suspStore m))
                (setNode p (accept_suspect s (now e) n) m)) in
  inv m' /\ view m' = <[ s_ID s := accept_suspect s (now e) n ]> (view m).
Proof.
  intros Hinv E Hself Hlv Hab Hat sl m'. pose proof Hinv as [Hm Hl [H1 H2] Hloc Ht].
  pose proof (getNode_nid _ _ _ _ Hm E) as Hnid. apply getNode_Some in E as [Hp Hn].
  assert (view m' = <[ s_ID s := accept_suspect s (now e) n ]> (view m)) as Hv
    by exact (view_setNode _ _ _ _ Hm Hp).
  assert (forall y sc', suspStore m !! y = Some sc' -> y <> sl) as Hfr.
  { intros y sc' Hy ->. apply (is_fresh (dom (suspStore m))). apply elem_of_dom. eauto. }
  split; [|done]. split.
  - apply (mem_ok_frame (setNode p (accept_suspect s (now e) n) m)); [|done].
    by apply (mem_ok_setNode m (s_ID s)).
  - by apply (lives_ok_insert m _ _ _ Hl Hv); [apply Hl|].
  - split; rewrite Hv; simpl.
    + intros x sl'. rewrite lookup_insert_Some. intros [[<- <-]|[Hne Hx]].
      * exists sc, (accept_suspect s (now e) n). by rewrite !lookup_insert_eq.
      * destruct (H1 x sl' Hx) as (k & n' & Hk & ? & ? & ? & ?). exists k, n'.
        rewrite !lookup_insert_ne; [done..|]. by apply not_eq_sym, (Hfr _ k).
    + intros x k. rewrite lookup_insert_Some, lookup_insert_is_Some'.
      intros [[<- <-]|[Hne Hx]] Hst; [by left|right; eauto].
  - by apply (local_ok_insert m _ _ _ Hloc Hv).
  - eapply Forall_impl; [exact Ht|]. intros [y|d|ds]; [|done..]. simpl.
    rewrite lookup_insert_is_Some'. auto.
Qed.

Lemma suspectNode_refines m s e :
  inv m -> fine_suspect m s ->
  exists m', suspectNode m s e = Ret m' /\ inv m' /\
    view m' = spec_suspect (selfID m) (refuteValue (s_Lives s) (lives m)) s
                (now e) (view m) /\
    config m' = config m /\ left m' = left m.
Proof.
  intros Hinv [Hlv Hself]. pose proof Hinv as [Hm Hl Hs Hloc Ht].
  unfold suspectNode, spec_suspect. rewrite (getNode_view m (s_ID s)).
  destruct (getNode m (s_ID s)) as [[p n]|] eqn:E; simpl; [|by exists m].
  assert (view m !! s_ID s = Some n) as Hview by by rewrite getNode_view, E.
  destruct (s_Lives s <? Lives n); [by exists m|]. simpl orb.
  destruct (suspicions m !! s_ID s) as [sl|] eqn:Esl.
  - destruct (ok_susp _ Hs _ _ Esl) as (sc & n' & Hsc & Hab & Hn' & Hst & Hat).
    assert (n' = n) as -> by congruence.
    rewrite (bool_decide_eq_true_2 (State n <> StateAlive)) by (by rewrite Hst).
    rewrite Hsc. destruct (Confirm sc (s_From s) (now e)) as [[sc' ok] st] eqn:EC.
    apply Confirm_same in EC as [Ha1 Ha2].
    eexists. split; [reflexivity|].
    match goal with |- inv ?m' /\ _ =>
      assert (core m' = core (set_tasks (tasks m ++ if st then [TimeoutStart sl] else [])
        (set_suspStore (<[ sl := sc' ]> (suspStore m)) m))) as Hc end.
    { destruct st, ok; try done; unfold core; simpl; by rewrite app_nil_r. }
    split_and!.
    + eapply inv_core; [exact Hc|]. apply (inv_timer m sl sc); try done.
      destruct st; set_solver.
    + by rewrite (core_view _ _ Hc).
    + unfold core in Hc. by injection Hc.
    + unfold core in Hc. by injection Hc.
  - case_bool_decide as Hst; [by exists m|].
    case_bool_decide as Hx.
    + rewrite Hx in E. specialize (Hself Hx).
      destruct (refute_inv m p n (s_Lives s) Hinv E ltac:(lia))
        as (m' & Hr & Hi & Hv & Hc & Hle & _).
      exists m'. split_and!; try done. by rewrite Hx.
    + eexists. split; [reflexivity|].
      set (m1 := setNode p _ _).
      destruct (suspectNode_new_inv m p n s (makeSuspicion m1 s e) e) as [Hi Hv]; try done.
      split_and!; try done. eapply inv_core; [|exact Hi]. done.
Qed.

(** ** Suspicion timers *)

Lemma expireTimer_inv m sl e :
  inv m -> inv (expireTimer m sl e) /\ view (expireTimer m sl e) = view m.
Proof.
  intros Hinv. unfold expireTimer.
  destruct (suspStore m !! sl) as [sc|] eqn:Hsc; [|done].
  destruct (expire sc (now e)) as [sc' st] eqn:Ee.
  assert (about sc' = about sc /\ atLives sc' = atLives sc) as [Ha Hat].
  { unfold expire in Ee. repeat case_match; by simplify_eq/=. }
  destruct st; split; try done.
  - apply (inv_timer m sl sc); try done. set_solver.
  - eapply inv_core; [|apply (inv_timer m sl sc sc' (tasks m)); try done; set_solver]. done.
Qed.

Lemma expireTimer_frame m sl e :
  config (expireTimer m sl e) = config m /\ left (expireTimer m sl e) = left m.
Proof. unfold expireTimer. by repeat case_match. Qed.

Lemma inv_tasks_sub m ts : inv m -> Forall (task_ok m) ts -> inv (set_tasks ts m).
Proof.
  intros [Hm Hl Hs Hloc Ht] Hts. split; try done.
  - by apply (mem_ok_frame m).
  - by destruct Hs as [H1 H2].
Qed.

Lemma delete_insert_same {A} i x (l : list A) : delete i (<[ i := x ]> l) = delete i l.
Proof.
  revert i. induction l as [|y l IH]; intros [|i]; simpl; [done..|].
  f_equal. apply IH.
Qed.

Lemma Forall_delete {A} (P : A -> Prop) i (l : list A) : Forall P l -> Forall P (delete i l).
Proof.
  intros H. revert i. induction H; intros [|i]; simpl; auto.
Qed.

(** A goroutine that makes its test does not change what is known; one that
    is past it handles a dead message about another node. *)
Lemma runTask_refines m i e :
  inv m ->
  exists m', runTask m i e = Ret m' /\ inv m' /\
    config m' = config m /\ left m' = left m /\
    (view m' = view m \/
     exists d l, tasks m !! i = Some (TimeoutDead d) /\ d_ID d <> selfID m /\ d_Lives d < l /\
       view m' = spec_dead (selfID m) (left m) l d (now e) (view m)).
Proof.
  intros Hinv. pose proof Hinv as [Hm Hl Hs Hloc Ht]. unfold runTask.
  destruct (tasks m !! i) as [[sl|d|[|d ds]]|] eqn:Ei; [..|by exists m; auto 10].
  - destruct (proj1 (Forall_lookup _ _) Ht _ _ Ei) as [sc Hsc]. rewrite Hsc.
    unfold timeoutTest. destruct (getNode m (about sc)) as [[p n]|] eqn:E.
    2: { eexists. split; [reflexivity|]. split_and!; auto.
         by apply inv_tasks_sub, Forall_delete. }
    destruct (bool_decide (State n = StateSuspect) && (Lives n =? atLives sc)) eqn:Et.
    2: { eexists. split; [reflexivity|]. split_and!; auto.
         by apply inv_tasks_sub, Forall_delete. }
    apply andb_true_iff in Et as [Hst%bool_decide_eq_true _].
    assert (view m !! about sc = Some n) as Hv by by rewrite getNode_view, E.
    eexists. split; [reflexivity|]. split_and!; auto.
    apply inv_tasks_sub; [done|]. apply Forall_insert; [done|]. simpl.
    pose proof (getNode_nid _ _ _ _ Hm E) as Hnid. pose proof (proj2 Hl _ _ Hv) as HL.
    simpl in HL. split_and!; try done || lia.
    intros Hself. unfold nid in Hnid. rewrite Hnid in Hself. rewrite Hself in Hv.
    destruct (Hloc n Hv). done.
  - destruct (proj1 (Forall_lookup _ _) Ht _ _ Ei) as (Hid & Hr & _).
    set (m1 := set_tasks (delete i (tasks m)) m).
    assert (inv m1) as Hinv1 by by apply inv_tasks_sub, Forall_delete.
    destruct (deadNode_refines m1 d None e Hinv1) as (m' & Hd & Hi & Hv & Hc & Hle).
    { split; [done|]. intros Hx. by destruct Hid. }
    exists m'. split_and!; try done. right. exists d, (d_Lives d + 1).
    split_and!; [done..|lia|]. rewrite Hv. unfold spec_dead.
    change (selfID m1) with (selfID m). by rewrite (bool_decide_eq_false_2 _ Hid).
  - eexists. split; [reflexivity|]. split_and!; auto. by apply inv_tasks_sub, Forall_delete.
  - set (m1 := set_tasks _ m).
    assert (inv m1) as Hi1 by by apply inv_tasks_sub, Forall_insert.
    pose proof (core_runDeferred e m1 d) as Hc. eexists. split; [reflexivity|].
    split_and!; [by apply (inv_core m1)| | |left; by rewrite (core_view _ _ Hc)];
      unfold core in Hc; by injection Hc.
Qed.

End Facts.
