(* ===== verification/Maintenance.v ===== *)
(** * Periodic maintenance ([maintenance.go], [shuffleNodes] of [util.go])

    Reaping of nodes that have been dead for long, the round-robin choice of
    the next node to probe, the random choice of nodes and the gossip round.
    [clock] and [r] stand for successive readings of the clock and of the
    random number generator. *)

From S2P Require Import Prelude GoMath Types Interfaces Awareness Suspicion Broadcast Config Compound State.
From Stdlib Require Import Strings.Byte.

(** ** Slices *)

(** [rand.Shuffle]: Fisher and Yates, from the last index down. *)
Fixpoint shuffleFrom {A} (r : nat -> Z) (i : nat) (l : list A) : list A :=
  match i with
  | O => l
  | S i' => shuffleFrom r i' (swap i (Z.to_nat (r i mod (Z.of_nat i + 1))) l)
  end.

Definition shuffleNodes {A} (r : nat -> Z) (nodes : list A) : list A :=
  shuffleFrom r (length nodes - 1) nodes.

(** Dead or left for more than [timeout] at time [t]. *)
Definition expired (timeout t : Z) (n : nodeState) : bool :=
  DeadOrLeft n && (timeout <? t - StateChange n).

(** The loop of [swapExpiredToEnd]; the distance [expiredIdx - i] shrinks with
    every iteration and numbers the clock readings. *)
Fixpoint swapLoop (fuel : nat) (st : gmap loc nodeState) (clock : nat -> Z) (timeout : Z)
    (i expiredIdx : nat) (nodes : list loc) : outcome (list loc * nat) :=
  match fuel with
  | O => Hang
  | S fuel =>
      if (i <? expiredIdx)%nat then
        match nodes !! i with
        | None => Panic
        | Some p =>
            match st !! p with
            | None => Panic
            | Some n =>
                if negb (DeadOrLeft n) then
                  swapLoop fuel st clock timeout (S i) expiredIdx nodes
                else if clock (expiredIdx - i)%nat - StateChange n <=? timeout then
                  swapLoop fuel st clock timeout (S i) expiredIdx nodes
                else
                  let expiredIdx := (expiredIdx - 1)%nat in
                  swapLoop fuel st clock timeout i expiredIdx (swap i expiredIdx nodes)
            end
        end
      else Ret (nodes, expiredIdx)
  end.

Definition swapExpiredToEnd (st : gmap loc nodeState) (clock : nat -> Z)
    (nodes : list loc) (timeout : Z) : outcome (list loc * nat) :=
  swapLoop (S (length nodes)) st clock timeout 0 (length nodes) nodes.

(** The first loop of [reap]: the expired objects leave the map. *)
Fixpoint deregister (st : gmap loc nodeState) (ps : list loc) (mp : gmap string loc)
    : outcome (gmap string loc) :=
  match ps with
  | [] => Ret mp
  | p :: ps =>
      match st !! p with
      | None => Panic
      | Some n => deregister st ps (delete (nid n) mp)
      end
  end.

Section Maintenance.
Context {HO : HeapOps TransmitCapItem} {CO : Codec}.

Definition reap (m : Memberlist) (clock : nat -> Z) (r : nat -> Z) : outcome Memberlist :=
  let! (ns, expiredIdx) :=
    swapExpiredToEnd (store m) clock (nodes m) (Cfg.DeadNodeExpiredTimeout (config m)) in
  let! mp := deregister (store m) (drop expiredIdx ns) (nodeMap m) in
  let m := set_nodeMap mp m in
  let m := set_nodes (take expiredIdx ns) m in
  let m := set_numNodes (i32 (Z.of_nat expiredIdx)) m in
  Ret (set_nodes (shuffleNodes r (nodes m)) m).

(** ** Probing *)

Definition skipProbe (m : Memberlist) (n : nodeState) : bool :=
  bool_decide (nid n = selfID m) || DeadOrLeft n.

Definition nodeAt (m : Memberlist) (i : Z) : outcome nodeState :=
  if i <? 0 then Panic
  else match nodes m !! Z.to_nat i with
       | Some p => match store m !! p with Some n => Ret n | None => Panic end
       | None => Panic
       end.

(** The inner loop: from [idx] to the next node that is to be probed. *)
Fixpoint probeScan (fuel : nat) (m : Memberlist) (idx : Z) : outcome (Z * option nodeState) :=
  match fuel with
  | O => Hang
  | S fuel =>
      if idx <? len (nodes m) then
        let! n := nodeAt m idx in
        if skipProbe m n then probeScan fuel m (idx + 1) else Ret (idx, Some n)
      else Ret (idx, None)
  end.

(** The outer loop ends at the latest after it has wrapped around once. *)
Fixpoint probeLoop (fuel : nat) (m : Memberlist) (wrapAround : bool) (idx : Z)
    : outcome (Z * option nodeState) :=
  match fuel with
  | O => Hang
  | S fuel =>
      if wrapAround then Ret (idx, None)
      else
        let '(idx, wrapAround) :=
          if len (nodes m) <=? idx then (0, true) else (idx, wrapAround) in
        let! (idx, found) := probeScan (S (length (nodes m))) m idx in
        match found with
        | Some n => Ret (idx, Some n)
        | None => probeLoop fuel m wrapAround idx
        end
  end.

(** [nextProbeNode]; [None] is its error. *)
Definition nextProbeNode (m : Memberlist) : outcome (option nodeState * Memberlist) :=
  let! (idx, found) := probeLoop 3 m false (probeIdx m + 1) in
  Ret (found, set_probeIdx idx m).

(** ** Random nodes *)

(** The loop of [pickRandomNodes], [left] iterations before the bound; the
    predicate [accept] may read the clock, and so depends on the iteration. *)
Fixpoint pickNodes (left : nat) (m : Memberlist) (accept : nat -> nodeState -> bool)
    (r : nat -> Z) (numNodes : Z) (picked : list nodeState) : outcome (list nodeState) :=
  match left with
  | O => Ret picked
  | S left =>
      if len picked <? numNodes then
        let! n := nodeAt m (Z.of_nat (randIntN (r left) (length (nodes m)))) in
        if negb (accept left n) then pickNodes left m accept r numNodes picked
        else if existsb (fun p => bool_decide (nid n = nid p)) picked
        then pickNodes left m accept r numNodes picked
        else pickNodes left m accept r numNodes (picked ++ [n])
      else Ret picked
  end.

Definition pickRandomNodes (m : Memberlist) (r : nat -> Z) (numNodes : Z)
    (accept : nat -> nodeState -> bool) : outcome (list nodeState) :=
  if numNodes <? 0 then Panic
  else pickNodes (3 * length (nodes m)) m accept r numNodes [].

(** ** Gossip *)

Definition compoundHeaderOverhead : Z := 2.
Definition lenMsgOverhead : Z := 2.

Definition versionSize : Z := 1.
Definition nonceSize : Z := 12.
Definition tagSize : Z := 16.

Definition encryptOverhead (vsn : Z) : outcome Z :=
  if vsn =? 0 then Ret (versionSize + nonceSize + tagSize) else Panic.

(** Whom to gossip to: dead nodes for a while too. *)
Definition gossipTo (m : Memberlist) (t : Z) (n : nodeState) : bool :=
  negb (bool_decide (nid n = selfID m)) &&
  (negb (bool_decide (State n = StateDead)) ||
   (bool_decide (State n = StateDead) &&
    (t - StateChange n <=? Cfg.DeadNodeExpiredTimeout (config m)))).

(** The messages for each node in turn, and the packets they make; the round
    ends when there is nothing left to send. *)
Fixpoint gossipLoop (m : Memberlist) (ub : option (Z -> Z -> list (list byte)))
    (remainingBytes : Z) (ns : list nodeState) (sent : list (UDPAddr * list byte))
    : outcome (list (UDPAddr * list byte) * Memberlist) :=
  match ns with
  | [] => Ret (sent, m)
  | n :: ns =>
      let! (msgs, q) :=
        getBroadcasts (mbroadcasts m) ub (GetNumNodes m) lenMsgOverhead remainingBytes in
      let m := set_mbroadcasts q m in
      match msgs with
      | [] => Ret (sent, m)
      | _ =>
          let addr := Node_UDPAddress (node n) in
          let packets :=
            match msgs with [msg] => [msg] | _ => splitToCompoundMsgs msgs end in
          gossipLoop m ub remainingBytes ns (sent ++ map (pair addr) packets)
      end
  end.

(** [gossip]: the packets handed to [sendUdp]. *)
Definition gossip (m : Memberlist) (encryption : bool)
    (ub : option (Z -> Z -> list (list byte))) (clock r : nat -> Z)
    : outcome (list (UDPAddr * list byte) * Memberlist) :=
  let! ns := pickRandomNodes m r (Cfg.GossipNodes (config m))
              (fun i => gossipTo m (clock i)) in
  let remainingBytes := Cfg.UDPBufferSize (config m) - compoundHeaderOverhead in
  let! remainingBytes :=
    if encryption then
      let! o := encryptOverhead (Cfg.EncryptionVersion (config m)) in
      Ret (remainingBytes - o)
    else Ret remainingBytes in
  gossipLoop m ub remainingBytes ns [].

(** ** Queries *)

Fixpoint derefs (m : Memberlist) (ps : list loc) : outcome (list nodeState) :=
  match ps with
  | [] => Ret []
  | p :: ps =>
      match store m !! p with
      | None => Panic
      | Some n => let! ns := derefs m ps in Ret (n :: ns)
      end
  end.

Definition Members (m : Memberlist) : outcome (list nodeState) := derefs m (nodes m).

Definition ActiveNodes (m : Memberlist) : outcome (list nodeState) :=
  let! ns := derefs m (nodes m) in Ret (List.filter (fun n => negb (DeadOrLeft n)) ns).

Definition NumActive (m : Memberlist) : outcome Z :=
  let! ns := derefs m (nodes m) in
  Ret (len (List.filter (fun n => negb (DeadOrLeft n)) ns)).

Definition hasActivePeers (m : Memberlist) : outcome bool :=
  let! ns := derefs m (nodes m) in
  Ret (existsb (fun n => negb (DeadOrLeft n) && negb (bool_decide (nid n = selfID m))) ns).

Definition GetNodeState (m : Memberlist) (x : string) : option nodeState :=
  snd <$> getNode m x.

Definition LocalNodeState (m : Memberlist) : option nodeState :=
  GetNodeState m (selfID m).

End Maintenance.

(** ** The interval of push/pull *)

Definition pushPullScaleThreshold : Z := 32.

Definition pushPullScale (interval n : Z) : Z :=
  if n <=? pushPullScaleThreshold then interval
  else
    let mult := f64.ceil (f64.sub (f64.Log2 (f64.of_Z n)) (f64.Log2 (f64.of_Z 32))) + 1 in
    i64 (mult * interval).
