(* ===== verification/MaintenanceFacts.v ===== *)
(** * Reaping, probing and picking are right

    The reaper removes exactly the nodes that have been dead for too long and
    keeps the invariant of the member list; the prober goes round all nodes
    worth probing; a random choice is a set of distinct acceptable nodes. *)

From S2P Require Import Prelude GoMath Types Interfaces Awareness Suspicion Broadcast Config Compound Spec State StateFacts Maintenance.

(** ** The expired nodes go to the end *)

Section SwapExpired.
Context (st : gmap loc nodeState) (clock : nat -> Z) (timeout lo hi : Z).
Hypothesis clock_bounds : forall k, lo <= clock k <= hi.

Definition kept (p : loc) : Prop :=
  exists n, st !! p = Some n /\ expired timeout lo n = false.
Definition dropped (p : loc) : Prop :=
  exists n, st !! p = Some n /\ expired timeout hi n = true.

(** Split at [k]: kept before, dropped from there on. *)
Definition split_at (ns : list loc) (i k : nat) : Prop :=
  (forall j p, (j < i)%nat -> ns !! j = Some p -> kept p) /\
  (forall j p, (k <= j)%nat -> ns !! j = Some p -> dropped p).

Lemma split_at_keep ns i k p :
  split_at ns i k -> ns !! i = Some p -> kept p -> split_at ns (S i) k.
Proof.
  intros [H1 H2] Hi Hp. split; [|done]. intros j q Hj Hq.
  destruct (decide (j = i)) as [->|]; [by simplify_eq|]. apply (H1 j); [lia|done].
Qed.

Lemma split_at_drop ns i k p :
  split_at ns i (S k) -> (i <= k)%nat -> (k < length ns)%nat ->
  ns !! i = Some p -> dropped p -> split_at (swap i k ns) i k.
Proof.
  intros [H1 H2] Hik Hk Hi Hp. split; intros j q Hj Hq.
  - rewrite swap_lookup_ne in Hq by lia. by apply (H1 j).
  - destruct (decide (j = k)) as [->|].
    + rewrite (swap_lookup_r _ _ _ p) in Hq by done. by simplify_eq.
    + rewrite swap_lookup_ne in Hq by lia. apply (H2 j); [lia|done].
Qed.

Lemma swapLoop_spec fuel i k ns :
  (k - i < fuel)%nat -> (i <= k <= length ns)%nat ->
  (forall p, p ∈ ns -> is_Some (st !! p)) -> split_at ns i k ->
  exists ns' k', swapLoop fuel st clock timeout i k ns = Ret (ns', k') /\
    ns' ≡ₚ ns /\ (k' <= length ns')%nat /\ split_at ns' k' k'.
Proof using clock_bounds.
  revert i k ns. induction fuel as [|fuel IH]; intros i k ns Hf Hik Hst Hsp; [lia|].
  cbn [swapLoop]. destruct (Nat.ltb_spec i k) as [Hlt|Hge].
  2: { exists ns, k. assert (i = k) as -> by lia. split_and!; done || lia. }
  destruct (lookup_lt_is_Some_2 ns i) as [p Hp]; [lia|]. rewrite Hp.
  destruct (Hst p) as [n Hn]; [by eapply list_elem_of_lookup_2|]. rewrite Hn.
  pose proof (clock_bounds (k - i)) as Hc.
  assert (expired timeout lo n = false -> exists ns' k',
    swapLoop fuel st clock timeout (S i) k ns = Ret (ns', k') /\
    ns' ≡ₚ ns /\ (k' <= length ns')%nat /\ split_at ns' k' k') as Hkeep.
  { intros He. apply IH; [lia..|done|]. eapply split_at_keep; [done..|]. by exists n. }
  destruct (DeadOrLeft n) eqn:Hd; cbn [negb].
  2: { apply Hkeep. unfold expired. by rewrite Hd. }
  destruct (Z.leb_spec (clock (k - i)%nat - StateChange n) timeout) as [Hle|Hgt].
  { apply Hkeep. unfold expired. rewrite Hd. simpl. apply Z.ltb_ge. lia. }
  destruct (IH i (k - 1)%nat (swap i (k - 1) ns)) as (ns' & k' & E & Hperm & Hk' & Hsp').
  - lia.
  - rewrite length_swap. lia.
  - intros q. rewrite swap_elem_of. apply Hst.
  - eapply split_at_drop; [|lia|lia|done|].
    + by replace (S (k - 1)) with k by lia.
    + exists n. split; [done|]. unfold expired. rewrite Hd. simpl. apply Z.ltb_lt. lia.
  - exists ns', k'. split_and!; try done. by rewrite Hperm, swap_Permutation.
Qed.

Lemma swapExpiredToEnd_spec ns :
  (forall p, p ∈ ns -> is_Some (st !! p)) ->
  exists ns' k, swapExpiredToEnd st clock ns timeout = Ret (ns', k) /\
    ns' ≡ₚ ns /\ (k <= length ns')%nat /\
    Forall kept (take k ns') /\ Forall dropped (drop k ns').
Proof using clock_bounds.
  intros Hst. unfold swapExpiredToEnd.
  destruct (swapLoop_spec (S (length ns)) 0 (length ns) ns) as (ns' & k & E & Hp & Hk & Hsp).
  - lia.
  - lia.
  - done.
  - split; intros j p Hj Hp; [lia|]. apply lookup_lt_Some in Hp. lia.
  - exists ns', k. split_and!; try done; apply Forall_lookup.
    + intros j p [Hj Hjk]%lookup_take_Some. by apply (proj1 Hsp j).
    + intros j p. rewrite lookup_drop. intros Hj. apply (proj2 Hsp (k + j)%nat); [lia|done].
Qed.

End SwapExpired.

Lemma shuffleFrom_Permutation {A} r i (l : list A) : shuffleFrom r i l ≡ₚ l.
Proof.
  revert l. induction i as [|i IH]; intros l; [done|]. cbn [shuffleFrom].
  by rewrite IH, swap_Permutation.
Qed.

Lemma shuffleNodes_Permutation {A} r (l : list A) : shuffleNodes r l ≡ₚ l.
Proof. apply shuffleFrom_Permutation. Qed.

(** ** Deregistration *)

Lemma deregister_spec st ps mp :
  (forall p, p ∈ ps -> is_Some (st !! p)) ->
  exists mp', deregister st ps mp = Ret mp' /\
    forall x p, mp' !! x = Some p <->
      mp !! x = Some p /\ (forall q n, q ∈ ps -> st !! q = Some n -> nid n <> x).
Proof.
  revert mp. induction ps as [|p ps IH]; intros mp Hst; cbn [deregister].
  - exists mp. split; [done|]. intros x q. split; [|by intros []].
    intros Hx. split; [done|]. intros ?? []%not_elem_of_nil.
  - destruct (Hst p) as [n Hn]; [by left|]. rewrite Hn.
    destruct (IH (delete (nid n) mp)) as (mp' & E & Hmp).
    { intros q Hq. apply Hst. by right. }
    exists mp'. split; [done|]. intros x q. rewrite Hmp, lookup_delete_Some. split.
    + intros [[Hne Hx] Hall]. split; [done|].
      intros q' n' [->|Hq']%elem_of_cons Hn'; [congruence|by apply (Hall q')].
    + intros [Hx Hall]. split_and!; [|done|].
      * apply (Hall p); [by left|done].
      * intros q' n' Hq'. apply Hall. by right.
Qed.

(** ** Reaping *)

Section Reap.
Context {HO : HeapOps TransmitCapItem} {CO : Codec}.
Implicit Types m : Memberlist.

(** What is left when the objects [ds] of the member list are removed. *)
Lemma mem_ok_shrink m m' ks ds :
  mem_ok m -> nodes m ≡ₚ ks ++ ds -> store m' = store m -> nodes m' ≡ₚ ks ->
  numNodes m' = i32 (len ks) ->
  (forall x p, nodeMap m' !! x = Some p <->
    nodeMap m !! x = Some p /\ (forall q n, q ∈ ds -> store m !! q = Some n -> nid n <> x)) ->
  mem_ok m'.
Proof.
  intros [H1 H2 H3 H4] Hperm Hst Hn Hnum Hmp.
  rewrite Hperm in H3. apply NoDup_app in H3 as (Hnd & Hdisj & _).
  split.
  - intros x p [Hx Hall]%Hmp. destruct (H1 x p Hx) as (Hin & n & Hp & Hid).
    rewrite Hn, Hst. split; [|by exists n].
    rewrite Hperm, elem_of_app in Hin. destruct Hin as [?|Hd]; [done|].
    by destruct (Hall p n Hd Hp).
  - intros p. rewrite Hn, Hst. intros Hp.
    destruct (H2 p) as (n & Hpn & Hid); [rewrite Hperm, elem_of_app; by left|].
    exists n. split; [done|]. apply Hmp. split; [done|].
    intros q k Hq Hqk Heq.
    destruct (H2 q) as (k' & Hk' & Hid'); [rewrite Hperm, elem_of_app; by right|].
    assert (k' = k) as -> by congruence.
    assert (p = q) as -> by congruence. by apply (Hdisj q).
  - by rewrite Hn.
  - by rewrite Hn.
Qed.

(** A state that knows less, but nothing else, and still all suspects. *)
Lemma inv_shrink m m' :
  inv m -> mem_ok m' -> view m' ⊆ view m ->
  (forall x n, view m !! x = Some n -> State n = StateSuspect -> view m' !! x = Some n) ->
  (config m', left m', lives m', suspStore m', suspicions m', tasks m')
  = (config m, left m, lives m, suspStore m, suspicions m, tasks m) ->
  inv m'.
Proof.
  intros [_ [Hl HL] [H1 H2] Hloc Ht] Hm Hsub Hsus E.
  injection E as E1 E2 E3 E4 E5 E6.
  assert (forall x n, view m' !! x = Some n -> view m !! x = Some n) as Hv
    by (intros x n Hx; by eapply lookup_weaken).
  split.
  - done.
  - split; [by rewrite E3|]. intros x n Hx. apply (HL x). auto.
  - split; rewrite E5, ?E4.
    + intros x sl Hx. destruct (H1 x sl Hx) as (sc & n & ? & ? & ? & ? & ?).
      exists sc, n. split_and!; auto.
    + intros x n Hx. apply H2. auto.
  - unfold local_ok, selfID. rewrite E1, E2. intros n Hx%Hv. by apply Hloc.
  - unfold tasks_ok. rewrite E6. eapply Forall_impl; [exact Ht|].
    intros [sl|d|ds]; unfold task_ok, selfID; by rewrite ?E4, ?E1.
Qed.

Lemma reap_refines m clock r lo hi :
  inv m -> (forall k, lo <= clock k <= hi) ->
  let timeout := Cfg.DeadNodeExpiredTimeout (config m) in
  exists m', reap m clock r = Ret m' /\ inv m' /\ view m' ⊆ view m /\
    (forall x n, view m !! x = Some n -> expired timeout hi n = false ->
       view m' !! x = Some n) /\
    (forall x n, view m' !! x = Some n -> expired timeout lo n = false) /\
    config m' = config m /\ left m' = left m.
Proof.
  intros Hinv Hclk timeout. pose proof Hinv as [Hm Hl Hs Hloc Ht].
  assert (forall p, p ∈ nodes m -> is_Some (store m !! p)) as Hst.
  { intros p (n & Hn & _)%(ok_nodes _ Hm). eauto. }
  unfold reap. fold timeout.
  destruct (swapExpiredToEnd_spec (store m) clock timeout lo hi Hclk (nodes m) Hst)
    as (ns & k & -> & Hperm & Hk & Hkeep & Hdrop).
  assert (forall p, p ∈ drop k ns -> p ∈ nodes m) as Hdn.
  { intros p Hp. rewrite <- Hperm, <- (take_drop k ns), elem_of_app. by right. }
  cbn [obind].
  destruct (deregister_spec (store m) (drop k ns) (nodeMap m)) as (mp & -> & Hmp).
  { intros p Hp. by apply Hst, Hdn. }
  cbn [obind]. eexists. split; [reflexivity|].
  set (m' := set_nodes _ _).
  assert (nodes m' ≡ₚ take k ns) as Hn by apply shuffleNodes_Permutation.
  assert (mem_ok m') as Hm'.
  { apply (mem_ok_shrink m _ (take k ns) (drop k ns)); try done.
    - by rewrite take_drop.
    - simpl. by rewrite length_take, Nat.min_l. }
  assert (forall x n, view m' !! x = Some n <-> view m !! x = Some n /\
            (forall q n, q ∈ drop k ns -> store m !! q = Some n -> nid n <> x)) as Hview.
  { intros x n. rewrite !lookup_view. simpl. destruct (mp !! x) as [p|] eqn:Ex.
    - apply Hmp in Ex as [-> Hx]. naive_solver.
    - split; [done|]. intros [Hx Hall]. destruct (nodeMap m !! x) as [p|] eqn:Ep; [|done].
      assert (mp !! x = Some p) by by apply Hmp. congruence. }
  assert (forall x n, view m !! x = Some n -> expired timeout hi n = false ->
            view m' !! x = Some n) as Hstay.
  { intros x n Hx He. apply Hview. split; [done|]. intros q k' Hq Hqk Hid.
    destruct (proj1 (Forall_forall _ _) Hdrop _ Hq) as (n' & Hqn & He').
    assert (q ∈ nodes m) as (k2 & Hk2 & Hmap)%(ok_nodes _ Hm) by by apply Hdn.
    rewrite lookup_view in Hx. assert (k2 = k') as -> by congruence.
    rewrite Hid in Hmap. rewrite Hmap in Hx. congruence. }
  assert (view m' ⊆ view m) as Hsub.
  { apply map_subseteq_spec. intros x n Hx. by apply Hview. }
  split_and!; try done.
  - apply (inv_shrink m); try done.
    intros x n Hx Hsus. apply Hstay; [done|].
    unfold expired, DeadOrLeft. by rewrite Hsus.
  - intros x n Hx. rewrite lookup_view in Hx.
    destruct (nodeMap m' !! x) as [p|] eqn:Ep; [|done].
    destruct (ok_map _ Hm' _ _ Ep) as (Hin & n' & Hn' & _).
    rewrite Hn in Hin. apply (proj1 (Forall_forall _ _) Hkeep) in Hin as (k' & Hk' & He).
    simpl in *. congruence.
Qed.
End Reap.

(** ** Round-robin probing *)

Section Probe.
Context {HO : HeapOps TransmitCapItem} {CO : Codec}.
Implicit Types m : Memberlist.

(** The node at an index, and the indices from [i] on that may be probed. *)
Definition objAt m (i : Z) : option nodeState :=
  match nodeAt m i with Ret n => Some n | _ => None end.

Definition probeableAt m (i : Z) : bool :=
  match objAt m i with Some n => negb (skipProbe m n) | None => false end.

Definition candFrom m (i : Z) : list Z :=
  List.filter (probeableAt m) (seqZ i (len (nodes m) - i)).

Definition objects m : list nodeState := omap (fun p => store m !! p) (nodes m).

Lemma nodeAt_Ret m i :
  mem_ok m -> 0 <= i < len (nodes m) ->
  exists n p, nodeAt m i = Ret n /\ nodes m !! Z.to_nat i = Some p /\ store m !! p = Some n.
Proof.
  intros Hm Hi. unfold nodeAt. zcmp.
  destruct (lookup_lt_is_Some_2 (nodes m) (Z.to_nat i)) as [p Hp]; [lia|].
  destruct (ok_nodes _ Hm p) as (n & Hn & _); [by eapply list_elem_of_lookup_2|].
  exists n, p. by rewrite Hp, Hn.
Qed.

Lemma candFrom_step m i :
  i < len (nodes m) ->
  candFrom m i = (if probeableAt m i then [i] else []) ++ candFrom m (i + 1).
Proof.
  intros Hi. unfold candFrom.
  rewrite seqZ_cons by lia. cbn [List.filter].
  replace (Z.pred (len (nodes m) - i)) with (len (nodes m) - (i + 1)) by lia.
  replace (Z.succ i) with (i + 1) by lia. by destruct (probeableAt m i).
Qed.

Lemma candFrom_end m i : len (nodes m) <= i -> candFrom m i = [].
Proof. intros Hi. unfold candFrom. by rewrite seqZ_nil by lia. Qed.

(** After the first candidate the others come. *)
Lemma candFrom_next m i j js :
  candFrom m i = j :: js ->
  i <= j < len (nodes m) /\ probeableAt m j = true /\ candFrom m (j + 1) = js.
Proof.
  destruct (decide (len (nodes m) <= i)); [by rewrite candFrom_end|].
  remember (Z.to_nat (len (nodes m) - i)) as k eqn:Ek.
  assert (i + Z.of_nat k = len (nodes m)) as Hk by lia. clear Ek. revert i n Hk.
  induction k as [|k IH]; intros i Hi Hk; [lia|].
  rewrite candFrom_step by lia. destruct (probeableAt m i) eqn:Ep; simpl.
  - intros [= <- <-]. split_and!; [lia..|done|done].
  - destruct (decide (len (nodes m) <= i + 1)); [by rewrite candFrom_end|].
    intros E. destruct (IH (i + 1)) as (? & ? & ?); [lia..|done|]. split_and!; [lia..|done|done].
Qed.

Lemma probeScan_spec fuel m i :
  mem_ok m -> 0 <= i <= len (nodes m) -> len (nodes m) - i < Z.of_nat fuel ->
  probeScan fuel m i =
    match candFrom m i with
    | j :: _ => Ret (j, objAt m j)
    | [] => Ret (len (nodes m), None)
    end.
Proof.
  intros Hm. revert i. induction fuel as [|fuel IH]; intros i Hi Hf; [lia|].
  cbn [probeScan]. destruct (Z.ltb_spec i (len (nodes m))) as [Hlt|Hge].
  - rewrite candFrom_step by done.
    destruct (nodeAt_Ret m i Hm) as (n & p & Hn & _ & _); [lia|].
    unfold probeableAt, objAt. rewrite Hn. cbn [obind].
    destruct (skipProbe m n); simpl.
    + rewrite IH by lia. done.
    + by rewrite Hn.
  - rewrite candFrom_end by lia. do 2 f_equal. lia.
Qed.

(** [nextProbeNode]: the next candidate, else the first one. *)
Lemma nextProbeNode_spec m :
  mem_ok m -> -1 <= probeIdx m ->
  nextProbeNode m =
    match candFrom m (probeIdx m + 1) ++ candFrom m 0 with
    | j :: _ => Ret (objAt m j, set_probeIdx j m)
    | [] => Ret (None, set_probeIdx (len (nodes m)) m)
    end.
Proof.
  intros Hm Hi. unfold nextProbeNode. cbn [probeLoop]. cbv iota.
  destruct (Z.leb_spec (len (nodes m)) (probeIdx m + 1)) as [Hge|Hlt].
  - rewrite (candFrom_end m (probeIdx m + 1)) by done. rewrite probeScan_spec by (done || lia).
    destruct (candFrom m 0) as [|j js] eqn:E; [done|].
    apply candFrom_next in E as (Hj & Hp & _).
    unfold probeableAt in Hp. simpl. destruct (objAt m j) eqn:Ej; [done|done].
  - rewrite probeScan_spec by (done || lia).
    destruct (candFrom m (probeIdx m + 1)) as [|j js] eqn:E.
    + cbn [obind]. rewrite Z.leb_refl. rewrite probeScan_spec by (done || lia).
      destruct (candFrom m 0) as [|j js] eqn:E0; [done|].
      apply candFrom_next in E0 as (Hj & Hp & _).
      unfold probeableAt in Hp. simpl. by destruct (objAt m j).
    + apply candFrom_next in E as (Hj & Hp & _).
      unfold probeableAt in Hp. simpl. by destruct (objAt m j).
Qed.

(** [k] successive choices, with nothing else happening. *)
Fixpoint probes (k : nat) m : outcome (list nodeState * Memberlist) :=
  match k with
  | O => Ret ([], m)
  | S k =>
      let! (o, m) := nextProbeNode m in
      let! (l, m) := probes k m in
      Ret (option_list o ++ l, m)
  end.

Lemma mem_ok_probeIdx m i : mem_ok m -> mem_ok (set_probeIdx i m).
Proof. intros Hm. by apply (mem_ok_frame m). Qed.

Lemma probes_ahead k m :
  mem_ok m -> -1 <= probeIdx m -> (k <= length (candFrom m (probeIdx m + 1)))%nat ->
  exists i, probes k m = Ret (omap (objAt m) (take k (candFrom m (probeIdx m + 1))),
                              set_probeIdx i m) /\
    -1 <= i /\ candFrom m (i + 1) = drop k (candFrom m (probeIdx m + 1)).
Proof.
  revert m. induction k as [|k IH]; intros m Hm Hi Hk.
  - exists (probeIdx m). rewrite take_0. by destruct m.
  - cbn [probes]. rewrite nextProbeNode_spec by done.
    destruct (candFrom m (probeIdx m + 1)) as [|j js] eqn:E; simpl in Hk; [lia|].
    apply candFrom_next in E as (Hj & Hp & Hjs). cbn [app obind].
    destruct (IH (set_probeIdx j m)) as (i & E & Hi' & Hc).
    + by apply mem_ok_probeIdx.
    + simpl. lia.
    + simpl. rewrite Hjs || (change (candFrom (set_probeIdx j m)) with (candFrom m); rewrite Hjs).
      lia.
    + change (candFrom (set_probeIdx j m)) with (candFrom m) in *.
      change (objAt (set_probeIdx j m)) with (objAt m) in *. simpl probeIdx in *.
      rewrite Hjs in E, Hc. rewrite E. cbn [obind]. exists i.
      unfold probeableAt in Hp. cbn [take omap list_omap drop].
      by destruct (objAt m j).
Qed.

Lemma probes_add j k m :
  probes (j + k) m =
    let! (l, m1) := probes j m in let! (l', m2) := probes k m1 in Ret (l ++ l', m2).
Proof.
  revert m. induction j as [|j IH]; intros m; cbn [Nat.add probes].
  - cbn [obind]. destruct (probes k m) as [[]| |]; done.
  - destruct (nextProbeNode m) as [[o m1]| |]; cbn [obind]; [|done..].
    rewrite IH. destruct (probes j m1) as [[l m2]| |]; cbn [obind]; [|done..].
    destruct (probes k m2) as [[l' m3]| |]; cbn [obind]; [|done..]. by rewrite app_assoc.
Qed.

Lemma omap_ext_in {A B} (f g : A -> option B) (l : list A) :
  (forall x, x ∈ l -> f x = g x) -> omap f l = omap g l.
Proof.
  induction l as [|x l IH]; intros H; [done|]. simpl. rewrite H by (by left).
  assert (omap f l = omap g l) as Hl by (apply IH; intros y Hy; apply H; by right).
  unfold omap in Hl. by rewrite Hl.
Qed.

Lemma omap_full {A B} (f : A -> option B) (l : list A) :
  (forall x, x ∈ l -> is_Some (f x)) -> length (omap f l) = length l.
Proof.
  induction l as [|x l IH]; intros H; [done|]. simpl.
  destruct (H x) as [y ->]; [by left|]. simpl. f_equal. apply IH.
  intros z Hz. apply H. by right.
Qed.

Lemma candFrom_split m i :
  0 <= i -> exists before, candFrom m 0 = before ++ candFrom m i.
Proof.
  intros Hi. apply (natlike_ind (fun i => exists before, _ = before ++ candFrom m i)); [..|done].
  - by exists [].
  - intros j Hj [bs ->]. destruct (decide (len (nodes m) <= j)).
    + exists bs. by rewrite !candFrom_end by lia.
    + rewrite (candFrom_step m j) by lia. rewrite app_assoc.
      eexists. reflexivity.
Qed.

(** A round: as many choices as there are candidates. *)
Lemma probes_round m before :
  mem_ok m -> -1 <= probeIdx m ->
  candFrom m 0 = before ++ candFrom m (probeIdx m + 1) ->
  exists i, probes (length (candFrom m 0)) m =
    Ret (omap (objAt m) (candFrom m (probeIdx m + 1) ++ before), set_probeIdx i m).
Proof.
  intros Hm Hi Hsp. rewrite Hsp, length_app, Nat.add_comm.
  destruct (probes_ahead (length (candFrom m (probeIdx m + 1))) m) as (i & E & Hi' & Hc);
    [done..|].
  rewrite firstn_all in E. rewrite drop_all in Hc.
  rewrite probes_add, E. cbn [obind].
  destruct before as [|a bs]; [exists i; simpl; by rewrite !app_nil_r|].
  cbn [length probes]. rewrite nextProbeNode_spec by (done || by apply mem_ok_probeIdx).
  change (candFrom (set_probeIdx i m)) with (candFrom m). simpl probeIdx.
  rewrite Hc, Hsp. cbn [app obind].
  rewrite <- app_comm_cons in Hsp. apply candFrom_next in Hsp as (Ha & Hp & Hrest).
  destruct (probes_ahead (length bs) (set_probeIdx a m)) as (i' & E' & _ & _).
  { by apply mem_ok_probeIdx. }
  { simpl. lia. }
  { change (candFrom (set_probeIdx a m)) with (candFrom m). simpl.
    rewrite Hrest, length_app. lia. }
  change (set_probeIdx a (set_probeIdx i m)) with (set_probeIdx a m).
  change (objAt (set_probeIdx i m)) with (objAt m).
  change (candFrom (set_probeIdx a m)) with (candFrom m) in E'. simpl probeIdx in E'.
  change (objAt (set_probeIdx a m)) with (objAt m) in E'.
  rewrite Hrest, take_app_length in E'. rewrite E'. cbn [obind]. exists i'.
  unfold probeableAt in Hp. rewrite omap_app. cbn [omap list_omap].
  by destruct (objAt m a).
Qed.

(** The candidates are the members that are not to be skipped. *)
Lemma omap_index {A B} (f : A -> option B) (l : list A) :
  omap f l = omap (fun i => l !! Z.to_nat i ≫= f) (seqZ 0 (len l)).
Proof.
  induction l as [|x l IH] using rev_ind; [done|].
  rewrite length_app. simpl length. rewrite Nat2Z.inj_add.
  rewrite seqZ_app by lia. rewrite !omap_app, IH. f_equal.
  - apply omap_ext_in. intros i Hi%elem_of_seqZ.
    rewrite lookup_app_l by lia. done.
  - rewrite seqZ_cons, seqZ_nil by lia. simpl.
    rewrite lookup_app_r by lia. by replace (_ - _)%nat with 0%nat by lia.
Qed.

Lemma omap_filter {A B} (f : A -> option B) (g : B -> bool) (l : list A) :
  omap f (List.filter (fun x => match f x with Some y => g y | None => false end) l)
  = List.filter g (omap f l).
Proof.
  induction l as [|x l IH]; [done|]. unfold omap in *. simpl.
  destruct (f x) as [y|] eqn:E; [|done].
  simpl. destruct (g y); simpl; rewrite ?E, IH; done.
Qed.

Lemma objAt_index m i :
  0 <= i -> objAt m i = nodes m !! Z.to_nat i ≫= fun p => store m !! p.
Proof.
  intros Hi. unfold objAt, nodeAt. zcmp.
  destruct (nodes m !! Z.to_nat i) as [p|]; [|done]. simpl. by destruct (store m !! p).
Qed.

Lemma candidates m :
  omap (objAt m) (candFrom m 0) = List.filter (fun n => negb (skipProbe m n)) (objects m).
Proof.
  unfold candFrom, probeableAt, objects. rewrite omap_filter, (omap_index (fun p => store m !! p) (nodes m)).
  rewrite Z.sub_0_r. f_equal. apply omap_ext_in. intros i Hi%elem_of_seqZ. apply objAt_index. lia.
Qed.

(** Wherever the index stands, a round probes every candidate once. *)
Lemma round_robin m :
  mem_ok m -> -1 <= probeIdx m ->
  let cands := List.filter (fun n => negb (skipProbe m n)) (objects m) in
  exists ns i, probes (length cands) m = Ret (ns, set_probeIdx i m) /\ ns ≡ₚ cands.
Proof.
  intros Hm Hi cands. destruct (candFrom_split m (probeIdx m + 1)) as [bs Hbs]; [lia|].
  destruct (probes_round m bs Hm Hi Hbs) as [i E].
  assert (length cands = length (candFrom m 0)) as ->.
  { unfold cands. rewrite <- candidates. apply omap_full.
    intros j Hj. unfold candFrom in Hj. rewrite list_elem_of_In in Hj.
    apply filter_In in Hj as [_ Hj]. unfold probeableAt in Hj. by destruct (objAt m j). }
  eexists _, i. split; [exact E|]. unfold cands. rewrite <- candidates, Hbs.
  rewrite !omap_app. apply Permutation_app_comm.
Qed.

End Probe.

(** ** Members and random picks *)

Section Pick.
Context {HO : HeapOps TransmitCapItem} {CO : Codec}.
Implicit Types m : Memberlist.

Lemma derefs_Ret m ps :
  (forall p, p ∈ ps -> is_Some (store m !! p)) ->
  derefs m ps = Ret (omap (fun p => store m !! p) ps).
Proof.
  induction ps as [|p ps IH]; intros H; [done|]. cbn [derefs].
  destruct (H p) as [n Hn]; [by left|]. rewrite Hn, IH by (intros q Hq; apply H; by right).
  cbn [obind]. unfold omap. simpl. by rewrite Hn.
Qed.

Lemma derefs_objects m : mem_ok m -> derefs m (nodes m) = Ret (objects m).
Proof.
  intros Hm. apply derefs_Ret. intros p (n & Hn & _)%(ok_nodes _ Hm). eauto.
Qed.

Lemma elem_of_objects m n : mem_ok m -> n ∈ objects m <-> view m !! nid n = Some n.
Proof.
  intros Hm. unfold objects. rewrite list_elem_of_omap, lookup_view. split.
  - intros (p & Hp & Hn). destruct (ok_nodes _ Hm p Hp) as (n' & Hn' & Hid).
    assert (n' = n) as -> by congruence. by rewrite Hid.
  - destruct (nodeMap m !! nid n) as [p|] eqn:E; [|done]. intros Hn. exists p.
    by destruct (ok_map _ Hm _ _ E).
Qed.

Lemma NoDup_omap_nid m ps :
  NoDup ps ->
  (forall p, p ∈ ps -> exists n, store m !! p = Some n /\ nodeMap m !! nid n = Some p) ->
  NoDup (map nid (omap (fun p => store m !! p) ps)).
Proof.
  unfold omap. induction 1 as [|p ps Hp Hnd IH]; intros H; [constructor|].
  simpl. destruct (H p) as (n & Hn & Hid); [by left|]. rewrite Hn. simpl. constructor.
  - intros (k & Hk & Hin)%list_elem_of_fmap.
    apply list_elem_of_omap in Hin as (q & Hq & Hqk).
    destruct (H q) as (k' & Hk' & Hid'); [by right|]. congruence.
  - apply IH. intros q Hq. apply H. by right.
Qed.

Lemma objects_NoDup m : mem_ok m -> NoDup (map nid (objects m)).
Proof.
  intros Hm. apply NoDup_omap_nid; [apply (ok_nodup _ Hm)|apply (ok_nodes _ Hm)].
Qed.

(** Every member has one place in the list. *)
Lemma size_view m : mem_ok m -> length (nodes m) = size (view m).
Proof.
  intros Hm. rewrite <- (omap_full (fun p => store m !! p) (nodes m))
    by (intros p (n & Hn & _)%(ok_nodes _ Hm); eauto).
  fold (objects m).
  assert (view m = list_to_map (map (fun n => (nid n, n)) (objects m))) as ->.
  { apply map_eq. intros x. apply option_eq. intros n.
    rewrite <- elem_of_list_to_map by (rewrite <- list_fmap_compose; by apply objects_NoDup).
    rewrite list_elem_of_fmap. split.
    - intros Hx. exists n. pose proof (view_nid _ _ _ Hm Hx) as Hid.
      split; [congruence|]. apply elem_of_objects; [done|]. congruence.
    - intros (k & [= -> ->] & Hk). by apply elem_of_objects. }
  rewrite <- length_map_to_list, map_to_list_to_map
    by (rewrite <- list_fmap_compose; by apply objects_NoDup).
  by rewrite length_map.
Qed.

Lemma NoDup_filter_map {A B} (f : A -> B) (g : A -> bool) l :
  NoDup (map f l) -> NoDup (map f (List.filter g l)).
Proof.
  induction l as [|x l IH]; simpl; [done|]. intros [Hx Hl]%NoDup_cons.
  destruct (g x); [|auto]. simpl. constructor; [|auto].
  intros (y & Hy & Hin)%list_elem_of_fmap. apply Hx. apply list_elem_of_fmap. exists y.
  split; [done|]. rewrite list_elem_of_In in *. by apply filter_In in Hin as [? _].
Qed.

Lemma randIntN_lt r n : (0 < n)%nat -> Z.of_nat n < 2 ^ 32 -> (randIntN r n < n)%nat.
Proof.
  intros Hn H32. unfold randIntN. rewrite (proj2 (Nat.eqb_neq _ _)) by lia.
  rewrite u32_small by lia. pose proof (Z.mod_pos_bound r (Z.of_nat n)). lia.
Qed.

Lemma pickNodes_spec k m accept r num picked :
  mem_ok m -> (0 < k -> 0 < length (nodes m))%nat -> len (nodes m) < 2 ^ 32 ->
  NoDup (map nid picked) ->
  Forall (fun n => n ∈ objects m /\ exists i, accept i n = true) picked ->
  len picked <= num ->
  exists ns, pickNodes k m accept r num picked = Ret ns /\ NoDup (map nid ns) /\
    Forall (fun n => n ∈ objects m /\ exists i, accept i n = true) ns /\ len ns <= num.
Proof.
  intros Hm. revert picked. induction k as [|k IH]; intros picked Hk H32 Hnd Hall Hlen.
  { exists picked. done. }
  cbn [pickNodes]. destruct (Z.ltb_spec (len picked) num) as [Hlt|]; [|by exists picked].
  assert (randIntN (r k) (length (nodes m)) < length (nodes m))%nat as Hidx.
  { apply randIntN_lt; lia. }
  destruct (nodeAt_Ret m (Z.of_nat (randIntN (r k) (length (nodes m)))) Hm)
    as (n & p & -> & Hp & Hn); [lia|]. cbn [obind].
  destruct (accept k n) eqn:Ha; cbn [negb]; [|by apply IH; auto with lia].
  destruct (existsb _ picked) eqn:Ex; [by apply IH; auto with lia|].
  apply IH; [lia|done|..].
  - rewrite map_app. simpl. apply NoDup_app. split_and!; [done| |apply NoDup_singleton].
    intros x Hx ->%list_elem_of_singleton. apply list_elem_of_fmap in Hx as (q & Hq & Hin).
    rewrite <- not_true_iff_false in Ex. apply Ex, existsb_exists. exists q.
    split; [by apply list_elem_of_In|]. by apply bool_decide_eq_true.
  - apply Forall_app. split; [done|]. apply Forall_singleton. split; [|eauto].
    apply list_elem_of_omap. exists p. split; [by eapply list_elem_of_lookup_2|done].
  - rewrite length_app. simpl. lia.
Qed.

(** A random pick: distinct members that the caller accepts, no more than
    asked for. *)
Lemma pickRandomNodes_spec m r num accept :
  mem_ok m -> len (nodes m) < 2 ^ 32 -> 0 <= num ->
  exists ns, pickRandomNodes m r num accept = Ret ns /\ NoDup (map nid ns) /\
    Forall (fun n => n ∈ objects m /\ exists i, accept i n = true) ns /\ len ns <= num.
Proof.
  intros Hm H32 Hn. unfold pickRandomNodes. zcmp.
  apply pickNodes_spec; try done; [lia|constructor].
Qed.

End Pick.
