(* ===== verification/Lifecycle.v ===== *)
(** * The life of a node ([memberlist.go])

    Creation, announcement, change of tags, departure and shutdown of the
    local node. The error of a call is [None] for nil. [sent] says whether
    the broadcast a call waits for goes out before the timeout, [ch] is the
    channel it makes for that. *)

From S2P Require Import Prelude Types Interfaces Awareness Suspicion Broadcast Config NetAddr Spec State StateFacts Maintenance MaintenanceFacts.
From Stdlib Require Import Strings.Byte.

Definition TagMaxSize : Z := 512.
Definition ErrMaxTagSizeExceed : string := "max tag size exceeds".

Section Lifecycle.
Context {HO : HeapOps TransmitCapItem} {CO : Codec}.

(** The fields [Build] sets. *)
Definition newMemberlist (c : Cfg.Config) (ch : bool) : Memberlist :=
  mkMemberlist c 0 (newAwareness (Cfg.MaxAwarenessHealth c)) false false
    (NewBroadcastQueue (Cfg.RetransmitMult c)) ch [] ∅ [] ∅ 0 ∅ ∅ [] (-1).

Definition setAlive (m : Memberlist) (e : Env) : option string * Memberlist :=
  if TagMaxSize <? len (Cfg.Tags (config m)) then (Some ErrMaxTagSizeExceed, m)
  else
    match GetAdvertiseAddr (config m) with
    | None => (Some "failed to parse advertise address", m)
    | Some (addr, port) =>
        let l := nextLiveNo (lives m) in
        let m := set_lives l m in
        (None, aliveNode m (mkAlive l (selfID m) addr port (Cfg.Tags (config m))) None e)
    end.

(** The wait for a broadcast to go out, if there is anyone to hear it. *)
Definition waitBroadcast (m : Memberlist) (sent : bool) (what : string)
    : outcome (option string * Memberlist) :=
  let! active := hasActivePeers m in
  if negb active || (Cfg.BroadcastWaitTimeout (config m) =? 0) then Ret (None, m)
  else Ret (if sent then None else Some what, m).

Definition Leave (m : Memberlist) (ch : Z) (sent : bool) (e : Env)
    : outcome (option string * Memberlist) :=
  if shutdown m then Panic
  else if left m then Ret (None, m)
  else
    let m := set_left true m in
    match getNode m (selfID m) with
    | None => Ret (None, m)
    | Some (_, n) =>
        let! m := deadNode m (mkDead (Lives n) (ID (node n)) true) (Some ch) e in
        waitBroadcast m sent "timeout waiting for leave broadcast"
    end.

Definition UpdateTags (m : Memberlist) (tags : list byte) (ch : Z) (sent : bool) (e : Env)
    : outcome (option string * Memberlist) :=
  if TagMaxSize <? len tags then Ret (Some ErrMaxTagSizeExceed, m)
  else
    match getNode m (selfID m) with
    | None => Panic   (* node.Node of a nil node *)
    | Some (_, n) =>
        let l := nextLiveNo (lives m) in
        let m := set_lives l m in
        let a := mkAlive l (selfID m) (IP (node n)) (Port (node n)) tags in
        let m := aliveNode m a (Some ch) e in
        waitBroadcast m sent "timeout waiting for update broadcast"
    end.

Definition Shutdown (m : Memberlist) : Memberlist :=
  if shutdown m then m else set_shutdown true m.

(** ** What they do *)

Implicit Types m : Memberlist.

Lemma inv_newMemberlist c ch : inv (newMemberlist c ch).
Proof.
  split.
  - split; simpl; [done|by intros p []%not_elem_of_nil|constructor|done].
  - split; [simpl; lia|]. intros x n. rewrite lookup_view. done.
  - split; [done|]. intros x n. by rewrite lookup_view.
  - intros n. by rewrite lookup_view.
  - constructor.
Qed.

(** The counter and the flags may change under the invariant. *)
Lemma inv_set_lives m l : inv m -> 0 <= l < 2 ^ 32 -> inv (set_lives l m).
Proof.
  intros [Hm [_ HL] [H1 H2] Hloc Ht] Hl. split; try done. by apply (mem_ok_frame m).
Qed.

Lemma inv_set_left m : inv m -> inv (set_left true m).
Proof.
  intros [Hm Hl [H1 H2] Hloc Ht]. split; try done; [by apply (mem_ok_frame m)|].
  intros n Hn. split; [by apply Hloc|done].
Qed.

Lemma inv_Shutdown m : inv m -> inv (Shutdown m).
Proof. intros H. unfold Shutdown. destruct (shutdown m); [done|]. by apply (inv_core m). Qed.

Lemma hasActivePeers_Ret m : mem_ok m -> exists b, hasActivePeers m = Ret b.
Proof. intros Hm. unfold hasActivePeers. rewrite derefs_objects by done. eauto. Qed.

Lemma waitBroadcast_Ret m sent what :
  mem_ok m -> exists err, waitBroadcast m sent what = Ret (err, m).
Proof.
  intros Hm. unfold waitBroadcast. destruct (hasActivePeers_Ret m Hm) as [b ->].
  cbn [obind]. case_match; eauto.
Qed.

Lemma nextLiveNo_range l : 0 <= nextLiveNo l < 2 ^ 32.
Proof. apply u32_range. Qed.

Lemma setAlive_inv m e : inv m -> inv (setAlive m e).2.
Proof.
  intros H. unfold setAlive. repeat case_match; simpl; try done.
  apply aliveNode_inv; [|apply nextLiveNo_range].
  apply inv_set_lives; [done|apply nextLiveNo_range].
Qed.

(** The local node after [Leave]. *)
Lemma Leave_Left m ch sent e p n :
  inv m -> shutdown m = false -> left m = false ->
  getNode m (selfID m) = Some (p, n) ->
  exists err m', Leave m ch sent e = Ret (err, m') /\ inv m' /\ left m' = true /\
    view m' = <[ selfID m := mkNodeState (node n) (Lives n) StateLeft (now e) ]> (view m).
Proof.
  intros Hinv Hsd Hle E. unfold Leave. rewrite Hsd, Hle.
  change (selfID (set_left true m)) with (selfID m).
  change (getNode (set_left true m) (selfID m)) with (getNode m (selfID m)). rewrite E.
  pose proof Hinv as [Hm Hl Hs Hloc Ht].
  assert (view m !! selfID m = Some n) as Hv by by rewrite getNode_view, E.
  pose proof (getNode_nid _ _ _ _ Hm E) as Hid. unfold nid in Hid.
  set (d := mkDead (Lives n) (ID (node n)) true).
  pose proof (inv_set_left m Hinv) as Hinv1.
  destruct (deadNode_refines (set_left true m) d (Some ch) e Hinv1)
    as (m' & -> & Hi & Hv' & _ & Hle').
  { split; [by apply (proj2 Hl (selfID m))|done]. }
  cbn [obind]. destruct (waitBroadcast_Ret m' sent "timeout waiting for leave broadcast"
    (inv_mem _ Hi)) as [err ->].
  exists err, m'. split_and!; try done. rewrite Hv'. unfold spec_dead. simpl d_ID.
  change (view (set_left true m)) with (view m). rewrite Hid, Hv.
  destruct (Hloc n Hv) as [_ Hal]. simpl. rewrite Z.ltb_irrefl.
  unfold DeadOrLeft. rewrite (Hal Hle). simpl.
  rewrite bool_decide_eq_true_2 by done. done.
Qed.

Lemma Leave_inv m ch sent e :
  inv m -> shutdown m = false -> exists r, Leave m ch sent e = Ret r /\ inv r.2.
Proof.
  intros Hinv Hsd. destruct (left m) eqn:Hle.
  - exists (None, m). unfold Leave. by rewrite Hsd, Hle.
  - destruct (getNode m (selfID m)) as [[p n]|] eqn:E.
    + destruct (Leave_Left m ch sent e p n) as (err & m' & ? & ? & _); try done.
      by exists (err, m').
    + exists (None, set_left true m). unfold Leave. rewrite Hsd, Hle.
      change (getNode (set_left true m) (selfID (set_left true m)))
        with (getNode m (selfID m)).
      rewrite E. split; [done|]. by apply inv_set_left.
Qed.

(** [UpdateTags] of a member that knows itself returns. *)
Lemma UpdateTags_view m tags ch sent e p n :
  inv m -> getNode m (selfID m) = Some (p, n) -> len tags <= TagMaxSize ->
  exists err m', UpdateTags m tags ch sent e = Ret (err, m') /\ inv m' /\
    lives m' = nextLiveNo (lives m) /\
    view m' = spec_alive (selfID m) (left m) (IPAllowed (config m) (IP (node n)))
                (mkAlive (nextLiveNo (lives m)) (selfID m) (IP (node n)) (Port (node n)) tags)
                (now e) (view m).
Proof.
  intros Hinv E Htags. unfold UpdateTags. zcmp.
  rewrite E. cbv zeta.
  set (m1 := set_lives _ m). set (a := mkAlive _ _ _ _ _).
  pose proof (nextLiveNo_range (lives m)) as Hr.
  assert (inv m1) as Hinv1 by by apply inv_set_lives.
  assert (inv (aliveNode m1 a (Some ch) e)) as Hinv2 by by apply aliveNode_inv.
  destruct (waitBroadcast_Ret (aliveNode m1 a (Some ch) e) sent
    "timeout waiting for update broadcast" (inv_mem _ Hinv2)) as [err ->].
  eexists err, _. split_and!; [reflexivity|done| |].
  - pose proof (aliveNode_cases m1 a (Some ch) e) as Hc.
    assert (forall m', core (aliveNode m1 a (Some ch) e) = core m' ->
      lives (aliveNode m1 a (Some ch) e) = lives m') as Hlv
      by (intros m' Hm'; unfold core in Hm'; by injection Hm').
    repeat case_match; apply Hlv in Hc; rewrite Hc; done.
  - rewrite aliveNode_view by apply Hinv1. done.
Qed.

End Lifecycle.
