(* ===== verification/System.v ===== *)
(** * Runs of a node

    Everything that can happen to the member list of a node, as an action;
    [exec] runs the code of the action, and [step] relates the states before
    and after one that the environment may choose. The interleaving of
    message handlers, timers, the goroutines they start, maintenance and API
    calls is an arbitrary sequence of actions. *)

From S2P Require Import Prelude Types Interfaces Awareness Suspicion Broadcast BroadcastFacts Config NetAddr Spec State StateFacts Maintenance MaintenanceFacts Lifecycle.
From Stdlib Require Import Strings.Byte.

Section System.
Context {HO : HeapOps TransmitCapItem} {CO : Codec}.
Implicit Types m : Memberlist.

Inductive action :=
| ActAlive (a : alive) (nt : option Z) (e : Env)
| ActAliveLate (a : alive) (nt : option Z) (e : Env)
    (* [aliveNode] whose tests were made some time before, until it releases
       the mutex; the rest is a task *)
| ActSuspect (s : suspect) (e : Env)
| ActDead (d : dead) (nt : option Z) (e : Env)
| ActExpire (sl : loc) (e : Env)
| ActRunTask (i : nat) (e : Env)
| ActReap (clock r : nat -> Z)
| ActProbe
| ActGossip (encryption : bool) (ub : option (Z -> Z -> list (list byte))) (clock r : nat -> Z)
| ActPiggyback (ub : option (Z -> Z -> list (list byte))) (overhead limit : Z)
    (* gossip that travels with a ping, an acknowledgement or their relay *)
| ActSetAlive (e : Env)
| ActUpdateTags (tags : list byte) (ch : Z) (sent : bool) (e : Env)
| ActLeave (ch : Z) (sent : bool) (e : Env)
| ActLeaveFlag   (* [Leave] up to its call of [deadNode] *)
| ActNextLiveNo   (* [UpdateTags] up to its call of [aliveNode] *)
| ActPunish (delta : Z)
| ActShutdown.

Definition aliveLate m (a : alive) (nt : option Z) (e : Env) : Memberlist :=
  let '(m, ds) := aliveLocked m a nt e in set_tasks (tasks m ++ [AliveDeferred ds]) m.

Definition exec m (a : action) : outcome Memberlist :=
  match a with
  | ActAlive a nt e => Ret (aliveNode m a nt e)
  | ActAliveLate a nt e => Ret (aliveLate m a nt e)
  | ActSuspect s e => suspectNode m s e
  | ActDead d nt e => deadNode m d nt e
  | ActExpire sl e => Ret (expireTimer m sl e)
  | ActRunTask i e => runTask m i e
  | ActReap clock r => reap m clock r
  | ActProbe => outcome_map snd (nextProbeNode m)
  | ActGossip enc ub clock r => outcome_map snd (gossip m enc ub clock r)
  | ActPiggyback ub ov limit =>
      let! (_, q) := getBroadcasts (mbroadcasts m) ub (GetNumNodes m) ov limit in
      Ret (set_mbroadcasts q m)
  | ActSetAlive e => Ret (setAlive m e).2
  | ActUpdateTags tags ch sent e => outcome_map snd (UpdateTags m tags ch sent e)
  | ActLeave ch sent e => outcome_map snd (Leave m ch sent e)
  | ActLeaveFlag => Ret (set_left true m)
  | ActNextLiveNo => Ret (set_lives (nextLiveNo (lives m)) m)
  | ActPunish d => Ret (set_awr (Punish (awr m) d) m)
  | ActShutdown => Ret (Shutdown m)
  end.

(** What the environment may do: messages carry 32-bit numbers, [aliveNode]
    goes on after its tests only if the address passed them, and readings of
    the clock are bounded. Nothing else is excluded; a call that does not
    return ([mishap]) is no [step]. *)
Definition admissible m (a : action) : Prop :=
  match a with
  | ActAlive a _ _ => 0 <= a_Lives a < 2 ^ 32
  | ActAliveLate a _ _ => 0 <= a_Lives a < 2 ^ 32 /\ IPAllowed (config m) (a_IP a) = true
  | ActSuspect s _ => 0 <= s_Lives s < 2 ^ 32
  | ActDead d _ _ => 0 <= d_Lives d < 2 ^ 32
  | ActReap clock _ => exists lo hi, forall k, lo <= clock k <= hi
  | _ => True
  end.

(** The node holds itself for alive. *)
Definition own_alive m : bool :=
  match getNode m (selfID m) with
  | Some (_, n) => bool_decide (State n = StateAlive)
  | None => false
  end.

(** The actions that do not return, and what they do instead: no number is
    large enough to answer an accusation with the largest one ([refute] loops
    for ever); [UpdateTags] reads the own entry of a node that has none;
    [Leave] panics after [Shutdown]; [gossip] makes a slice of negative
    capacity, or asks for the overhead of an unknown encryption version. *)
Definition mishap m (a : action) : option (outcome Memberlist) :=
  match a with
  | ActSuspect s _ =>
      if bool_decide (s_ID s = selfID m) && (s_Lives s =? 2 ^ 32 - 1) && own_alive m
      then Some Hang else None
  | ActDead d _ _ =>
      if bool_decide (d_ID d = selfID m) && (d_Lives d =? 2 ^ 32 - 1) && own_alive m && negb (left m)
      then Some Hang else None
  | ActUpdateTags tags _ _ _ =>
      if (len tags <=? TagMaxSize) && bool_decide (view m !! selfID m = None)
      then Some Panic else None
  | ActLeave _ _ _ => if shutdown m then Some Panic else None
  | ActGossip encryption _ _ _ =>
      if (Cfg.GossipNodes (config m) <? 0) ||
         encryption && negb (Cfg.EncryptionVersion (config m) =? 0)
      then Some Panic else None
  | _ => None
  end.

Inductive step m m' : Prop :=
| step_intro a : admissible m a -> exec m a = Ret m' -> step m m'.

Definition reachable (c : Cfg.Config) (ch : bool) m : Prop :=
  rtc step (newMemberlist c ch) m.

(** ** The abstract transitions *)

(** What one step may do to the membership [M] of a node; [g] says whether
    it has left, and [g'] whether it had when an alive message was tested.
    [P] is the reaping predicate: which states may be removed. *)
Inductive spec_step (self : string) (P : nodeState -> Prop)
  : membership * bool -> membership * bool -> Prop :=
| spec_stutter M g : spec_step self P (M, g) (M, g)
| spec_left M g : spec_step self P (M, g) (M, true)
| spec_alive_step M g g' allowed a now :
    (g' = true -> g = true) ->
    spec_step self P (M, g) (spec_alive self g' allowed a now M, g)
| spec_suspect_step M g l s now :
    s_Lives s < l ->
    spec_step self P (M, g) (spec_suspect self l s now M, g)
| spec_dead_step M g l d now :
    d_Lives d < l ->
    spec_step self P (M, g) (spec_dead self g l d now M, g)
| spec_reap_step M M' g :
    M' ⊆ M -> (forall x n, M !! x = Some n -> M' !! x = None -> P n) ->
    spec_step self P (M, g) (M', g).

(** Only nodes that are dead or have left are ever removed. *)
Definition reapable (n : nodeState) : Prop := DeadOrLeft n = true.

(** ** Every action keeps the invariant and does an abstract transition *)

Lemma gossipLoop_core ub rem ns m sent r :
  gossipLoop m ub rem ns sent = Ret r -> core r.2 = core m.
Proof.
  revert m sent. induction ns as [|n ns IH]; intros m sent; cbn [gossipLoop].
  { by intros [= <-]. }
  intros ([msgs q] & _ & E)%obind_Ret_inv. destruct msgs as [|x msgs]; [by simplify_eq|].
  by apply IH in E.
Qed.

Lemma gossip_core m enc ub clock r res :
  gossip m enc ub clock r = Ret res -> core res.2 = core m.
Proof.
  unfold gossip. intros (ns & _ & E)%obind_Ret_inv.
  apply obind_Ret_inv in E as (rem & _ & E). by apply gossipLoop_core in E.
Qed.

Lemma nextProbeNode_core m r : nextProbeNode m = Ret r -> core r.2 = core m.
Proof. unfold nextProbeNode. intros ([i o] & _ & E)%obind_Ret_inv. by simplify_eq. Qed.

Lemma core_fields m m' :
  core m' = core m -> config m' = config m /\ left m' = left m /\ view m' = view m.
Proof.
  intros Hc. pose proof (core_view _ _ Hc). unfold core in Hc. by simplify_eq.
Qed.

Section Good.
Context (P : nodeState -> Prop).

(** What is to be shown of a step from [m] to [m']. *)
Definition good m m' : Prop :=
  inv m' /\ config m' = config m /\
  rtc (spec_step (selfID m) P) (view m, left m) (view m', left m').

Lemma good_core m m' : inv m -> core m' = core m -> good m m'.
Proof.
  intros Hinv Hc. destruct (core_fields _ _ Hc) as (Hcfg & Hle & Hv).
  split_and!; [by apply (inv_core m)|done|]. rewrite Hv, Hle. apply rtc_refl.
Qed.

Lemma good_trans m1 m2 m3 : good m1 m2 -> good m2 m3 -> good m1 m3.
Proof.
  intros (_ & Hc & H12) (Hi & Hc' & H23). split_and!; [done|congruence|].
  etrans; [exact H12|]. unfold selfID in *. by rewrite <- Hc.
Qed.

#[local] Hint Resolve good_core nextLiveNo_range inv_set_lives inv_mem : mlist.

Lemma aliveNode_frame m a nt e :
  config (aliveNode m a nt e) = config m /\ left (aliveNode m a nt e) = left m.
Proof.
  pose proof (aliveNode_cases m a nt e) as Hc.
  assert (forall m', core (aliveNode m a nt e) = core m' ->
    config (aliveNode m a nt e) = config m' /\ left (aliveNode m a nt e) = left m') as H
    by (intros m' Hm'; unfold core in Hm'; by simplify_eq).
  repeat case_match; by apply H in Hc as [-> ->].
Qed.

Lemma aliveNode_good m m0 a nt e :
  inv m0 -> view m0 = view m -> config m0 = config m -> left m0 = left m ->
  0 <= a_Lives a < 2 ^ 32 -> good m (aliveNode m0 a nt e).
Proof.
  intros Hinv Hv Hc Hl Ha. destruct (aliveNode_frame m0 a nt e) as [E1 E2].
  split_and!; [by apply aliveNode_inv|congruence|].
  rewrite aliveNode_view by apply Hinv. rewrite E2, Hl, Hv.
  replace (selfID m0) with (selfID m) by (unfold selfID; congruence).
  apply rtc_once. by constructor.
Qed.

Lemma aliveBody_frame m a nt e :
  config (aliveBody m a nt e) = config m /\ left (aliveBody m a nt e) = left m.
Proof.
  pose proof (aliveBody_cases m a nt e) as Hc.
  assert (forall m', core (aliveBody m a nt e) = core m' ->
    config (aliveBody m a nt e) = config m' /\ left (aliveBody m a nt e) = left m') as H
    by (intros m' Hm'; unfold core in Hm'; by simplify_eq).
  repeat case_match; by apply H in Hc as [-> ->].
Qed.

Lemma aliveBody_good m a nt e :
  inv m -> 0 <= a_Lives a < 2 ^ 32 -> good m (aliveBody m a nt e).
Proof.
  intros Hinv Ha. destruct (aliveBody_frame m a nt e) as [E1 E2].
  split_and!; [by apply aliveBody_inv|done|].
  rewrite aliveBody_view by apply Hinv. rewrite E2. apply rtc_once. by constructor.
Qed.

Lemma aliveLate_core m a nt e :
  core (aliveLate m a nt e) =
  core (set_tasks (tasks (aliveBody m a nt e) ++ [AliveDeferred (aliveLocked m a nt e).2])
          (aliveBody m a nt e)).
Proof.
  unfold aliveLate. pose proof (core_aliveBody m a nt e) as Hc.
  destruct (aliveLocked m a nt e) as [m1 ds]. unfold core in *. simpl in *. injection Hc. intros. congruence.
Qed.

Lemma aliveLate_good m a nt e :
  inv m -> 0 <= a_Lives a < 2 ^ 32 -> good m (aliveLate m a nt e).
Proof.
  intros Hinv Ha. pose proof (aliveBody_good m a nt e Hinv Ha) as Hg.
  apply (good_trans _ (aliveBody m a nt e)); [done|]. destruct Hg as (Hi & _ & _).
  set (mb := aliveBody m a nt e) in *. pose proof (aliveLate_core m a nt e) as Hc. fold mb in Hc.
  set (m2 := set_tasks _ mb) in Hc.
  assert (inv m2) as Hi2 by (apply inv_tasks_sub; [done|]; apply Forall_app_2; [apply Hi|by constructor]).
  destruct (core_fields _ _ Hc) as (Hcfg & Hle & Hv).
  split_and!; [by apply (inv_core m2)|done|]. rewrite Hv, Hle. apply rtc_refl.
Qed.

Lemma suspectNode_good m s e :
  inv m -> fine_suspect m s -> exists m', suspectNode m s e = Ret m' /\ good m m'.
Proof.
  intros Hinv Hs. destruct (suspectNode_refines m s e Hinv Hs) as (m' & E & Hi & Hv & Hc & Hl).
  exists m'. unfold good. split_and!; try done. rewrite Hv, Hl.
  destruct (decide (s_ID s = selfID m)) as [Hx|Hx].
  - apply rtc_once. constructor. apply refuteValue_range. destruct Hs as [? H]. auto with lia.
  - rewrite (spec_suspect_other _ _ (s_Lives s + 1)) by done.
    apply rtc_once. constructor. lia.
Qed.

Lemma deadNode_good m d nt e :
  inv m -> fine_dead m d -> exists m', deadNode m d nt e = Ret m' /\ good m m'.
Proof.
  intros Hinv Hd. destruct (deadNode_refines m d nt e Hinv Hd) as (m' & E & Hi & Hv & Hc & Hl).
  exists m'. unfold good. split_and!; try done. rewrite Hv, Hl.
  destruct (decide (d_ID d = selfID m /\ left m = false)) as [[Hx Hle]|Hx].
  - apply rtc_once. constructor. apply refuteValue_range. destruct Hd as [? H]. auto with lia.
  - rewrite (spec_dead_other _ _ _ (d_Lives d + 1)) by (destruct (left m); tauto).
    apply rtc_once. constructor. lia.
Qed.

(** An accusation with the largest number. *)
Lemma refute_max m p n : refute m p n (2 ^ 32 - 1) = Hang.
Proof. unfold refute. by rewrite refuteLoop_forever by apply u32_range. Qed.

Lemma suspect_cases m s e :
  inv m -> 0 <= s_Lives s < 2 ^ 32 ->
  if mishap m (ActSuspect s e) is Some o then suspectNode m s e = o
  else fine_suspect m s \/ suspectNode m s e = Ret m.
Proof.
  intros Hinv Hs. simpl. destruct (decide (s_ID s = selfID m)) as [Hx|Hx].
  2:{ rewrite bool_decide_eq_false_2 by done. simpl. left. by split. }
  rewrite bool_decide_eq_true_2 by done. destruct (Z.eqb_spec (s_Lives s) (2 ^ 32 - 1)) as [Hl|Hl].
  2:{ simpl. left. split; [done|lia]. }
  simpl. unfold own_alive, suspectNode. rewrite Hx.
  destruct (getNode m (selfID m)) as [[p n]|] eqn:E; [|by right].
  assert (view m !! selfID m = Some n) as Hv by by rewrite getNode_view, E.
  pose proof (proj2 (inv_lives _ Hinv) _ _ Hv) as HL. simpl in HL.
  destruct (inv_local _ Hinv n Hv) as [Hns _].
  rewrite (susp_none m (selfID m) (inv_susp _ Hinv)) by (intros k Hk; congruence).
  rewrite (proj2 (Z.ltb_ge _ _)) by lia.
  destruct (decide (State n = StateAlive)) as [Ha|Ha].
  - rewrite (bool_decide_eq_true_2 (State n = StateAlive)), (bool_decide_eq_false_2 (State n <> StateAlive)),
      (bool_decide_eq_true_2 (selfID m = selfID m)), Hl by (done || by intros []). apply refute_max.
  - rewrite (bool_decide_eq_false_2 (State n = StateAlive)), (bool_decide_eq_true_2 (State n <> StateAlive)) by done.
    by right.
Qed.

Lemma dead_cases m d nt e :
  inv m -> 0 <= d_Lives d < 2 ^ 32 ->
  if mishap m (ActDead d nt e) is Some o then deadNode m d nt e = o
  else fine_dead m d \/ deadNode m d nt e = Ret m.
Proof.
  intros Hinv Hd. simpl. destruct (decide (d_ID d = selfID m)) as [Hx|Hx].
  2:{ rewrite bool_decide_eq_false_2 by done. simpl. left. by split. }
  rewrite bool_decide_eq_true_2 by done. destruct (Z.eqb_spec (d_Lives d) (2 ^ 32 - 1)) as [Hl|Hl].
  2:{ simpl. left. split; [done|lia]. }
  destruct (left m) eqn:Hle; simpl.
  { rewrite andb_false_r. left. split; [done|congruence]. }
  rewrite andb_true_r. unfold own_alive, deadNode. rewrite Hx.
  destruct (getNode m (selfID m)) as [[p n]|] eqn:E; [|by right].
  assert (view m !! selfID m = Some n) as Hv by by rewrite getNode_view, E.
  pose proof (proj2 (inv_lives _ Hinv) _ _ Hv) as HL. simpl in HL.
  destruct (inv_local _ Hinv n Hv) as [_ Ha]. specialize (Ha Hle).
  unfold DeadOrLeft. rewrite (proj2 (Z.ltb_ge _ _)), Ha by lia. simpl.
  rewrite !bool_decide_eq_true_2, Hle by done. rewrite Hl. apply refute_max.
Qed.

Lemma suspectNode_Ret_good m s e m' :
  inv m -> 0 <= s_Lives s < 2 ^ 32 -> suspectNode m s e = Ret m' -> good m m'.
Proof.
  intros Hinv Hs E. pose proof (suspect_cases m s e Hinv Hs) as Hc. destruct (mishap _ _) as [o|] eqn:Em.
  { simpl in Em. case_match; [|done]. simplify_eq. congruence. }
  destruct Hc as [Hf|E']; [|rewrite E in E'; injection E' as ->; auto with mlist].
  destruct (suspectNode_good m s e Hinv Hf) as (k & E' & Hg). congruence.
Qed.

Lemma deadNode_Ret_good m d nt e m' :
  inv m -> 0 <= d_Lives d < 2 ^ 32 -> deadNode m d nt e = Ret m' -> good m m'.
Proof.
  intros Hinv Hs E. pose proof (dead_cases m d nt e Hinv Hs) as Hc. destruct (mishap _ _) as [o|] eqn:Em.
  { simpl in Em. case_match; [|done]. simplify_eq. congruence. }
  destruct Hc as [Hf|E']; [|rewrite E in E'; injection E' as ->; auto with mlist].
  destruct (deadNode_good m d nt e Hinv Hf) as (k & E' & Hg). congruence.
Qed.

Lemma good_set_left m : inv m -> good m (set_left true m).
Proof.
  intros Hinv. split_and!; [by apply inv_set_left|done|]. apply rtc_once. constructor.
Qed.

Lemma good_set_lives m l : inv m -> 0 <= l < 2 ^ 32 -> good m (set_lives l m).
Proof. intros Hinv Hl. split_and!; [by apply inv_set_lives|done|]. apply rtc_refl. Qed.

Lemma reap_good m clock r lo hi :
  inv m -> (forall n, reapable n -> P n) -> (forall k, lo <= clock k <= hi) ->
  exists m', reap m clock r = Ret m' /\ good m m'.
Proof.
  intros Hinv HP Hclk.
  destruct (reap_refines m clock r lo hi Hinv Hclk) as (m' & E & Hi & Hsub & Hstay & _ & Hc & Hl).
  exists m'. unfold good. split_and!; try done. rewrite Hl. apply rtc_once. constructor; [done|].
  intros x n Hx Hnone. apply HP. unfold reapable. destruct (DeadOrLeft n) eqn:Hd; [done|].
  rewrite (Hstay x n) in Hnone; [done..|]. unfold expired. by rewrite Hd.
Qed.

Lemma Leave_good m ch sent e :
  inv m -> shutdown m = false -> exists r, Leave m ch sent e = Ret r /\ good m r.2.
Proof.
  intros Hinv Hsd. unfold Leave. rewrite Hsd.
  destruct (left m) eqn:Hle; [eauto with mlist|].
  cbv zeta. set (m1 := set_left true m).
  pose proof (good_set_left m Hinv) as Hg. fold m1 in Hg. pose proof Hg as (Hi1 & _ & _).
  destruct (getNode m1 (selfID m1)) as [[p n]|] eqn:E; [|eexists; by split].
  destruct (deadNode_good m1 (mkDead (Lives n) (ID (node n)) true) (Some ch) e Hi1)
    as (m2 & -> & Hg2).
  { split; [|done]. apply (proj2 (inv_lives _ Hi1) (selfID m1)). by rewrite getNode_view, E. }
  cbn [obind]. destruct (waitBroadcast_Ret m2 sent "timeout waiting for leave broadcast")
    as [err ->]; [apply Hg2|].
  eexists. split; [done|]. by apply (good_trans _ m1).
Qed.

Lemma UpdateTags_good m tags ch sent e :
  inv m ->
  if mishap m (ActUpdateTags tags ch sent e) is Some _ then UpdateTags m tags ch sent e = Panic
  else exists r, UpdateTags m tags ch sent e = Ret r /\ good m r.2.
Proof.
  intros Hinv. simpl. unfold UpdateTags. rewrite Z.ltb_antisym.
  destruct (len tags <=? TagMaxSize); simpl; [|eauto with mlist].
  rewrite getNode_view. destruct (getNode m (selfID m)) as [[p k]|]; simpl; [|done].
  cbv zeta. set (m1 := set_lives _ m). set (a := mkAlive _ _ _ _ _).
  assert (good m (aliveNode m1 a (Some ch) e)) as Hg
    by (apply aliveNode_good; unfold m1, a; simpl; auto with mlist).
  destruct (waitBroadcast_Ret (aliveNode m1 a (Some ch) e) sent
    "timeout waiting for update broadcast") as [err ->]; [apply Hg|].
  eexists. by split.
Qed.

Lemma setAlive_good m e : inv m -> good m (setAlive m e).2.
Proof.
  intros Hinv. unfold setAlive. repeat case_match; auto with mlist.
  apply aliveNode_good; simpl; auto with mlist.
Qed.

Lemma runTask_good m i e : inv m -> exists m', runTask m i e = Ret m' /\ good m m'.
Proof.
  intros Hinv. destruct (runTask_refines m i e Hinv) as (m' & E & Hi & Hc & Hl & Hv).
  exists m'. unfold good. split_and!; try done. rewrite Hl.
  destruct Hv as [->|(d & l & _ & _ & Hlt & ->)]; [done|]. apply rtc_once. by constructor.
Qed.

Lemma nextProbeNode_Ret m : mem_ok m -> -1 <= probeIdx m -> exists r, nextProbeNode m = Ret r.
Proof. intros Hm Hi. rewrite nextProbeNode_spec by done. case_match; eauto. Qed.

Definition is_reap (a : action) : bool := match a with ActReap _ _ => true | _ => false end.

Lemma exec_good m a m' :
  inv m -> admissible m a -> (is_reap a = true -> forall n, reapable n -> P n) ->
  exec m a = Ret m' -> good m m'.
Proof.
  intros Hinv Ha HP. destruct a; simpl in *.
  - intros [= <-]. by apply aliveNode_good.
  - intros [= <-]. by apply aliveLate_good; [|apply Ha].
  - by apply suspectNode_Ret_good.
  - by apply deadNode_Ret_good.
  - intros [= <-]. destruct (expireTimer_inv m sl e Hinv) as [Hi Hv].
    destruct (expireTimer_frame m sl e) as [Hc Hl].
    split_and!; [done..|]. rewrite Hv, Hl. apply rtc_refl.
  - destruct (runTask_good m i e Hinv) as (k & -> & Hg). by intros [= <-].
  - destruct Ha as (lo & hi & Hclk).
    destruct (reap_good m clock r lo hi Hinv (HP eq_refl) Hclk) as (k & -> & Hg).
    by intros [= <-].
  - intros (r & E & [= <-])%obind_Ret_inv. by apply good_core, nextProbeNode_core.
  - intros (res & E & [= <-])%obind_Ret_inv. by eapply good_core, gossip_core.
  - intros ([b q] & E & [= <-])%obind_Ret_inv. by apply good_core.
  - intros [= <-]. by apply setAlive_good.
  - pose proof (UpdateTags_good m tags ch sent e Hinv) as Hu.
    case_match; [by rewrite Hu|]. destruct Hu as (k & -> & Hg). by intros [= <-].
  - destruct (shutdown m) eqn:Hsd; [unfold Leave; by rewrite Hsd|].
    destruct (Leave_good m ch sent e Hinv Hsd) as (k & -> & Hg). by intros [= <-].
  - intros [= <-]. by apply good_set_left.
  - intros [= <-]. apply good_set_lives; [done|apply nextLiveNo_range].
  - intros [= <-]. auto with mlist.
  - intros [= <-]. apply good_core; [done|]. unfold Shutdown. by destruct (shutdown m).
Qed.

(** The same for runs; [ok] restricts the actions. *)
Definition steps (ok : action -> bool) : relation Memberlist :=
  rtc (fun m m' => exists a, admissible m a /\ ok a = true /\ exec m a = Ret m').

Lemma steps_good ok m m' :
  (forall a, ok a = true -> is_reap a = true -> forall n, reapable n -> P n) ->
  inv m -> steps ok m m' -> good m m'.
Proof.
  intros HP Hinv Hs. revert Hinv.
  induction Hs as [m|m0 m1 m2 (a & Ha & Hok & E) _ IH]; intros Hinv.
  - auto with mlist.
  - assert (good m0 m1) as Hg by (apply (exec_good _ a); [done..|exact (HP a Hok)|done]).
    apply (good_trans _ m1); [done|]. apply IH, Hg.
Qed.

End Good.

(** ** Every action returns or fails as [mishap] says *)

Section Total.
Context {HL : HeapLaws TransmitCapItem HO}.

Lemma mishap_outcome m a o : mishap m a = Some o -> o = Hang \/ o = Panic.
Proof using. intros E. destruct a; simpl in E; try done; case_match; simplify_eq; auto. Qed.

(** What the actions that take messages from the broadcast queue need of it:
    its invariant, which [broadcast_queue_invariant] shows for every queue of
    fewer than [2 ^ 64] operations; and a list whose length [randIntN] can
    convert to 32 bits. *)
Definition queue_ready m (a : action) : Prop :=
  match a with
  | ActGossip _ _ _ _ => queue_ok (mbroadcasts m) /\ len (nodes m) < 2 ^ 32
  | ActPiggyback _ overhead _ => queue_ok (mbroadcasts m) /\ 0 <= overhead
  | _ => True
  end.

Lemma getBroadcasts_Ret q ub n ov limit :
  queue_ok q -> 0 <= ov ->
  exists msgs q', getBroadcasts q ub n ov limit = Ret (msgs, q') /\ queue_ok q'.
Proof using HL.
  intros Hq Hov. unfold getBroadcasts. case_match; [eauto|].
  destruct (GetMessages_full q n ov limit Hq Hov) as (pk & rest & q' & -> & _ & _ & _ & _ & Hok & _).
  cbn [obind]. case_match; eauto.
Qed.

Lemma gossipLoop_Ret m ub rem ns sent :
  queue_ok (mbroadcasts m) -> exists r, gossipLoop m ub rem ns sent = Ret r.
Proof using HL.
  revert m sent. induction ns as [|n ns IH]; intros m sent Hq; cbn [gossipLoop]; [eauto|].
  destruct (getBroadcasts_Ret (mbroadcasts m) ub (GetNumNodes m) lenMsgOverhead rem Hq)
    as (msgs & q & -> & Hq'); [by unfold lenMsgOverhead; lia|].
  cbn [obind]. destruct msgs as [|x msgs]; [eauto|]. by apply IH.
Qed.

Lemma gossip_total m enc ub clock r :
  inv m -> queue_ok (mbroadcasts m) -> len (nodes m) < 2 ^ 32 ->
  if mishap m (ActGossip enc ub clock r) is Some _ then gossip m enc ub clock r = Panic
  else exists res, gossip m enc ub clock r = Ret res.
Proof using HL.
  intros Hinv Hq H32. simpl. unfold gossip.
  destruct (Z.ltb_spec (Cfg.GossipNodes (config m)) 0) as [Hg|Hg]; simpl.
  { unfold pickRandomNodes. by rewrite (proj2 (Z.ltb_lt _ _)). }
  destruct (pickRandomNodes_spec m r _ (fun i => gossipTo m (clock i)) (inv_mem _ Hinv) H32 Hg)
    as (ns & -> & _). cbn [obind].
  destruct enc; simpl; [|by apply gossipLoop_Ret].
  unfold encryptOverhead. destruct (_ =? 0); simpl; [by apply gossipLoop_Ret|done].
Qed.

(** Messages, timers, maintenance and API calls, from every state that
    satisfies the invariant. *)
Lemma exec_total m a :
  inv m -> -1 <= probeIdx m -> admissible m a -> queue_ready m a ->
  if mishap m a is Some o then exec m a = o else exists m', exec m a = Ret m'.
Proof using HL.
  intros Hinv Hp Ha Hq. destruct a; cbn [admissible queue_ready exec] in *; try by eexists.
  - pose proof (suspect_cases m s e Hinv Ha) as Hc. destruct (mishap _ _); [done|].
    destruct Hc as [Hf| ->]; [|eauto].
    destruct (suspectNode_good reapable m s e Hinv Hf) as (k & -> & _). eauto.
  - pose proof (dead_cases m d nt e Hinv Ha) as Hc. destruct (mishap _ _); [done|].
    destruct Hc as [Hf| ->]; [|eauto].
    destruct (deadNode_good reapable m d nt e Hinv Hf) as (k & -> & _). eauto.
  - destruct (runTask_good reapable m i e Hinv) as (k & -> & _). simpl. eauto.
  - destruct Ha as (lo & hi & Hclk).
    destruct (reap_refines m clock r lo hi Hinv Hclk) as (k & -> & _). simpl. eauto.
  - destruct (nextProbeNode_Ret m (inv_mem _ Hinv) Hp) as [r ->]. simpl. eauto.
  - destruct Hq as [Hq H32]. pose proof (gossip_total m encryption ub clock r Hinv Hq H32) as Hg.
    destruct (mishap _ _) as [o|] eqn:Em.
    + rewrite Hg. simpl in Em. case_match; [|done]. by simplify_eq.
    + destruct Hg as [res ->]. simpl. eauto.
  - destruct Hq as [Hq Hov].
    destruct (getBroadcasts_Ret (mbroadcasts m) ub (GetNumNodes m) overhead limit Hq Hov)
      as (msgs & q & -> & _). simpl. eauto.
  - pose proof (UpdateTags_good reapable m tags ch sent e Hinv) as Hu.
    destruct (mishap _ _) as [o|] eqn:Em.
    + rewrite Hu. simpl in Em. case_match; [|done]. by simplify_eq.
    + destruct Hu as (r & -> & _). simpl. eauto.
  - simpl. destruct (shutdown m) eqn:Hsd; [unfold Leave; by rewrite Hsd|].
    destruct (Leave_good reapable m ch sent e Hinv Hsd) as (k & -> & _). simpl. eauto.
Qed.

End Total.

Lemma step_good m m' : inv m -> step m m' -> good reapable m m'.
Proof. intros Hinv [a Ha E]. by eapply exec_good. Qed.

Lemma reachable_steps c ch m : reachable c ch m <-> steps (fun _ => true) (newMemberlist c ch) m.
Proof.
  unfold reachable, steps. split; apply rtc_subrel.
  - intros x y [a Ha E]. by exists a.
  - intros x y (a & Ha & _ & E). by econstructor.
Qed.

Lemma reachable_good c ch m : reachable c ch m -> inv m /\ config m = c.
Proof.
  intros (? & ? & _)%reachable_steps%(steps_good reapable); [done|done|].
  apply inv_newMemberlist.
Qed.

(** ** The probe index *)

Lemma suspectNode_probeIdx m s e m' : suspectNode m s e = Ret m' -> probeIdx m' = probeIdx m.
Proof. unfold suspectNode, refute. intros E. repeat case_match; by simplify_eq. Qed.

Lemma deadNode_probeIdx m d nt e m' : deadNode m d nt e = Ret m' -> probeIdx m' = probeIdx m.
Proof.
  unfold deadNode, refute, NotifyLeave, send. intros E. repeat case_match; by simplify_eq.
Qed.

Lemma aliveLocked_probeIdx m a nt e : probeIdx (aliveLocked m a nt e).1 = probeIdx m.
Proof. rewrite aliveLocked_cases. by repeat case_match. Qed.

Lemma runDeferred_probeIdx e m d : probeIdx (runDeferred e m d) = probeIdx m.
Proof. destruct d; simpl; unfold NotifyUpdate, NotifyJoin, send; by repeat case_match. Qed.

Lemma aliveBody_probeIdx m a nt e : probeIdx (aliveBody m a nt e) = probeIdx m.
Proof.
  rewrite aliveBody_locked, <- (aliveLocked_probeIdx m a nt e).
  generalize (aliveLocked m a nt e).1. induction (aliveLocked m a nt e).2 as [|d ds IH];
    intros m1; simpl; [done|]. by rewrite IH, runDeferred_probeIdx.
Qed.

Lemma aliveLate_probeIdx m a nt e : probeIdx (aliveLate m a nt e) = probeIdx m.
Proof.
  unfold aliveLate. rewrite <- (aliveLocked_probeIdx m a nt e). by destruct (aliveLocked m a nt e).
Qed.

Lemma aliveNode_probeIdx m a nt e : probeIdx (aliveNode m a nt e) = probeIdx m.
Proof. rewrite aliveNode_body. destruct (_ || _); [done|]. apply aliveBody_probeIdx. Qed.

Lemma expireTimer_probeIdx m sl e : probeIdx (expireTimer m sl e) = probeIdx m.
Proof. unfold expireTimer. by repeat case_match. Qed.

Lemma runTask_probeIdx m i e m' : runTask m i e = Ret m' -> probeIdx m' = probeIdx m.
Proof.
  unfold runTask. intros E. repeat case_match; simplify_eq; try done.
  - by apply deadNode_probeIdx in E.
  - by rewrite runDeferred_probeIdx.
Qed.

Lemma reap_probeIdx m clock r m' : reap m clock r = Ret m' -> probeIdx m' = probeIdx m.
Proof.
  unfold reap. intros ([ns k] & _ & E)%obind_Ret_inv.
  apply obind_Ret_inv in E as (mp & _ & E). by simplify_eq.
Qed.

Lemma gossip_probeIdx m enc ub clock r res :
  gossip m enc ub clock r = Ret res -> probeIdx res.2 = probeIdx m.
Proof.
  unfold gossip. intros (ns & _ & E)%obind_Ret_inv.
  apply obind_Ret_inv in E as (rem & _ & E). revert E.
  generalize (@nil (UDPAddr * list byte)). revert m.
  induction ns as [|n ns IH]; intros m sent; cbn [gossipLoop]; [by intros [= <-]|].
  intros ([msgs q] & _ & E)%obind_Ret_inv. destruct msgs as [|x msgs]; [by simplify_eq|].
  by apply IH in E.
Qed.

Lemma waitBroadcast_same m sent what r : waitBroadcast m sent what = Ret r -> r.2 = m.
Proof.
  unfold waitBroadcast. intros (b & _ & E)%obind_Ret_inv. repeat case_match; by simplify_eq.
Qed.

Lemma Leave_probeIdx m ch sent e r : Leave m ch sent e = Ret r -> probeIdx r.2 = probeIdx m.
Proof.
  unfold Leave. intros E. repeat case_match; simplify_eq; try done.
  apply obind_Ret_inv in E as (m1 & E1 & E2).
  rewrite (waitBroadcast_same _ _ _ _ E2). by apply deadNode_probeIdx in E1.
Qed.

Lemma UpdateTags_probeIdx m tags ch sent e r :
  UpdateTags m tags ch sent e = Ret r -> probeIdx r.2 = probeIdx m.
Proof.
  unfold UpdateTags. intros E. repeat case_match; simplify_eq; try done.
  rewrite (waitBroadcast_same _ _ _ _ E). by rewrite aliveNode_probeIdx.
Qed.

(** Only [nextProbeNode] moves the index, and never below 0. *)
Lemma exec_probeIdx m a m' :
  mem_ok m -> -1 <= probeIdx m -> exec m a = Ret m' -> -1 <= probeIdx m'.
Proof.
  intros Hm Hp E. destruct a; simpl in E;
    try (injection E as <-);
    try (apply obind_Ret_inv in E as (res & E & [= <-])); try done.
  - by rewrite aliveNode_probeIdx.
  - by rewrite aliveLate_probeIdx.
  - by rewrite (suspectNode_probeIdx _ _ _ _ E).
  - by rewrite (deadNode_probeIdx _ _ _ _ _ E).
  - by rewrite expireTimer_probeIdx.
  - by rewrite (runTask_probeIdx _ _ _ _ E).
  - by rewrite (reap_probeIdx _ _ _ _ E).
  - rewrite nextProbeNode_spec in E by done.
    destruct (candFrom m (probeIdx m + 1) ++ candFrom m 0) as [|j js] eqn:Ec; simplify_eq/=.
    + lia.
    + destruct (candFrom m (probeIdx m + 1)) as [|j' js'] eqn:E1; simplify_eq/=.
      * apply candFrom_next in Ec as (? & _ & _). lia.
      * apply candFrom_next in E1 as (? & _ & _). lia.
  - by rewrite (gossip_probeIdx _ _ _ _ _ _ E).
  - apply obind_Ret_inv in E as ([? ?] & _ & [= <-]). done.
  - unfold setAlive. repeat case_match; simpl; try done. by rewrite aliveNode_probeIdx.
  - by rewrite (UpdateTags_probeIdx _ _ _ _ _ _ E).
  - by rewrite (Leave_probeIdx _ _ _ _ _ E).
  - unfold Shutdown. by case_match.
Qed.

Lemma reachable_probeIdx c ch m : reachable c ch m -> -1 <= probeIdx m.
Proof.
  intros Hr. assert (forall m0, rtc step m0 m -> inv m0 -> -1 <= probeIdx m0 ->
    -1 <= probeIdx m) as H.
  { clear Hr. intros m0 Hs. induction Hs as [|m0 m1 m2 [a Ha E] _ IH]; [done|].
    intros Hi Hp. apply IH.
    - eapply (step_good m0); [done|by econstructor].
    - eapply exec_probeIdx; [apply Hi|done..]. }
  apply (H _ Hr); [apply inv_newMemberlist|done].
Qed.

(** ** Without reaping, knowledge only advances *)

Lemma spec_steps_advance self A A' :
  rtc (spec_step self (fun _ => False)) A A' -> advances A.1 A'.1.
Proof.
  induction 1 as [A|A B C Hs _ IH]; [done|]. etrans; [|exact IH]. clear IH.
  destruct Hs; simpl; try done.
  - apply spec_alive_advances.
  - by apply spec_suspect_advances.
  - by apply spec_dead_advances.
  - intros x n Hx. destruct (M' !! x) as [k|] eqn:E; [|by destruct (H0 x n)].
    assert (k = n) as -> by (eapply lookup_weaken in E; [|done]; congruence).
    by exists n.
Qed.

(** ** The start of a node *)

Lemma aliveNode_lives m a nt e : lives (aliveNode m a nt e) = lives m.
Proof.
  pose proof (aliveNode_cases m a nt e) as Hcs.
  assert (forall m', core (aliveNode m a nt e) = core m' -> lives (aliveNode m a nt e) = lives m') as Hlv
    by (intros m' Hm'; unfold core in Hm'; by injection Hm').
  repeat case_match; apply Hlv in Hcs; by rewrite Hcs.
Qed.

(** The list of a node that has announced itself. *)
Lemma setAlive_fresh c ch e m :
  setAlive (newMemberlist c ch) e = (None, m) ->
  reachable c ch m /\ exists a p, GetAdvertiseAddr c = Some (a, p) /\ config m = c /\ lives m = 1 /\
    len (Cfg.Tags c) <= TagMaxSize /\
    view m = if IPAllowed c a
             then {[ Cfg.ID c := mkNodeState (mkNode (Cfg.ID c) a p (Cfg.Tags c)) 1 StateAlive (now e) ]}
             else ∅.
Proof.
  intros E. assert (m = (setAlive (newMemberlist c ch) e).2) as Hm by by rewrite E.
  split. { apply rtc_once. apply (step_intro _ _ (ActSetAlive e)); [done|]. by rewrite Hm. }
  unfold setAlive in E. simpl in E. destruct (Z.ltb_spec TagMaxSize (len (Cfg.Tags c))) as [|Ht]; [done|].
  destruct (GetAdvertiseAddr c) as [[a p]|]; [|done]. exists a, p. injection E as <-.
  set (m0 := set_lives _ _). set (al := mkAlive _ _ _ _ _).
  assert (mem_ok m0) as Hok by (apply inv_mem, inv_set_lives; [apply inv_newMemberlist|apply nextLiveNo_range]).
  destruct (aliveNode_frame m0 al None e) as [Hc _].
  pose proof (aliveNode_lives m0 al None e) as Hl.
  split_and!; try done. rewrite (aliveNode_view m0 al None e Hok).
  assert (view m0 = ∅) as Hv.
  { apply map_eq. intros x. rewrite lookup_empty. unfold m0. rewrite lookup_view. done. }
  unfold spec_alive. rewrite Hv. simpl. destruct (IPAllowed c a); simpl; [|done].
  rewrite lookup_empty. done.
Qed.

End System.
