(* ===== verification/Samples.v ===== *)
(** * A sample run

    A concrete node, with the list heap and the enumeration codec, at several
    points of a run: the states at which the theorems are instantiated. [n1]
    has announced itself, has heard of [n2], suspects it, and its suspicion
    timer has fired. *)

From S2P Require Import Prelude Types Interfaces Awareness Suspicion Broadcast Config NetAddr Spec State StateFacts Maintenance MaintenanceFacts Lifecycle System.
From Stdlib Require Import Strings.Byte.

#[local] Existing Instance item_heap.
#[local] Existing Instance bit_codec.

Definition named (id addr : string) : Cfg.Config := {|
  Cfg.ID := id;
  Cfg.BindAddr := Cfg.BindAddr DefaultLANConfig;
  Cfg.BindPort := Cfg.BindPort DefaultLANConfig;
  Cfg.AdvertiseAddr := addr;
  Cfg.AdvertisePort := Cfg.AdvertisePort DefaultLANConfig;
  Cfg.CIDRsAllowed := Cfg.CIDRsAllowed DefaultLANConfig;
  Cfg.Label := Cfg.Label DefaultLANConfig;
  Cfg.UDPBufferSize := Cfg.UDPBufferSize DefaultLANConfig;
  Cfg.DNSConfigPath := Cfg.DNSConfigPath DefaultLANConfig;
  Cfg.EnableCompression := Cfg.EnableCompression DefaultLANConfig;
  Cfg.EncryptionVersion := Cfg.EncryptionVersion DefaultLANConfig;
  Cfg.TcpTimeout := Cfg.TcpTimeout DefaultLANConfig;
  Cfg.NumIndirectChecks := Cfg.NumIndirectChecks DefaultLANConfig;
  Cfg.PingTimeout := Cfg.PingTimeout DefaultLANConfig;
  Cfg.ProbeInterval := Cfg.ProbeInterval DefaultLANConfig;
  Cfg.MaxRTT := Cfg.MaxRTT DefaultLANConfig;
  Cfg.GossipNodes := Cfg.GossipNodes DefaultLANConfig;
  Cfg.GossipInterval := Cfg.GossipInterval DefaultLANConfig;
  Cfg.DeadNodeExpiredTimeout := Cfg.DeadNodeExpiredTimeout DefaultLANConfig;
  Cfg.BroadcastWaitTimeout := Cfg.BroadcastWaitTimeout DefaultLANConfig;
  Cfg.EventTimeout := Cfg.EventTimeout DefaultLANConfig;
  Cfg.ReapInterval := Cfg.ReapInterval DefaultLANConfig;
  Cfg.MaxPushPulls := Cfg.MaxPushPulls DefaultLANConfig;
  Cfg.PushPullInterval := Cfg.PushPullInterval DefaultLANConfig;
  Cfg.MaxAwarenessHealth := Cfg.MaxAwarenessHealth DefaultLANConfig;
  Cfg.SuspicionMult := Cfg.SuspicionMult DefaultLANConfig;
  Cfg.SuspicionMaxTimeoutMult := Cfg.SuspicionMaxTimeoutMult DefaultLANConfig;
  Cfg.MaxLongRunQueueDepth := Cfg.MaxLongRunQueueDepth DefaultLANConfig;
  Cfg.QueueCheckInterval := Cfg.QueueCheckInterval DefaultLANConfig;
  Cfg.RetransmitMult := Cfg.RetransmitMult DefaultLANConfig;
  Cfg.Tags := Cfg.Tags DefaultLANConfig
|}.

Definition exCfg : Cfg.Config := named "n1" "10.0.0.1".

Definition at_ (t : Z) : Env := mkEnv t 7 (fun _ => true).
Definition ip2 : ip := map z2b [10; 0; 0; 2].
Definition al2 : alive := mkAlive 5 "n2" ip2 7946 [].
Definition su2 : suspect := mkSuspect 5 "n2" "n1".
Definition su1 : suspect := mkSuspect 4 "n1" "n2".

Definition w1 : Memberlist := (setAlive (newMemberlist exCfg true) (at_ 0)).2.
Definition w2 : Memberlist := aliveNode w1 al2 None (at_ 1).
Definition w3 : Memberlist :=
  match suspectNode w2 su2 (at_ 2) with Ret m => m | _ => w2 end.
Definition w4 : Memberlist := expireTimer w3 1%positive (at_ 100000000000).

Lemma reach_w1 : reachable exCfg true w1.
Proof. apply rtc_once. by apply (step_intro _ _ (ActSetAlive (at_ 0))). Qed.

Lemma reach_w2 : reachable exCfg true w2.
Proof.
  eapply rtc_r; [exact reach_w1|]. apply (step_intro _ _ (ActAlive al2 None (at_ 1))); [|done].
  simpl. lia.
Qed.

Lemma fine_su2 : fine_suspect w2 su2.
Proof. split; [simpl; lia|]. vm_compute. discriminate. Qed.

Lemma reach_w3 : reachable exCfg true w3.
Proof.
  eapply rtc_r; [exact reach_w2|].
  apply (step_intro _ _ (ActSuspect su2 (at_ 2))); [exact (proj1 fine_su2)|].
  vm_compute. reflexivity.
Qed.

Lemma reach_w4 : reachable exCfg true w4.
Proof.
  eapply rtc_r; [exact reach_w3|].
  by apply (step_intro _ _ (ActExpire 1%positive (at_ 100000000000))).
Qed.

Lemma w4_task : tasks w4 !! 0%nat = Some (TimeoutStart 1%positive).
Proof. vm_compute. reflexivity. Qed.

Definition n1w : nodeState :=
  mkNodeState (mkNode "n1" (map z2b (v4InV6Prefix ++ [10; 0; 0; 1])) 7946 []) 1 StateAlive 0.
Definition n2w : nodeState := mkNodeState (mkNode "n2" ip2 7946 []) 5 StateAlive 1.

Lemma w2_self : exists p, getNode w2 (selfID w2) = Some (p, n1w).
Proof. exists 1%positive. vm_compute. reflexivity. Qed.

Lemma w2_left : left w2 = false.
Proof. vm_compute. reflexivity. Qed.
Lemma w2_shutdown : shutdown w2 = false.
Proof. vm_compute. reflexivity. Qed.
Lemma w2_id : "n1" = selfID w2.
Proof. vm_compute. reflexivity. Qed.
Lemma w2_n1 : view w2 !! selfID w2 = Some n1w.
Proof. vm_compute. reflexivity. Qed.

(** [n2] comes back before the goroutine has made its test. *)
Definition w5 : Memberlist := aliveNode w4 (mkAlive 6 "n2" ip2 7946 []) None (at_ 100000000001).

Lemma reach_w5 : reachable exCfg true w5.
Proof.
  eapply rtc_r; [exact reach_w4|].
  apply (step_intro _ _ (ActAlive (mkAlive 6 "n2" ip2 7946 []) None (at_ 100000000001)));
    [simpl; lia|reflexivity].
Qed.

(** [n2] is declared dead at its number 5. *)
Definition wRace : Memberlist :=
  match deadNode w2 (mkDead 5 "n2" false) None (at_ 3) with Ret m => m | _ => w2 end.

Lemma reach_race : reachable exCfg true wRace.
Proof.
  eapply rtc_r; [exact reach_w2|].
  apply (step_intro _ _ (ActDead (mkDead 5 "n2" false) None (at_ 3))).
  - simpl. lia.
  - vm_compute. reflexivity.
Qed.

(** A second node, with an empty name, which knows [n1] at [Lives] 1. *)
Definition v1 : Memberlist :=
  aliveNode (newMemberlist DefaultLANConfig true)
    (mkAlive 1 "n1" (map z2b [10; 0; 0; 1]) 7946 []) None (at_ 0).

Lemma reach_v1 : reachable DefaultLANConfig true v1.
Proof.
  apply rtc_once.
  apply (step_intro _ _ (ActAlive (mkAlive 1 "n1" (map z2b [10; 0; 0; 1]) 7946 []) None (at_ 0)));
    [simpl; lia|reflexivity].
Qed.
