(* ===== verification/Membership.v ===== *)
(** * The membership protocol: main theorems

    What the code of a node guarantees about its member list, over every run
    of the transition system of [System]: the invariant, the refinement of the
    abstract rules of [Spec], monotonicity, refutation, timeouts, reaping,
    probing and departure. *)

From S2P Require Import Prelude Types Interfaces Awareness Suspicion Broadcast BroadcastFacts Config NetAddr Spec State StateFacts Maintenance MaintenanceFacts Lifecycle System Samples.
From Stdlib Require Import Strings.Byte.

Section Theorems.
Context {HO : HeapOps TransmitCapItem} {CO : Codec}.
Implicit Types m : Memberlist.

(** C1: in every reachable state the list, the map and the objects agree
    (same objects, each under its own name, once; the counter is their
    number), all [Lives] are 32-bit numbers, exactly the suspected nodes have
    a suspicion and it was taken at their present [Lives], the local node does
    not suspect itself and, until it leaves, believes itself alive, and timer
    goroutines refer to existing suspicions. From such a state every action
    (messages with any 32-bit number, timers, reaping, probing, gossip, API
    calls) returns in a reachable state with the same properties, except in
    the cases that [mishap] lists, in which it does not return but loops for
    ever or panics as [mishap] says: an accusation of the node with
    the largest [uint32], [UpdateTags] of a node that is not in its own list,
    [Leave] after [Shutdown], and gossip with a negative [GossipNodes] or an
    unknown encryption version. Gossip takes its messages from the broadcast
    queue and relies on its invariant ([queue_ready]). *)
Theorem reachable_invariant {HL : HeapLaws TransmitCapItem HO} c ch m :
  reachable c ch m ->
  inv m /\
  forall a, admissible m a -> queue_ready m a ->
    match mishap m a with
    | None => exists m', exec m a = Ret m' /\ inv m' /\ reachable c ch m'
    | Some o => exec m a = o /\ (o = Hang \/ o = Panic)
    end.
Proof.
  intros Hr. destruct (reachable_good c ch m Hr) as [Hinv _]. split; [done|].
  intros a Ha Hq. pose proof (reachable_probeIdx c ch m Hr) as Hp.
  pose proof (exec_total m a Hinv Hp Ha Hq) as Ht. destruct (mishap m a) as [o|] eqn:Em.
  - split; [done|]. by eapply mishap_outcome.
  - destruct Ht as [m' E]. exists m'. assert (step m m') as Hs by by econstructor.
    split_and!; [done|by apply (step_good m)|]. by eapply rtc_r.
Qed.

(** C2: the handlers of the three gossip messages implement the precedence
    rules of the membership protocol. On the abstraction of the pointer
    structure to a finite map, [aliveNode], [suspectNode] and [deadNode] act
    exactly as [spec_alive], [spec_suspect] and [spec_dead] say; the last two
    return for every message the local node can refute. *)
Theorem handlers_refine c ch m :
  reachable c ch m ->
  (forall a nt e,
     view (aliveNode m a nt e) =
       spec_alive (selfID m) (left m) (IPAllowed (config m) (a_IP a)) a (now e) (view m)) /\
  (forall s e, fine_suspect m s -> exists m',
     suspectNode m s e = Ret m' /\
     view m' = spec_suspect (selfID m) (refuteValue (s_Lives s) (lives m)) s (now e) (view m)) /\
  (forall d nt e, fine_dead m d -> exists m',
     deadNode m d nt e = Ret m' /\
     view m' = spec_dead (selfID m) (left m) (refuteValue (d_Lives d) (lives m)) d
                 (now e) (view m)).
Proof.
  intros Hr. destruct (reachable_good c ch m Hr) as [Hinv _]. split_and!.
  - intros a nt e. apply aliveNode_view, Hinv.
  - intros s e Hs. destruct (suspectNode_refines m s e Hinv Hs) as (m' & E & _ & Hv & _).
    by exists m'.
  - intros d nt e Hd. destruct (deadNode_refines m d nt e Hinv Hd) as (m' & E & _ & Hv & _).
    by exists m'.
Qed.

(** C3: simulation. Every step of the system, API calls, timers and
    maintenance included, is a sequence of transitions of the abstract
    membership: the three rules, the local departure, or the removal of nodes
    that are dead or have left. *)
Theorem step_simulation c ch m m' :
  reachable c ch m -> step m m' ->
  rtc (spec_step (selfID m) reapable) (view m, left m) (view m', left m').
Proof.
  intros Hr Hs. destruct (reachable_good c ch m Hr) as [Hinv _].
  by apply (step_good m m').
Qed.

(** C5: no accusation sticks to an active local node. As long as the node has
    not left, it is alive in its own list, whatever suspect and dead messages
    it has received. *)
Theorem active_node_alive c ch m n :
  reachable c ch m -> left m = false -> view m !! selfID m = Some n -> State n = StateAlive.
Proof.
  intros Hr Hl Hn. destruct (reachable_good c ch m Hr) as [Hinv _].
  by apply (inv_local _ Hinv).
Qed.

(** C6: over any run without reaping, what a node knows only gets more recent:
    no name is forgotten, the [Lives] of a node never decrease, and at equal
    [Lives] it goes from alive over suspect to dead or left and never back. *)
Theorem knowledge_advances c ch m m' :
  reachable c ch m -> steps (fun a => negb (is_reap a)) m m' -> advances (view m) (view m').
Proof.
  intros Hr Hs. destruct (reachable_good c ch m Hr) as [Hinv _].
  apply (steps_good (fun _ => False)) in Hs as (_ & _ & Hs); [|..|done].
  - by apply spec_steps_advance in Hs.
  - intros a Ha Hre. by rewrite Hre in Ha.
Qed.

(** Receiving a message again, at any later time, changes nothing that
    the node knows. *)
Theorem duplicate_messages c ch m :
  reachable c ch m ->
  (forall a nt nt' e e',
     0 <= a_Lives a < 2 ^ 32 ->
     view (aliveNode (aliveNode m a nt e) a nt' e') = view (aliveNode m a nt e)) /\
  (forall s e e', fine_suspect m s -> exists m1 m2,
     suspectNode m s e = Ret m1 /\ suspectNode m1 s e' = Ret m2 /\ view m2 = view m1) /\
  (forall d nt nt' e e', fine_dead m d -> exists m1 m2,
     deadNode m d nt e = Ret m1 /\ deadNode m1 d nt' e' = Ret m2 /\ view m2 = view m1).
Proof.
  intros Hr. destruct (reachable_good c ch m Hr) as [Hinv _]. split_and!.
  - intros a nt nt' e e' Ha. destruct (aliveNode_frame m a nt e) as [Hc Hl].
    rewrite (aliveNode_view (aliveNode m a nt e)) by by apply aliveNode_inv.
    unfold selfID. rewrite Hc, Hl, !aliveNode_view by apply Hinv. apply spec_alive_idemp.
  - intros s e e' Hs. destruct (suspectNode_refines m s e Hinv Hs) as (m1 & E1 & Hi & Hv & Hc & Hl).
    assert (fine_suspect m1 s) as Hs1 by (unfold fine_suspect, selfID in *; by rewrite Hc).
    destruct (suspectNode_refines m1 s e' Hi Hs1) as (m2 & E2 & _ & Hv2 & _).
    exists m1, m2. split_and!; [done..|]. rewrite Hv2, Hv. unfold selfID. rewrite Hc.
    apply spec_suspect_idemp. intros Hx.
    apply refuteValue_range. destruct Hs as [? H]. auto with lia.
  - intros d nt nt' e e' Hd.
    destruct (deadNode_refines m d nt e Hinv Hd) as (m1 & E1 & Hi & Hv & Hc & Hl).
    assert (fine_dead m1 d) as Hd1 by (unfold fine_dead, selfID in *; by rewrite Hc, Hl).
    destruct (deadNode_refines m1 d nt' e' Hi Hd1) as (m2 & E2 & _ & Hv2 & _).
    exists m1, m2. split_and!; [done..|]. rewrite Hv2, Hv. unfold selfID. rewrite Hc, Hl.
    apply spec_dead_idemp. intros Hx Hg.
    apply refuteValue_range. destruct Hd as [? H]. auto with lia.
Qed.

(** ** Refutation *)

(** What [refute] does, all fields. *)
Lemma refute_value m p n lv :
  lv < 2 ^ 32 - 1 ->
  refute m p n lv =
    let l := refuteValue lv (lives m) in
    Ret (broadcast (nid n) aliveMsg
           (PAlive (mkAlive l (nid n) (IP (node n)) (Port (node n)) (Tags (node n)))) None
           (set_awr (Punish (awr m) 1)
              (setNode p (with_lives l n) (set_lives l m)))).
Proof. intros Hlv. unfold refute. by rewrite refuteLoop_value by lia. Qed.

Lemma suspect_self m s e p n :
  inv m -> left m = false -> s_ID s = selfID m -> getNode m (selfID m) = Some (p, n) ->
  Lives n <= s_Lives s -> suspectNode m s e = refute m p n (s_Lives s).
Proof.
  intros Hinv Hl Hx E Hle. unfold suspectNode. rewrite Hx, E.
  zcmp.
  assert (view m !! selfID m = Some n) as Hv by by rewrite getNode_view, E.
  destruct (inv_local _ Hinv n Hv) as [Hns Hal].
  rewrite (susp_none m (selfID m) (inv_susp _ Hinv)) by (intros k Hk; congruence).
  rewrite bool_decide_eq_false_2 by (rewrite Hal; auto).
  by rewrite bool_decide_eq_true_2.
Qed.

Lemma dead_self m d nt e p n :
  inv m -> left m = false -> d_ID d = selfID m -> getNode m (selfID m) = Some (p, n) ->
  Lives n <= d_Lives d -> deadNode m d nt e = refute m p n (d_Lives d).
Proof.
  intros Hinv Hl Hx E Hle. unfold deadNode. rewrite Hx, E.
  zcmp.
  assert (view m !! selfID m = Some n) as Hv by by rewrite getNode_view, E.
  destruct (inv_local _ Hinv n Hv) as [Hns Hal].
  unfold DeadOrLeft. rewrite Hal by done. simpl.
  rewrite bool_decide_eq_true_2 by done. by rewrite Hl.
Qed.

(** C7: an active node that hears a current accusation against itself (a
    suspect or a dead message with its own or a higher [Lives] below the
    largest [uint32]) answers it: it takes the number [refuteValue], the next
    value of its counter that exceeds the accusation, as its counter and its
    own [Lives], lowers its health score, and queues an alive message with
    that number, its address and its tags. *)
Theorem accusation_refuted c ch m p n s d nt e :
  reachable c ch m -> left m = false -> getNode m (selfID m) = Some (p, n) ->
  s_ID s = selfID m -> Lives n <= s_Lives s < 2 ^ 32 - 1 ->
  d_ID d = selfID m -> d_Lives d = s_Lives s ->
  let l := refuteValue (s_Lives s) (lives m) in
  let a := mkAlive l (selfID m) (IP (node n)) (Port (node n)) (Tags (node n)) in
  s_Lives s < l < 2 ^ 32 /\
  (nextLiveNo (lives m) <= l /\ (nextLiveNo (lives m) < l -> l = s_Lives s + 1)) /\
  exists m',
    suspectNode m s e = Ret m' /\ deadNode m d nt e = Ret m' /\
    lives m' = l /\ awr m' = Punish (awr m) 1 /\
    view m' = <[ selfID m := with_lives l n ]> (view m) /\
    mbroadcasts m' = QueueMsg (mbroadcasts m) (selfID m) aliveMsg (PAlive a) None.
Proof.
  intros Hr Hl E Hs Hle Hd Hds l a. destruct (reachable_good c ch m Hr) as [Hinv _].
  pose proof (inv_mem _ Hinv) as Hm.
  assert (view m !! selfID m = Some n) as Hv by by rewrite getNode_view, E.
  pose proof (proj2 (inv_lives _ Hinv) _ _ Hv) as HL. simpl in HL.
  split; [apply refuteValue_range; lia|]. split.
  { unfold l, refuteValue. cbv zeta. case_match; lia. }
  rewrite (suspect_self m s e p n) by (done || lia).
  rewrite (dead_self m d nt e p n) by (done || lia).
  rewrite Hds, refute_value by lia. eexists. split_and!; [done..| |].
  - apply getNode_Some in E as [Hp _]. exact (view_setNode m _ _ (with_lives l n) Hm Hp).
  - pose proof (getNode_nid _ _ _ _ Hm E) as Hid. simpl. by rewrite Hid.
Qed.

(** An accusation with the largest [uint32] cannot be answered: the loop
    of [refute] never ends, however long it runs, because no number exceeds
    [lives]; the handler holds the lock of the member list meanwhile. *)
Theorem refute_diverges c ch m p n s d nt e :
  reachable c ch m -> left m = false -> getNode m (selfID m) = Some (p, n) ->
  s_ID s = selfID m -> s_Lives s = 2 ^ 32 - 1 ->
  d_ID d = selfID m -> d_Lives d = 2 ^ 32 - 1 ->
  (forall depth l, 0 <= l < 2 ^ 32 ->
     exists l', 0 <= l' < 2 ^ 32 /\ refuteLoop depth (2 ^ 32 - 1) l = inr l') /\
  suspectNode m s e = Hang /\ deadNode m d nt e = Hang.
Proof.
  intros Hr Hl E Hs Hle Hd Hds. destruct (reachable_good c ch m Hr) as [Hinv _].
  assert (view m !! selfID m = Some n) as Hv by by rewrite getNode_view, E.
  pose proof (proj2 (inv_lives _ Hinv) _ _ Hv) as HL. simpl in HL.
  split.
  { intros depth l Hr'. eexists. rewrite refuteLoop_forever by done.
    split; [apply u32_range|done]. }
  rewrite (suspect_self m s e p n) by (done || lia).
  rewrite (dead_self m d nt e p n) by (done || lia).
  unfold refute. rewrite Hle, Hds, refuteLoop_forever by apply nextLiveNo_range. done.
Qed.

(** Whether a node takes over an alive message about another one: it allows
    the address, and knows the other at no number or at a smaller one. *)
Definition heeds m (a : alive) : bool :=
  IPAllowed (config m) (a_IP a) &&
  match view m !! a_ID a with Some n => Lives n <? a_Lives a | None => true end.

Lemma alive_news m a nt e :
  inv m -> a_ID a <> selfID m -> 0 <= a_Lives a < 2 ^ 32 ->
  let m' := aliveNode m a nt e in
  if heeds m a
  then exists b, view m' = <[ a_ID a := b ]> (view m) /\ suspicions m' !! a_ID a = None /\
         State b = StateAlive /\ Lives b = a_Lives a /\ Tags (node b) = a_Tags a
  else m' = m.
Proof.
  intros Hinv Hne Ha m'. unfold heeds.
  assert (forall b, view m' = <[ a_ID a := b ]> (view m) -> State b = StateAlive ->
    suspicions m' !! a_ID a = None) as Hsusp.
  { intros b Hb Hst. apply susp_none; [by apply aliveNode_inv|]. intros k. rewrite Hb, lookup_insert_eq.
    intros [= <-]. by rewrite Hst. }
  pose proof (aliveNode_view m a nt e (inv_mem _ Hinv)) as Hv. fold m' in Hv. unfold spec_alive in Hv.
  unfold m' in *. rewrite aliveNode_body in *.
  rewrite (bool_decide_eq_false_2 (a_ID a = selfID m)), andb_false_r in * by done.
  destruct (IPAllowed (config m) (a_IP a)); [|done]. cbn [orb andb negb] in *.
  rewrite getNode_view in *. destruct (getNode m (a_ID a)) as [[p n]|] eqn:E; simpl in *.
  - rewrite Z.ltb_antisym. destruct (a_Lives a <=? Lives n) eqn:El; simpl.
    + unfold aliveBody, aliveLocked. by rewrite E, El.
    + eexists. split; [exact Hv|]. split; [by eapply Hsusp|done].
  - eexists. split; [exact Hv|]. split; [by eapply Hsusp|done].
Qed.

(** C8: a false suspicion is overturned. The accused node [m] answers a
    suspicion with an alive message, and every other node [k] that receives
    it does one of two things. If it allows the address and knows of no life
    of [m] as late as the one announced (it may suspect it or hold it for
    dead by the same accusation, or not know it at all), it holds [m] for
    alive at the new number with the tags of [m], drops its suspicion, and
    changes nothing about other nodes. If its filter rejects the address, or
    it knows that life or a later one, it does nothing. *)
Theorem refutation_heals c ch m p n s e :
  reachable c ch m -> left m = false -> getNode m (selfID m) = Some (p, n) ->
  s_ID s = selfID m -> Lives n <= s_Lives s < 2 ^ 32 - 1 ->
  exists m' a,
    suspectNode m s e = Ret m' /\
    mbroadcasts m' = QueueMsg (mbroadcasts m) (selfID m) aliveMsg (PAlive a) None /\
    s_Lives s < a_Lives a /\ a_IP a = IP (node n) /\
    forall c' ch' k nt e', reachable c' ch' k -> selfID k <> selfID m ->
      let k' := aliveNode k a nt e' in
      if IPAllowed (config k) (IP (node n)) &&
         match view k !! selfID m with Some n' => Lives n' <? a_Lives a | None => true end
      then exists b, view k' = <[ selfID m := b ]> (view k) /\ suspicions k' !! selfID m = None /\
             State b = StateAlive /\ Lives b = a_Lives a /\ Tags (node b) = Tags (node n)
      else k' = k.
Proof.
  intros Hr Hl E Hs Hle. destruct (reachable_good c ch m Hr) as [Hinv _].
  assert (view m !! selfID m = Some n) as Hv by by rewrite getNode_view, E.
  pose proof (proj2 (inv_lives _ Hinv) _ _ Hv) as HL. simpl in HL.
  rewrite (suspect_self m s e p n) by (done || lia).
  rewrite refute_value by lia.
  pose proof (getNode_nid _ _ _ _ (inv_mem _ Hinv) E) as Hid. rewrite Hid.
  pose proof (refuteValue_range (s_Lives s) (lives m) ltac:(lia)) as Hrv.
  set (l := refuteValue (s_Lives s) (lives m)) in *.
  set (a := mkAlive l (selfID m) (IP (node n)) (Port (node n)) (Tags (node n))).
  eexists _, a. split_and!; [done|done|simpl; lia|done|]. intros c' ch' k nt e' Hr' Hne.
  destruct (reachable_good c' ch' k Hr') as [Hinv' _].
  exact (alive_news k a nt e' Hinv' (not_eq_sym Hne) ltac:(simpl; lia)).
Qed.

(** ** Suspicion and its timeout *)

(** C11: a first suspicion of another node that is believed alive makes it
    suspect at the [Lives] of the message, queues the message for gossip, and
    starts one timer, for this node at these [Lives]: at the minimal timeout
    if no independent confirmation is to be expected, else at the maximal
    one. Confirmations of [SuspicionMult - 1] nodes bring the timeout down to
    the minimum, or of one in a cluster smaller than [SuspicionMult]. *)
Theorem first_suspicion c ch m s e n :
  reachable c ch m -> s_ID s <> selfID m -> view m !! s_ID s = Some n ->
  State n = StateAlive -> Lives n <= s_Lives s < 2 ^ 32 ->
  exists m' sl sc,
    suspectNode m s e = Ret m' /\
    view m' = <[ s_ID s := mkNodeState (node n) (s_Lives s) StateSuspect (now e) ]> (view m) /\
    mbroadcasts m' = QueueMsg (mbroadcasts m) (s_ID s) suspectMsg (PSuspect s) None /\
    suspicions m' = <[ s_ID s := sl ]> (suspicions m) /\ suspStore m !! sl = None /\
    suspStore m' !! sl = Some sc /\ about sc = s_ID s /\ atLives sc = s_Lives s /\
    confirmMap sc = {[ s_From s ]} /\ start sc = now e /\
    timerS sc = Armed (now e + (if confirmCap sc <=? 1 then minTimeout sc else maxTimeout sc)) /\
    (numNodes m < Cfg.SuspicionMult (config m) -> confirmCap sc = 1) /\
    (Cfg.SuspicionMult (config m) <= numNodes m ->
     confirmCap sc = Cfg.SuspicionMult (config m) - 1) /\
    minTimeout sc = minSuspicionTimeout (Cfg.SuspicionMult (config m)) (numNodes m)
                      (Cfg.ProbeInterval (config m)) /\
    maxTimeout sc = i64 (Cfg.SuspicionMaxTimeoutMult (config m) * minTimeout sc).
Proof.
  intros Hr Hx Hv Hst HL. destruct (reachable_good c ch m Hr) as [Hinv _].
  pose proof Hv as Hv'. rewrite getNode_view in Hv'.
  destruct (getNode m (s_ID s)) as [[p k]|] eqn:E; [|done]. simpl in Hv'. simplify_eq.
  unfold suspectNode. rewrite E, (proj2 (Z.ltb_ge _ _)) by lia.
  rewrite (susp_none m (s_ID s) (inv_susp _ Hinv)) by (intros k Hk; congruence).
  rewrite bool_decide_eq_false_2 by (rewrite Hst; auto).
  rewrite bool_decide_eq_false_2 by done. cbv zeta.
  eexists _, (fresh (dom (suspStore m))), _. split; [reflexivity|].
  split; [|split; [done|split; [done|split; [|split; [apply lookup_insert_eq|]]]]].
  - apply getNode_Some in E as [Hp _]. exact (view_setNode m _ _ _ (inv_mem _ Hinv) Hp).
  - apply not_elem_of_dom, is_fresh.
  - unfold makeSuspicion. cbn [confirmCap newSuspicion]. unfold GetNumNodes. simpl numNodes.
    simpl config. split_and!; try done; intros; by zcmp.
Qed.

(** An accepted dead message about another node. *)
Lemma deadNode_other m d nt e p n :
  getNode m (d_ID d) = Some (p, n) -> d_ID d <> selfID m -> Lives n <= d_Lives d ->
  DeadOrLeft n = false ->
  deadNode m d nt e =
    Ret (NotifyLeave e (node n) (setNode p (accept_dead d (now e) n)
           (broadcast (d_ID d) deadMsg (PDead d) nt
              (set_suspicions (delete (d_ID d) (suspicions m)) m)))).
Proof.
  intros E Hx HL Hd. unfold deadNode. rewrite E, Hd, (proj2 (Z.ltb_ge _ _)) by done.
  by rewrite (bool_decide_eq_false_2 _ Hx).
Qed.

(** C9: when the timer of a standing suspicion has fired, its goroutine
    declares the node dead, at the [Lives] it was suspected at, and removes
    the suspicion. *)
Theorem suspicion_timeout c ch m x sl i n e1 e2 :
  reachable c ch m -> suspicions m !! x = Some sl -> tasks m !! i = Some (TimeoutStart sl) ->
  view m !! x = Some n ->
  exists m1 m2,
    runTask m i e1 = Ret m1 /\ runTask m1 i e2 = Ret m2 /\
    view m2 = <[ x := mkNodeState (node n) (Lives n) StateDead (now e2) ]> (view m) /\
    suspicions m2 = delete x (suspicions m) /\ tasks m2 = delete i (tasks m).
Proof.
  intros Hr Hsl Hi Hn. destruct (reachable_good c ch m Hr) as [Hinv _].
  pose proof Hinv as [Hm Hl Hs Hloc Ht].
  destruct (ok_susp _ Hs x sl Hsl) as (sc & n' & Hsc & Hab & Hn' & Hst & Hat).
  assert (n' = n) as -> by congruence.
  assert (x <> selfID m) as Hx by (intros ->; by destruct (Hloc n Hn)).
  assert (lookup_i : (i < length (tasks m))%nat) by by eapply lookup_lt_Some.
  pose proof Hn as E. rewrite getNode_view in E.
  destruct (getNode m x) as [[p k]|] eqn:Eg; [|done]. simpl in E. simplify_eq.
  pose proof (getNode_nid _ _ _ _ Hm Eg) as Hid. unfold nid in Hid.
  set (d := mkDead (Lives n) (about sc) false).
  set (m1 := set_tasks (<[ i := TimeoutDead d ]> (tasks m)) m).
  assert (runTask m i e1 = Ret m1) as E1.
  { unfold runTask. rewrite Hi, Hsc. unfold timeoutTest. rewrite Eg.
    rewrite bool_decide_eq_true_2 by done. zcmp. simpl.
    by rewrite Hid. }
  set (m2 := set_tasks (delete i (tasks m)) m).
  assert (runTask m1 i e2 = deadNode m2 d None e2) as E2.
  { unfold runTask, m1, m2. simpl tasks. rewrite list_lookup_insert_eq by done.
    by rewrite delete_insert_same. }
  rewrite (deadNode_other m2 d None e2 p n) in E2; [|done|done|simpl; lia|..].
  2: { unfold DeadOrLeft. by rewrite Hst. }
  eexists m1, _. split; [done|]. split; [exact E2|]. unfold NotifyLeave. split_and!.
  - rewrite (core_view _ _ (core_send _ _ _)). apply getNode_Some in Eg as [Hp _].
    exact (view_setNode m _ _ (accept_dead d (now e2) n) Hm Hp).
  - by rewrite (core_suspicions _ _ (core_send _ _ _)).
  - by rewrite (core_tasks _ _ (core_send _ _ _)).
Qed.

(** C10: a timer that has lost its reason does nothing. If the node is no
    longer suspect at the [Lives] the suspicion was taken at (it refuted, it
    was declared dead, it was reaped) the goroutine ends at its test; if the
    node came back with a higher [Lives] between the test and the call of
    [deadNode], the call is without effect. *)
Theorem stale_timeout c ch m i e :
  reachable c ch m ->
  (forall sl sc,
     tasks m !! i = Some (TimeoutStart sl) -> suspStore m !! sl = Some sc ->
     (forall n, view m !! about sc = Some n ->
        State n <> StateSuspect \/ Lives n <> atLives sc) ->
     runTask m i e = Ret (set_tasks (delete i (tasks m)) m)) /\
  (forall d n,
     tasks m !! i = Some (TimeoutDead d) -> view m !! d_ID d = Some n ->
     d_Lives d < Lives n \/ DeadOrLeft n = true ->
     runTask m i e = Ret (set_tasks (delete i (tasks m)) m)).
Proof.
  intros Hr. destruct (reachable_good c ch m Hr) as [Hinv _]. split.
  - intros sl sc Hi Hsc Hstale. unfold runTask, timeoutTest. rewrite Hi, Hsc.
    specialize (Hstale). rewrite getNode_view in Hstale.
    destruct (getNode m (about sc)) as [[p n]|]; [|done].
    destruct (Hstale n eq_refl) as [Hst|HL].
    + by rewrite bool_decide_eq_false_2.
    + zcmp. by rewrite andb_false_r.
  - intros d n Hi Hv Hstale. unfold runTask. rewrite Hi. unfold deadNode.
    change (getNode (set_tasks _ m)) with (getNode m).
    rewrite getNode_view in Hv. destruct (getNode m (d_ID d)) as [[p k]|]; [|done].
    simpl in Hv. simplify_eq.
    assert ((d_Lives d <? Lives n) || DeadOrLeft n = true) as ->; [|done].
    apply orb_true_iff. rewrite Z.ltb_lt. done.
Qed.

(** ** Maintenance *)

(** C29: [reap] removes from the list and the map exactly the nodes that have
    been dead or gone for longer than the timeout, up to the readings of the
    clock during the sweep (all between [lo] and [hi]); the others keep their
    state, suspicions included, and the counter is the number of those that
    remain. *)
Theorem reap_correct c ch m clock r lo hi :
  reachable c ch m -> (forall k, lo <= clock k <= hi) ->
  let timeout := Cfg.DeadNodeExpiredTimeout (config m) in
  exists m', reap m clock r = Ret m' /\
    view m' ⊆ view m /\
    (forall x n, view m !! x = Some n -> expired timeout hi n = false -> view m' !! x = Some n) /\
    (forall x n, view m !! x = Some n -> expired timeout lo n = true -> view m' !! x = None) /\
    numNodes m' = i32 (len (nodes m')) /\ length (nodes m') = size (view m').
Proof.
  intros Hr Hclk timeout. destruct (reachable_good c ch m Hr) as [Hinv _].
  destruct (reap_refines m clock r lo hi Hinv Hclk)
    as (m' & E & Hi & Hsub & Hstay & Hgone & _).
  exists m'. split_and!; try done.
  - intros x n Hx He. destruct (view m' !! x) as [k|] eqn:Ek; [|done].
    pose proof (Hgone x k Ek) as Hk.
    pose proof (lookup_weaken _ _ _ _ Ek Hsub). assert (k = n) as -> by congruence. unfold timeout in He. congruence.
  - apply (ok_num _ (inv_mem _ Hi)).
  - apply size_view, Hi.
Qed.

(** C30: the prober is fair. Whatever the position of the index, as many
    successive choices as there are other nodes alive or suspect return each
    of them exactly once. *)
Theorem probing_round_robin c ch m :
  reachable c ch m ->
  let cands := List.filter (fun n => negb (skipProbe m n)) (objects m) in
  exists ns i, probes (length cands) m = Ret (ns, set_probeIdx i m) /\ ns ≡ₚ cands /\
    NoDup (map nid ns) /\
    (forall n, n ∈ ns <-> view m !! nid n = Some n /\ nid n <> selfID m /\
                          (State n = StateAlive \/ State n = StateSuspect)).
Proof.
  intros Hr cands. destruct (reachable_good c ch m Hr) as [Hinv _].
  pose proof (reachable_probeIdx c ch m Hr) as Hp.
  destruct (round_robin m (inv_mem _ Hinv) Hp) as (ns & i & E & Hperm).
  exists ns, i. split_and!; [done..| |].
  - rewrite Hperm. apply NoDup_filter_map, objects_NoDup, Hinv.
  - intros n. rewrite Hperm. unfold cands. rewrite list_elem_of_In, filter_In.
    rewrite <- list_elem_of_In, elem_of_objects by apply Hinv.
    unfold skipProbe, DeadOrLeft. rewrite negb_true_iff, !orb_false_iff, !bool_decide_eq_false.
    destruct (State n); naive_solver.
Qed.

(** A random choice of nodes, as gossip, indirect probes and push/pull
    make it, returns after at most three tries per node; it consists of
    distinct members that satisfy the condition, at most as many as asked
    for. *)
Theorem random_pick c ch m r num accept :
  reachable c ch m -> len (nodes m) < 2 ^ 32 -> 0 <= num ->
  exists ns, pickRandomNodes m r num accept = Ret ns /\ NoDup (map nid ns) /\ len ns <= num /\
    Forall (fun n => view m !! nid n = Some n /\ exists i, accept i n = true) ns.
Proof.
  intros Hr H32 Hn. destruct (reachable_good c ch m Hr) as [Hinv _].
  destruct (pickRandomNodes_spec m r num accept (inv_mem _ Hinv) H32 Hn)
    as (ns & E & Hnd & Hall & Hlen).
  exists ns. split_and!; try done. eapply Forall_impl; [exact Hall|].
  intros n [Hin Ha]. split; [|done]. apply elem_of_objects in Hin; [done|apply Hinv].
Qed.

(** The queries agree with the member list: [Members] returns each known
    node once, [ActiveNodes] and [NumActive] those of them that are alive or
    suspect, [GetNodeState] the state of a name, and the node counter is the
    number of members as a 32-bit number. *)
Theorem queries_correct c ch m :
  reachable c ch m ->
  exists ns, Members m = Ret ns /\ NoDup (map nid ns) /\
    (forall n, n ∈ ns <-> view m !! nid n = Some n) /\
    ActiveNodes m = Ret (List.filter (fun n => negb (DeadOrLeft n)) ns) /\
    NumActive m = Ret (len (List.filter (fun n => negb (DeadOrLeft n)) ns)) /\
    (forall x, GetNodeState m x = view m !! x) /\
    GetNumNodes m = i32 (len ns).
Proof.
  intros Hr. destruct (reachable_good c ch m Hr) as [Hinv _].
  pose proof (inv_mem _ Hinv) as Hm.
  exists (objects m). unfold Members, ActiveNodes, NumActive.
  rewrite derefs_objects by done. split_and!; try done.
  - by apply objects_NoDup.
  - intros n. by apply elem_of_objects.
  - intros x. unfold GetNodeState. by rewrite getNode_view.
  - unfold GetNumNodes. rewrite (ok_num _ Hm). do 2 f_equal. symmetry.
    apply omap_full. intros p (n & Hn & _)%(ok_nodes _ Hm). eauto.
Qed.

(** ** Departure and change of tags *)

(** C39: [Leave] of an active member marks it as left in its own list, at its
    present [Lives], so that no later message about it is refuted; the others
    keep their states. A second [Leave] changes nothing. *)
Theorem Leave_correct c ch m chn sent e n :
  reachable c ch m -> shutdown m = false -> left m = false ->
  view m !! selfID m = Some n ->
  exists err m', Leave m chn sent e = Ret (err, m') /\ left m' = true /\
    view m' = <[ selfID m := mkNodeState (node n) (Lives n) StateLeft (now e) ]> (view m) /\
    (shutdown m' = false ->
     forall chn' sent' e', Leave m' chn' sent' e' = Ret (None, m')).
Proof.
  intros Hr Hsd Hl Hn. destruct (reachable_good c ch m Hr) as [Hinv _].
  pose proof Hn as E. rewrite getNode_view in E.
  destruct (getNode m (selfID m)) as [[p k]|] eqn:Eg; [|done]. simpl in E. simplify_eq.
  destruct (Leave_Left m chn sent e p n Hinv Hsd Hl Eg) as (err & m' & E1 & Hi & Hl' & Hv).
  exists err, m'. split_and!; try done. intros Hsd' chn' sent' e'.
  unfold Leave. by rewrite Hsd', Hl'.
Qed.

(** [UpdateTags] of an active node gives it the new tags and the next
    number of its counter as [Lives], if that number exceeds the [Lives] it
    has in its own list; otherwise (someone announced a higher number in its
    name, or the counter wrapped) nothing but the counter changes. Tags above
    512 bytes are refused and nothing changes. *)
Theorem UpdateTags_correct c ch m tags chn sent e n :
  reachable c ch m -> left m = false -> view m !! selfID m = Some n ->
  IPAllowed (config m) (IP (node n)) = true ->
  (TagMaxSize < len tags ->
   UpdateTags m tags chn sent e = Ret (Some ErrMaxTagSizeExceed, m)) /\
  (len tags <= TagMaxSize ->
   exists err m', UpdateTags m tags chn sent e = Ret (err, m') /\
     lives m' = nextLiveNo (lives m) /\
     view m' =
       if nextLiveNo (lives m) <=? Lives n then view m
       else <[ selfID m := mkNodeState (mkNode (ID (node n)) (IP (node n)) (Port (node n)) tags)
                             (nextLiveNo (lives m)) StateAlive (StateChange n) ]> (view m)).
Proof.
  intros Hr Hl Hn Hip. destruct (reachable_good c ch m Hr) as [Hinv _]. split.
  { intros Ht. unfold UpdateTags. by rewrite (proj2 (Z.ltb_lt _ _)). }
  intros Ht. pose proof Hn as E. rewrite getNode_view in E.
  destruct (getNode m (selfID m)) as [[p k]|] eqn:Eg; [|done]. simpl in E. simplify_eq.
  destruct (UpdateTags_view m tags chn sent e p n Hinv Eg Ht) as (err & m' & E1 & _ & Hlv & Hv).
  exists err, m'. split_and!; [done..|]. rewrite Hv. unfold spec_alive. simpl a_ID. simpl a_Lives.
  rewrite Hl, Hip, Hn. cbn [andb orb negb].
  destruct (nextLiveNo (lives m) <=? Lives n); [done|].
  unfold accept_alive. destruct (inv_local _ Hinv n Hn) as [_ Hal].
  by rewrite bool_decide_eq_true_2 by auto.
Qed.

(** A departure can be undone by a change of tags that is under way:
    [UpdateTags] has taken its number and [aliveNode] has seen that the node
    has not left; then [Leave] runs to its end and marks the node as left;
    then [aliveNode] goes on, its number is higher, and the node is alive in
    its own list again, and announced as such, although it has left. *)
Theorem leave_race c ch m chn sent e e2 nt tags n :
  reachable c ch m -> shutdown m = false -> left m = false ->
  view m !! selfID m = Some n -> Lives n < nextLiveNo (lives m) ->
  let m0 := set_lives (nextLiveNo (lives m)) m in
  let a := mkAlive (nextLiveNo (lives m)) (selfID m) (IP (node n)) (Port (node n)) tags in
  exists err m1, Leave m0 chn sent e = Ret (err, m1) /\ left m1 = true /\
    view m1 !! selfID m = Some (mkNodeState (node n) (Lives n) StateLeft (now e)) /\
    let m2 := aliveBody m1 a nt e2 in
    left m2 = true /\ exists n', view m2 !! selfID m = Some n' /\ State n' = StateAlive.
Proof.
  intros Hr Hsd Hl Hn Hlt m0 a. destruct (reachable_good c ch m Hr) as [Hinv _].
  assert (inv m0) as Hi0 by (apply inv_set_lives; [done|apply nextLiveNo_range]).
  assert (exists p, getNode m0 (selfID m0) = Some (p, n)) as [p Eg].
  { change (view m) with (view m0) in Hn. change (selfID m) with (selfID m0) in Hn.
    rewrite getNode_view in Hn. destruct (getNode m0 (selfID m0)) as [[p k]|]; [|done].
    injection Hn as ->. eauto. }
  destruct (Leave_Left m0 chn sent e p n Hi0 Hsd Hl Eg) as (err & m1 & E & Hi1 & Hl1 & Hv1).
  exists err, m1.
  assert (selfID m1 = selfID m) as Hid.
  { destruct (Leave_good reapable m0 chn sent e Hi0 Hsd) as (r & Er & _ & Hc & _).
    rewrite E in Er. injection Er as <-. simpl in Hc. unfold selfID. by rewrite Hc. }
  assert (view m1 !! selfID m = Some (mkNodeState (node n) (Lives n) StateLeft (now e))) as Hx.
  { rewrite Hv1. apply lookup_insert_eq. }
  split_and!; [done..|]. cbv zeta. split; [by rewrite (proj2 (aliveBody_frame m1 a nt e2))|].
  rewrite aliveBody_view by apply Hi1. unfold spec_alive. simpl a_ID. rewrite Hx. simpl.
  rewrite (proj2 (Z.leb_gt _ _)) by done. eexists. rewrite lookup_insert_eq. split; [done|].
  unfold accept_alive. simpl. done.
Qed.

End Theorems.

(** ** Witnesses *)

Section Witnesses.
#[local] Existing Instance item_heap.
#[local] Existing Instance item_heap_laws.
#[local] Existing Instance bit_codec.

Lemma reachable_invariant_witness :
  inv w2 /\
  (exists m', exec w2 (ActSuspect su2 (at_ 2)) = Ret m' /\ inv m' /\ reachable exCfg true m') /\
  exec w2 (ActSuspect (mkSuspect (2 ^ 32 - 1) "n1" "n2") (at_ 2)) = Hang.
Proof.
  destruct (reachable_invariant exCfg true w2 reach_w2) as [Hinv H].
  split; [exact Hinv|]. split.
  - exact (H (ActSuspect su2 (at_ 2)) (proj1 fine_su2) I).
  - assert (0 <= 2 ^ 32 - 1 < 2 ^ 32) as Hr by lia.
    exact (proj1 (H (ActSuspect (mkSuspect (2 ^ 32 - 1) "n1" "n2") (at_ 2)) Hr I)).
Defined.

Lemma handlers_refine_witness :
  exists m', suspectNode w2 su2 (at_ 2) = Ret m' /\
    view m' = spec_suspect (selfID w2) (refuteValue 5 (lives w2)) su2 2 (view w2).
Proof.
  exact (proj1 (proj2 (handlers_refine exCfg true w2 reach_w2)) su2 (at_ 2) fine_su2).
Defined.

Lemma step_simulation_witness :
  rtc (spec_step (selfID w1) reapable) (view w1, left w1) (view w2, left w2).
Proof.
  apply (step_simulation exCfg true w1 w2 reach_w1).
  apply (step_intro _ _ (ActAlive al2 None (at_ 1))); [simpl; lia|reflexivity].
Defined.

Lemma active_node_alive_witness : State n1w = StateAlive.
Proof.
  apply (active_node_alive exCfg true w3 n1w reach_w3); vm_compute; reflexivity.
Defined.

Lemma knowledge_advances_witness : advances (view w1) (view w2).
Proof.
  apply (knowledge_advances exCfg true w1 w2 reach_w1). apply rtc_once.
  exists (ActAlive al2 None (at_ 1)). split_and!; [simpl; lia|reflexivity|reflexivity].
Defined.

Lemma duplicate_messages_witness :
  exists m1 m2, suspectNode w2 su2 (at_ 2) = Ret m1 /\ suspectNode m1 su2 (at_ 9) = Ret m2 /\
                view m2 = view m1.
Proof.
  exact (proj1 (proj2 (duplicate_messages exCfg true w2 reach_w2)) su2 (at_ 2) (at_ 9) fine_su2).
Defined.

Lemma accusation_refuted_witness :
  exists m', suspectNode w2 su1 (at_ 3) = Ret m' /\ lives m' = 5.
Proof.
  destruct w2_self as [p E].
  destruct (accusation_refuted exCfg true w2 p n1w su1 (mkDead 4 "n1" false) None (at_ 3)
    reach_w2 w2_left E w2_id) as (_ & _ & m' & Hs & _ & Hl & _);
    [simpl; lia|exact w2_id|reflexivity|].
  exists m'. split; [exact Hs|]. rewrite Hl. vm_compute. reflexivity.
Defined.

Lemma refute_diverges_witness :
  suspectNode w2 (mkSuspect (2 ^ 32 - 1) "n1" "n2") (at_ 3) = Hang.
Proof.
  destruct w2_self as [p E].
  exact (proj1 (proj2 (refute_diverges exCfg true w2 p n1w (mkSuspect (2 ^ 32 - 1) "n1" "n2")
    (mkDead (2 ^ 32 - 1) "n1" false) None (at_ 3) reach_w2 w2_left E w2_id eq_refl w2_id
    eq_refl))).
Defined.

Lemma first_suspicion_witness :
  exists m' sl, suspectNode w2 su2 (at_ 2) = Ret m' /\
                suspicions m' = <[ s_ID su2 := sl ]> (suspicions w2).
Proof.
  destruct (first_suspicion exCfg true w2 su2 (at_ 2) n2w reach_w2)
    as (m' & sl & sc & E & _ & _ & Hs & _).
  - vm_compute. discriminate.
  - vm_compute. reflexivity.
  - reflexivity.
  - simpl. lia.
  - exists m', sl. split; [exact E|exact Hs].
Defined.

Lemma suspicion_timeout_witness :
  exists m1 m2, runTask w4 0 (at_ 100000000001) = Ret m1 /\
    runTask m1 0 (at_ 100000000002) = Ret m2 /\ tasks m2 = delete 0%nat (tasks w4).
Proof.
  destruct (suspicion_timeout exCfg true w4 "n2" 1%positive 0
    (mkNodeState (node n2w) 5 StateSuspect 2) (at_ 100000000001) (at_ 100000000002) reach_w4)
    as (m1 & m2 & E1 & E2 & _ & _ & E3).
  - vm_compute. reflexivity.
  - exact w4_task.
  - vm_compute. reflexivity.
  - exists m1, m2. split_and!; [exact E1|exact E2|exact E3].
Defined.

Lemma stale_timeout_witness :
  runTask w5 0 (at_ 100000000002) = Ret (set_tasks (delete 0%nat (tasks w5)) w5).
Proof.
  destruct (suspStore w5 !! 1%positive) as [sc|] eqn:E; [|vm_compute in E; discriminate E].
  apply (proj1 (stale_timeout exCfg true w5 0 (at_ 100000000002) reach_w5) 1%positive sc).
  - vm_compute. reflexivity.
  - exact E.
  - vm_compute in E. injection E as <-. intros n Hn. vm_compute in Hn. injection Hn as <-.
    left. discriminate.
Defined.

Lemma reap_correct_witness :
  exists m', reap wRace (fun _ => 31000000000) (fun _ => 0) = Ret m' /\
    is_Some (view wRace !! "n2") /\ view m' !! "n2" = None /\
    view m' !! "n1" = Some n1w /\ length (nodes m') = size (view m').
Proof.
  destruct (reap_correct exCfg true wRace (fun _ => 31000000000) (fun _ => 0) 31000000000 31000000000 reach_race)
    as (m' & E & _ & Hstay & Hgone & _ & Hlen).
  - intros _. lia.
  - destruct (view wRace !! "n2") as [n|] eqn:En; [|vm_compute in En; discriminate En].
    exists m'. split; [exact E|]. split; [by exists n|]. split; [|split; [|exact Hlen]].
    + apply (Hgone "n2" n En). vm_compute in En. injection En as <-. vm_compute. reflexivity.
    + apply (Hstay "n1" n1w); vm_compute; reflexivity.
Defined.

Lemma probing_round_robin_witness :
  exists ns i, probes (length (List.filter (fun n => negb (skipProbe w2 n)) (objects w2))) w2
               = Ret (ns, set_probeIdx i w2) /\ NoDup (map nid ns).
Proof.
  destruct (probing_round_robin exCfg true w2 reach_w2) as (ns & i & E & _ & Hnd & _).
  exists ns, i. split; [exact E|exact Hnd].
Defined.

Lemma random_pick_witness :
  exists ns, pickRandomNodes w2 Z.of_nat 3 (fun _ n => bool_decide (State n = StateAlive))
             = Ret ns /\ NoDup (map nid ns) /\ len ns <= 3.
Proof.
  destruct (random_pick exCfg true w2 Z.of_nat 3
    (fun _ n => bool_decide (State n = StateAlive)) reach_w2) as (ns & E & Hnd & Hl & _).
  - vm_compute. reflexivity.
  - lia.
  - exists ns. split_and!; [exact E|exact Hnd|exact Hl].
Defined.

Lemma queries_correct_witness :
  exists ns, Members w3 = Ret ns /\ NoDup (map nid ns).
Proof.
  destruct (queries_correct exCfg true w3 reach_w3) as (ns & E & Hnd & _).
  exists ns. split; [exact E|exact Hnd].
Defined.

Lemma Leave_correct_witness :
  exists err m', Leave w2 1 true (at_ 9) = Ret (err, m') /\ left m' = true.
Proof.
  destruct (Leave_correct exCfg true w2 1 true (at_ 9) n1w reach_w2 w2_shutdown w2_left w2_n1)
    as (err & m' & E & Hl & _).
  exists err, m'. split; [exact E|exact Hl].
Defined.

Lemma leave_race_witness :
  exists err m1, Leave (set_lives (nextLiveNo (lives w2)) w2) 1 true (at_ 9) = Ret (err, m1) /\ left m1 = true.
Proof.
  destruct (leave_race exCfg true w2 1 true (at_ 9) (at_ 10) None [x01] n1w reach_w2 w2_shutdown w2_left w2_n1)
    as (err & m1 & E & Hl & _); [vm_compute; reflexivity|].
  exists err, m1. split; [exact E|exact Hl].
Defined.

Lemma UpdateTags_correct_witness :
  exists err m', UpdateTags w2 [] 1 true (at_ 9) = Ret (err, m') /\
                 lives m' = nextLiveNo (lives w2).
Proof.
  destruct (UpdateTags_correct exCfg true w2 [] 1 true (at_ 9) n1w reach_w2 w2_left w2_n1)
    as [_ H].
  - vm_compute. reflexivity.
  - destruct H as (err & m' & E & Hl & _); [vm_compute; discriminate|].
    exists err, m'. split; [exact E|exact Hl].
Defined.

Lemma refutation_heals_witness :
  exists m' a, suspectNode w2 su1 (at_ 3) = Ret m' /\ s_Lives su1 < a_Lives a /\
    exists b, view (aliveNode v1 a None (at_ 4)) = <[ "n1" := b ]> (view v1) /\ State b = StateAlive.
Proof.
  destruct w2_self as [p E].
  destruct (refutation_heals exCfg true w2 p n1w su1 (at_ 3) reach_w2 w2_left E w2_id)
    as (m' & a & Hs & _ & Hlt & Hip & Hk); [simpl; lia|].
  exists m', a. split; [exact Hs|]. split; [exact Hlt|].
  specialize (Hk DefaultLANConfig true v1 None (at_ 4) reach_v1 ltac:(vm_compute; discriminate)).
  cbv zeta in Hk.
  assert (IPAllowed (config v1) (IP (node n1w)) = true) as Hal by (vm_compute; reflexivity).
  assert (view v1 !! selfID w2 =
    Some (mkNodeState (mkNode "n1" (map z2b [10; 0; 0; 1]) 7946 []) 1 StateAlive 0)) as Hv
    by (vm_compute; reflexivity).
  rewrite Hal, Hv in Hk. cbn [andb Lives] in Hk.
  rewrite (proj2 (Z.ltb_lt 1 (a_Lives a))) in Hk by (simpl in Hlt; lia).
  destruct Hk as (b & Hb & _ & Hst & _). exists b. split; [exact Hb|exact Hst].
Defined.

End Witnesses.
