(* ===== verification/Races.v ===== *)
(** * Races around [aliveNode] ([state.go], [memberlist.go])

    [aliveNode] queues its broadcast and sends its events after it has
    released the mutex, and [UpdateTags] takes its number before [aliveNode]
    takes it. What other goroutines do in between overtakes them. *)

From S2P Require Import Prelude Types Interfaces Awareness Suspicion Broadcast BroadcastFacts Config NetAddr Spec State StateFacts Maintenance MaintenanceFacts Lifecycle System Samples.
From Stdlib Require Import Strings.Byte.

Section Races.
Context {HO : HeapOps TransmitCapItem} {HL : HeapLaws TransmitCapItem HO} {CO : Codec}.
Implicit Types m : Memberlist.

(** The message about [x] that waits to be sent. *)
Definition announces m (x : string) (b : list byte) : Prop :=
  (exists i, i ∈ waiting (mbroadcasts m) /\ name i = x) /\
  forall i, i ∈ waiting (mbroadcasts m) -> name i = x -> msg i = b.

Lemma QueueMsg_announces q nm t p nt b :
  queue_ok q -> 0 <= idSeq q -> idSeq q + 1 < 2 ^ 64 -> encode_msg t p = Some b -> nm <> "" ->
  let q' := QueueMsg q nm t p nt in
  queue_ok q' /\ idSeq q' = idSeq q + 1 /\
  (exists i, i ∈ waiting q' /\ name i = nm) /\ forall i, i ∈ waiting q' -> name i = nm -> msg i = b.
Proof.
  intros Hq H0 H1 Hb Hnm. destruct (QueueMsg_full q nm t p nt b Hq H0 H1 Hb)
    as (Hq' & Hid & _ & kept & _ & Hk & Hw & _). simpl. split_and!; [done..| |].
  - exists (mkItem nm (idSeq q) 0 b nt). split; [|done]. rewrite Hw. by left.
  - intros i. rewrite Hw. intros [->|Hi]%elem_of_cons Hn; [done|].
    apply (proj1 (Forall_forall _ _) Hk) in Hi. by apply bool_decide_eq_false in Hi; destruct Hi.
Qed.

Definition always (t r : Z) : Env := mkEnv t r (fun _ => true).

(** [aliveNode] for a node that comes back, until it releases the mutex. *)
Lemma aliveLate_rejoin m a nt t r p n :
  getNode m (a_ID a) = Some (p, n) -> DeadOrLeft n = true -> Lives n < a_Lives a -> Tags (node n) = a_Tags a ->
  aliveLate m a nt (always t r) =
  set_tasks (tasks m ++ [AliveDeferred [DeferBroadcast (ID (node n)) a nt; DeferJoin (node n)]])
    (setNode p (accept_alive a t n) (set_suspicions (delete (a_ID a) (suspicions m)) m)).
Proof.
  intros Eg Hd Hl Ht. unfold aliveLate, aliveLocked. rewrite Eg, (proj2 (Z.leb_gt _ _)), Hd by lia.
  rewrite (bool_decide_eq_true_2 (Tags (node n) = a_Tags a)) by done. simpl.
  rewrite <- alive_update_node. by rewrite (bool_decide_eq_true_2 (Tags (node n) = a_Tags a)) by done.
Qed.

(** [deadNode] for another node that is held for alive, with a user who takes
    the event. *)
Lemma deadNode_notifies m d nt t r p n :
  getNode m (d_ID d) = Some (p, n) -> DeadOrLeft n = false -> Lives n <= d_Lives d -> d_ID d <> selfID m ->
  eventCh m = true ->
  deadNode m d nt (always t r) =
  Ret (set_delivered (delivered m ++ [mkNodeEvent NodeLeave (node n)])
    (setNode p (accept_dead d t n) (set_mbroadcasts (QueueMsg (mbroadcasts m) (d_ID d) deadMsg (PDead d) nt)
      (set_suspicions (delete (d_ID d) (suspicions m)) m)))).
Proof.
  intros Eg Hdl Hl Hs Hch. unfold deadNode. rewrite Eg, Hdl, (proj2 (Z.ltb_ge _ _)) by done. simpl orb.
  rewrite (bool_decide_eq_false_2 (d_ID d = selfID m)) by done. simpl.
  unfold NotifyLeave, send. simpl. by rewrite Hch.
Qed.

(** A node comes back and dies again: [aliveNode] has marked it as alive and
    released the mutex; [deadNode] then marks it as dead, queues the message
    and tells the user. When [aliveNode] goes on, its older message replaces
    the one of the death in the queue, so that this node spreads that the
    other is alive; and the last the user hears is that it has joined. *)
Theorem death_overtaken c ch m n a d nt nt' t1 t2 t3 r1 r2 r3 b bd :
  reachable c ch m -> queue_ok (mbroadcasts m) ->
  0 <= idSeq (mbroadcasts m) -> idSeq (mbroadcasts m) + 2 < 2 ^ 64 -> eventCh m = true ->
  a_ID a <> selfID m -> a_ID a <> "" -> IPAllowed (config m) (a_IP a) = true ->
  view m !! a_ID a = Some n -> DeadOrLeft n = true -> Lives n < a_Lives a < 2 ^ 32 -> 0 <= Lives n ->
  Tags (node n) = a_Tags a ->
  d_ID d = a_ID a -> d_Lives d = a_Lives a ->
  encode_msg aliveMsg (PAlive a) = Some b -> encode_msg deadMsg (PDead d) = Some bd ->
  exists m1 m2 m3 m4,
    exec m (ActAliveLate a nt (always t1 r1)) = Ret m1 /\
    exec m1 (ActDead d nt' (always t2 r2)) = Ret m2 /\ announces m2 (a_ID a) bd /\
    exec m2 (ActRunTask (length (tasks m)) (always t3 r3)) = Ret m3 /\
    exec m3 (ActRunTask (length (tasks m)) (always t3 r3)) = Ret m4 /\
    view m4 !! a_ID a = Some (accept_dead d t2 (accept_alive a t1 n)) /\
    announces m4 (a_ID a) b /\
    delivered m4 = delivered m ++ [mkNodeEvent NodeLeave (node n); mkNodeEvent NodeJoin (node n)].
Proof.
  intros Hr Hq H0 H2 Hch Hself Hx Hip Hn Hd Hlt Hn0 Htags Hid Hdl Hb Hbd.
  destruct (reachable_good c ch m Hr) as [Hinv _].
  rewrite getNode_view in Hn. destruct (getNode m (a_ID a)) as [[p n']|] eqn:Eg; [|done].
  injection Hn as ->.
  assert (node (accept_alive a t1 n) = node n) as Hnode.
  { unfold accept_alive. simpl. rewrite <- Htags. by destruct (node n). }
  pose proof (aliveLate_rejoin m a nt t1 r1 p n Eg Hd ltac:(lia) Htags) as E1. set (m1 := set_tasks _ _) in E1.
  pose proof (getNode_nid m (a_ID a) p n (inv_mem _ Hinv) Eg) as Hnid. unfold nid in Hnid.
  apply getNode_Some in Eg as [Hp Hpn].
  assert (getNode m1 (d_ID d) = Some (p, accept_alive a t1 n)) as Eg1.
  { apply getNode_Some. rewrite Hid. split; [done|]. simpl. apply lookup_insert_eq. }
  pose proof (deadNode_notifies m1 d nt' t2 r2 p _ Eg1 eq_refl) as E2. rewrite Hnode, Hid in E2.
  specialize (E2 ltac:(simpl; lia) Hself Hch). set (m2 := set_delivered _ _) in E2.
  destruct (QueueMsg_announces (mbroadcasts m) (a_ID a) deadMsg (PDead d) nt' bd Hq H0 ltac:(lia) Hbd Hx)
    as (Hq1 & Hid1 & Ha1).
  destruct (QueueMsg_announces _ (a_ID a) aliveMsg (PAlive a) nt b Hq1 ltac:(lia) ltac:(lia) Hb Hx)
    as (Hq2 & Hid2 & Ha2).
  exists m1, m2. eexists _, _. split_and!; [by simpl; rewrite E1|exact E2|exact Ha1|..].
  - simpl. unfold runTask. simpl tasks. rewrite list_lookup_middle by done. reflexivity.
  - simpl. unfold runTask. simpl tasks.
    rewrite list_lookup_insert_eq by (rewrite length_app; simpl; lia). reflexivity.
  - simpl. unfold NotifyJoin, send. simpl. rewrite Hch. simpl.
    rewrite lookup_view. simpl. rewrite Hp. apply lookup_insert_eq.
  - simpl. unfold NotifyJoin, send. simpl. rewrite Hch. simpl. rewrite Hnid. exact Ha2.
  - simpl. unfold NotifyJoin, send. simpl. rewrite Hch. simpl. by rewrite <- app_assoc.
Qed.

(** A suspicion of the local node, answered. *)
Lemma refuted m s e n :
  inv m -> view m !! selfID m = Some n -> State n = StateAlive ->
  s_ID s = selfID m -> Lives n <= s_Lives s < 2 ^ 32 - 1 ->
  exists m', suspectNode m s e = Ret m' /\ inv m' /\ config m' = config m /\ left m' = left m /\
    view m' !! selfID m = Some (with_lives (refuteValue (s_Lives s) (lives m)) n).
Proof.
  intros Hinv Hn Hst Hs Hl. pose proof (proj2 (inv_lives _ Hinv) _ _ Hn) as Hr. simpl in Hr.
  destruct (suspectNode_refines m s e Hinv) as (m' & E & Hi & Hv & Hc & Hle).
  { split; [lia|]. intros _. lia. }
  exists m'. split_and!; try done. rewrite Hv. unfold spec_suspect. rewrite Hs, Hn.
  rewrite (proj2 (Z.ltb_ge _ _)), (bool_decide_eq_false_2 (State n <> StateAlive)),
    bool_decide_eq_true_2 by (done || lia || tauto). simpl. apply lookup_insert_eq.
Qed.

(** A change of tags can be lost: [UpdateTags] has taken its number, then a
    suspicion of the local node is refuted with the number after it and the
    tags of before; when [UpdateTags] calls [aliveNode], its own message is
    out of date and dropped. *)
Theorem tags_overtaken c ch m n s e e2 nt tags :
  reachable c ch m -> left m = false -> view m !! selfID m = Some n ->
  s_ID s = selfID m -> Lives n <= s_Lives s <= lives m -> lives m + 2 < 2 ^ 32 ->
  let m0 := set_lives (nextLiveNo (lives m)) m in
  let a := mkAlive (nextLiveNo (lives m)) (selfID m) (IP (node n)) (Port (node n)) tags in
  exists m1, suspectNode m0 s e = Ret m1 /\ aliveNode m1 a nt e2 = m1 /\
    view m1 !! selfID m = Some (with_lives (lives m + 2) n).
Proof.
  intros Hr Hl Hn Hs Hlv Hmax m0 a. destruct (reachable_good c ch m Hr) as [Hinv _].
  destruct (inv_local _ Hinv n Hn) as [_ Hst]. pose proof (proj1 (inv_lives _ Hinv)) as H0.
  assert (nextLiveNo (lives m) = lives m + 1) as Hnext by (apply u32_small; lia).
  assert (inv m0) as Hi0 by (apply inv_set_lives; [done|lia]).
  destruct (refuted m0 s e n Hi0 Hn (Hst Hl) Hs ltac:(lia)) as (m1 & E & Hi & Hc & _ & Hv).
  assert (refuteValue (s_Lives s) (lives m0) = lives m + 2) as Hval.
  { unfold refuteValue. simpl. rewrite Hnext. unfold nextLiveNo. rewrite u32_small by lia.
    rewrite (proj2 (Z.ltb_lt _ _)) by lia. lia. }
  rewrite Hval in Hv. exists m1. split_and!; [done| |exact Hv].
  rewrite aliveNode_body. destruct (_ || _); [done|]. unfold aliveBody, aliveLocked.
  change (selfID m0) with (selfID m) in Hv. rewrite getNode_view in Hv. simpl a_ID.
  destruct (getNode m1 (selfID m)) as [[p k]|]; [|done]. injection Hv as ->. simpl a_Lives.
  rewrite (proj2 (Z.leb_le _ _)) by (simpl; lia). done.
Qed.

(** C40: a departure can be lost: [Leave] has set its flag and read the [Lives]
    of the local node; a suspicion is refuted, which raises them; the dead
    message of [Leave] is then out of date and dropped. The node goes on as
    an active member in its own list, nobody is told, and every later call
    of [Leave] returns at once. *)
Theorem leave_overtaken c ch m n s e e2 chn :
  reachable c ch m -> left m = false -> view m !! selfID m = Some n ->
  s_ID s = selfID m -> Lives n <= s_Lives s < 2 ^ 32 - 1 ->
  let m0 := set_left true m in
  let d := mkDead (Lives n) (selfID m) true in
  exists m1 l, suspectNode m0 s e = Ret m1 /\ deadNode m1 d (Some chn) e2 = Ret m1 /\
    view m1 !! selfID m = Some (with_lives l n) /\ State n = StateAlive /\ left m1 = true /\
    (shutdown m1 = false -> forall chn' sent e', Leave m1 chn' sent e' = Ret (None, m1)).
Proof.
  intros Hr Hl Hn Hs Hlv m0 d. destruct (reachable_good c ch m Hr) as [Hinv _].
  destruct (inv_local _ Hinv n Hn) as [_ Hst]. specialize (Hst Hl).
  pose proof (proj2 (inv_lives _ Hinv) _ _ Hn) as H0. simpl in H0.
  assert (inv m0) as Hi0 by by apply inv_set_left.
  destruct (refuted m0 s e n Hi0 Hn Hst Hs Hlv) as (m1 & E & Hi & Hc & Hle & Hv).
  eexists m1, _. split_and!; [done| |exact Hv|done|done|].
  - unfold deadNode. change (selfID m0) with (selfID m) in Hv. rewrite getNode_view in Hv. simpl d_ID.
    destruct (getNode m1 (selfID m)) as [[p k]|]; [|done]. injection Hv as ->. simpl d_Lives. simpl Lives.
    destruct (refuteValue_range (s_Lives s) (lives m0)) as [Hgt _]; [lia|]. change (lives m0) with (lives m) in Hgt.
    by rewrite (proj2 (Z.ltb_lt _ _)) by lia.
  - intros Hsd chn' sent e'. unfold Leave. by rewrite Hsd, Hle.
Qed.

End Races.

(** ** Examples *)

Section Witnesses.
#[local] Existing Instance item_heap.
#[local] Existing Instance item_heap_laws.
#[local] Existing Instance bit_codec.

(** [n2], dead at its number 5 in [wRace], comes back with 6. *)
Definition al6 : alive := mkAlive 6 "n2" ip2 7946 [].
Definition de6 : dead := mkDead 6 "n2" false.
Definition nRace : nodeState := default (mkNodeState (mkNode "" [] 0 []) 0 StateAlive 0) (view wRace !! "n2").
Definition bytes_of (t : msgType) (p : payload) : list byte := default [] (encode_msg t p).

(** The queue has gone through the operations of the run. *)
Definition ops5 : list queue_op :=
  [OpQueueMsg "n1" aliveMsg
     (PAlive (mkAlive 1 "n1" (map z2b [0; 0; 0; 0; 0; 0; 0; 0; 0; 0; 255; 255; 10; 0; 0; 1]) 7946 [])) None;
   OpQueueMsg "n2" aliveMsg (PAlive al2) None; OpQueueMsg "n2" deadMsg (PDead (mkDead 5 "n2" false)) None].

Lemma queue_race : queue_ok (mbroadcasts wRace).
Proof.
  destruct (queue_run_ok ops5 (NewBroadcastQueue 4)) as (q & E & Hq).
  - apply NewBroadcastQueue_ok.
  - simpl. lia.
  - simpl. lia.
  - repeat constructor.
  - assert (queue_run (NewBroadcastQueue 4) ops5 = Ret (mbroadcasts wRace)) as E' by (vm_compute; reflexivity).
    rewrite E' in E. injection E as <-. exact Hq.
Qed.

Lemma death_overtaken_witness :
  exists m1 m2 m3 m4,
    exec wRace (ActAliveLate al6 None (always 4 0)) = Ret m1 /\
    exec m1 (ActDead de6 None (always 5 0)) = Ret m2 /\
    exec m2 (ActRunTask 0 (always 6 0)) = Ret m3 /\ exec m3 (ActRunTask 0 (always 6 0)) = Ret m4 /\
    announces m4 "n2" (bytes_of aliveMsg (PAlive al6)).
Proof.
  destruct (death_overtaken exCfg true wRace nRace al6 de6 None None 4 5 6 0 0 0
    (bytes_of aliveMsg (PAlive al6)) (bytes_of deadMsg (PDead de6)))
    as (m1 & m2 & m3 & m4 & E1 & E2 & _ & E3 & E4 & _ & H & _).
  - exact reach_race.
  - exact queue_race.
  - vm_compute. discriminate.
  - vm_compute. reflexivity.
  - reflexivity.
  - vm_compute. discriminate.
  - discriminate.
  - reflexivity.
  - vm_compute. reflexivity.
  - vm_compute. reflexivity.
  - split; vm_compute; reflexivity.
  - vm_compute. discriminate.
  - vm_compute. reflexivity.
  - reflexivity.
  - reflexivity.
  - vm_compute. reflexivity.
  - vm_compute. reflexivity.
  - exists m1, m2, m3, m4. split; [exact E1|]. split; [exact E2|]. split; [exact E3|].
    split; [exact E4|exact H].
Defined.

Definition n1 : nodeState := default (mkNodeState (mkNode "" [] 0 []) 0 StateAlive 0) (view w2 !! "n1").
Definition su1' : suspect := mkSuspect 1 "n1" "n2".

Lemma tags_overtaken_witness :
  exists m1, suspectNode (set_lives 2 w2) su1' (at_ 3) = Ret m1 /\
    aliveNode m1 (mkAlive 2 "n1" (IP (node n1)) 7946 [x01]) None (at_ 4) = m1.
Proof.
  destruct (tags_overtaken exCfg true w2 n1 su1' (at_ 3) (at_ 4) None [x01] reach_w2)
    as (m1 & E1 & E2 & _).
  - reflexivity.
  - vm_compute. reflexivity.
  - vm_compute. reflexivity.
  - split; vm_compute; discriminate.
  - vm_compute. reflexivity.
  - exists m1. split; [exact E1|exact E2].
Defined.

Lemma leave_overtaken_witness :
  exists m1, suspectNode (set_left true w2) su1' (at_ 3) = Ret m1 /\
    deadNode m1 (mkDead 1 "n1" true) (Some 0) (at_ 4) = Ret m1 /\ left m1 = true.
Proof.
  destruct (leave_overtaken exCfg true w2 n1 su1' (at_ 3) (at_ 4) 0 reach_w2)
    as (m1 & l & E1 & E2 & _ & _ & E3 & _).
  - reflexivity.
  - vm_compute. reflexivity.
  - vm_compute. reflexivity.
  - split; vm_compute; [discriminate|reflexivity].
  - exists m1. split; [exact E1|]. split; [exact E2|exact E3].
Defined.

End Witnesses.
