(* ===== verification/PushPull.v ===== *)
(** * Push/pull state exchange ([pushpull.go], [handlePushPull] of
    [net_handlers.go])

    Two nodes exchange their whole member lists over a stream. A stream is
    the list of its bytes; a reader that reaches its end gets an error,
    [None]. *)

From S2P Require Import Prelude GoMath Types Interfaces Awareness Suspicion Broadcast Config NetAddr Spec State StateFacts Maintenance MaintenanceFacts Lifecycle System Samples.
From Stdlib Require Import Strings.Byte.

Definition toMerge (n : nodeState) : stateToMerge :=
  mkStateToMerge (Lives n) (ID (node n)) (IP (node n)) (Port (node n)) (Tags (node n))
    (StateType_code (State n)).

Section PushPull.
Context {HO : HeapOps TransmitCapItem} {CO : Codec}.
Implicit Types m : Memberlist.

Definition localState m : outcome (list stateToMerge) :=
  outcome_map (map toMerge) (derefs m (nodes m)).

(** The encoder appends the values one after the other. *)
Fixpoint encodeAll (ps : list payload) : option (list byte) :=
  match ps with
  | [] => Some []
  | p :: ps =>
      match enc p with
      | None => None
      | Some b => match encodeAll ps with None => None | Some bs => Some (b ++ bs) end
      end
  end.

Definition encodePushPullMsg (localNodes : list stateToMerge) (usrState : list byte)
    : option (list byte) :=
  let header := mkPushPullHeader (len localNodes) (len usrState) in
  match encodeAll (PHeader header :: map PState localNodes) with
  | None => None
  | Some b => Some (msgByte pushPullMsg :: b ++ usrState)
  end.

(** [n] values of type [stateToMerge]. *)
Fixpoint readStates (n : nat) (b : list byte) : option (list stateToMerge * list byte) :=
  match n with
  | O => Some ([], b)
  | S n =>
      match dec KState b with
      | Some (PState s, b) =>
          match readStates n b with
          | Some (ss, b) => Some (s :: ss, b)
          | None => None
          end
      | _ => None
      end
  end.

(** [readRemoteState], from behind the type byte; a negative length makes the
    allocation of the slice panic. *)
Definition readRemoteState (b : list byte)
    : outcome (option (list stateToMerge * list byte)) :=
  match dec KHeader b with
  | Some (PHeader h, b) =>
      if Nodes h <? 0 then Panic
      else
        match readStates (Z.to_nat (Nodes h)) b with
        | None => Ret None
        | Some (remoteNodes, b) =>
            if UserStateLen h =? 0 then Ret (Some (remoteNodes, []))
            else if UserStateLen h <? 0 then Panic
            else if len b <? UserStateLen h then Ret None
            else Ret (Some (remoteNodes, take (Z.to_nat (UserStateLen h)) b))
        end
  | _ => Ret None
  end.

Definition mergeOne m (r : stateToMerge) (e : Env) : outcome Memberlist :=
  match StateType_of_code (m_State r) with
  | Some StateAlive =>
      Ret (aliveNode m (mkAlive (m_Lives r) (m_ID r) (m_IP r) (m_Port r) (m_Tags r)) None e)
  | Some StateLeft => deadNode m (mkDead (m_Lives r) (m_ID r) true) None e
  | Some StateDead | Some StateSuspect =>
      suspectNode m (mkSuspect (m_Lives r) (m_ID r) (selfID m)) e
  | None => Ret m
  end.

(** [env] gives the surroundings of each call. *)
Fixpoint mergeState m (remote : list stateToMerge) (env : nat -> Env) : outcome Memberlist :=
  match remote with
  | [] => Ret m
  | r :: remote =>
      let! m := mergeOne m r (env (length remote)) in
      mergeState m remote env
  end.

(** The local state lists the members. *)
Lemma localState_spec m :
  mem_ok m -> exists ls, localState m = Ret ls /\
    forall r, r ∈ ls <-> exists n, view m !! nid n = Some n /\ r = toMerge n.
Proof using.
  intros Hm. unfold localState. rewrite derefs_objects by done. eexists. split; [done|].
  intros r. simpl. rewrite list_elem_of_fmap. split.
  - intros (n & -> & Hn). exists n. split; [by apply elem_of_objects|done].
  - intros (n & Hn & ->). exists n. split; [done|by apply elem_of_objects].
Qed.

(** ** The round trip *)

Context {CL : CodecLaws CO}.

Lemma readStates_encodeAll ss b rest :
  encodeAll (map PState ss) = Some b -> readStates (length ss) (b ++ rest) = Some (ss, rest).
Proof using CL.
  revert b. induction ss as [|s ss IH]; intros b; simpl; [by intros [= <-]|].
  destruct (enc (PState s)) as [b1|] eqn:E1; [|done].
  destruct (encodeAll (map PState ss)) as [b2|]; [|done]. intros [= <-].
  rewrite <- app_assoc. pose proof (dec_enc (PState s) b1 (b2 ++ rest) E1) as Hd.
  simpl in Hd. rewrite Hd, IH by done. done.
Qed.

Lemma read_encode ss us b :
  encodePushPullMsg ss us = Some b ->
  exists b', b = msgByte pushPullMsg :: b' /\ readRemoteState b' = Ret (Some (ss, us)).
Proof using CL.
  unfold encodePushPullMsg. set (h := mkPushPullHeader _ _). cbn [encodeAll].
  destruct (enc (PHeader h)) as [b1|] eqn:E1; [|done].
  destruct (encodeAll (map PState ss)) as [b2|] eqn:E2; [|done]. intros [= <-].
  eexists. split; [done|]. unfold readRemoteState. rewrite <- app_assoc.
  pose proof (dec_enc (PHeader h) b1 (b2 ++ us) E1) as Hd. simpl in Hd. rewrite Hd.
  unfold h. cbn [Nodes UserStateLen]. zcmp.
  rewrite Nat2Z.id, (readStates_encodeAll ss b2 us E2).
  destruct us as [|x us]; [done|].
  zcmp.
  rewrite !(proj2 (Z.ltb_ge _ _)) by (simpl; lia).
  by rewrite Nat2Z.id, firstn_all.
Qed.

(** ** Merging *)

(** The entries a node can take: 32-bit numbers, and about itself not the
    largest one. *)
Definition fine_state m (r : stateToMerge) : Prop :=
  0 <= m_Lives r < 2 ^ 32 /\ (m_ID r = selfID m -> m_Lives r < 2 ^ 32 - 1).

Lemma mergeOne_good P m r e :
  inv m -> fine_state m r -> exists m', mergeOne m r e = Ret m' /\ good P m m'.
Proof using.
  clear CL. intros Hinv [Hr Hself]. unfold mergeOne.
  destruct (StateType_of_code (m_State r)) as [[]|].
  - eexists. split; [done|]. by apply aliveNode_good.
  - by apply suspectNode_good.
  - by apply suspectNode_good.
  - apply deadNode_good; [done|]. split; simpl; auto.
  - exists m. split; [done|]. by apply good_core.
Qed.

Lemma fine_state_config m m' r : config m' = config m -> fine_state m r -> fine_state m' r.
Proof using. intros Hc. unfold fine_state, selfID. by rewrite Hc. Qed.

Lemma mergeState_good P m remote env :
  inv m -> Forall (fine_state m) remote ->
  exists m', mergeState m remote env = Ret m' /\ good P m m'.
Proof using.
  clear CL. revert m. induction remote as [|r remote IH]; intros m Hinv Hf; cbn [mergeState].
  - exists m. split; [done|]. by apply good_core.
  - apply Forall_cons in Hf as [Hr Hf].
    destruct (mergeOne_good P m r (env (length remote)) Hinv Hr) as (m1 & -> & Hg).
    cbn [obind]. destruct (IH m1) as (m2 & E & Hg2); [apply Hg| |].
    { eapply Forall_impl; [exact Hf|]. intros x. apply fine_state_config, Hg. }
    exists m2. split; [done|]. by eapply good_trans.
Qed.

Lemma good_advances m m' : good (fun _ => False) m m' -> advances (view m) (view m').
Proof using. intros (_ & _ & Hs). by apply spec_steps_advance in Hs. Qed.

Lemma mergeOne_left m r e m' :
  inv m -> fine_state m r -> mergeOne m r e = Ret m' -> left m' = left m.
Proof using.
  clear CL. intros Hinv [Hr Hself]. unfold mergeOne.
  destruct (StateType_of_code (m_State r)) as [[]|].
  - intros [= <-]. apply aliveNode_frame.
  - destruct (suspectNode_refines m (mkSuspect (m_Lives r) (m_ID r) (selfID m)) e)
      as (k & -> & _ & _ & _ & Hl); [done..|]. by intros [= <-].
  - destruct (suspectNode_refines m (mkSuspect (m_Lives r) (m_ID r) (selfID m)) e)
      as (k & -> & _ & _ & _ & Hl); [done..|]. by intros [= <-].
  - destruct (deadNode_refines m (mkDead (m_Lives r) (m_ID r) true) None e)
      as (k & -> & _ & _ & _ & Hl); [done|split; simpl; auto|]. by intros [= <-].
  - by intros [= <-].
Qed.

(** A node that is known at [Lives] [l] or a later one. *)
Definition knows m (x : string) (l : Z) : Prop :=
  exists n, view m !! x = Some n /\ l <= Lives n.

Lemma knows_advances m m' x l : advances (view m) (view m') -> knows m x l -> knows m' x l.
Proof using.
  intros Ha (n & Hn & Hl). destruct (Ha x n Hn) as (n' & Hn' & Hs & _).
  exists n'. split; [done|]. unfold supersedes in Hs. lia.
Qed.

(** An alive message that passes the filter is known afterwards. *)
Lemma aliveNode_learns m a nt e :
  mem_ok m -> IPAllowed (config m) (a_IP a) = true ->
  (a_ID a = selfID m -> left m = false) -> knows (aliveNode m a nt e) (a_ID a) (a_Lives a).
Proof using.
  clear CL. intros Hm Hip Hl. unfold knows. rewrite aliveNode_view by done.
  unfold spec_alive. rewrite Hip.
  assert (left m && bool_decide (a_ID a = selfID m) = false) as ->.
  { destruct (decide (a_ID a = selfID m)) as [Hx|Hx].
    - by rewrite Hl.
    - rewrite bool_decide_eq_false_2 by done. by rewrite andb_false_r. }
  simpl. destruct (view m !! a_ID a) as [n|] eqn:En.
  - destruct (Z.leb_spec (a_Lives a) (Lives n)); [by exists n|].
    rewrite lookup_insert_eq. eexists. split; [done|]. simpl. lia.
  - rewrite lookup_insert_eq. eexists. split; [done|]. simpl. lia.
Qed.

Lemma mergeOne_learns m r e m' :
  mem_ok m -> mergeOne m r e = Ret m' -> m_State r = 0 ->
  IPAllowed (config m) (m_IP r) = true -> (m_ID r = selfID m -> left m = false) ->
  knows m' (m_ID r) (m_Lives r).
Proof using.
  clear CL. intros Hm E Hst Hip Hl. unfold mergeOne in E. rewrite Hst in E. simpl in E.
  injection E as <-. by apply (aliveNode_learns m (mkAlive _ _ _ _ _)).
Qed.

Lemma mergeState_learns m remote env m' r :
  inv m -> Forall (fine_state m) remote -> left m = false ->
  mergeState m remote env = Ret m' ->
  r ∈ remote -> m_State r = 0 -> IPAllowed (config m) (m_IP r) = true ->
  knows m' (m_ID r) (m_Lives r).
Proof using.
  clear CL. revert m. induction remote as [|r0 remote IH]; intros m Hinv Hf Hl E Hin Hst Hip.
  { by apply not_elem_of_nil in Hin. }
  cbn [mergeState] in E. apply Forall_cons in Hf as [Hr0 Hf].
  destruct (mergeOne_good (fun _ => False) m r0 (env (length remote)) Hinv Hr0)
    as (m1 & E1 & Hg). rewrite E1 in E. cbn [obind] in E.
  pose proof Hg as (Hi1 & Hc1 & _).
  assert (Forall (fine_state m1) remote) as Hf1.
  { eapply Forall_impl; [exact Hf|]. intros x. by apply fine_state_config. }
  apply elem_of_cons in Hin as [->|Hin].
  - destruct (mergeState_good (fun _ => False) m1 remote env Hi1 Hf1) as (m2 & E2 & Hg2).
    rewrite E2 in E. injection E as <-.
    apply (knows_advances m1); [by apply good_advances|].
    eapply mergeOne_learns; [apply Hinv|done..].
  - apply (IH m1); try done; [|by rewrite Hc1].
    by rewrite (mergeOne_left m r0 _ m1 Hinv Hr0 E1).
Qed.

(** What merging comes to. *)
Lemma mergeState_summary m remote env :
  inv m -> left m = false -> Forall (fine_state m) remote ->
  exists m', mergeState m remote env = Ret m' /\ inv m' /\ advances (view m) (view m') /\
    forall r, r ∈ remote -> m_State r = 0 -> IPAllowed (config m) (m_IP r) = true ->
      knows m' (m_ID r) (m_Lives r).
Proof using.
  clear CL. intros Hinv Hl Hf.
  destruct (mergeState_good (fun _ => False) m remote env Hinv Hf) as (m' & E & Hg).
  exists m'. split_and!; [done|apply Hg|by apply good_advances|].
  intros r Hin Hst Hip. by eapply mergeState_learns.
Qed.

(** What [encodePushPullMsg] writes after its type byte,
    [readRemoteState] reads back: the same nodes and the same user state. *)
Theorem pushpull_roundtrip ss us b :
  encodePushPullMsg ss us = Some b ->
  exists b', b = msgByte pushPullMsg :: b' /\ readRemoteState b' = Ret (Some (ss, us)).
Proof using CL. apply read_encode. Qed.

(** Merging a peer's state returns and keeps the invariant of a
    reachable node; nothing known is lost or gets older; and every node the
    peer holds for alive, with an address that passes the filter, is known
    afterwards at the peer's [Lives] or later. *)
Theorem merge_learns c ch m remote env :
  reachable c ch m -> left m = false -> Forall (fine_state m) remote ->
  exists m', mergeState m remote env = Ret m' /\ inv m' /\ advances (view m) (view m') /\
    forall r, r ∈ remote -> m_State r = 0 -> IPAllowed (config m) (m_IP r) = true ->
      knows m' (m_ID r) (m_Lives r).
Proof using.
  clear CL. intros Hr. destruct (reachable_good c ch m Hr) as [Hinv _].
  by apply mergeState_summary.
Qed.

End PushPull.

(** A header with a negative number of nodes, or of bytes of user state,
    makes [readRemoteState] panic, in the goroutine that serves the
    connection: any peer that can open a stream can stop the program. *)
Theorem negative_header_panics `{CodecLaws} nodes us b rest :
  enc (PHeader (mkPushPullHeader nodes us)) = Some b ->
  nodes < 0 \/ (nodes = 0 /\ us < 0) ->
  readRemoteState (b ++ rest) = Panic.
Proof.
  intros E Hneg. unfold readRemoteState.
  pose proof (dec_enc _ b rest E) as Hd. simpl in Hd. rewrite Hd. simpl Nodes. simpl UserStateLen.
  destruct Hneg as [Hn|[-> Hu]].
  - by rewrite (proj2 (Z.ltb_lt _ _)).
  - simpl. rewrite (proj2 (Z.eqb_neq _ _)) by lia. by rewrite (proj2 (Z.ltb_lt _ _)).
Qed.

(** ** The number of concurrent exchanges *)

(** The counter with the requests in progress: those that were admitted and
    those that were refused and have not decremented it yet. *)
Record pushPulls := mkPushPulls { numPushPull : Z; admitted : nat; refused : nat }.

Inductive pp_event := PPEnter | PPLeaveAdmitted | PPLeaveRefused.

(** [handlePushPull] up to its test, and its deferred decrement. *)
Definition handlePushPull_enter (maxPushPulls : Z) (s : pushPulls) : pushPulls :=
  let nPP := u32 (numPushPull s + 1) in
  if u32 maxPushPulls <=? nPP
  then mkPushPulls nPP (admitted s) (S (refused s))
  else mkPushPulls nPP (S (admitted s)) (refused s).

Definition pp_step (maxPushPulls : Z) (s : pushPulls) (ev : pp_event) : pushPulls :=
  match ev with
  | PPEnter => handlePushPull_enter maxPushPulls s
  | PPLeaveAdmitted =>
      match admitted s with
      | O => s
      | S n => mkPushPulls (u32 (numPushPull s + (2 ^ 32 - 1))) n (refused s)
      end
  | PPLeaveRefused =>
      match refused s with
      | O => s
      | S n => mkPushPulls (u32 (numPushPull s + (2 ^ 32 - 1))) (admitted s) n
      end
  end.

Definition pp_run (maxPushPulls : Z) (evs : list pp_event) : pushPulls :=
  foldl (pp_step maxPushPulls) (mkPushPulls 0 0 0) evs.

Lemma u32_add_l z k : u32 (u32 z + k) = u32 (z + k).
Proof. unfold u32. apply Zplus_mod_idemp_l. Qed.

Lemma pp_run_inv mx evs :
  1 <= mx < 2 ^ 32 -> len evs < 2 ^ 32 - 1 ->
  let s := pp_run mx evs in
  numPushPull s = Z.of_nat (admitted s + refused s) /\
  (admitted s + refused s <= length evs)%nat /\ Z.of_nat (admitted s) <= mx - 1.
Proof.
  intros Hmx. unfold pp_run. induction evs as [|ev evs IH] using rev_ind; intros Hlen.
  { simpl. lia. }
  rewrite length_app in *. simpl length in *. rewrite foldl_app. cbn [foldl].
  destruct IH as (Hn & Hle & Hadm); [lia|].
  set (s := foldl _ _ _) in *.
  destruct ev; simpl; unfold handlePushPull_enter; cbv zeta.
  - rewrite Hn, !u32_small by lia.
    destruct (Z.leb_spec mx (Z.of_nat (admitted s + refused s) + 1)); simpl; lia.
  - destruct (admitted s) as [|k] eqn:Ek; [rewrite Ek; lia|]. simpl. split_and!; [|lia..].
    rewrite Hn. unfold u32. rewrite <- (Z.mod_small (Z.of_nat (k + refused s)) (2 ^ 32)) by lia.
    replace (Z.of_nat (S k + refused s) + (2 ^ 32 - 1))
      with (Z.of_nat (k + refused s) + 1 * 2 ^ 32) by lia.
    by rewrite Z_mod_plus_full.
  - destruct (refused s) as [|k] eqn:Ek; [rewrite Ek; lia|]. simpl. split_and!; [|lia..].
    rewrite Hn. unfold u32. rewrite <- (Z.mod_small (Z.of_nat (admitted s + k)) (2 ^ 32)) by lia.
    replace (Z.of_nat (admitted s + S k) + (2 ^ 32 - 1))
      with (Z.of_nat (admitted s + k) + 1 * 2 ^ 32) by lia.
    by rewrite Z_mod_plus_full.
Qed.

(** Over every interleaving of push/pull requests the counter is the
    number of requests in progress, and at most [MaxPushPulls - 1] of them are
    served at the same time: one less than the configuration says. In
    particular a limit of one serves none. *)
Theorem pushpull_limit mx evs :
  1 <= mx < 2 ^ 32 -> len evs < 2 ^ 32 - 1 ->
  let s := pp_run mx evs in
  numPushPull s = Z.of_nat (admitted s + refused s) /\ Z.of_nat (admitted s) <= mx - 1.
Proof. intros Hmx Hlen. destruct (pp_run_inv mx evs Hmx Hlen) as (? & _ & ?). done. Qed.

Lemma pushpull_limit_witness :
  let s := pp_run 2 [PPEnter; PPEnter; PPLeaveRefused] in
  numPushPull s = Z.of_nat (admitted s + refused s) /\ Z.of_nat (admitted s) <= 1.
Proof. apply (pushpull_limit 2 [PPEnter; PPEnter; PPLeaveRefused]); simpl; lia. Defined.

(** The push/pull interval grows with the logarithm of the cluster: up to
    32 nodes it is the configured one; from there to 1024 nodes it is
    multiplied by one more than the number of doublings needed to get from 32
    to [n], in floating point as the code computes it. *)
Theorem pushPullScale_log2 interval n :
  0 <= interval < 2 ^ 59 -> 0 <= n <= 1024 ->
  pushPullScale interval n =
    if n <=? 32 then interval else (Z.log2_up n - 5 + 1) * interval.
Proof.
  intros Hi Hn. unfold pushPullScale, pushPullScaleThreshold.
  destruct (Z.leb_spec n 32) as [|Hgt]; [done|].
  pose proof (log2_bracket_ok n ltac:(lia)) as Hb. unfold log2_bracket in Hb.
  apply Z.eqb_eq in Hb. rewrite Hb. apply i64_small.
  assert (Z.log2_up n <= 10) by (apply (Z.log2_up_le_mono n 1024); lia).
  assert (5 <= Z.log2_up n) by (apply (Z.log2_up_le_mono 32 n); lia). nia.
Qed.

Lemma pushPullScale_log2_witness : pushPullScale 30000000000 100 = 3 * 30000000000.
Proof.
  rewrite (pushPullScale_log2 30000000000 100) by lia. vm_compute. reflexivity.
Defined.

(** ** Witnesses *)

Section Witnesses.
#[local] Existing Instance item_heap.
#[local] Existing Instance bit_codec.
#[local] Existing Instance bit_codec_laws.

Definition st3 : stateToMerge := mkStateToMerge 9 "n3" (map z2b [10; 0; 0; 3]) 7946 [] 0.

Lemma pushpull_roundtrip_witness :
  exists b b', encodePushPullMsg [st3] [x01; x02] = Some b /\
    b = msgByte pushPullMsg :: b' /\ readRemoteState b' = Ret (Some ([st3], [x01; x02])).
Proof.
  destruct (encodePushPullMsg [st3] [x01; x02]) as [b|] eqn:E; [|vm_compute in E; discriminate E].
  destruct (pushpull_roundtrip [st3] [x01; x02] b E) as (b' & Hb & Hr).
  exists b, b'. split_and!; [reflexivity|exact Hb|exact Hr].
Defined.

Lemma merge_learns_witness :
  exists m', mergeState w2 [st3] (fun _ => at_ 5) = Ret m' /\ knows m' "n3" 9.
Proof.
  destruct (merge_learns exCfg true w2 [st3] (fun _ => at_ 5) reach_w2 w2_left)
    as (m' & E & _ & _ & H).
  - constructor; [|constructor]. split; [simpl; lia|]. vm_compute. discriminate.
  - exists m'. split; [exact E|]. apply (H st3); [by left|reflexivity|vm_compute; reflexivity].
Defined.

Lemma negative_header_panics_witness :
  exists b, enc (PHeader (mkPushPullHeader (-1) 0)) = Some b /\
            readRemoteState (b ++ []) = Panic.
Proof.
  destruct (enc (PHeader (mkPushPullHeader (-1) 0))) as [b|] eqn:E;
    [|vm_compute in E; discriminate E].
  exists b. split; [reflexivity|].
  apply (negative_header_panics (-1) 0 b [] E). left. lia.
Defined.

End Witnesses.
