(* ===== verification/Restart.v ===== *)
(** * A node that starts again under its name

    A node that has stopped and starts again counts from one, while its peers
    remember a higher number. If they hold it for suspect, dead or gone, it
    hears so at its first exchange and answers with a number above theirs. If
    they still hold it for alive, nobody contradicts anybody: its peers ignore
    what it announces, and it takes over from them what it had announced in
    its former life. *)

From S2P Require Import Prelude Types Interfaces Awareness Suspicion Broadcast BroadcastFacts Config NetAddr Spec State StateFacts Maintenance MaintenanceFacts Lifecycle System Samples Membership PushPull.
From Stdlib Require Import Strings.Byte.

Section Restart.
Context {HO : HeapOps TransmitCapItem} {CO : Codec}.
Implicit Types m : Memberlist.

(** A node with the configuration [c] that has just started, at the address
    [a] and [p], which it allows. *)
Record fresh_start (c : Cfg.Config) (ch : bool) (e : Env) m (a : ip) (p : Z) : Prop := mkFresh {
  fs_alive : setAlive (newMemberlist c ch) e = (None, m);
  fs_addr : GetAdvertiseAddr c = Some (a, p);
  fs_allowed : IPAllowed c a = true
}.

Lemma fresh_facts c ch e m a p :
  fresh_start c ch e m a p ->
  reachable c ch m /\ inv m /\ config m = c /\ lives m = 1 /\ left m = false /\
  view m = {[ Cfg.ID c := mkNodeState (mkNode (Cfg.ID c) a p (Cfg.Tags c)) 1 StateAlive (now e) ]}.
Proof.
  intros [E Ha Hip]. destruct (setAlive_fresh c ch e m E) as (Hr & a' & p' & Ha' & Hc & Hl & _ & Hv).
  rewrite Ha in Ha'. injection Ha' as <- <-. rewrite Hip in Hv.
  split_and!; try done; [apply (reachable_good c ch m Hr)|].
  unfold setAlive in E. simpl in E. rewrite Ha in E. case_match; [done|]. injection E as <-.
  by rewrite (proj2 (aliveNode_frame _ _ _ _)).
Qed.

(** With peers that hold it for alive. The hello of the restarted node
    changes nothing at a peer that knows it at any number. What such a peer
    reports replaces the tags it was configured with by those of its former
    life, and its next call of [UpdateTags] changes nothing either. *)
Theorem restart_old_tags c ch e m a p l told tip tport nt e1 :
  fresh_start c ch e m a p -> 2 <= l < 2 ^ 32 -> IPAllowed c tip = true ->
  let hello := mkAlive 1 (Cfg.ID c) a p (Cfg.Tags c) in
  let old := mkAlive l (Cfg.ID c) tip tport told in
  let m1 := aliveNode m old nt e1 in
  (forall c' ch' m' k nt' e', reachable c' ch' m' -> view m' !! Cfg.ID c = Some k -> 1 <= Lives k ->
     aliveNode m' hello nt' e' = m') /\
  view m1 !! Cfg.ID c = Some (mkNodeState (mkNode (Cfg.ID c) a p told) l StateAlive (now e)) /\
  forall tags chn sent e2, len tags <= TagMaxSize ->
    exists err m2, UpdateTags m1 tags chn sent e2 = Ret (err, m2) /\ view m2 = view m1.
Proof.
  intros Hf Hl Htip hello old m1. destruct (fresh_facts c ch e m a p Hf) as (Hr & Hinv & Hc & Hlv & Hleft & Hv).
  assert (selfID m = Cfg.ID c) as Hid by (unfold selfID; by rewrite Hc).
  destruct (aliveNode_frame m old nt e1) as [Hc1 Hleft1]. fold m1 in Hc1, Hleft1.
  assert (view m1 !! Cfg.ID c = Some (mkNodeState (mkNode (Cfg.ID c) a p told) l StateAlive (now e))) as Hv1.
  { unfold m1. rewrite aliveNode_view by apply Hinv. unfold spec_alive. simpl.
    rewrite Hleft, Hc, Htip, Hv, lookup_singleton_eq. simpl. rewrite (proj2 (Z.leb_gt _ _)) by lia.
    rewrite lookup_insert_eq. done. }
  split_and!; [|done|].
  - intros c' ch' m' k nt' e' Hr' Hk Hk1. rewrite aliveNode_body. destruct (_ || _); [done|].
    unfold aliveBody, aliveLocked. rewrite getNode_view in Hk. simpl a_ID.
    destruct (getNode m' (Cfg.ID c)) as [[q k']|]; [|done]. injection Hk as ->. simpl a_Lives.
    by rewrite (proj2 (Z.leb_le _ _)).
  - intros tags chn sent e2 Ht. assert (selfID m1 = Cfg.ID c) as Hid1 by (unfold selfID; congruence).
    pose proof Hv1 as Hg. rewrite getNode_view in Hg.
    destruct (getNode m1 (Cfg.ID c)) as [[q k]|] eqn:Eg; [|done]. injection Hg as ->.
    rewrite <- Hid1 in Eg.
    destruct (UpdateTags_view m1 tags chn sent e2 q _ (aliveNode_inv m old nt e1 Hinv ltac:(simpl; lia)) Eg Ht)
      as (err & m2 & E & _ & _ & Hv2).
    exists err, m2. split; [done|]. rewrite Hv2. unfold spec_alive. simpl a_ID. simpl a_Lives.
    destruct (_ || _); [done|]. rewrite Hid1, Hv1. unfold m1. rewrite aliveNode_lives, Hlv.
    by rewrite (proj2 (Z.leb_le _ _)) by (simpl; change (nextLiveNo 1) with 2; lia).
Qed.

(** With peers that hold it for suspect, dead or gone. Told so, the
    restarted node takes a number above theirs, with the tags it was
    configured with, and announces itself again. *)
Theorem restart_heals c ch e m a p r st e1 :
  fresh_start c ch e m a p -> m_ID r = Cfg.ID c -> 1 <= m_Lives r < 2 ^ 32 - 1 ->
  StateType_of_code (m_State r) = Some st -> st <> StateAlive ->
  exists m1 l, mergeOne m r e1 = Ret m1 /\ m_Lives r < l < 2 ^ 32 /\ lives m1 = l /\
    view m1 !! Cfg.ID c = Some (mkNodeState (mkNode (Cfg.ID c) a p (Cfg.Tags c)) l StateAlive (now e)) /\
    mbroadcasts m1 = QueueMsg (mbroadcasts m) (Cfg.ID c) aliveMsg
                       (PAlive (mkAlive l (Cfg.ID c) a p (Cfg.Tags c))) None.
Proof.
  intros Hf Hid Hlr Hst Hne. destruct (fresh_facts c ch e m a p Hf) as (Hr & Hinv & Hc & Hlv & Hleft & Hv).
  assert (selfID m = Cfg.ID c) as Hself by (unfold selfID; by rewrite Hc).
  set (n := mkNodeState (mkNode (Cfg.ID c) a p (Cfg.Tags c)) 1 StateAlive (now e)) in *.
  assert (view m !! selfID m = Some n) as Hn by (rewrite Hself, Hv; apply lookup_singleton_eq).
  rewrite getNode_view in Hn. destruct (getNode m (selfID m)) as [[q k]|] eqn:Eg; [|done]. injection Hn as ->.
  set (l := refuteValue (m_Lives r) (lives m)).
  assert (mergeOne m r e1 = refute m q n (m_Lives r)) as E.
  { unfold mergeOne. rewrite Hst. destruct st; [done|..].
    - by apply suspect_self; simpl; [| |congruence| |lia].
    - by apply suspect_self; simpl; [| |congruence| |lia].
    - by apply dead_self; simpl; [| |congruence| |lia]. }
  rewrite E, refute_value by lia. cbv zeta. fold l. eexists _, l. split_and!; [reflexivity|..].
  - apply refuteValue_range. lia.
  - apply refuteValue_range. lia.
  - done.
  - apply getNode_Some in Eg as [Hq _].
    change (view (setNode q (with_lives l n) m) !! Cfg.ID c = Some (with_lives l n)).
    rewrite (view_setNode m _ _ _ (inv_mem _ Hinv) Hq), Hself. apply lookup_insert_eq.
  - done.
Qed.

End Restart.

(** ** Examples *)

Section Witnesses.
#[local] Existing Instance item_heap.
#[local] Existing Instance bit_codec.

Lemma fresh_w1 : fresh_start exCfg true (at_ 0) w1 (map z2b (v4InV6Prefix ++ [10; 0; 0; 1])) 7946.
Proof. split; vm_compute; reflexivity. Qed.

(** [n1] restarts; a peer remembers it at number 3, with tags. *)
Lemma restart_old_tags_witness :
  let old := mkAlive 3 "n1" (map z2b (v4InV6Prefix ++ [10; 0; 0; 1])) 7946 [x07] in
  let m1 := aliveNode w1 old None (at_ 1) in
  (exists n, view m1 !! "n1" = Some n /\ Tags (node n) = [x07]) /\
  exists err m2, UpdateTags m1 [x08] 0 true (at_ 2) = Ret (err, m2) /\ view m2 = view m1.
Proof.
  destruct (restart_old_tags exCfg true (at_ 0) w1 _ _ 3 [x07]
    (map z2b (v4InV6Prefix ++ [10; 0; 0; 1])) 7946 None (at_ 1) fresh_w1) as (_ & Hv & Hu).
  - lia.
  - vm_compute. reflexivity.
  - split; [eexists; split; [exact Hv|reflexivity]|]. apply Hu. vm_compute. discriminate.
Defined.

Lemma restart_heals_witness :
  exists m1 l, mergeOne w1 (mkStateToMerge 3 "n1" [] 0 [] (StateType_code StateDead)) (at_ 1) = Ret m1 /\
    3 < l < 2 ^ 32 /\ lives m1 = l.
Proof.
  destruct (restart_heals exCfg true (at_ 0) w1 _ _
    (mkStateToMerge 3 "n1" [] 0 [] (StateType_code StateDead)) StateDead (at_ 1) fresh_w1)
    as (m1 & l & E & Hl & Hlv & _); [reflexivity|simpl; lia|reflexivity|discriminate|].
  exists m1, l. split; [exact E|]. split; [exact Hl|exact Hlv].
Defined.

End Witnesses.
