(* ===== verification/Cluster.v ===== *)
(** * A cluster

    Several nodes that run the program and exchange messages. The network is
    a collection of everything that was ever sent, from which messages are
    delivered to anyone, late, in any order, repeatedly or not at all. What a
    node sends is what waits in its broadcast queue or stands in its member
    list; nobody else puts messages into the network. *)

From S2P Require Import Prelude Types Interfaces Awareness Suspicion Broadcast BroadcastFacts Config NetAddr Spec State StateFacts Maintenance MaintenanceFacts Lifecycle System PushPull.
From Stdlib Require Import Strings.Byte.

Section Cluster.
Context {HO : HeapOps TransmitCapItem} {HL : HeapLaws TransmitCapItem HO} {CO : Codec}.
Implicit Types m : Memberlist.

(** The nodes by name, and what was sent: alive, suspect and dead messages,
    and the entries of exchanged lists. *)
Record cluster := mkCluster { members : gmap string Memberlist; soup : list payload }.

(** What a node may send: the news in its queue, as a receiver decodes them,
    and the entries of its local state. *)
Definition says m (p : payload) : Prop :=
  match p with
  | PState r => exists ls, localState m = Ret ls /\ r ∈ ls
  | _ => exists t i c, gossipType p = Some t /\ i ∈ waiting (mbroadcasts m) /\
           msg i = msgByte t :: c /\ decode_msg (kind_of p) c = Some p
  end.

(** The calls of [aliveNode] by [handleAlive] and [mergeState]. *)
Definition hears_alive (sent : list payload) (a : alive) : Prop :=
  PAlive a ∈ sent \/
  exists r, PState r ∈ sent /\ StateType_of_code (m_State r) = Some StateAlive /\
    a = mkAlive (m_Lives r) (m_ID r) (m_IP r) (m_Port r) (m_Tags r).

(** When a node acts: it handles a message or an entry that was sent;
    suspects a node at a number it had in its own list at some time (a
    failed probe, or the ping of a suspected node); or does something of its
    own accord, API calls at any time included. [Leave] may have read its
    number some time before it calls [deadNode]. That [UpdateTags] has taken
    its number and will go on later is a step of its own, [cs_update]. *)
Definition justified (sent : list payload) m (a : action) : Prop :=
  match a with
  | ActAlive a _ _ => hears_alive sent a
  | ActAliveLate a _ _ => hears_alive sent a /\ IPAllowed (config m) (a_IP a) = true
  | ActSuspect s _ =>
      PSuspect s ∈ sent \/
      exists r, PState r ∈ sent /\ m_Lives r = s_Lives s /\ m_ID r = s_ID s
  | ActDead d _ _ =>
      PDead d ∈ sent \/
      exists r, PState r ∈ sent /\ d = mkDead (m_Lives r) (m_ID r) true /\
        (StateType_of_code (m_State r) = Some StateLeft \/ (m_ID r = selfID m /\ left m = true))
  | ActReap clock _ => exists lo hi, forall k, lo <= clock k <= hi
  | ActPiggyback _ overhead _ => 0 <= overhead
  | ActNextLiveNo => False
  | _ => True
  end.

Inductive cstep (c : cluster) : cluster -> Prop :=
| cs_act x m a m' :
    members c !! x = Some m -> justified (soup c) m a -> exec m a = Ret m' ->
    cstep c (mkCluster (<[ x := m' ]> (members c)) (soup c))
| cs_say x m p :
    members c !! x = Some m -> says m p -> cstep c (mkCluster (members c) (p :: soup c))
| cs_update x m p n tags :
    (* [UpdateTags] has taken its number; its call of [aliveNode] follows *)
    members c !! x = Some m -> getNode m (selfID m) = Some (p, n) ->
    let l := nextLiveNo (lives m) in
    cstep c (mkCluster (<[ x := set_lives l m ]> (members c))
               (PAlive (mkAlive l (selfID m) (IP (node n)) (Port (node n)) tags) :: soup c)).

(** Nodes under the names of their configurations, before they have started;
    one that joins later starts later, and one that restarts has another
    name. *)
Definition cinit (cfgs : gmap string Cfg.Config) (ch : bool) : cluster :=
  mkCluster ((fun c => newMemberlist c ch) <$> cfgs) [].

Definition well_named (cfgs : gmap string Cfg.Config) : Prop :=
  forall x c, cfgs !! x = Some c -> Cfg.ID c = x.

End Cluster.
