(* ===== verification/ClusterFacts.v ===== *)
(** * What holds in a cluster

    In a cluster of nodes that all run the program nothing is known about a
    node that it has not announced itself: no number above its counter, no
    address but its own, no departure it has not declared, and no tags it has
    not given out with the number. So the nodes agree on the members they
    hold for alive, and what the handlers do wrong with forged numbers does
    not happen. *)

From S2P Require Import Prelude Types Interfaces Awareness Suspicion Broadcast BroadcastFacts Config NetAddr Spec State StateFacts Maintenance MaintenanceFacts Lifecycle System PushPull Samples Cluster.
From Stdlib Require Import Strings.Byte.

(** ** What is true of the nodes *)

(** Of each node: its counter, whether it has left, its configuration. *)
Abbreviation world := (gmap string (Z * bool * Cfg.Config)).
(** The tags each node gave out with each of its numbers. *)
Abbreviation history := (gmap (string * Z) (list byte)).

Definition known (W : world) (x : string) (l : Z) (P : bool -> Cfg.Config -> Prop) : Prop :=
  exists L g c, W !! x = Some (L, g, c) /\ 0 <= l <= L /\ P g c.

Definition truthful (W : world) (H : history) (p : payload) : Prop :=
  match p with
  | PAlive a =>
      known W (a_ID a) (a_Lives a) (fun _ c => GetAdvertiseAddr c = Some (a_IP a, a_Port a)) /\
      H !! (a_ID a, a_Lives a) = Some (a_Tags a)
  | PSuspect s => known W (s_ID s) (s_Lives s) (fun _ _ => True)
  | PDead d => known W (d_ID d) (d_Lives d) (fun g _ => d_Left d = true -> g = true)
  | PState r =>
      known W (m_ID r) (m_Lives r) (fun g c =>
        GetAdvertiseAddr c = Some (m_IP r, m_Port r) /\
        (StateType_of_code (m_State r) = Some StateLeft -> g = true)) /\
      (StateType_of_code (m_State r) = Some StateAlive -> H !! (m_ID r, m_Lives r) = Some (m_Tags r))
  | _ => True
  end.

(** The nodes go on: counters grow, who has left stays so. *)
Definition later (W W' : world) : Prop :=
  forall x L g c, W !! x = Some (L, g, c) ->
    exists L' g', W' !! x = Some (L', g', c) /\ L <= L' /\ (g = true -> g' = true).

#[global] Instance later_preorder : PreOrder later.
Proof.
  split.
  - intros W x L g c Hx. exists L, g. split_and!; [done|lia|done].
  - intros W1 W2 W3 H12 H23 x L g c Hx.
    destruct (H12 x L g c Hx) as (L2 & g2 & Hx2 & ? & ?).
    destruct (H23 x L2 g2 c Hx2) as (L3 & g3 & Hx3 & ? & ?).
    exists L3, g3. split_and!; [done|lia|auto].
Qed.

Lemma known_later W W' x l (P P' : bool -> Cfg.Config -> Prop) :
  later W W' -> (forall g g' c, (g = true -> g' = true) -> P g c -> P' g' c) ->
  known W x l P -> known W' x l P'.
Proof.
  intros HW HP (L & g & c & Hx & Hl & Hp). destruct (HW _ _ _ _ Hx) as (L' & g' & Hx' & HL & Hg).
  exists L', g', c. split_and!; [done|lia|lia|]. by eapply HP.
Qed.

Lemma truthful_later W W' H H' p :
  later W W' -> H ⊆ H' -> truthful W H p -> truthful W' H' p.
Proof.
  intros HW HH. destruct p; simpl; try done.
  - intros [Hk Ht]. split; [|by eapply lookup_weaken]. eapply known_later; [done| |exact Hk]. naive_solver.
  - intros Hk. eapply known_later; [done| |exact Hk]. naive_solver.
  - intros Hk. eapply known_later; [done| |exact Hk]. naive_solver.
  - intros [Hk Ht]. split; [|intros Hs; eapply lookup_weaken; [by apply Ht|done]].
    eapply known_later; [done| |exact Hk]. naive_solver.
Qed.

(** Numbers in the history have been counted. *)
Definition counted (W : world) (H : history) : Prop :=
  forall x l t, H !! (x, l) = Some t -> exists L g c, W !! x = Some (L, g, c) /\ l <= L.

Lemma counted_later W W' H : later W W' -> counted W H -> counted W' H.
Proof.
  intros HW HH x l t Hx. destruct (HH x l t Hx) as (L & g & c & Hw & Hl).
  destruct (HW _ _ _ _ Hw) as (L' & g' & Hw' & ? & _). exists L', g', c. split; [done|lia].
Qed.

(** A node counts on, and gives out tags with the new number. *)
Lemma world_count W H x L g c tags :
  W !! x = Some (L, g, c) -> counted W H ->
  let W' := <[ x := (L + 1, g, c) ]> W in let H' := <[ (x, L + 1) := tags ]> H in
  later W W' /\ H ⊆ H' /\ counted W' H'.
Proof.
  intros Hx Hc W' H'. assert (later W W') as HW.
  { intros y L0 g0 c0 Hy. unfold W'. destruct (decide (x = y)) as [->|Hne].
    - rewrite Hx in Hy. injection Hy as <- <- <-. exists (L + 1), g. rewrite lookup_insert_eq.
      split_and!; [done|lia|done].
    - exists L0, g0. rewrite lookup_insert_ne by done. split_and!; [done|lia|done]. }
  split_and!; [done| |].
  - apply insert_subseteq. destruct (H !! (x, L + 1)) as [t|] eqn:E; [|done].
    destruct (Hc _ _ _ E) as (L' & g' & c' & Hx' & Hl). rewrite Hx in Hx'. injection Hx' as <- _ _. lia.
  - intros y l t. unfold H'. destruct (decide ((x, L + 1) = (y, l))) as [[= <- <-]|Hne].
    + intros _. exists (L + 1), g, c. split; [apply lookup_insert_eq|lia].
    + rewrite lookup_insert_ne by done. intros Hy. by apply (counted_later W W' H HW Hc y l t).
Qed.

(** ** Entries *)

(** Every entry of a member list is true. *)
Definition entries_ok (W : world) (H : history) (M : membership) : Prop :=
  forall y n, M !! y = Some n -> nid n = y /\ truthful W H (PState (toMerge n)).

Lemma entries_insert W H M y n :
  entries_ok W H M -> nid n = y -> truthful W H (PState (toMerge n)) -> entries_ok W H (<[ y := n ]> M).
Proof.
  intros HM Hn Ht z k. rewrite lookup_insert_Some. intros [[<- <-]|[_ Hz]]; [done|by apply HM].
Qed.

Lemma code_of_code t : StateType_of_code (StateType_code t) = Some t.
Proof. by destruct t. Qed.

(** What an entry promises, in terms of the node state. *)
Lemma truthful_entry W H n :
  truthful W H (PState (toMerge n)) <->
  known W (nid n) (Lives n) (fun g c =>
    GetAdvertiseAddr c = Some (IP (node n), Port (node n)) /\ (State n = StateLeft -> g = true)) /\
  (State n = StateAlive -> H !! (nid n, Lives n) = Some (Tags (node n))).
Proof.
  simpl. rewrite code_of_code. unfold nid, known. split; intros [(L & g & c & Hx & Hl & Ha & Hg) Ht].
  - split; [|intros E; apply Ht; by rewrite E]. exists L, g, c. split_and!; try done; try lia.
    intros E. apply Hg. by rewrite E.
  - split; [|intros [= E]; by apply Ht]. exists L, g, c. split_and!; try done; try lia.
    intros [= E]. by apply Hg.
Qed.

(** A known node with another number, and a state that says no more than is
    true. *)
Lemma truthful_update W H n n' l (P : bool -> Cfg.Config -> Prop) :
  truthful W H (PState (toMerge n)) -> known W (nid n) l P ->
  nid n' = nid n -> IP (node n') = IP (node n) -> Port (node n') = Port (node n) -> Lives n' = l ->
  (State n' = StateLeft -> forall g c, P g c -> g = true) ->
  (State n' = StateAlive -> H !! (nid n, l) = Some (Tags (node n'))) ->
  truthful W H (PState (toMerge n')).
Proof.
  rewrite !truthful_entry. intros [(L & g & c & Hx & _ & Ha & _) _] (L' & g' & c' & Hx' & Hl & HP)
    Hid Hip Hport Hlv Hleft Hal. rewrite Hid, Hip, Hport, Hlv. rewrite Hx in Hx'. injection Hx' as <- <- <-.
  split; [|done]. exists L, g, c. split_and!; try done; try lia. intros E. by eapply Hleft.
Qed.

Lemma entries_alive W H self g allowed a now M :
  entries_ok W H M -> truthful W H (PAlive a) ->
  entries_ok W H (spec_alive self g allowed a now M).
Proof.
  intros HM [Hk Ht]. unfold spec_alive. destruct (_ || _); [done|].
  destruct (M !! a_ID a) as [n|] eqn:E.
  - destruct (a_Lives a <=? Lives n); [done|]. destruct (HM _ _ E) as [Hn Hen].
    apply entries_insert; [done..|]. rewrite <- Hn in Hk, Ht.
    eapply (truthful_update W H n _ (a_Lives a)); try done.
  - apply entries_insert; [done..|]. apply truthful_entry. simpl. split; [|done].
    destruct Hk as (L & g' & c & Hx & Hl & Ha). exists L, g', c. split_and!; try done; lia.
Qed.

Lemma entries_suspect W H self l s now M :
  entries_ok W H M -> truthful W H (PSuspect s) ->
  (forall n, M !! self = Some n -> s_ID s = self -> State n = StateAlive -> Lives n <= s_Lives s ->
     truthful W H (PState (toMerge (with_lives l n)))) ->
  entries_ok W H (spec_suspect self l s now M).
Proof.
  intros HM Hk Hself. unfold spec_suspect. destruct (M !! s_ID s) as [n|] eqn:E; [|done].
  destruct (Z.ltb_spec (s_Lives s) (Lives n)); [done|]. simpl. case_bool_decide as Hst; [done|].
  destruct (HM _ _ E) as [Hn Hen]. case_bool_decide as Hs; apply entries_insert; try done.
  - apply Hself; [by rewrite <- Hs|done| |done]. destruct (State n); try done; by destruct Hst.
  - simpl in Hk. rewrite <- Hn in Hk. by eapply (truthful_update W H n _ (s_Lives s)).
Qed.

Lemma entries_dead W H self g l d now M :
  entries_ok W H M -> truthful W H (PDead d) ->
  (forall n, M !! self = Some n -> d_ID d = self -> g = false -> DeadOrLeft n = false ->
     Lives n <= d_Lives d -> truthful W H (PState (toMerge (with_lives l n)))) ->
  entries_ok W H (spec_dead self g l d now M).
Proof.
  intros HM Hk Hself. unfold spec_dead. destruct (M !! d_ID d) as [n|] eqn:E; [|done].
  destruct (Z.ltb_spec (d_Lives d) (Lives n)); [done|]. simpl. destruct (DeadOrLeft n) eqn:Hst; [done|].
  destruct (HM _ _ E) as [Hn Hen]. destruct (bool_decide (d_ID d = self) && negb g) eqn:Es;
    apply entries_insert; try done.
  - apply andb_true_iff in Es as [Hs%bool_decide_eq_true Hg%negb_true_iff].
    apply Hself; [by rewrite <- Hs|done..].
  - simpl in Hk. rewrite <- Hn in Hk. eapply (truthful_update W H n _ (d_Lives d)); try done; simpl.
    + destruct (d_Left d); [|done]. intros _ g' c HP. by apply HP.
    + by destruct (d_Left d).
Qed.

(** ** Messages that wait *)

(** What [GetMessages] hands out was waiting, and what waits afterwards was
    waiting before. *)
Lemma GetMessages_waiting {HO : HeapOps TransmitCapItem} {HL : HeapLaws TransmitCapItem HO} q n ov size bs q' :
  queue_ok q -> 0 <= ov -> GetMessages q n ov size = Ret (bs, q') ->
  queue_ok q' /\ (forall b, b ∈ bs -> exists i, i ∈ waiting q /\ b = msg i) /\
  (forall i, i ∈ waiting q' -> exists j, j ∈ waiting q /\ msg i = msg j) /\
  used ov bs <= Z.max 0 size.
Proof.
  intros Hq Hov Eg.
  destruct (GetMessages_full q n ov size Hq Hov) as (pk & rest & q2 & E2 & Hw & Hw' & _ & _ & Hok & Htot & _).
  rewrite Eg in E2. injection E2 as -> <-. split_and!; [done| | |done].
  - intros b (i & -> & Hi)%list_elem_of_fmap. exists i. rewrite Hw. split; [apply elem_of_app; by left|done].
  - intros i. rewrite Hw'. intros [(j & -> & Hj)%list_elem_of_fmap|Hi]%elem_of_app.
    + apply list_elem_of_In, filter_In in Hj as [Hj _]. exists j. rewrite Hw.
      split; [apply elem_of_app; left; by apply list_elem_of_In|done].
    + exists i. rewrite Hw. split; [apply elem_of_app; by right|done].
Qed.

Section Facts.
Context {HO : HeapOps TransmitCapItem} {HL : HeapLaws TransmitCapItem HO}.
Context {CO : Codec} {CL : CodecLaws CO}.
Implicit Types m : Memberlist.

(** Whatever a receiver decodes from the bytes is true. *)
Definition honest (W : world) (H : history) (b : list byte) : Prop :=
  forall t c p, b = msgByte t :: c -> gossipType p = Some t ->
    decode_msg (kind_of p) c = Some p -> truthful W H p.

Lemma gossipType_kind p p' : gossipType p = gossipType p' -> is_Some (gossipType p) -> kind_of p = kind_of p'.
Proof using. intros E [t Ht]. by destruct p, p'. Qed.

Lemma honest_encoded W H t p b :
  encode_msg t p = Some b -> gossipType p = Some t -> truthful W H p -> honest W H b.
Proof using CL.
  intros Hb Ht Hp. destruct (decode_encode_msg t p b Hb) as (b' & -> & Hd).
  intros t' c p' [= Htt <-] Ht' Hd'. apply (f_equal msgType_of_byte) in Htt.
  rewrite !msgType_of_msgByte in Htt. injection Htt as <-.
  assert (kind_of p' = kind_of p) as Hk by (apply gossipType_kind; [congruence|eauto]).
  rewrite Hk in Hd'. rewrite Hd in Hd'. by injection Hd' as <-.
Qed.

Record queue_facts (W : world) (H : history) (k : Z) (q : TransmitCapQueue) : Prop := {
  qf_ok : queue_ok q;
  qf_seq : 0 <= idSeq q <= k;
  qf_honest i : i ∈ waiting q -> honest W H (msg i);
  qf_encoded i : i ∈ waiting q -> exists t p, gossipType p = Some t /\ encode_msg t p = Some (msg i)
}.

Lemma queue_facts_later W W' H H' k k' q :
  later W W' -> H ⊆ H' -> k <= k' -> queue_facts W H k q -> queue_facts W' H' k' q.
Proof using.
  intros HW HH Hk [H1 H2 H3 H4]. split; [done|lia| |done]. intros i Hi t c p Eb Et Ed.
  eapply truthful_later; [done..|]. by eapply H3.
Qed.

Lemma queue_facts_add W H k q nm t p nt :
  queue_facts W H k q -> k + 1 < 2 ^ 64 -> gossipType p = Some t -> truthful W H p ->
  queue_facts W H (k + 1) (QueueMsg q nm t p nt).
Proof using CL.
  intros [H1 H2 H3 H4] Hk Ht Hp. destruct (encode_msg t p) as [b|] eqn:Eb.
  - destruct (QueueMsg_full q nm t p nt b H1 ltac:(lia) ltac:(lia) Eb)
      as (Hok & Hid & _ & kept & Hw & _ & Hw' & _). split; [done|lia|..].
    + intros i. rewrite Hw'. intros [->|Hi]%elem_of_cons; [by eapply honest_encoded|].
      apply H3. rewrite Hw. set_solver.
    + intros i. rewrite Hw'. intros [->|Hi]%elem_of_cons; [by exists t, p|].
      apply H4. rewrite Hw. set_solver.
  - unfold QueueMsg. rewrite Eb. split; [done|lia|done..].
Qed.

Lemma queue_facts_get W H k q ub n ov limit b q' :
  queue_facts W H k q -> 0 <= ov -> getBroadcasts q ub n ov limit = Ret (b, q') ->
  queue_facts W H k q'.
Proof using.
  intros [H1 H2 H3 H4] Hov. unfold getBroadcasts. destruct (limit <=? ov); [by intros [= _ <-]|].
  intros ([msgs q1] & Eg & E)%obind_Ret_inv.
  assert (q1 = q') as -> by (destruct ub; by injection E).
  pose proof (GetMessages_idSeq _ _ _ _ _ _ Eg H1 Hov (proj1 H2)) as Hid.
  destruct (GetMessages_waiting q n ov limit msgs q' H1 Hov Eg) as (Hok & _ & Hold & _).
  split; [done|lia|..]; intros i Hi; destruct (Hold i Hi) as (j & Hj & ->); [by apply H3|by apply H4].
Qed.

(** ** One node *)

Definition honest_task (W : world) (H : history) (t : task) : Prop :=
  match t with
  | TimeoutStart _ => True
  | TimeoutDead d => truthful W H (PDead d)
  | AliveDeferred ds =>
      Forall (fun d => match d with DeferBroadcast _ a _ => truthful W H (PAlive a) | _ => True end) ds
  end.

Definition summary m : Z * bool * Cfg.Config := (lives m, left m, config m).

(** Everything a node holds is true, and its counters are at most [k]. *)
Record node_facts (W : world) (H : history) (k : Z) m : Prop := {
  nf_inv : inv m;
  nf_self : W !! selfID m = Some (summary m);
  nf_lives : 0 <= lives m <= k;
  nf_probe : -1 <= probeIdx m;
  nf_entries : entries_ok W H (view m);
  nf_queue : queue_facts W H k (mbroadcasts m);
  nf_tasks : Forall (honest_task W H) (tasks m)
}.

Lemma honest_task_later W W' H H' t :
  later W W' -> H ⊆ H' -> honest_task W H t -> honest_task W' H' t.
Proof using.
  intros HW HH. destruct t as [sl|d|ds]; simpl; try done.
  - by apply (truthful_later W W' H H' (PDead d)).
  - intros Hd. eapply Forall_impl; [exact Hd|]. intros [x a nt|n|n]; try done.
    by apply (truthful_later W W' H H' (PAlive a)).
Qed.

Lemma entries_later W W' H H' M :
  later W W' -> H ⊆ H' -> entries_ok W H M -> entries_ok W' H' M.
Proof using.
  intros HW HH HM y n Hy. destruct (HM y n Hy) as [? ?]. split; [done|]. by eapply truthful_later.
Qed.

Lemma node_facts_later W W' H H' k k' m :
  later W W' -> H ⊆ H' -> k <= k' -> W' !! selfID m = W !! selfID m ->
  node_facts W H k m -> node_facts W' H' k' m.
Proof using.
  intros HW HH Hk Hx [H1 H2 H3 H4 H5 H6 H7]. split; try done.
  - congruence.
  - lia.
  - by eapply entries_later.
  - by eapply queue_facts_later.
  - eapply Forall_impl; [exact H7|]. intros t. by apply honest_task_later.
Qed.

(** All counters are at most [k]. *)
Definition small (W : world) (k : Z) : Prop := forall x L g c, W !! x = Some (L, g, c) -> L <= k.

(** A step of a node in which its counters rise by at most [j]. *)
Definition node_step_to (j : Z) (W : world) (H H' : history) (k : Z) m m' : Prop :=
  let W' := <[ selfID m := summary m' ]> W in
  later W W' /\ H ⊆ H' /\ counted W' H' /\ config m' = config m /\ node_facts W' H' (k + j) m'.

Definition node_step (j : Z) (W : world) (H : history) (k : Z) m m' : Prop :=
  exists H', node_step_to j W H H' k m m'.

Lemma node_step_to_intro j W H H' k m m' :
  node_facts W H k m -> counted W H -> H ⊆ H' -> 0 <= j ->
  let W' := <[ selfID m := summary m' ]> W in
  config m' = config m -> (left m = true -> left m' = true) -> lives m <= lives m' <= k + j ->
  (H' = H \/ exists t, H' = <[ (selfID m, lives m') := t ]> H) ->
  inv m' -> -1 <= probeIdx m' ->
  (later W W' -> entries_ok W' H' (view m') /\ queue_facts W' H' (k + j) (mbroadcasts m') /\
     Forall (honest_task W' H') (tasks m')) ->
  node_step_to j W H H' k m m'.
Proof using.
  intros [H1 H2 H3 H4 H5 H6 H7] Hc HH Hj W' Hcfg Hleft Hlv HH' Hinv Hp Hrest.
  assert (selfID m' = selfID m) as Hid by (unfold selfID; by rewrite Hcfg).
  assert (later W W') as HW.
  { intros y L g c Hy. unfold W'. destruct (decide (selfID m = y)) as [<-|Hne].
    - rewrite H2 in Hy. injection Hy as <- <- <-. eexists _, _. rewrite lookup_insert_eq.
      unfold summary. rewrite Hcfg. split_and!; [done|lia|done].
    - exists L, g. rewrite lookup_insert_ne by done. split_and!; [done|lia|done]. }
  destruct (Hrest HW) as (He & Hq & Ht). unfold node_step_to. fold W'. split_and!; try done.
  - destruct HH' as [->|[t ->]]; [by eapply counted_later|].
    intros y l t'. destruct (decide ((selfID m, lives m') = (y, l))) as [[= <- <-]|Hne].
    + intros _. eexists _, _, _. split; [apply lookup_insert_eq|]. lia.
    + rewrite lookup_insert_ne by done. by apply (counted_later W W' H HW Hc).
  - split; try done; [|lia]. rewrite Hid. apply lookup_insert_eq.
Qed.

Lemma node_step_intro j W H H' k m m' :
  node_facts W H k m -> counted W H -> H ⊆ H' -> 0 <= j ->
  let W' := <[ selfID m := summary m' ]> W in
  config m' = config m -> (left m = true -> left m' = true) -> lives m <= lives m' <= k + j ->
  (H' = H \/ exists t, H' = <[ (selfID m, lives m') := t ]> H) ->
  inv m' -> -1 <= probeIdx m' ->
  (later W W' -> entries_ok W' H' (view m') /\ queue_facts W' H' (k + j) (mbroadcasts m') /\
     Forall (honest_task W' H') (tasks m')) ->
  node_step j W H k m m'.
Proof using. intros. exists H'. by apply node_step_to_intro. Qed.

(** Steps one after the other. *)
Lemma node_step_trans j1 j2 W H H1 k m1 m2 m3 :
  node_step_to j1 W H H1 k m1 m2 ->
  node_step j2 (<[ selfID m1 := summary m2 ]> W) H1 (k + j1) m2 m3 ->
  node_step (j1 + j2) W H k m1 m3.
Proof using.
  intros (HW & HH & Hc & Hcfg & Hf) (H3 & HW3 & HH3 & Hc3 & Hcfg3 & Hf3).
  assert (selfID m2 = selfID m1) as Hid by (unfold selfID; by rewrite Hcfg).
  rewrite Hid, insert_insert_eq in *. exists H3. split_and!; try done.
  - by etrans.
  - by etrans.
  - congruence.
  - by rewrite Z.add_assoc.
Qed.

Lemma node_step_weaken j j' W H k m m' : j <= j' -> node_step j W H k m m' -> node_step j' W H k m m'.
Proof using.
  intros Hj (H' & HW & HH & Hc & Hcfg & Hf). exists H'. split_and!; try done.
  eapply node_facts_later; [reflexivity..| |reflexivity|exact Hf]. lia.
Qed.

(** ** What the handlers touch *)

Lemma aliveLocked_frame m a nt e :
  let m' := (aliveLocked m a nt e).1 in
  config m' = config m /\ left m' = left m /\ lives m' = lives m /\ tasks m' = tasks m /\
  mbroadcasts m' = mbroadcasts m.
Proof using. cbv zeta. rewrite aliveLocked_cases. by repeat case_match. Qed.

(** What is left to do is to queue the message and to send events. *)
Lemma aliveLocked_deferred m a nt e :
  (aliveLocked m a nt e).2 = [] \/
  exists x ds, (aliveLocked m a nt e).2 = DeferBroadcast x a nt :: ds /\
    Forall (fun d => match d with DeferBroadcast _ _ _ => False | _ => True end) ds.
Proof using.
  unfold aliveLocked. cbv zeta. repeat case_match; simpl; eauto 10.
Qed.

Lemma runDeferred_queue e m d :
  mbroadcasts (runDeferred e m d) =
  match d with
  | DeferBroadcast x a nt => QueueMsg (mbroadcasts m) x aliveMsg (PAlive a) nt
  | _ => mbroadcasts m
  end.
Proof using. destruct d; simpl; unfold NotifyUpdate, NotifyJoin, send; by repeat case_match. Qed.

Lemma events_queue e ds m :
  Forall (fun d => match d with DeferBroadcast _ _ _ => False | _ => True end) ds ->
  mbroadcasts (foldl (runDeferred e) m ds) = mbroadcasts m.
Proof using.
  intros Hds. revert m. induction Hds as [|d ds Hd _ IH]; intros m; simpl; [done|].
  rewrite IH, runDeferred_queue. by destruct d.
Qed.

Lemma aliveBody_queue m a nt e :
  mbroadcasts (aliveBody m a nt e) = mbroadcasts m \/
  exists x, mbroadcasts (aliveBody m a nt e) = QueueMsg (mbroadcasts m) x aliveMsg (PAlive a) nt.
Proof using.
  rewrite aliveBody_locked. destruct (aliveLocked_frame m a nt e) as (_ & _ & _ & _ & Hq). cbv zeta in Hq.
  destruct (aliveLocked_deferred m a nt e) as [->|(x & ds & -> & Hds)]; simpl; [by left|].
  right. exists x. by rewrite events_queue, <- Hq.
Qed.

(** A newer message is passed on. *)
Lemma aliveBody_accepts m a nt e p n :
  getNode m (a_ID a) = Some (p, n) -> Lives n < a_Lives a ->
  mbroadcasts (aliveBody m a nt e) = QueueMsg (mbroadcasts m) (ID (node n)) aliveMsg (PAlive a) nt.
Proof using.
  intros Hg Hl. rewrite aliveBody_locked. destruct (aliveLocked_frame m a nt e) as (_ & _ & _ & _ & Hq).
  cbv zeta in Hq. destruct (aliveLocked_deferred m a nt e) as [E|(x & ds & E & Hds)].
  - unfold aliveLocked in E. rewrite Hg, (proj2 (Z.leb_gt _ _)) in E by done. done.
  - rewrite E. simpl. rewrite events_queue, <- Hq by done. simpl. f_equal.
    unfold aliveLocked in E. rewrite Hg, (proj2 (Z.leb_gt _ _)) in E by done. simpl in E.
    injection E as <- _. by case_match.
Qed.

Lemma aliveBody_fields m a nt e :
  config (aliveBody m a nt e) = config m /\ left (aliveBody m a nt e) = left m /\
  lives (aliveBody m a nt e) = lives m /\ tasks (aliveBody m a nt e) = tasks m.
Proof using.
  pose proof (core_aliveBody m a nt e) as Hc. destruct (aliveLocked_frame m a nt e) as (H1 & H2 & H3 & H4 & _).
  unfold core in Hc. injection Hc. intros. cbv zeta in *. split_and!; congruence.
Qed.

(** [refute]: the next number, announced with what is known. *)
Definition refuting m m' (n : nodeState) (lv : Z) : Prop :=
  refuteLoop refuteDepth lv (nextLiveNo (lives m)) = inl (lives m') /\ tasks m' = tasks m /\
  mbroadcasts m' = QueueMsg (mbroadcasts m) (ID (node n)) aliveMsg
    (PAlive (mkAlive (lives m') (ID (node n)) (IP (node n)) (Port (node n)) (Tags (node n)))) None.

Lemma refute_effect m p n lv m' : refute m p n lv = Ret m' -> refuting m m' n lv.
Proof using. unfold refute, refuting. case_match; [|done]. by intros [= <-]. Qed.

Lemma suspectNode_effect m s e m' :
  inv m -> suspectNode m s e = Ret m' ->
  (lives m' = lives m /\ Forall (fun t => t ∈ tasks m \/ exists sl, t = TimeoutStart sl) (tasks m') /\
   (mbroadcasts m' = mbroadcasts m \/
    mbroadcasts m' = QueueMsg (mbroadcasts m) (s_ID s) suspectMsg (PSuspect s) None) /\
   (s_ID s = selfID m -> forall n, view m !! selfID m = Some n -> State n = StateAlive ->
      s_Lives s < Lives n)) \/
  (s_ID s = selfID m /\ exists n, view m !! selfID m = Some n /\ DeadOrLeft n = false /\ refuting m m' n (s_Lives s)).
Proof using.
  intros Hinv. assert (Forall (fun t => t ∈ tasks m \/ exists sl, t = TimeoutStart sl) (tasks m)) as Hts
    by (apply Forall_forall; auto).
  unfold suspectNode. destruct (getNode m (s_ID s)) as [[p n]|] eqn:Eg.
  2: { intros [= <-]. left. split_and!; try done; [by left|]. intros Hs n Hn.
       rewrite <- Hs, getNode_view, Eg in Hn. done. }
  assert (view m !! s_ID s = Some n) as Hv by by rewrite getNode_view, Eg.
  destruct (Z.ltb_spec (s_Lives s) (Lives n)) as [Hlt|Hge].
  { intros [= <-]. left. split_and!; try done; [by left|]. intros <- k Hk. naive_solver. }
  destruct (suspicions m !! s_ID s) as [sl|] eqn:Es.
  - destruct (ok_susp _ (inv_susp _ Hinv) _ _ Es) as (sc & k & Hsc & _ & Hk & Hst & _). rewrite Hsc.
    destruct (Confirm sc (s_From s) (now e)) as [[sc' ok] st]. intros [= <-]. left.
    split_and!; [by destruct ok, st| |destruct ok, st; auto|intros <- k' Hk' Hal; congruence].
    destruct ok, st; simpl; try done; apply Forall_app_2; try done; constructor; eauto.
  - case_bool_decide as Hst.
    { intros [= <-]. left. split_and!; try done; [by left|]. intros <- k Hk. naive_solver. }
    case_bool_decide as Hs.
    + intros E%refute_effect. right. split; [done|]. exists n. rewrite <- Hs. split_and!; try done.
      unfold DeadOrLeft. destruct (State n); try done; by destruct Hst.
    + intros [= <-]. left. split_and!; try done. by right.
Qed.

Lemma deadNode_effect m d nt e m' :
  deadNode m d nt e = Ret m' ->
  (lives m' = lives m /\ tasks m' = tasks m /\
   (mbroadcasts m' = mbroadcasts m \/
    mbroadcasts m' = QueueMsg (mbroadcasts m) (d_ID d) deadMsg (PDead d) nt) /\
   (d_ID d = selfID m -> left m = false -> forall n, view m !! selfID m = Some n ->
      DeadOrLeft n = false -> d_Lives d < Lives n)) \/
  (d_ID d = selfID m /\ exists n, view m !! selfID m = Some n /\ DeadOrLeft n = false /\ refuting m m' n (d_Lives d)).
Proof using.
  unfold deadNode. destruct (getNode m (d_ID d)) as [[p n]|] eqn:Eg.
  2: { intros [= <-]. left. split_and!; try done; [by left|]. intros Hs _ n Hn.
       rewrite <- Hs, getNode_view, Eg in Hn. done. }
  assert (view m !! d_ID d = Some n) as Hv by by rewrite getNode_view, Eg.
  destruct ((d_Lives d <? Lives n) || DeadOrLeft n) eqn:E1.
  { intros [= <-]. left. split_and!; try done; [by left|]. intros <- _ k Hk Hd.
    assert (k = n) as -> by congruence. rewrite Hd, orb_false_r in E1. lia. }
  destruct (bool_decide (d_ID d = selfID m) && negb (left m)) eqn:E2.
  - apply andb_true_iff in E2 as [Hs%bool_decide_eq_true _]. intros E%refute_effect.
    right. split; [done|]. exists n. rewrite <- Hs. by apply orb_false_iff in E1 as [_ E1].
  - intros [= <-]. left. unfold NotifyLeave, send. split_and!; [by case_match..|right; by case_match|].
    intros Hs Hl. rewrite (bool_decide_eq_true_2 _ Hs), Hl in E2. done.
Qed.

(** ** The handlers, in a true world *)

Context (W : world) (H : history) (k : Z).
Hypothesis Hcount : counted W H.
Hypothesis Hsmall : small W k.
Hypothesis Hk : 0 <= k /\ k + 1 < 2 ^ 32 - 1.

Lemma small_step j H' m m' : node_step_to j W H H' k m m' -> 0 <= j -> small (<[ selfID m := summary m' ]> W) (k + j).
Proof using Hsmall.
  intros (_ & _ & _ & _ & Hf) Hj x L g c. rewrite lookup_insert_Some.
  intros [[_ E]|[_ Hx]]; [|apply Hsmall in Hx; lia].
  injection E as <- _ _. apply (nf_lives _ _ _ _ Hf).
Qed.

(** Nothing but queue, events, health and the like changes. *)
Lemma quiet_step j m m' :
  node_facts W H k m -> 0 <= j -> core m' = core m -> queue_facts W H (k + j) (mbroadcasts m') ->
  -1 <= probeIdx m' -> node_step j W H k m m'.
Proof using Hcount.
  intros Hf Hj Hc Hq Hp. pose proof Hf as [H1 H2 H3 H4 H5 H6 H7]. pose proof (core_view _ _ Hc) as Hv.
  pose proof (inv_core _ _ Hc H1) as Hi. unfold core in Hc. injection Hc. intros.
  apply (node_step_intro j W H H); try done; [congruence|lia|by left|].
  intros HW. rewrite Hv. split_and!; [by eapply entries_later|by eapply queue_facts_later|].
  match goal with E : tasks m' = tasks m |- _ => rewrite E end.
  eapply Forall_impl; [exact H7|]. intros t. by apply honest_task_later.
Qed.

Lemma known_u32 x l P : known W x l P -> 0 <= l < 2 ^ 32 - 1.
Proof using Hsmall Hk. intros (L & g & c & Hx & Hl & _). apply Hsmall in Hx. lia. Qed.

Lemma known_self m l P : node_facts W H k m -> known W (selfID m) l P -> l <= lives m.
Proof using.
  intros Hf (L & g & c & Hx & Hl & _). rewrite (nf_self _ _ _ _ Hf) in Hx. injection Hx as <- _ _. lia.
Qed.

Lemma alive_step m a nt e :
  node_facts W H k m -> truthful W H (PAlive a) -> node_step 1 W H k m (aliveBody m a nt e).
Proof using Hcount Hsmall Hk CL.
  intros Hf Ha. pose proof Hf as [H1 H2 H3 H4 H5 H6 H7].
  destruct (aliveBody_fields m a nt e) as (Hcfg & Hl & Hlv & Hts).
  pose proof (known_u32 _ _ _ (proj1 Ha)) as Hr.
  apply (node_step_intro 1 W H H); try done; [congruence|lia|by left| |by rewrite aliveBody_probeIdx|].
  { apply aliveBody_inv; [done|lia]. }
  intros HW. rewrite aliveBody_view, Hts by apply H1. split_and!.
  - apply entries_alive; [by eapply entries_later|]. by eapply truthful_later.
  - destruct (aliveBody_queue m a nt e) as [->|[x ->]].
    + eapply queue_facts_later; [done..| |exact H6]. lia.
    + apply queue_facts_add; [by eapply queue_facts_later|lia|done|by eapply truthful_later].
  - eapply Forall_impl; [exact H7|]. intros t. by apply honest_task_later.
Qed.

Lemma aliveNode_step m a nt e :
  node_facts W H k m -> truthful W H (PAlive a) -> node_step 1 W H k m (aliveNode m a nt e).
Proof using Hcount Hsmall Hk CL.
  intros Hf Ha. rewrite aliveNode_body. destruct (_ || _); [|by apply alive_step].
  apply quiet_step; try done; [|apply Hf]. eapply queue_facts_later; [done..| |apply Hf]. lia.
Qed.

Lemma aliveLate_step m a nt e :
  node_facts W H k m -> truthful W H (PAlive a) -> node_step 1 W H k m (aliveLate m a nt e).
Proof using Hcount Hsmall Hk CL.
  intros Hf Ha. pose proof Hf as [H1 H2 H3 H4 H5 H6 H7].
  pose proof (known_u32 _ _ _ (proj1 Ha)) as Hr.
  destruct (aliveLate_good reapable m a nt e H1 ltac:(lia)) as (Hi & Hcfg & _).
  pose proof (aliveLate_core m a nt e) as Hcore. pose proof (core_view _ _ Hcore) as Hv.
  change (view (aliveLate m a nt e) = view (aliveBody m a nt e)) in Hv.
  destruct (aliveLocked_frame m a nt e) as (_ & Hl & Hlv & Hts & Hq). cbv zeta in *.
  assert (left (aliveLate m a nt e) = left m /\ lives (aliveLate m a nt e) = lives m /\
    mbroadcasts (aliveLate m a nt e) = mbroadcasts m /\
    tasks (aliveLate m a nt e) = tasks m ++ [AliveDeferred (aliveLocked m a nt e).2]) as (E1 & E2 & E3 & E4).
  { unfold aliveLate. destruct (aliveLocked m a nt e) as [m1 ds]. simpl in *. by rewrite Hts. }
  apply (node_step_intro 1 W H H); try done; [congruence|lia|by left|by rewrite aliveLate_probeIdx|].
  intros HW. rewrite Hv, E3, E4, aliveBody_view by apply H1. split_and!.
  - apply entries_alive; [by eapply entries_later|]. by eapply truthful_later.
  - eapply queue_facts_later; [done..| |exact H6]. lia.
  - apply Forall_app_2; [eapply Forall_impl; [exact H7|]; intros t; by apply honest_task_later|].
    constructor; [|done]. simpl. destruct (aliveLocked_deferred m a nt e) as [->|(x & ds & -> & Hds)]; [done|].
    constructor; [by apply (truthful_later W _ H _ (PAlive a))|]. eapply Forall_impl; [exact Hds|]. by intros [].
Qed.

(** The local node refutes. *)
Lemma refuting_step m m' n lv :
  node_facts W H k m -> view m !! selfID m = Some n -> DeadOrLeft n = false ->
  refuting m m' n lv -> lv <= lives m ->
  inv m' -> config m' = config m -> left m' = left m -> probeIdx m' = probeIdx m ->
  (forall W' H', later W W' -> H ⊆ H' ->
     truthful W' H' (PState (toMerge (with_lives (lives m') n))) -> entries_ok W' H' (view m')) ->
  refuteValue lv (lives m) = lives m' /\ node_step 1 W H k m m'.
Proof using Hcount Hk CL.
  intros Hf Hn Hdl (Hl & Hts & Hq) Hlv Hi Hcfg Hle Hp He. pose proof Hf as [H1 H2 H3 H4 H5 H6 H7].
  rewrite refuteLoop_value in Hl by lia. injection Hl as Hval. split; [done|].
  assert (lives m' = lives m + 1) as Hnum.
  { rewrite <- Hval. unfold refuteValue, nextLiveNo. rewrite u32_small by lia.
    by rewrite (proj2 (Z.ltb_lt _ _)) by lia. }
  destruct (H5 _ _ Hn) as [Hid Hen]. unfold nid in Hid.
  destruct (world_count W H (selfID m) (lives m) (left m) (config m) (Tags (node n)) H2 Hcount)
    as (_ & HH & _). rewrite <- Hnum in HH. set (H' := <[ _ := _ ]> H) in HH.
  apply (node_step_intro 1 W H H'); try done; [congruence|lia|right; by eexists|lia|].
  intros HW. set (W' := <[ selfID m := summary m' ]> W) in *.
  assert (known W' (selfID m) (lives m') (fun _ c => GetAdvertiseAddr c = Some (IP (node n), Port (node n)))) as Hkn.
  { apply truthful_entry in Hen as [(L & g & c & Hx & _ & Ha & _) _]. unfold nid in Hx. rewrite Hid, H2 in Hx.
    injection Hx as _ _ <-. exists (lives m'), (left m'), (config m').
    split_and!; [apply lookup_insert_eq|lia..|]. by rewrite Hcfg. }
  assert (H' !! (selfID m, lives m') = Some (Tags (node n))) as Hh by apply lookup_insert_eq.
  assert (truthful W' H' (PState (toMerge n))) as Hen' by by eapply truthful_later.
  split_and!.
  - apply He; [done..|]. eapply (truthful_update W' H' n _ (lives m')); try done; unfold nid; rewrite ?Hid.
    + exact Hkn.
    + intros Hst. simpl in Hst. unfold DeadOrLeft in Hdl. by rewrite Hst in Hdl.
    + done.
  - rewrite Hq. apply queue_facts_add; [by eapply queue_facts_later|lia|done|]. simpl. rewrite Hid. by split.
  - rewrite Hts. eapply Forall_impl; [exact H7|]. intros t. by apply honest_task_later.
Qed.

Lemma suspect_step m s e m' :
  node_facts W H k m -> truthful W H (PSuspect s) -> suspectNode m s e = Ret m' ->
  node_step 1 W H k m m'.
Proof using Hcount Hsmall Hk CL.
  intros Hf Hs E. pose proof Hf as [H1 H2 H3 H4 H5 H6 H7]. pose proof (known_u32 _ _ _ Hs) as Hr.
  destruct (suspectNode_refines m s e H1) as (m1 & E' & Hi & Hv & Hcfg & Hle); [split; lia|].
  rewrite E in E'. injection E' as <-. pose proof (suspectNode_probeIdx m s e m' E) as Hp.
  destruct (suspectNode_effect m s e m' H1 E) as [(Hlv & Hts & Hq & Hno)|(Hid & n & Hn & Hdl & Hre)].
  - apply (node_step_intro 1 W H H); try done; [congruence|lia|by left|lia|].
    intros HW. rewrite Hv. split_and!.
    + apply entries_suspect; [by eapply entries_later|by eapply (truthful_later W _ H H (PSuspect s))|].
      intros n Hn Hid Hst Hge. specialize (Hno Hid n Hn Hst). lia.
    + destruct Hq as [->| ->]; [eapply queue_facts_later; [done..| |exact H6]; lia|].
      apply queue_facts_add; [by eapply queue_facts_later|lia|done|].
      by eapply (truthful_later W _ H H (PSuspect s)).
    + eapply Forall_impl; [exact Hts|]. intros t [Ht|[sl ->]]; [|done].
      eapply honest_task_later; [done..|]. by apply (proj1 (Forall_forall _ _) H7).
  - pose proof Hs as Hs'. simpl in Hs'. rewrite Hid in Hs'. apply (known_self m _ _ Hf) in Hs'.
    refine (proj2 (refuting_step m m' n (s_Lives s) Hf Hn Hdl Hre Hs' Hi Hcfg Hle Hp _)).
    intros W' H' HW HH Hen. rewrite Hv.
    apply entries_suspect; [by eapply entries_later|by eapply (truthful_later W _ H _ (PSuspect s))|].
    intros n' Hn' _ _ _. assert (n' = n) as -> by congruence.
    destruct Hre as (Hl & _). rewrite refuteLoop_value in Hl by lia. by injection Hl as ->.
Qed.

Lemma dead_step m d nt e m' :
  node_facts W H k m -> truthful W H (PDead d) -> deadNode m d nt e = Ret m' ->
  node_step 1 W H k m m'.
Proof using Hcount Hsmall Hk CL.
  intros Hf Hd E. pose proof Hf as [H1 H2 H3 H4 H5 H6 H7]. pose proof (known_u32 _ _ _ Hd) as Hr.
  destruct (deadNode_refines m d nt e H1) as (m1 & E' & Hi & Hv & Hcfg & Hle); [split; lia|].
  rewrite E in E'. injection E' as <-. pose proof (deadNode_probeIdx m d nt e m' E) as Hp.
  destruct (deadNode_effect m d nt e m' E) as [(Hlv & Hts & Hq & Hno)|(Hid & n & Hn & Hdl & Hre)].
  - apply (node_step_intro 1 W H H); try done; [congruence|lia|by left|lia|].
    intros HW. rewrite Hv, Hts. split_and!.
    + apply entries_dead; [by eapply entries_later|by eapply (truthful_later W _ H H (PDead d))|].
      intros n Hn Hid Hg Hst Hge. specialize (Hno Hid Hg n Hn Hst). lia.
    + destruct Hq as [->| ->]; [eapply queue_facts_later; [done..| |exact H6]; lia|].
      apply queue_facts_add; [by eapply queue_facts_later|lia|done|].
      by eapply (truthful_later W _ H H (PDead d)).
    + eapply Forall_impl; [exact H7|]. intros t. by apply honest_task_later.
  - pose proof Hd as Hd'. simpl in Hd'. rewrite Hid in Hd'. apply (known_self m _ _ Hf) in Hd'.
    refine (proj2 (refuting_step m m' n (d_Lives d) Hf Hn Hdl Hre Hd' Hi Hcfg Hle Hp _)).
    intros W' H' HW HH Hen. rewrite Hv.
    apply entries_dead; [by eapply entries_later|by eapply (truthful_later W _ H _ (PDead d))|].
    intros n' Hn' _ _ _ _. assert (n' = n) as -> by congruence.
    destruct Hre as (Hl & _). rewrite refuteLoop_value in Hl by lia. by injection Hl as ->.
Qed.

(** Fewer tasks, or a task that is true. *)
Lemma tasks_step m ts :
  node_facts W H k m -> Forall (task_ok m) ts -> Forall (honest_task W H) ts ->
  node_step 0 W H k m (set_tasks ts m).
Proof using Hcount.
  intros Hf Hok Hts. pose proof Hf as [H1 H2 H3 H4 H5 H6 H7].
  apply (node_step_intro 0 W H H); try done; [simpl; lia|by left|by apply inv_tasks_sub|].
  intros HW. split_and!; simpl; [by eapply entries_later|eapply queue_facts_later; [done..| |exact H6]; lia|].
  eapply Forall_impl; [exact Hts|]. intros t. by apply honest_task_later.
Qed.

(** The counter is read, and the number given out with [tags]. *)
Lemma count_step m tags :
  node_facts W H k m ->
  let m' := set_lives (nextLiveNo (lives m)) m in
  lives m' = lives m + 1 /\
  exists H', node_step_to 1 W H H' k m m' /\ H' !! (selfID m, lives m') = Some tags.
Proof using Hcount Hk.
  intros Hf m'. pose proof Hf as [H1 H2 H3 H4 H5 H6 H7].
  assert (lives m' = lives m + 1) as Hnum by (apply u32_small; lia). split; [done|].
  destruct (world_count W H (selfID m) (lives m) (left m) (config m) tags H2 Hcount) as (_ & HH & _).
  rewrite <- Hnum in HH. set (H' := <[ _ := tags ]> H) in HH.
  exists H'. split; [|apply lookup_insert_eq].
  apply node_step_to_intro; try done; [lia|right; by eexists| |].
  { apply inv_set_lives; [done|apply nextLiveNo_range]. }
  intros HW. split_and!.
  - by eapply entries_later.
  - eapply queue_facts_later; [done..| |exact H6]. lia.
  - eapply Forall_impl; [exact H7|]. intros t. by apply honest_task_later.
Qed.

(** ** Everything a node does *)

Lemma expire_step m sl e : node_facts W H k m -> node_step 0 W H k m (expireTimer m sl e).
Proof using Hcount.
  intros Hf. pose proof Hf as [H1 H2 H3 H4 H5 H6 H7].
  destruct (expireTimer_inv m sl e H1) as [Hi Hv]. destruct (expireTimer_frame m sl e) as [Hcfg Hl].
  assert (lives (expireTimer m sl e) = lives m /\ mbroadcasts (expireTimer m sl e) = mbroadcasts m /\
    Forall (honest_task W H) (tasks (expireTimer m sl e))) as (E1 & E2 & E3).
  { unfold expireTimer. repeat case_match; split_and!; try done.
    apply Forall_app_2; [done|by constructor]. }
  apply (node_step_intro 0 W H H); try done; [congruence|lia|by left|by rewrite expireTimer_probeIdx|].
  intros HW. rewrite Hv, E2. split_and!; [by eapply entries_later|eapply queue_facts_later; [done..| |exact H6]; lia|].
  eapply Forall_impl; [exact E3|]. intros t. by apply honest_task_later.
Qed.

Lemma reap_step m clock r m' :
  node_facts W H k m -> (exists lo hi, forall i, lo <= clock i <= hi) -> reap m clock r = Ret m' ->
  node_step 0 W H k m m'.
Proof using Hcount.
  intros Hf (lo & hi & Hclk) E. pose proof Hf as [H1 H2 H3 H4 H5 H6 H7].
  destruct (reap_refines m clock r lo hi H1 Hclk) as (m1 & E' & Hi & Hsub & _ & _ & Hcfg & Hl).
  rewrite E in E'. injection E' as <-. pose proof (reap_probeIdx _ _ _ _ E) as Hp.
  assert (lives m' = lives m /\ mbroadcasts m' = mbroadcasts m /\ tasks m' = tasks m) as (E1 & E2 & E3).
  { unfold reap in E. apply obind_Ret_inv in E as ([ns i] & _ & E). apply obind_Ret_inv in E as (mp & _ & E).
    by injection E as <-. }
  apply (node_step_intro 0 W H H); try done; [congruence|lia|by left|lia|].
  intros HW. rewrite E2, E3. split_and!.
  - intros y n Hy. apply (entries_later W _ H H (view m)); [done..|]. by eapply lookup_weaken.
  - eapply queue_facts_later; [done..| |exact H6]. lia.
  - eapply Forall_impl; [exact H7|]. intros t. by apply honest_task_later.
Qed.

Lemma gossip_queue m enc ub clock r res :
  queue_facts W H k (mbroadcasts m) -> gossip m enc ub clock r = Ret res ->
  queue_facts W H k (mbroadcasts res.2).
Proof using.
  unfold gossip. intros Hq (ns & _ & E)%obind_Ret_inv. apply obind_Ret_inv in E as (rem & _ & E).
  revert E. generalize (@nil (UDPAddr * list byte)). revert m Hq.
  induction ns as [|n ns IH]; intros m Hq sent; cbn [gossipLoop]; [by intros [= <-]|].
  intros ([msgs q] & Eg & E)%obind_Ret_inv.
  assert (queue_facts W H k q) as Hq' by (eapply queue_facts_get; [done| |done]; unfold lenMsgOverhead; lia).
  destruct msgs as [|x msgs]; [by simplify_eq|]. by apply IH in E.
Qed.

Lemma left_step m : node_facts W H k m -> exists H', node_step_to 0 W H H' k m (set_left true m).
Proof using Hcount.
  intros Hf. pose proof Hf as [H1 H2 H3 H4 H5 H6 H7]. exists H.
  apply node_step_to_intro; try done; [simpl; lia|by left|by apply inv_set_left|].
  intros HW. split_and!; [by eapply entries_later|eapply queue_facts_later; [done..| |exact H6]; lia|].
  eapply Forall_impl; [exact H7|]. intros t. by apply honest_task_later.
Qed.

End Facts.

Section Steps.
Context {HO : HeapOps TransmitCapItem} {HL : HeapLaws TransmitCapItem HO}.
Context {CO : Codec} {CL : CodecLaws CO}.
Implicit Types (m : Memberlist) (W : world) (H : history).

(** The node announces itself with a new number. *)
Lemma announce_step W H k m a p tags nt e :
  counted W H -> small W k -> 0 <= k -> k + 2 < 2 ^ 32 - 1 -> node_facts W H k m ->
  GetAdvertiseAddr (config m) = Some (a, p) ->
  node_step 2 W H k m
    (aliveNode (set_lives (nextLiveNo (lives m)) m) (mkAlive (nextLiveNo (lives m)) (selfID m) a p tags) nt e).
Proof using CL.
  intros Hc Hs Hk0 Hk Hf Hadv. set (m1 := set_lives _ m).
  destruct (count_step W H k Hc ltac:(lia) m tags Hf) as (Hnum & H1 & Hto & Htag). fold m1 in Hnum, Hto, Htag.
  apply (node_step_trans 1 1 W H H1 k m m1); [done|].
  pose proof (small_step W H k Hs 1 H1 m m1 Hto ltac:(lia)) as Hs1.
  destruct Hto as (HW & HH & Hc1 & Hcfg & Hf1).
  apply aliveNode_step; try done; [lia|]. split; [|done]. exists (lives m1), (left m1), (config m1). simpl.
  pose proof (nf_lives _ _ _ _ Hf). split_and!; [apply lookup_insert_eq|..|done]; simpl in *; lia.
Qed.

Lemma own_address W H k m n :
  node_facts W H k m -> view m !! selfID m = Some n ->
  GetAdvertiseAddr (config m) = Some (IP (node n), Port (node n)).
Proof using.
  intros Hf Hn. destruct (nf_entries _ _ _ _ Hf _ _ Hn) as [Hid (L & g & c & Hx & _ & Ha & _)%truthful_entry%proj1].
  rewrite Hid, (nf_self _ _ _ _ Hf) in Hx. by injection Hx as _ _ <-.
Qed.

Lemma quiet_self W H k m j : counted W H -> 0 <= j -> node_facts W H k m -> node_step j W H k m m.
Proof using.
  intros Hc Hj Hf. apply quiet_step; try done; [|apply Hf]. eapply queue_facts_later; [done..| |apply Hf]. lia.
Qed.

Lemma setAlive_step W H k m e :
  counted W H -> small W k -> 0 <= k -> k + 2 < 2 ^ 32 - 1 -> node_facts W H k m ->
  node_step 2 W H k m (setAlive m e).2.
Proof using CL.
  intros. unfold setAlive. case_match; [by apply quiet_self|]. case_match eqn:Ea; [|by apply quiet_self].
  case_match. subst. by apply (announce_step W H k m _ _ (Cfg.Tags (config m)) None e).
Qed.

Lemma UpdateTags_step W H k m tags ch sent e r :
  counted W H -> small W k -> 0 <= k -> k + 2 < 2 ^ 32 - 1 -> node_facts W H k m ->
  UpdateTags m tags ch sent e = Ret r -> node_step 2 W H k m r.2.
Proof using CL.
  intros Hc Hs Hk0 Hk Hf. unfold UpdateTags. case_match; [intros [= <-]; by apply quiet_self|].
  destruct (getNode m (selfID m)) as [[p n]|] eqn:Eg; [|done].
  intros E. rewrite (waitBroadcast_same _ _ _ _ E).
  apply (announce_step W H k m _ _ tags (Some ch) e); try done. eapply own_address; [done|]. by rewrite getNode_view, Eg.
Qed.

Lemma Leave_step W H k m ch sent e r :
  counted W H -> small W k -> 0 <= k -> k + 2 < 2 ^ 32 - 1 -> node_facts W H k m ->
  Leave m ch sent e = Ret r -> node_step 2 W H k m r.2.
Proof using CL.
  intros Hc Hs Hk0 Hk Hf. unfold Leave. destruct (shutdown m); [done|].
  destruct (left m) eqn:Hl; [intros [= <-]; by apply quiet_self|]. cbv zeta. set (m1 := set_left true m).
  destruct (left_step W H k Hc m Hf) as (H1 & Hto). fold m1 in Hto.
  pose proof (small_step W H k Hs 0 H1 m m1 Hto ltac:(lia)) as Hs1.
  destruct (getNode m1 (selfID m1)) as [[p n]|] eqn:Eg.
  - intros (m2 & Ed & E)%obind_Ret_inv. rewrite (waitBroadcast_same _ _ _ _ E).
    apply (node_step_weaken 1); [lia|]. apply (node_step_trans 0 1 W H H1 k m m1); [done|].
    destruct Hto as (HW & HH & Hc1 & Hcfg & Hf1). eapply dead_step; try done; [lia|].
    assert (view m1 !! selfID m1 = Some n) as Hn by by rewrite getNode_view, Eg.
    destruct (nf_entries _ _ _ _ Hf1 _ _ Hn) as [Hid (L & g & c & Hx & Hlv & _)%truthful_entry%proj1].
    exists L, g, c. split_and!; [done|simpl; lia|simpl; lia|]. intros _. rewrite Hid, (nf_self _ _ _ _ Hf1) in Hx.
    by injection Hx as _ <- _.
  - intros [= <-]. apply (node_step_weaken 0); [lia|]. by exists H1.
Qed.

Lemma runTask_step W H k m i e m' :
  counted W H -> small W k -> 0 <= k -> k + 2 < 2 ^ 32 - 1 -> node_facts W H k m ->
  runTask m i e = Ret m' -> node_step 1 W H k m m'.
Proof using CL.
  intros Hc Hs Hk0 Hk Hf. pose proof Hf as [H1 H2 H3 H4 H5 H6 H7]. unfold runTask.
  pose proof (inv_tasks _ H1) as Hok.
  destruct (tasks m !! i) as [[sl|d|[|d ds]]|] eqn:Ei.
  - destruct (proj1 (Forall_lookup _ _) Hok _ _ Ei) as [sc Hsc]. rewrite Hsc.
    assert (node_step 1 W H k m (set_tasks (delete i (tasks m)) m)) as Hdel.
    { apply (node_step_weaken 0); [lia|]. apply tasks_step; try done; by apply Forall_delete. }
    destruct (timeoutTest m sc) as [d|] eqn:Et; intros [= <-]; [|done].
    apply (node_step_weaken 0); [lia|].
    destruct (runTask_refines m i e H1) as (m2 & E2 & Hi2 & _).
    unfold runTask in E2. rewrite Ei, Hsc, Et in E2. injection E2 as <-.
    apply tasks_step; [done..|exact (inv_tasks _ Hi2)|]. apply Forall_insert; [done|]. simpl.
    unfold timeoutTest in Et. destruct (getNode m (about sc)) as [[p n]|] eqn:Eg; [|done].
    case_match; [|done]. injection Et as <-. simpl.
    assert (view m !! about sc = Some n) as Hn by by rewrite getNode_view, Eg.
    destruct (H5 _ _ Hn) as [_ (L & g & c & Hx & Hlv & _)%truthful_entry%proj1].
    exists L, g, c. split_and!; [done|simpl; lia|simpl; lia|done].
  - intros E. set (m1 := set_tasks (delete i (tasks m)) m) in E.
    assert (node_step 0 W H k m m1) as (H1' & Hto) by (apply tasks_step; try done; by apply Forall_delete).
    apply (node_step_trans 0 1 W H H1' k m m1); [done|].
    pose proof (small_step W H k Hs 0 H1' m m1 Hto ltac:(lia)) as Hs1.
    destruct Hto as (HW & HH & Hc1 & Hcfg & Hf1). eapply dead_step; try done; [lia|].
    eapply (truthful_later W _ H); [done..|]. exact (proj1 (Forall_lookup _ _) H7 _ _ Ei).
  - intros [= <-]. apply (node_step_weaken 0); [lia|]. apply tasks_step; try done; by apply Forall_delete.
  - intros [= <-]. set (m1 := set_tasks _ m).
    pose proof (proj1 (Forall_lookup _ _) H7 _ _ Ei) as Hds. simpl in Hds. apply Forall_cons in Hds as [Hd Hds].
    assert (node_step 0 W H k m m1) as (H1' & Hto).
    { apply tasks_step; try done; [apply Forall_insert; done|]. by apply Forall_insert. }
    apply (node_step_trans 0 1 W H H1' k m m1); [done|]. destruct Hto as (HW & HH & Hc1 & Hcfg & Hf1).
    apply quiet_step; try done; [apply core_runDeferred| |].
    + rewrite runDeferred_queue. pose proof (nf_queue _ _ _ _ Hf1) as Hq.
      destruct d as [x a nt|n|n]; [|eapply queue_facts_later; [reflexivity..| |exact Hq]; lia..].
      apply queue_facts_add; [done|lia|done|]. by eapply (truthful_later W _ H _ (PAlive a)).
    + rewrite runDeferred_probeIdx. apply Hf1.
  - intros [= <-]. by apply quiet_self.
Qed.

End Steps.
