(* ===== verification/Agreement.v ===== *)
(** * What the members of a cluster can rely on

    The theorems about clusters, by induction over their steps: a node knows
    of others only what they have announced, two nodes agree on a member they
    hold for alive, the handlers return, and what a node announces of itself
    is newer than anything the others know. The number of steps is bounded so
    that the 32-bit counters do not wrap around. *)

From S2P Require Import Prelude Types Interfaces Awareness Suspicion Broadcast BroadcastFacts Config NetAddr Spec State StateFacts Maintenance MaintenanceFacts Lifecycle System PushPull Samples Cluster ClusterFacts.
From Stdlib Require Import Strings.Byte.

Section Agreement.
Context {HO : HeapOps TransmitCapItem} {HL : HeapLaws TransmitCapItem HO}.
Context {CO : Codec} {CL : CodecLaws CO}.
Implicit Types (m : Memberlist) (W : world) (H : history) (c : cluster).

(** ** Justified actions *)

(** Calls of the user and gossip rounds; everything else is in answer to a
    message, a timer or a goroutine. *)
Definition own_call (a : action) : bool :=
  match a with
  | ActUpdateTags _ _ _ _ | ActLeave _ _ _ | ActGossip _ _ _ _ => true
  | _ => false
  end.

(** The arrival of a message. *)
Definition is_message (a : action) : bool :=
  match a with ActAlive _ _ _ | ActSuspect _ _ | ActDead _ _ _ => true | _ => false end.

Section Justified.
Context (W : world) (H : history) (k : Z) (sent : list payload).
Hypothesis Hsent : forall p, p ∈ sent -> truthful W H p.

Lemma hears_truthful a : hears_alive sent a -> truthful W H (PAlive a).
Proof using Hsent.
  intros [Ha|(r & Hr & Hst & ->)]; [by apply Hsent|].
  destruct (Hsent _ Hr) as [(L & g & c & Hx & Hl & Ha & _) Ht]. split; [|by apply Ht].
  exists L, g, c. split_and!; try done; simpl; lia.
Qed.

Lemma suspect_truthful m s e : justified sent m (ActSuspect s e) -> truthful W H (PSuspect s).
Proof using Hsent.
  intros [Hs|(r & Hr & Hlv & Hid)]; [by apply Hsent|].
  destruct (Hsent _ Hr) as [(L & g & c & Hx & Hl & _) _]. rewrite Hid, Hlv in *.
  exists L, g, c. split_and!; try done; simpl; lia.
Qed.

Lemma dead_truthful m d nt e :
  node_facts W H k m -> justified sent m (ActDead d nt e) -> truthful W H (PDead d).
Proof using Hsent.
  intros Hf [Hd|(r & Hr & -> & Hst)]; [by apply Hsent|].
  destruct (Hsent _ Hr) as [(L & g & c & Hx & Hl & _ & Hg) _].
  exists L, g, c. split_and!; [done|simpl; lia..|]. intros _. destruct Hst as [Hst|[Hid Hl']]; [by apply Hg|].
  rewrite Hid, (nf_self _ _ _ _ Hf) in Hx. by injection Hx as _ <- _.
Qed.

Hypothesis Hcount : counted W H.
Hypothesis Hsmall : small W k.
Hypothesis Hk : 0 <= k /\ k + 2 < 2 ^ 32 - 1.

Lemma justified_admissible m a : node_facts W H k m -> justified sent m a -> admissible m a.
Proof using Hsent Hsmall Hk.
  assert (0 <= k /\ k + 1 < 2 ^ 32 - 1) as Hk1 by lia.
  intros Hf. destruct a; simpl; try done.
  - intros Ha%hears_truthful. pose proof (known_u32 W k Hsmall Hk1 _ _ _ (proj1 Ha)). lia.
  - intros [Ha%hears_truthful Hip]. pose proof (known_u32 W k Hsmall Hk1 _ _ _ (proj1 Ha)). split; [lia|done].
  - intros Hs%(suspect_truthful m s e). pose proof (known_u32 W k Hsmall Hk1 _ _ _ Hs). lia.
  - intros Hd%(dead_truthful m d nt e Hf). pose proof (known_u32 W k Hsmall Hk1 _ _ _ Hd). lia.
Qed.

(** What can go wrong in a cluster: calls of the user, and gossip with a
    configuration that makes no sense; never the handling of a message. *)
Lemma justified_mishap m a o :
  node_facts W H k m -> justified sent m a -> mishap m a = Some o -> o = Panic /\ own_call a = true.
Proof using Hsent Hsmall Hk.
  assert (0 <= k /\ k + 1 < 2 ^ 32 - 1) as Hk1 by lia.
  intros Hf. destruct a; simpl; try done; try (intros _ E; case_match; by simplify_eq).
  - intros Hs%(suspect_truthful m s e). pose proof (known_u32 W k Hsmall Hk1 _ _ _ Hs).
    rewrite (proj2 (Z.eqb_neq _ _)), andb_false_r by lia. done.
  - intros Hd%(dead_truthful m d nt e Hf). pose proof (known_u32 W k Hsmall Hk1 _ _ _ Hd).
    rewrite (proj2 (Z.eqb_neq _ _)), andb_false_r by lia. done.
Qed.

Lemma exec_step m a m' :
  node_facts W H k m -> justified sent m a -> exec m a = Ret m' -> node_step 2 W H k m m'.
Proof using Hsent Hcount Hsmall Hk CL HL.
  intros Hf Hj. pose proof (justified_admissible m a Hf Hj) as Hadm.
  destruct Hk as [Hk0 Hk2]. assert (0 <= k /\ k + 1 < 2 ^ 32 - 1) as Hk1 by lia.
  assert (forall q, queue_facts W H k q -> queue_facts W H (k + 2) q) as grow.
  { intros q. apply queue_facts_later; [reflexivity..|lia]. }
  destruct a; cbn [exec] in *.
  - intros [= <-]. apply (node_step_weaken 1); [lia|]. apply aliveNode_step; try done. by apply hears_truthful.
  - intros [= <-]. apply (node_step_weaken 1); [lia|]. apply aliveLate_step; try done.
    apply hears_truthful, Hj.
  - intros E. apply (node_step_weaken 1); [lia|]. eapply suspect_step; try done. by eapply suspect_truthful.
  - intros E. apply (node_step_weaken 1); [lia|]. eapply dead_step; try done. by eapply dead_truthful.
  - intros [= <-]. apply (node_step_weaken 0); [lia|]. by apply expire_step.
  - intros E. apply (node_step_weaken 1); [lia|]. by eapply runTask_step.
  - intros E. apply (node_step_weaken 0); [lia|]. by eapply reap_step.
  - intros E. pose proof (exec_probeIdx m ActProbe m' (inv_mem _ (nf_inv _ _ _ _ Hf)) (nf_probe _ _ _ _ Hf) E) as Hp.
    apply obind_Ret_inv in E as (r & E & [= <-]). apply quiet_step; try done; [by apply nextProbeNode_core|].
    replace (mbroadcasts r.2) with (mbroadcasts m); [apply grow, Hf|].
    unfold nextProbeNode in E. apply obind_Ret_inv in E as ([i o] & _ & E). by simplify_eq.
  - intros (r' & E & [= <-])%obind_Ret_inv. apply quiet_step; try done; [by eapply gossip_core|..].
    + apply grow. eapply gossip_queue; [|done]. apply Hf.
    + rewrite (gossip_probeIdx _ _ _ _ _ _ E). apply Hf.
  - intros ([b q] & E & [= <-])%obind_Ret_inv. apply quiet_step; try done; [|apply Hf].
    apply grow. eapply queue_facts_get; [apply Hf|exact Hj|done].
  - intros [= <-]. by apply setAlive_step.
  - intros (r & E & [= <-])%obind_Ret_inv. by eapply UpdateTags_step.
  - intros (r & E & [= <-])%obind_Ret_inv. by eapply Leave_step.
  - intros [= <-]. apply (node_step_weaken 0); [lia|]. by apply left_step.
  - done.
  - intros [= <-]. apply quiet_step; try done; [apply grow, Hf|apply Hf].
  - intros [= <-]. unfold Shutdown. destruct (shutdown m); [by apply quiet_self|].
    apply quiet_step; try done; [apply grow, Hf|apply Hf].
Qed.
End Justified.

(** ** The invariant of a cluster *)

Definition world_of c : world := summary <$> members c.

(** With the tags of [H], and counters of at most [k]: every message sent is
    true, and so is what every member holds. *)
Record cluster_inv (cfgs : gmap string Cfg.Config) (ch : bool) (H : history) (k : Z) c : Prop := {
  ci_counted : counted (world_of c) H;
  ci_soup p : p ∈ soup c -> truthful (world_of c) H p;
  ci_members x m : members c !! x = Some m ->
    selfID m = x /\ cfgs !! x = Some (config m) /\ reachable (config m) ch m /\
    node_facts (world_of c) H k m
}.

Context (cfgs : gmap string Cfg.Config) (ch : bool).
Hypothesis Hnames : well_named cfgs.

Lemma world_lookup c x w : world_of c !! x = Some w -> exists m, members c !! x = Some m /\ w = summary m.
Proof using. unfold world_of. rewrite lookup_fmap_Some. naive_solver. Qed.

Lemma world_small H k c : cluster_inv cfgs ch H k c -> small (world_of c) k.
Proof using.
  intros [_ _ Hm] x L g cf (m & Hx & E)%world_lookup. injection E as -> _ _.
  apply (nf_lives _ _ _ _ (proj2 (proj2 (proj2 (Hm x m Hx))))).
Qed.

Lemma cluster_init : cluster_inv cfgs ch ∅ 0 (cinit cfgs ch).
Proof using Hnames.
  split.
  - intros x l t E. by rewrite lookup_empty in E.
  - intros p Hp. by apply elem_of_nil in Hp.
  - intros x m. simpl. rewrite lookup_fmap_Some. intros (cf & <- & Hx).
    assert (selfID (newMemberlist cf ch) = x) as Hid by by apply Hnames.
    split_and!; [done|done|apply rtc_refl|].
    split; [apply inv_newMemberlist| |simpl; lia|simpl; lia| | |constructor].
    + unfold world_of. simpl. by rewrite Hid, <- map_fmap_compose, lookup_fmap, Hx.
    + intros y n. by rewrite lookup_view.
    + split; [apply NewBroadcastQueue_ok|simpl; lia|..]; intros i; unfold waiting; simpl;
        rewrite contents_new; by intros ?%elem_of_nil.
Qed.

(** A member takes a step; what is sent meanwhile is true. *)
Lemma cluster_node H H' k c x m m' sent :
  cluster_inv cfgs ch H k c -> members c !! x = Some m ->
  node_step_to 2 (world_of c) H H' k m m' -> reachable (config m) ch m' ->
  (forall p, p ∈ sent -> truthful (<[ x := summary m' ]> (world_of c)) H' p) ->
  cluster_inv cfgs ch H' (k + 2) (mkCluster (<[ x := m' ]> (members c)) (sent ++ soup c)).
Proof using.
  intros [Hc Hs Hm] Hx (HW & HH & Hc' & Hcfg & Hf) Hr Hsent.
  destruct (Hm x m Hx) as (Hid & Hcf & _ & _). rewrite Hid in *.
  assert (world_of (mkCluster (<[ x := m' ]> (members c)) (sent ++ soup c)) =
    <[ x := summary m' ]> (world_of c)) as Ew by (unfold world_of; simpl; by rewrite fmap_insert).
  assert (selfID m' = selfID m) as Hid' by (unfold selfID; by rewrite Hcfg).
  split; rewrite Ew.
  - done.
  - intros p [Hp|Hp]%elem_of_app; [by apply Hsent|]. eapply truthful_later; [done..|]. by apply Hs.
  - intros y my. simpl. rewrite lookup_insert_Some. intros [[<- <-]|[Hne Hy]].
    + rewrite Hcfg. by split_and!; [congruence|..].
    + destruct (Hm y my Hy) as (Hyid & Hycf & Hyr & Hyf). split_and!; try done.
      apply (node_facts_later (world_of c) _ H H' k); try done; [lia|]. by rewrite Hyid, lookup_insert_ne.
Qed.

(** What a member says is true. *)
Lemma says_truthful H k c x m p :
  cluster_inv cfgs ch H k c -> members c !! x = Some m -> says m p -> truthful (world_of c) H p.
Proof using.
  intros [_ _ Hm] Hx Hp. destruct (Hm x m Hx) as (_ & _ & _ & Hf).
  assert ((exists t i cs, gossipType p = Some t /\ i ∈ waiting (mbroadcasts m) /\
    msg i = msgByte t :: cs /\ decode_msg (kind_of p) cs = Some p) -> truthful (world_of c) H p) as Hq.
  { intros (t & i & cs & Ht & Hi & Eb & Hd). by eapply (qf_honest _ _ _ _ (nf_queue _ _ _ _ Hf) i Hi). }
  destruct p; simpl in Hp; try by apply Hq.
  destruct Hp as (ls & Els & Hr).
  destruct (localState_spec m (inv_mem _ (nf_inv _ _ _ _ Hf))) as (ls' & Els' & Hls).
  rewrite Els in Els'. injection Els' as <-. apply Hls in Hr as (n & Hn & ->).
  exact (proj2 (nf_entries _ _ _ _ Hf _ _ Hn)).
Qed.

(** A number is taken; it will be announced with [tags]. *)
Lemma update_step H k c x m p n tags :
  cluster_inv cfgs ch H k c -> 0 <= k -> k + 2 < 2 ^ 32 - 1 -> members c !! x = Some m ->
  getNode m (selfID m) = Some (p, n) ->
  let l := nextLiveNo (lives m) in
  exists H', cluster_inv cfgs ch H' (k + 2) (mkCluster (<[ x := set_lives l m ]> (members c))
    (PAlive (mkAlive l (selfID m) (IP (node n)) (Port (node n)) tags) :: soup c)).
Proof using.
  intros Hci Hk0 Hk Hx Hg l. destruct (ci_members _ _ _ _ _ Hci x m Hx) as (Hid & Hcf & Hr & Hf).
  destruct (count_step (world_of c) H k (ci_counted _ _ _ _ _ Hci) ltac:(lia) m tags Hf)
    as (Hnum & H' & Hto & Htag). exists H'. fold l in Hnum, Hto, Htag.
  apply (cluster_node H H' k c x m (set_lives l m)
    [PAlive (mkAlive l (selfID m) (IP (node n)) (Port (node n)) tags)]); try done.
  - destruct Hto as (? & ? & ? & ? & Hf'). split_and!; try done.
    eapply node_facts_later; [reflexivity..| |reflexivity|exact Hf']. lia.
  - eapply rtc_r; [exact Hr|]. by apply (step_intro _ _ ActNextLiveNo).
  - intros q ->%list_elem_of_singleton. split; [|done]. simpl. rewrite <- Hid.
    exists l, (left m), (config m). pose proof (nf_lives _ _ _ _ Hf). simpl in Hnum.
    split_and!; [apply lookup_insert_eq|lia..|].
    eapply own_address; [done|]. by rewrite getNode_view, Hg.
Qed.

Lemma cluster_step H k c c' :
  cluster_inv cfgs ch H k c -> 0 <= k -> k + 2 < 2 ^ 32 - 1 -> cstep c c' ->
  exists H', cluster_inv cfgs ch H' (k + 2) c'.
Proof using CL HL.
  intros Hci Hk0 Hk Hs. pose proof (world_small _ _ _ Hci) as Hsm.
  destruct Hs as [x m a m' Hx Hj E|x m p Hx Hp|x m p n tags Hx Hg].
  - destruct (ci_members _ _ _ _ _ Hci x m Hx) as (Hid & Hcf & Hr & Hf).
    destruct (exec_step (world_of c) H k (soup c) (ci_soup _ _ _ _ _ Hci) (ci_counted _ _ _ _ _ Hci) Hsm
      (conj Hk0 Hk) m a m' Hf Hj E) as (H' & Hto). exists H'.
    apply (cluster_node H H' k c x m m' []); try done; [|by intros p ?%elem_of_nil].
    eapply rtc_r; [exact Hr|]. apply (step_intro _ _ a); [|done].
    exact (justified_admissible (world_of c) H k (soup c) (ci_soup _ _ _ _ _ Hci) Hsm (conj Hk0 Hk) m a Hf Hj).
  - exists H. pose proof Hci as [Hc Hs Hm]. split.
    + done.
    + intros q [->|Hq]%elem_of_cons; [|by apply Hs]. by apply (says_truthful H k c x m).
    + intros y my Hy. destruct (Hm y my Hy) as (? & ? & ? & Hf). split_and!; try done.
      eapply node_facts_later; [reflexivity..| |reflexivity|exact Hf]. lia.
  - by eapply update_step.
Qed.

Lemma cluster_steps n c :
  nsteps cstep n (cinit cfgs ch) c -> 2 * Z.of_nat n < 2 ^ 32 - 1 ->
  exists H, cluster_inv cfgs ch H (2 * Z.of_nat n) c.
Proof using Hnames CL HL.
  revert c. induction n as [|n IH]; intros c Hn Hk.
  - inv Hn. exists ∅. apply cluster_init.
  - apply nsteps_inv_r in Hn as (c1 & Hn & Hs). destruct (IH c1 Hn) as [H Hci]; [lia|].
    destruct (cluster_step H _ c1 c Hci ltac:(lia) ltac:(lia) Hs) as [H' Hci']. exists H'.
    by replace (2 * Z.of_nat (S n)) with (2 * Z.of_nat n + 2) by lia.
Qed.

(** An entry, in terms of the node it is about. *)
Lemma entry_facts H k c x m y e :
  cluster_inv cfgs ch H k c -> members c !! x = Some m -> view m !! y = Some e ->
  nid e = y /\ exists my, members c !! y = Some my /\ Lives e <= lives my /\
    GetAdvertiseAddr (config my) = Some (IP (node e), Port (node e)) /\
    (State e = StateLeft -> left my = true).
Proof using.
  intros Hci Hx He. destruct (ci_members _ _ _ _ _ Hci x m Hx) as (_ & _ & _ & Hf).
  destruct (nf_entries _ _ _ _ Hf y e He) as [Hid (L & g & cf & Hy & Hl & Ha & Hg)%truthful_entry%proj1].
  rewrite Hid in Hy. apply world_lookup in Hy as (my & Hy & E). injection E as -> -> ->.
  split; [done|]. exists my. split_and!; [done|lia|done|done].
Qed.

(** A list is not longer than the cluster is large. *)
Lemma nodes_size H k c x m :
  cluster_inv cfgs ch H k c -> members c !! x = Some m -> (length (nodes m) <= size cfgs)%nat.
Proof using.
  intros Hci Hx. destruct (ci_members _ _ _ _ _ Hci x m Hx) as (_ & _ & _ & Hf).
  rewrite (size_view m) by apply Hf. rewrite <- !size_dom. apply subseteq_size.
  intros y [e He]%elem_of_dom. destruct (entry_facts H k c x m y e Hci Hx He) as (_ & my & Hy & _).
  destruct (ci_members _ _ _ _ _ Hci y my Hy) as (_ & Hcf & _). by apply elem_of_dom.
Qed.

Lemma member_total H k c x m a :
  cluster_inv cfgs ch H k c -> 0 <= k -> k + 2 < 2 ^ 32 - 1 -> members c !! x = Some m ->
  (own_call a = true -> Z.of_nat (size cfgs) < 2 ^ 32) -> justified (soup c) m a ->
  match mishap m a with
  | None => exists m', exec m a = Ret m'
  | Some _ => exec m a = Panic /\ own_call a = true
  end.
Proof using.
  intros Hci Hk0 Hk Hx Hsize Hj. destruct (ci_members _ _ _ _ _ Hci x m Hx) as (_ & _ & _ & Hf).
  pose proof (world_small _ _ _ Hci) as Hsm. pose proof (nodes_size H k c x m Hci Hx) as Hlen.
  pose proof (justified_admissible (world_of c) H k (soup c) (ci_soup _ _ _ _ _ Hci) Hsm (conj Hk0 Hk)
    m a Hf Hj) as Hadm.
  assert (queue_ready m a) as Hq.
  { pose proof (qf_ok _ _ _ _ (nf_queue _ _ _ _ Hf)). destruct a; try done; simpl; split; try done.
    specialize (Hsize eq_refl). lia. }
  pose proof (exec_total m a (nf_inv _ _ _ _ Hf) (nf_probe _ _ _ _ Hf) Hadm Hq) as Ht.
  destruct (mishap m a) as [o|] eqn:Em; [|done].
  destruct (justified_mishap (world_of c) H k (soup c) (ci_soup _ _ _ _ _ Hci) Hsm (conj Hk0 Hk)
    m a o Hf Hj Em) as [-> Ho]. done.
Qed.

Lemma member_returns H k c x m a :
  cluster_inv cfgs ch H k c -> 0 <= k -> k + 2 < 2 ^ 32 - 1 -> members c !! x = Some m ->
  justified (soup c) m a -> is_message a = true -> exists m', exec m a = Ret m'.
Proof using.
  intros Hci Hk0 Hk Hx Hj Ha. pose proof (member_total H k c x m a Hci Hk0 Hk Hx) as Ht.
  destruct (mishap m a); [|apply Ht; by destruct a].
  destruct Ht as [_ Ho]; [by destruct a|done|by destruct a].
Qed.

(** ** Theorems *)

(** The cluster [c] after [n] steps, far enough from the end of the numbers. *)
Definition runs (n : nat) c : Prop :=
  nsteps cstep n (cinit cfgs ch) c /\ 2 * Z.of_nat n + 2 < 2 ^ 32 - 1.

(** C12: in a cluster in which every node runs this code, whatever a node has in
    its list is about a node of the cluster, at a number that node has
    reached itself, under the address it advertises, and as one that left
    only if it has called [Leave]. *)
Theorem cluster_truth n c x m y e :
  runs n c -> members c !! x = Some m -> view m !! y = Some e ->
  exists my, members c !! y = Some my /\ Lives e <= lives my /\
    GetAdvertiseAddr (config my) = Some (IP (node e), Port (node e)) /\
    (State e = StateLeft -> left my = true).
Proof using Hnames CL HL.
  intros [Hn Hk] Hx He. destruct (cluster_steps n c Hn ltac:(lia)) as [H Hci].
  by apply (entry_facts H _ c x m y e Hci).
Qed.

(** C13: two nodes that hold a third one for alive at the same number have the
    same address and the same tags for it. *)
Theorem cluster_agreement n c x1 m1 x2 m2 y e1 e2 :
  runs n c -> members c !! x1 = Some m1 -> members c !! x2 = Some m2 ->
  view m1 !! y = Some e1 -> view m2 !! y = Some e2 ->
  State e1 = StateAlive -> State e2 = StateAlive -> Lives e1 = Lives e2 ->
  node e1 = node e2.
Proof using Hnames CL HL.
  intros [Hn Hk] Hx1 Hx2 He1 He2 Hs1 Hs2 Hl. destruct (cluster_steps n c Hn ltac:(lia)) as [H Hci].
  destruct (ci_members _ _ _ _ _ Hci _ _ Hx1) as (_ & _ & _ & Hf1).
  destruct (ci_members _ _ _ _ _ Hci _ _ Hx2) as (_ & _ & _ & Hf2).
  destruct (nf_entries _ _ _ _ Hf1 _ _ He1) as [Hi1 [(L1 & g1 & c1 & Hw1 & _ & Ha1 & _) Ht1]%truthful_entry].
  destruct (nf_entries _ _ _ _ Hf2 _ _ He2) as [Hi2 [(L2 & g2 & c2 & Hw2 & _ & Ha2 & _) Ht2]%truthful_entry].
  specialize (Ht1 Hs1). specialize (Ht2 Hs2). rewrite Hi1 in Ht1, Hw1. rewrite Hi2 in Ht2, Hw2.
  unfold nid in Hi1, Hi2. rewrite <- Hl, Ht1 in Ht2. rewrite Hw1 in Hw2. injection Hw2 as -> -> ->.
  rewrite Ha1 in Ha2. injection Ha2 as Hip Hport. injection Ht2 as Htags.
  destruct e1 as [[]], e2 as [[]]; simpl in *; congruence.
Qed.

(** C15: every member of a cluster of fewer than [2 ^ 32] nodes is in a state
    that the theorems about one node apply to. Whatever the network delivers
    to it, every timer, goroutine, gossip round and API call returns, as a
    step of the cluster, with these exceptions, which panic: [UpdateTags] of a
    node that is not in its own list (its filter excludes it), [Leave] after
    [Shutdown], and gossip with a negative [GossipNodes] or an unknown
    encryption version ([mishap]). The endless loop of a refutation cannot be
    provoked by nodes that run this code. *)
Theorem cluster_returns n c x m :
  runs n c -> Z.of_nat (size cfgs) < 2 ^ 32 -> members c !! x = Some m ->
  reachable (config m) ch m /\ cfgs !! x = Some (config m) /\
  forall a, justified (soup c) m a ->
    match mishap m a with
    | None => exists m', exec m a = Ret m' /\ cstep c (mkCluster (<[ x := m' ]> (members c)) (soup c))
    | Some _ => exec m a = Panic /\ own_call a = true
    end.
Proof using Hnames CL HL.
  intros [Hn Hk] Hsize Hx. destruct (cluster_steps n c Hn ltac:(lia)) as [H Hci].
  destruct (ci_members _ _ _ _ _ Hci x m Hx) as (_ & Hcf & Hr & Hf). split_and!; [done..|].
  intros a Hj. pose proof (member_total H _ c x m a Hci ltac:(lia) Hk Hx (fun _ => Hsize) Hj) as Ht.
  destruct (mishap m a); [done|]. destruct Ht as [m' E]. exists m'. split; [done|]. by econstructor.
Qed.

(** A peer that allows the address takes over what a node announces under a
    number it has just counted. *)
Lemma peer_accepts n c x m a y my nt e :
  runs n c -> members c !! x = Some m -> members c !! y = Some my -> y <> x ->
  a_ID a = x -> lives m < a_Lives a -> GetAdvertiseAddr (config m) = Some (a_IP a, a_Port a) ->
  IPAllowed (config my) (a_IP a) = true ->
  exists t, view (aliveNode my a nt e) !! x =
    Some (mkNodeState (mkNode x (a_IP a) (a_Port a) (a_Tags a)) (a_Lives a) StateAlive t).
Proof using Hnames CL HL.
  intros Hn Hx Hy Hne Hid Hl Ha Hip. subst x.
  destruct Hn as [Hn Hk]. destruct (cluster_steps n c Hn ltac:(lia)) as [H Hci].
  destruct (ci_members _ _ _ _ _ Hci y my Hy) as (Hyid & _ & _ & Hf).
  rewrite aliveNode_view by apply Hf. unfold spec_alive.
  rewrite Hip, Hyid, bool_decide_eq_false_2, andb_false_r by done. simpl.
  destruct (view my !! a_ID a) as [n0|] eqn:E.
  - destruct (entry_facts H _ c y my (a_ID a) n0 Hci Hy E) as (Hn0 & m0 & Hx0 & Hl0 & Ha0 & _).
    rewrite Hx in Hx0. injection Hx0 as <-. rewrite Ha in Ha0. injection Ha0 as Hip0 Hport0.
    unfold nid in Hn0. rewrite (proj2 (Z.leb_gt _ _)) by lia. rewrite lookup_insert_eq. eexists.
    unfold accept_alive. by rewrite Hn0, <- Hip0, <- Hport0.
  - rewrite lookup_insert_eq. by eexists.
Qed.

(** Accusations of [x], at number [lv]. *)
Definition accuses (x : string) (lv : Z) (a : action) : Prop :=
  match a with
  | ActSuspect s _ => s_ID s = x /\ s_Lives s = lv
  | ActDead d _ _ => d_ID d = x /\ d_Lives d = lv
  | _ => False
  end.

(** The accused node counts on, announces the next number, and has it in its
    own list. *)
Lemma accused_refutes W H k sent m e0 a lv m' :
  (forall p, p ∈ sent -> truthful W H p) -> small W k -> 0 <= k -> k + 2 < 2 ^ 32 - 1 ->
  node_facts W H k m -> justified sent m a -> exec m a = Ret m' -> accuses (selfID m) lv a ->
  left m = false -> view m !! selfID m = Some e0 -> Lives e0 <= lv ->
  refuting m m' e0 lv /\ lives m' = lives m + 1 /\
  view m' !! selfID m = Some (with_lives (lives m') e0).
Proof using.
  intros Hsent Hsm Hk0 Hk Hf Hj E Hacc Hleft Hself Hlv.
  pose proof (justified_admissible W H k sent Hsent Hsm (conj Hk0 Hk) m a Hf Hj) as Hadm.
  destruct (inv_local _ (nf_inv _ _ _ _ Hf) e0 Hself) as [_ Hst]. specialize (Hst Hleft).
  assert (DeadOrLeft e0 = false) as Hdl by (unfold DeadOrLeft; by rewrite Hst).
  assert (lv <= lives m -> refuting m m' e0 lv -> lives m' = lives m + 1 /\ refuteValue lv (lives m) = lives m')
    as Hnum.
  { intros Hle (Hl & _). pose proof (nf_lives _ _ _ _ Hf). rewrite refuteLoop_value in Hl by lia.
    injection Hl as Hl. split; [|done]. rewrite <- Hl. unfold refuteValue, nextLiveNo. rewrite u32_small by lia.
    by rewrite (proj2 (Z.ltb_lt _ _)) by lia. }
  destruct a as [| |s e|d nt e| | | | | | | | | | | | |]; simpl in Hacc; try done; destruct Hacc as [Hid Hl]; subst lv.
  - pose proof (suspect_truthful W H sent Hsent m s e Hj) as Ht. simpl in Ht. rewrite Hid in Ht.
    apply (known_self W H k m _ _ Hf) in Ht.
    assert (fine_suspect m s) as Hfine by (split; [exact Hadm|pose proof (nf_lives _ _ _ _ Hf); lia]).
    destruct (suspectNode_refines m s e (nf_inv _ _ _ _ Hf) Hfine) as (m1 & E' & _ & Hv & _).
    cbn [exec] in E. rewrite E in E'. injection E' as <-.
    destruct (suspectNode_effect m s e m' (nf_inv _ _ _ _ Hf) E) as [(_ & _ & _ & Hno)|(_ & n0 & Hn0 & _ & Hre)].
    { specialize (Hno Hid e0 Hself Hst). lia. }
    assert (n0 = e0) as -> by congruence. destruct (Hnum Ht Hre) as [H1 H2]. split_and!; [done..|].
    rewrite Hv, H2. unfold spec_suspect. rewrite Hid, Hself, (proj2 (Z.ltb_ge _ _)) by done. simpl.
    rewrite bool_decide_eq_false_2, bool_decide_eq_true_2 by (try done; by intros []). apply lookup_insert_eq.
  - pose proof (dead_truthful W H k sent Hsent m d nt e Hf Hj) as Ht. simpl in Ht. rewrite Hid in Ht.
    apply (known_self W H k m _ _ Hf) in Ht.
    assert (fine_dead m d) as Hfine by (split; [exact Hadm|pose proof (nf_lives _ _ _ _ Hf); lia]).
    destruct (deadNode_refines m d nt e (nf_inv _ _ _ _ Hf) Hfine) as (m1 & E' & _ & Hv & _).
    cbn [exec] in E. rewrite E in E'. injection E' as <-.
    destruct (deadNode_effect m d nt e m' E) as [(_ & _ & _ & Hno)|(_ & n0 & Hn0 & _ & Hre)].
    { specialize (Hno Hid Hleft e0 Hself Hdl). lia. }
    assert (n0 = e0) as -> by congruence. destruct (Hnum Ht Hre) as [H1 H2]. split_and!; [done..|].
    rewrite Hv, H2. unfold spec_dead. rewrite Hid, Hself, (proj2 (Z.ltb_ge _ _)), Hdl by done. simpl.
    rewrite bool_decide_eq_true_2, Hleft by done. apply lookup_insert_eq.
Qed.

(** What was queued last is said. *)
Lemma says_queued m q nm t p nt :
  queue_ok q -> 0 <= idSeq q -> idSeq q + 1 < 2 ^ 64 -> mbroadcasts m = QueueMsg q nm t p nt ->
  gossipType p = Some t -> is_Some (encode_msg t p) -> says m p.
Proof using CL.
  intros Hq H0 H1 Em Ht [b Hb].
  destruct (QueueMsg_full q nm t p nt b Hq H0 H1 Hb) as (_ & _ & _ & kept & _ & _ & Hw & _).
  destruct (decode_encode_msg t p b Hb) as (b' & -> & Hd).
  assert (exists t' i cs, gossipType p = Some t' /\ i ∈ waiting (mbroadcasts m) /\
    msg i = msgByte t' :: cs /\ decode_msg (kind_of p) cs = Some p) as Hs.
  { exists t, (mkItem nm (idSeq q) 0 (msgByte t :: b') nt), b'. split_and!; try done. rewrite Em, Hw. by left. }
  by destruct p.
Qed.

(** C14: a node that is accused in error, at its present number or a later one,
    clears itself: it counts on, sends an alive message with the new number,
    and every peer that allows its address and handles that message holds it
    for alive again, whatever the peer believed before, with the address and
    the tags the node has. *)
Theorem refutation_wins n c x m e0 a lv :
  runs n c -> members c !! x = Some m -> left m = false -> view m !! x = Some e0 ->
  justified (soup c) m a -> accuses x lv a -> Lives e0 <= lv ->
  exists m', exec m a = Ret m' /\
    let al := mkAlive (lives m + 1) x (IP (node e0)) (Port (node e0)) (Tags (node e0)) in
    view m' !! x = Some (with_lives (lives m + 1) e0) /\
    (is_Some (encode_msg aliveMsg (PAlive al)) -> says m' (PAlive al)) /\
    forall y my nt e, members c !! y = Some my -> y <> x -> IPAllowed (config my) (IP (node e0)) = true ->
      exists t, view (aliveNode my al nt e) !! x = Some (mkNodeState (node e0) (lives m + 1) StateAlive t).
Proof using Hnames CL HL.
  intros Hn Hx Hleft Hself Hj Hacc Hlv.
  pose proof Hn as [Hn' Hk]. destruct (cluster_steps n c Hn' ltac:(lia)) as [H Hci].
  destruct (member_returns H _ c x m a Hci ltac:(lia) Hk Hx Hj) as [m' E]; [by destruct a|].
  exists m'. split; [done|]. intros al.
  destruct (ci_members _ _ _ _ _ Hci x m Hx) as (Hid & _ & _ & Hf).
  destruct (nf_entries _ _ _ _ Hf _ _ Hself) as [Hid0 _]. unfold nid in Hid0.
  rewrite <- Hid in Hacc, Hself.
  destruct (accused_refutes _ _ _ _ m e0 a lv m' (ci_soup _ _ _ _ _ Hci) (world_small _ _ _ Hci)
    ltac:(lia) ltac:(lia) Hf Hj E Hacc Hleft Hself Hlv) as ((_ & _ & Hq) & Hnum & Hv).
  rewrite Hnum, Hid0 in Hq. rewrite Hnum, Hid in Hv. split_and!; [done|..].
  - intros Henc. destruct (nf_queue _ _ _ _ Hf) as [Hqok Hqid _ _]. by eapply says_queued; [..|exact Hq| |]; try done; lia.
  - intros y my nt e Hy Hne Hip.
    destruct (peer_accepts n c x m al y my nt e) as [t Ht]; try done; simpl; [lia|by eapply own_address|].
    exists t. rewrite Ht. simpl. do 2 f_equal. destruct e0 as [[]]; simpl in *; congruence.
Qed.

(** C22: a change of tags takes effect: [UpdateTags] of an active node that allows
    its own address, if nothing comes in between ([tags_overtaken]), changes
    its own entry, is sent, and is taken over by every peer that allows the
    address and handles the message. *)
Theorem update_wins n c x m e0 tags chn sent e :
  runs n c -> members c !! x = Some m -> left m = false -> view m !! x = Some e0 ->
  len tags <= TagMaxSize -> IPAllowed (config m) (IP (node e0)) = true ->
  exists err m', UpdateTags m tags chn sent e = Ret (err, m') /\
    let al := mkAlive (lives m + 1) x (IP (node e0)) (Port (node e0)) tags in
    let fresh t := mkNodeState (mkNode x (IP (node e0)) (Port (node e0)) tags) (lives m + 1) StateAlive t in
    view m' !! x = Some (fresh (StateChange e0)) /\
    (is_Some (encode_msg aliveMsg (PAlive al)) -> says m' (PAlive al)) /\
    forall y my nt e', members c !! y = Some my -> y <> x -> IPAllowed (config my) (IP (node e0)) = true ->
      exists t, view (aliveNode my al nt e') !! x = Some (fresh t).
Proof using Hnames CL HL.
  intros Hn Hx Hleft Hself Htags Hip. pose proof Hn as [Hn' Hk].
  destruct (cluster_steps n c Hn' ltac:(lia)) as [H Hci].
  destruct (ci_members _ _ _ _ _ Hci x m Hx) as (Hid & _ & _ & Hf). pose proof (nf_inv _ _ _ _ Hf) as Hinv.
  destruct (entry_facts H _ c x m x e0 Hci Hx Hself) as (Hid0 & m0 & Hx0 & Hl0 & _).
  rewrite Hx in Hx0. injection Hx0 as <-. unfold nid in Hid0. pose proof (nf_lives _ _ _ _ Hf).
  assert (nextLiveNo (lives m) = lives m + 1) as Hnum by (apply u32_small; lia).
  rewrite <- Hid in Hself. pose proof Hself as Eg. rewrite getNode_view in Eg.
  destruct (getNode m (selfID m)) as [[p k]|] eqn:Eg'; [|done]. simpl in Eg. injection Eg as ->.
  destruct (UpdateTags_view m tags chn sent e p e0 Hinv Eg' Htags) as (err & m' & E & _ & _ & Hv).
  exists err, m'. split; [done|]. intros al fresh. split_and!.
  - rewrite Hv, Hnum. unfold spec_alive. simpl a_ID. simpl a_Lives. simpl a_IP.
    rewrite Hleft, Hip, Hself, (proj2 (Z.leb_gt _ _)) by lia. simpl. rewrite Hid, lookup_insert_eq.
    destruct (inv_local _ Hinv e0 Hself) as [_ Hst]. unfold accept_alive, fresh.
    rewrite bool_decide_eq_true_2 by auto. simpl. by rewrite Hid0.
  - intros Henc. destruct (nf_queue _ _ _ _ Hf) as [Hqok Hqid _ _].
    eapply (says_queued _ _ (ID (node e0)) aliveMsg _ (Some chn)); [exact Hqok|lia|lia| |done|done].
    unfold UpdateTags in E. rewrite (proj2 (Z.ltb_ge _ _)), Eg' in E by done.
    apply waitBroadcast_same in E. cbn [snd] in E. set (m1 := set_lives _ m) in E.
    change (selfID m1) with (selfID m) in E. rewrite Hnum, Hid in E. fold al in E.
    rewrite E, aliveNode_body. change (left m1) with (left m). change (config m1) with (config m).
    rewrite Hleft. simpl (a_IP al). rewrite Hip.
    apply (aliveBody_accepts m1 al (Some chn) e p e0); [by rewrite Hid in Eg'|simpl; lia].
  - intros y my nt e' Hy Hne Hip'.
    destruct (peer_accepts n c x m al y my nt e') as [t Ht]; try done; simpl; [lia|by eapply own_address|].
    exists t. by rewrite Ht.
Qed.

End Agreement.

(** ** A sample cluster

    [n1] and [n2] start; [n2] hears of [n1] and, later, suspects it; the
    suspicion is on its way to [n1]. *)

#[local] Existing Instance item_heap.
#[local] Existing Instance item_heap_laws.
#[local] Existing Instance bit_codec.
#[local] Existing Instance bit_codec_laws.

Definition twoCfgs : gmap string Cfg.Config :=
  {[ "n1" := named "n1" "10.0.0.1"; "n2" := named "n2" "10.0.0.2" ]}.

Lemma twoCfgs_named : well_named twoCfgs.
Proof.
  intros x c. unfold twoCfgs. rewrite lookup_insert_Some, lookup_singleton_Some.
  by intros [[<- <-]|[_ [<- <-]]].
Qed.

Definition started (id addr : string) : Memberlist := (setAlive (newMemberlist (named id addr) true) (at_ 0)).2.
Definition s1 : Memberlist := started "n1" "10.0.0.1".
Definition s2 : Memberlist := started "n2" "10.0.0.2".
Definition ip1 : ip := map z2b (v4InV6Prefix ++ [10; 0; 0; 1]).
Definition hello1 : alive := mkAlive 1 "n1" ip1 7946 [].
Definition s2' : Memberlist := aliveNode s2 hello1 None (at_ 1).
Definition entry1 : nodeState := mkNodeState (mkNode "n1" ip1 7946 []) 1 StateAlive 1.
Definition doubt1 : suspect := mkSuspect 1 "n1" "n2".
Definition s2'' : Memberlist := match suspectNode s2' doubt1 (at_ 2) with Ret m => m | _ => s2' end.

Lemma says_hello : says s1 (PAlive hello1).
Proof.
  eapply (says_queued s1 (NewBroadcastQueue 4) "n1" aliveMsg _ None).
  - apply NewBroadcastQueue_ok.
  - done.
  - done.
  - vm_compute. reflexivity.
  - done.
  - vm_compute. eauto.
Qed.

Definition c1 : cluster := mkCluster (<[ "n1" := s1 ]> (members (cinit twoCfgs true))) [].
Definition c2 : cluster := mkCluster (<[ "n2" := s2 ]> (members c1)) [].
Definition c3 : cluster := mkCluster (members c2) [PAlive hello1].
Definition c4 : cluster := mkCluster (<[ "n2" := s2' ]> (members c2)) [PAlive hello1].
Definition c5 : cluster := mkCluster (members c4) [PState (toMerge entry1); PAlive hello1].
Definition c6 : cluster := mkCluster (<[ "n2" := s2'' ]> (members c5)) (soup c5).
Definition c7 : cluster := mkCluster (members c6) (PSuspect doubt1 :: soup c6).

Lemma run_c2 : nsteps cstep 2 (cinit twoCfgs true) c2.
Proof.
  apply (nsteps_l _ _ _ c1); [|apply nsteps_once].
  - by apply (cs_act (cinit twoCfgs true) "n1" (newMemberlist (named "n1" "10.0.0.1") true)
      (ActSetAlive (at_ 0)) s1).
  - by apply (cs_act c1 "n2" (newMemberlist (named "n2" "10.0.0.2") true) (ActSetAlive (at_ 0)) s2).
Qed.

Lemma run_c4 : nsteps cstep 4 (cinit twoCfgs true) c4.
Proof.
  apply (nsteps_r _ _ c3); [apply (nsteps_r _ _ c2); [exact run_c2|]|].
  - exact (cs_say c2 "n1" s1 _ eq_refl says_hello).
  - apply (cs_act c3 "n2" s2 (ActAlive hello1 None (at_ 1)) s2'); [done| |done]. left. by left.
Qed.

Lemma view_s2' : view s2' !! "n1" = Some entry1.
Proof. vm_compute. reflexivity. Qed.

Lemma run_c6 : nsteps cstep 6 (cinit twoCfgs true) c6.
Proof.
  apply (nsteps_r _ _ c5); [apply (nsteps_r _ _ c4); [exact run_c4|]|].
  - apply (cs_say c4 "n2" s2' (PState (toMerge entry1))); [done|].
    destruct (cluster_steps twoCfgs true twoCfgs_named 4 c4 run_c4) as [H Hci]; [lia|].
    destruct (ci_members _ _ _ _ _ Hci "n2" s2' eq_refl) as (_ & _ & _ & Hf).
    destruct (localState_spec s2' (inv_mem _ (nf_inv _ _ _ _ Hf))) as (ls & E & Hls).
    exists ls. split; [done|]. apply Hls. exists entry1. split; [exact view_s2'|done].
  - apply (cs_act c5 "n2" s2' (ActSuspect doubt1 (at_ 2)) s2''); [done| |vm_compute; reflexivity].
    right. exists (toMerge entry1). split_and!; [by left|done|done].
Qed.

Lemma run_c7 : runs twoCfgs true 7 c7.
Proof.
  split; [|lia]. apply (nsteps_r _ _ c6); [exact run_c6|]. apply (cs_say c6 "n2" s2'' (PSuspect doubt1)); [done|].
  destruct (cluster_steps twoCfgs true twoCfgs_named 4 c4 run_c4) as [H Hci]; [lia|].
  destruct (ci_members _ _ _ _ _ Hci "n2" s2' eq_refl) as (_ & _ & _ & Hf).
  destruct (nf_queue _ _ _ _ Hf) as [Hq Hid _ _].
  apply (says_queued s2'' (mbroadcasts s2') "n1" suspectMsg _ None); [done|lia|lia| |done|vm_compute; eauto].
  vm_compute. reflexivity.
Qed.

(** ** Instances *)

Definition own1 : nodeState := mkNodeState (mkNode "n1" ip1 7946 []) 1 StateAlive 0.
Definition doubted1 : nodeState := mkNodeState (mkNode "n1" ip1 7946 []) 1 StateSuspect 2.

Lemma cluster_truth_witness :
  view s2'' !! "n1" = Some doubted1 /\
  exists my, members c7 !! "n1" = Some my /\ Lives doubted1 <= lives my /\
    GetAdvertiseAddr (config my) = Some (IP (node doubted1), Port (node doubted1)) /\
    (State doubted1 = StateLeft -> left my = true).
Proof.
  split; [vm_compute; reflexivity|].
  apply (cluster_truth twoCfgs true twoCfgs_named 7 c7 "n2" s2'' "n1" doubted1 run_c7); vm_compute; reflexivity.
Defined.

Lemma cluster_agreement_witness :
  view s1 !! "n1" = Some own1 /\ view s2' !! "n1" = Some entry1 /\ node own1 = node entry1.
Proof.
  split; [vm_compute; reflexivity|]. split; [exact view_s2'|].
  apply (cluster_agreement twoCfgs true twoCfgs_named 4 c4 "n1" s1 "n2" s2' "n1" own1 entry1
    (conj run_c4 eq_refl)); try done; vm_compute; reflexivity.
Defined.

Lemma cluster_returns_witness :
  reachable (config s1) true s1 /\ (exists m', exec s1 (ActSuspect doubt1 (at_ 3)) = Ret m') /\
  (exists m', exec s1 (ActGossip false None (fun _ => 4) Z.of_nat) = Ret m') /\
  (exists m', exec s1 (ActUpdateTags [x07] 0 true (at_ 3)) = Ret m').
Proof.
  destruct (cluster_returns twoCfgs true twoCfgs_named 7 c7 "n1" s1 run_c7) as (Hr & _ & Hret);
    [vm_compute; reflexivity|reflexivity|].
  split; [exact Hr|]. split; [|split].
  - assert (mishap s1 (ActSuspect doubt1 (at_ 3)) = None) as E by (vm_compute; reflexivity).
    specialize (Hret (ActSuspect doubt1 (at_ 3))). rewrite E in Hret.
    destruct Hret as (m' & E' & _); [left; by left|by exists m'].
  - assert (mishap s1 (ActGossip false None (fun _ => 4) Z.of_nat) = None) as E by (vm_compute; reflexivity).
    specialize (Hret (ActGossip false None (fun _ => 4) Z.of_nat) I). rewrite E in Hret.
    destruct Hret as (m' & E' & _). by exists m'.
  - assert (mishap s1 (ActUpdateTags [x07] 0 true (at_ 3)) = None) as E by (vm_compute; reflexivity).
    specialize (Hret (ActUpdateTags [x07] 0 true (at_ 3)) I). rewrite E in Hret.
    destruct Hret as (m' & E' & _). by exists m'.
Defined.

Lemma refutation_wins_witness :
  exists m', exec s1 (ActSuspect doubt1 (at_ 3)) = Ret m' /\
    view m' !! "n1" = Some (with_lives 2 own1) /\
    exists t, view (aliveNode s2'' (mkAlive 2 "n1" ip1 7946 []) None (at_ 4)) !! "n1" =
      Some (mkNodeState (node own1) 2 StateAlive t).
Proof.
  destruct (refutation_wins twoCfgs true twoCfgs_named 7 c7 "n1" s1 own1 (ActSuspect doubt1 (at_ 3)) 1 run_c7)
    as (m' & E & Hv & _ & Hpeer); try done; [left; by left|].
  exists m'. split; [exact E|]. split; [exact Hv|].
  apply (Hpeer "n2" s2'' None (at_ 4)); [done|done|vm_compute; reflexivity].
Defined.

Lemma update_wins_witness :
  exists err m', UpdateTags s1 [x07] 0 true (at_ 3) = Ret (err, m') /\
    view m' !! "n1" = Some (mkNodeState (mkNode "n1" ip1 7946 [x07]) 2 StateAlive 0) /\
    exists t, view (aliveNode s2'' (mkAlive 2 "n1" ip1 7946 [x07]) None (at_ 4)) !! "n1" =
      Some (mkNodeState (mkNode "n1" ip1 7946 [x07]) 2 StateAlive t).
Proof.
  destruct (update_wins twoCfgs true twoCfgs_named 7 c7 "n1" s1 own1 [x07] 0 true (at_ 3) run_c7)
    as (err & m' & E & Hv & _ & Hpeer); try done; [vm_compute; reflexivity..|].
  exists err, m'. split; [exact E|]. split; [exact Hv|].
  apply (Hpeer "n2" s2'' None (at_ 4)); [done|done|vm_compute; reflexivity].
Defined.
