(* ===== verification/LongRun.v ===== *)
(** * The queue of long-running messages ([net_handlers.go])

    Alive, suspect, dead and user messages are queued by the packet loop and
    handled by a goroutine of their own ([runLongRunMsgHandler]). The two
    sides share two lists under a mutex, and an unbuffered channel on which
    the packet loop announces a message without waiting. *)

From S2P Require Import Prelude Types.
From Stdlib Require Import Strings.Byte.

Record longRunMsg := mkLongRunMsg {
  mType : msgType; lr_msg : list byte; lr_from : UDPAddr
}.

#[global] Instance longRunMsg_eq_dec : EqDecision longRunMsg.
Proof. solve_decision. Defined.

Definition isLongRunMsg (t : msgType) : bool :=
  bool_decide (t = aliveMsg) || bool_decide (t = suspectMsg) ||
  bool_decide (t = deadMsg) || bool_decide (t = userMsg).

(** [locked]: the mutex is held by a call that has returned. *)
Record longRunMsgManager := mkManager {
  highPriorQueue : list longRunMsg;
  lowPriorQueue : list longRunMsg;
  maxQueueDepth : Z;
  locked : bool
}.

Definition newLongRunMsgManager (qDepth : Z) : longRunMsgManager :=
  mkManager [] [] qDepth false.

(** [queueLongRunMsg] up to the announcement; the flag is its error. *)
Definition queueLongRunMsg (mng : longRunMsgManager) (t : msgType) (msg : list byte)
    (from : UDPAddr) : outcome (bool * longRunMsgManager) :=
  let high := bool_decide (t = aliveMsg) in
  let queue := if high then highPriorQueue mng else lowPriorQueue mng in
  if locked mng then Hang
  else if maxQueueDepth mng <=? len queue then
    (* returns with the mutex held *)
    Ret (true, mkManager (highPriorQueue mng) (lowPriorQueue mng) (maxQueueDepth mng) true)
  else
    let queue := queue ++ [mkLongRunMsg t msg from] in
    Ret (false,
         if high then mkManager queue (lowPriorQueue mng) (maxQueueDepth mng) false
         else mkManager (highPriorQueue mng) queue (maxQueueDepth mng) false).

(** The last element of a list, and the others. *)
Fixpoint unsnoc {A} (l : list A) : option (list A * A) :=
  match l with
  | [] => None
  | x :: l => match unsnoc l with None => Some ([], x) | Some (l, y) => Some (x :: l, y) end
  end.

(** [getNextMsg]: from the back of the first queue that is not empty. *)
Definition getNextMsg (mng : longRunMsgManager)
    : outcome (option longRunMsg * longRunMsgManager) :=
  if locked mng then Hang
  else
    match unsnoc (highPriorQueue mng) with
    | Some (q, x) => Ret (Some x, mkManager q (lowPriorQueue mng) (maxQueueDepth mng) false)
    | None =>
        match unsnoc (lowPriorQueue mng) with
        | Some (q, x) => Ret (Some x, mkManager (highPriorQueue mng) q (maxQueueDepth mng) false)
        | None => Ret (None, mng)
        end
    end.

(** ** The two goroutines *)

(** Where [runLongRunMsgHandler] is: waiting at the channel, in the inner
    loop, or on its way back to the channel after an empty [getNextMsg]. *)
Inductive consumer := Waiting | Draining | Returning.

Record lrState := mkLR {
  mng : longRunMsgManager; pc : consumer; handled : list longRunMsg
}.

Inductive lr_event := LRQueue (t : msgType) (msg : list byte) (from : UDPAddr) | LRHandler.

(** The packet loop queues a message; the announcement is received only by a
    handler that waits at the channel. Or the handler makes a step. The code
    announces the message after it has released the mutex; here both are one
    transition. A handler that comes to the channel in between is woken by the
    announcement as one that came before, and one that takes the message in
    between is woken once more for nothing. *)
Definition lr_step (s : lrState) (ev : lr_event) : outcome lrState :=
  match ev with
  | LRQueue t msg from =>
      let! (err, mg) := queueLongRunMsg (mng s) t msg from in
      let pc := match pc s with
                | Waiting => if err then Waiting else Draining
                | p => p
                end in
      Ret (mkLR mg pc (handled s))
  | LRHandler =>
      match pc s with
      | Waiting => Ret s
      | Draining =>
          let! (x, mg) := getNextMsg (mng s) in
          match x with
          | Some x => Ret (mkLR mg Draining (handled s ++ [x]))
          | None => Ret (mkLR mg Returning (handled s))
          end
      | Returning => Ret (mkLR (mng s) Waiting (handled s))
      end
  end.

Fixpoint lr_run (s : lrState) (evs : list lr_event) : outcome lrState :=
  match evs with
  | [] => Ret s
  | ev :: evs => let! s := lr_step s ev in lr_run s evs
  end.

Definition lr_init (qDepth : Z) : lrState := mkLR (newLongRunMsgManager qDepth) Waiting [].

(** ** Facts *)

Lemma unsnoc_snoc {A} (l : list A) x : unsnoc (l ++ [x]) = Some (l, x).
Proof. induction l as [|y l IH]; simpl; [done|]. by rewrite IH. Qed.

Lemma unsnoc_None {A} (l : list A) : unsnoc l = None -> l = [].
Proof. destruct l as [|x l]; [done|]. simpl. by destruct (unsnoc l) as [[]|]. Qed.

Lemma unsnoc_Some {A} (l : list A) q x : unsnoc l = Some (q, x) -> l = q ++ [x].
Proof.
  revert q. induction l as [|y l IH]; intros q; simpl; [done|].
  destruct (unsnoc l) as [[q' z]|] eqn:E; intros [= <- <-].
  - by rewrite (IH q').
  - by rewrite (unsnoc_None l E).
Qed.

Definition queued (m : longRunMsgManager) : list longRunMsg :=
  highPriorQueue m ++ lowPriorQueue m.

(** The messages of the [LRQueue] events. *)
Definition arrivals (evs : list lr_event) : list longRunMsg :=
  omap (fun ev => match ev with
                  | LRQueue t msg from => Some (mkLongRunMsg t msg from)
                  | LRHandler => None
                  end) evs.

(** The high queue holds the alive messages, the low queue the others. *)
Definition sorted_by_type (m : longRunMsgManager) : Prop :=
  Forall (fun x => mType x = aliveMsg) (highPriorQueue m) /\
  Forall (fun x => mType x <> aliveMsg) (lowPriorQueue m).

Lemma queue_ok_spec m t msg from :
  locked m = false -> sorted_by_type m -> len (queued m) < maxQueueDepth m ->
  exists m', queueLongRunMsg m t msg from = Ret (false, m') /\ locked m' = false /\
    sorted_by_type m' /\ maxQueueDepth m' = maxQueueDepth m /\
    queued m' ≡ₚ mkLongRunMsg t msg from :: queued m.
Proof.
  intros Hl [H1 H2] Hlen. unfold queueLongRunMsg. rewrite Hl.
  unfold queued in *. rewrite length_app in Hlen.
  case_bool_decide as Ht.
  - zcmp. eexists. split; [done|].
    split_and!; try done; simpl.
    + split; [|done]. apply Forall_app. by repeat constructor.
    + rewrite <- app_assoc. simpl. by rewrite <- Permutation_middle.
  - zcmp. eexists. split; [done|].
    split_and!; try done; simpl.
    + split; [done|]. apply Forall_app. by repeat constructor.
    + rewrite app_assoc. symmetry. apply Permutation_cons_append.
Qed.

(** [getNextMsg] takes an alive message as long as there is one, and always
    the latest. *)
Lemma getNext_spec m :
  locked m = false -> sorted_by_type m ->
  (exists x m', getNextMsg m = Ret (Some x, m') /\ locked m' = false /\ sorted_by_type m' /\
     maxQueueDepth m' = maxQueueDepth m /\ queued m ≡ₚ x :: queued m' /\
     (mType x <> aliveMsg -> highPriorQueue m = [])) \/
  (getNextMsg m = Ret (None, m) /\ queued m = []).
Proof.
  intros Hl [H1 H2]. unfold getNextMsg. rewrite Hl.
  destruct (unsnoc (highPriorQueue m)) as [[q x]|] eqn:E.
  - left. apply unsnoc_Some in E. rewrite E in H1. apply Forall_app in H1 as [Hq Hx].
    eexists x, _. split; [done|]. unfold queued. rewrite E. split_and!; try done.
    + simpl. rewrite <- app_assoc. simpl. by rewrite <- Permutation_middle.
    + rewrite Forall_singleton in Hx. done.
  - apply unsnoc_None in E.
    destruct (unsnoc (lowPriorQueue m)) as [[q x]|] eqn:E2.
    + left. apply unsnoc_Some in E2. rewrite E2 in H2. apply Forall_app in H2 as [Hq Hx].
      eexists x, _. split; [done|]. unfold queued. rewrite E, E2. split_and!; try done.
      simpl. symmetry. apply Permutation_cons_append.
    + apply unsnoc_None in E2. right. unfold queued. by rewrite E, E2.
Qed.

Definition lr_ok (s : lrState) : Prop := locked (mng s) = false /\ sorted_by_type (mng s).

Lemma lr_run_spec evs s :
  lr_ok s ->
  len (queued (mng s)) + len (arrivals evs) <= maxQueueDepth (mng s) ->
  exists s', lr_run s evs = Ret s' /\ lr_ok s' /\
    handled s' ++ queued (mng s') ≡ₚ (handled s ++ queued (mng s)) ++ arrivals evs.
Proof.
  revert s. induction evs as [|ev evs IH]; intros s [Hl Hs] Hd; cbn [lr_run].
  - exists s. rewrite app_nil_r. done.
  - destruct ev as [t msg from|]; cbn [lr_step].
    + change (arrivals (LRQueue t msg from :: evs))
        with (mkLongRunMsg t msg from :: arrivals evs) in *. rewrite length_cons in Hd.
      destruct (queue_ok_spec (mng s) t msg from Hl Hs) as (m' & -> & Hl' & Hs' & Hm' & Hp).
      { lia. }
      cbn [obind].
      set (s1 := mkLR m' _ _). destruct (IH s1) as (s' & E & Hok & Hp').
      { by split. }
      { simpl. rewrite Hp, Hm'. simpl length in *. lia. }
      exists s'. split_and!; [done|apply Hok..|]. rewrite Hp'. simpl. rewrite Hp.
      rewrite <- !Permutation_middle. simpl. done.
    + change (arrivals (LRHandler :: evs)) with (arrivals evs) in *.
      assert (forall s1, lr_ok s1 -> maxQueueDepth (mng s1) = maxQueueDepth (mng s) ->
        (length (queued (mng s1)) <= length (queued (mng s)))%nat ->
        handled s1 ++ queued (mng s1) ≡ₚ handled s ++ queued (mng s) ->
        exists s', lr_run s1 evs = Ret s' /\ lr_ok s' /\
          handled s' ++ queued (mng s') ≡ₚ (handled s ++ queued (mng s)) ++ arrivals evs)
        as Hstep.
      { intros s1 Hok1 Hd1 Hlen Hp1.
        destruct (IH s1 Hok1) as (s' & E & Hok & Hp'); [rewrite Hd1; lia|].
        exists s'. split_and!; [done|apply Hok..|]. by rewrite Hp', Hp1. }
      destruct (pc s); cbn [obind]; [by apply Hstep| |by apply Hstep].
      destruct (getNext_spec (mng s) Hl Hs) as [(x & m' & -> & Hl' & Hs' & Hm' & Hp & _)|[-> Hq]];
        cbn [obind]; apply Hstep; try done; simpl.
      * rewrite Hp. simpl. lia.
      * rewrite Hp, <- app_assoc. done.
Qed.

(** Handler steps until both queues are empty. *)
Lemma lr_drain k s :
  lr_ok s -> pc s = Draining -> length (queued (mng s)) = k ->
  exists s', lr_run s (replicate (k + 2) LRHandler) = Ret s' /\ pc s' = Waiting /\
    queued (mng s') = [] /\ handled s' ≡ₚ handled s ++ queued (mng s).
Proof.
  revert s. induction k as [|k IH]; intros s [Hl Hs] Hpc Hk.
  - cbn [Nat.add replicate lr_run lr_step]. rewrite Hpc.
    destruct (getNext_spec (mng s) Hl Hs) as [(x & m' & _ & _ & _ & _ & Hp & _)|[-> Hq]].
    { rewrite Hp in Hk. simpl in Hk. lia. }
    cbn [obind]. eexists. split; [done|]. simpl. rewrite Hq, app_nil_r. done.
  - cbn [Nat.add replicate lr_run lr_step]. rewrite Hpc.
    destruct (getNext_spec (mng s) Hl Hs) as [(x & m' & -> & Hl' & Hs' & _ & Hp & _)|[_ Hq]].
    2: { rewrite Hq in Hk. simpl in Hk. lia. }
    cbn [obind]. destruct (IH (mkLR m' Draining (handled s ++ [x]))) as (s' & E & ? & ? & Hh).
    + by split.
    + done.
    + rewrite Hp in Hk. simpl in *. lia.
    + exists s'. split_and!; try done. rewrite Hh. simpl. rewrite Hp, <- app_assoc. done.
Qed.

(** C37: as long as fewer messages arrive than the queue is deep, no message
    is lost, duplicated or made up, over every interleaving of the packet
    loop and the handler: what was handled and what still waits is what was
    there before and what arrived. No call blocks. *)
Theorem longrun_no_loss qDepth evs :
  len (arrivals evs) <= qDepth ->
  exists s, lr_run (lr_init qDepth) evs = Ret s /\ locked (mng s) = false /\
    handled s ++ queued (mng s) ≡ₚ arrivals evs.
Proof.
  intros Hd. destruct (lr_run_spec evs (lr_init qDepth)) as (s & E & Hok & Hp).
  - split; [done|]. split; constructor.
  - simpl. lia.
  - exists s. split_and!; [done|apply Hok|]. by rewrite Hp.
Qed.

Definition ua : UDPAddr := mkUDPAddr [] 7946.

Lemma longrun_no_loss_witness :
  exists s, lr_run (lr_init 8) [LRQueue suspectMsg [x01] ua; LRQueue aliveMsg [x02] ua; LRHandler]
            = Ret s /\ locked (mng s) = false.
Proof.
  destruct (longrun_no_loss 8
    [LRQueue suspectMsg [x01] ua; LRQueue aliveMsg [x02] ua; LRHandler]) as (s & E & Hl & _).
  - vm_compute. discriminate.
  - exists s. split; [exact E|exact Hl].
Defined.

(** A handler that has been woken handles everything that waits and goes
    back to the channel; an alive message is always taken before any other. *)
Theorem longrun_drains s :
  locked (mng s) = false -> sorted_by_type (mng s) -> pc s = Draining ->
  (exists s', lr_run s (replicate (length (queued (mng s)) + 2) LRHandler) = Ret s' /\
     pc s' = Waiting /\ queued (mng s') = [] /\ handled s' ≡ₚ handled s ++ queued (mng s)) /\
  (forall x m', getNextMsg (mng s) = Ret (Some x, m') ->
     mType x = aliveMsg \/ Forall (fun y => mType y <> aliveMsg) (queued (mng s))).
Proof.
  intros Hl Hs Hpc. split; [by apply lr_drain|].
  intros x m' E. destruct (getNext_spec (mng s) Hl Hs)
    as [(y & m2 & E2 & _ & _ & _ & _ & Hhigh)|[E2 _]]; [|congruence].
  assert (y = x) as -> by congruence.
  destruct (decide (mType x = aliveMsg)) as [|Hne]; [by left|right].
  unfold queued. rewrite Hhigh by done. apply Hs.
Qed.

Lemma longrun_drains_witness :
  let s := mkLR (mkManager [mkLongRunMsg aliveMsg [x02] ua] [mkLongRunMsg deadMsg [x01] ua] 8 false)
             Draining [] in
  exists s', lr_run s (replicate 4 LRHandler) = Ret s' /\ queued (mng s') = [].
Proof.
  intros s. destruct (longrun_drains s) as [(s' & E & _ & Hq & _) _].
  - reflexivity.
  - split; repeat constructor; discriminate.
  - reflexivity.
  - exists s'. split; [exact E|exact Hq].
Defined.

(** C38: when a queue is full, [queueLongRunMsg] reports the overflow and
    returns with the mutex locked: from then on every call that queues or
    takes a message blocks for ever, so that the packet loop and the handler
    both stop. *)
Theorem overflow_deadlocks m t msg from :
  locked m = false ->
  maxQueueDepth m <= len (if bool_decide (t = aliveMsg) then highPriorQueue m
                          else lowPriorQueue m) ->
  exists m', queueLongRunMsg m t msg from = Ret (true, m') /\
    (forall t' msg' from', queueLongRunMsg m' t' msg' from' = Hang) /\ getNextMsg m' = Hang.
Proof.
  intros Hl Hfull. unfold queueLongRunMsg at 1. rewrite Hl.
  zcmp. eexists. split; [done|]. done.
Qed.

Lemma overflow_deadlocks_witness :
  exists m', queueLongRunMsg (mkManager [] [mkLongRunMsg userMsg [x01] ua] 1 false)
               deadMsg [x02] ua = Ret (true, m') /\ getNextMsg m' = Hang.
Proof.
  destruct (overflow_deadlocks (mkManager [] [mkLongRunMsg userMsg [x01] ua] 1 false)
    deadMsg [x02] ua) as (m' & E & _ & H).
  - reflexivity.
  - vm_compute. discriminate.
  - exists m'. split; [exact E|exact H].
Defined.

(** A wake-up can be lost. If a message is queued while the handler is on
    its way from an empty queue back to the channel, nobody receives the
    announcement; the handler then waits with the message in the queue, and
    however often it is scheduled the message is not handled before another
    one arrives. *)
Theorem wakeup_lost s t msg from k :
  lr_ok s -> pc s = Returning -> len (queued (mng s)) < maxQueueDepth (mng s) ->
  exists s', lr_run s [LRQueue t msg from; LRHandler] = Ret s' /\
    pc s' = Waiting /\ mkLongRunMsg t msg from ∈ queued (mng s') /\
    lr_run s' (replicate k LRHandler) = Ret s'.
Proof.
  intros [Hl Hs] Hpc Hd. cbn [lr_run lr_step].
  destruct (queue_ok_spec (mng s) t msg from Hl Hs Hd) as (m' & -> & _ & _ & _ & Hp).
  rewrite Hpc. cbn [obind pc]. eexists. split; [done|]. split_and!; [done| |].
  - simpl. rewrite Hp. by left.
  - induction k as [|k IH]; [done|]. exact IH.
Qed.

Lemma wakeup_lost_witness :
  exists s', lr_run (mkLR (newLongRunMsgManager 8) Returning [])
               [LRQueue aliveMsg [x01] ua; LRHandler] = Ret s' /\
    lr_run s' (replicate 5 LRHandler) = Ret s'.
Proof.
  destruct (wakeup_lost (mkLR (newLongRunMsgManager 8) Returning []) aliveMsg [x01] ua 5)
    as (s' & E & _ & _ & H).
  - split; [reflexivity|]. split; constructor.
  - reflexivity.
  - vm_compute. reflexivity.
  - exists s'. split; [exact E|exact H].
Defined.
