(* ===== verification/Encrypt.v ===== *)
(** * Encryption ([encrypt.go])

    Authenticated encryption of packets and streams. The cipher (AES in
    Galois/counter mode, of Go's [crypto]) enters through the class [AEAD];
    [AesGcm] defines it and shows that it meets the laws. A random nonce is
    an argument, [None] when the system has no randomness to give. *)

From S2P Require Import Prelude Types Keyring Maintenance.
From Stdlib Require Import Strings.Byte.

Class AEAD := {
  Seal : key -> list byte -> list byte -> list byte -> list byte;
  Open : key -> list byte -> list byte -> list byte -> option (list byte)
}.

Class AEADLaws (A : AEAD) : Prop := {
  (** With the same key, nonce and additional data, [Open] undoes [Seal]. *)
  open_seal k nonce p aad :
    ValidateKey k = true -> len nonce = nonceSize ->
    Open k nonce (Seal k nonce p aad) aad = Some p;
  (** The ciphertext is as long as the plaintext, and the tag follows. *)
  seal_length k nonce p aad :
    ValidateKey k = true -> len nonce = nonceSize ->
    len (Seal k nonce p aad) = len p + tagSize
}.

Definition maxEncryptionVersion : Z := 0.
Definition maxPushSize : Z := 20 * 1024 * 1024.

Section Encrypt.
Context {A : AEAD}.

(** The result of a call: [None] is an error. *)
Definition encrypt (vsn : Z) (k : key) (msg aad : list byte) (nonce : option (list byte))
    : outcome (option (list byte)) :=
  if negb (ValidateKey k) then Ret None   (* aes.NewCipher *)
  else
    let! _ := encryptOverhead vsn in
    match nonce with
    | None => Ret None
    | Some nonce => Ret (Some (z2b vsn :: nonce ++ Seal k nonce msg aad))
    end.

Definition decrypt (k : key) (msg aad : list byte) : outcome (option (list byte)) :=
  if negb (ValidateKey k) then Ret None
  else if len msg <? versionSize + nonceSize then Panic
  else
    let nonce := take (Z.to_nat nonceSize) (drop (Z.to_nat versionSize) msg) in
    let authCT := drop (Z.to_nat (versionSize + nonceSize)) msg in
    Ret (Open k nonce authCT aad).

(** The first key that opens the message. *)
Fixpoint tryKeys (ks : list key) (msg data : list byte) : outcome (option (list byte)) :=
  match ks with
  | [] => Ret None
  | k :: ks =>
      let! r := decrypt k msg data in
      match r with Some plain => Ret (Some plain) | None => tryKeys ks msg data end
  end.

Definition decryptWithKeys (ks : list key) (msg data : list byte)
    : outcome (option (list byte)) :=
  match msg with
  | [] => Ret None
  | v :: _ =>
      let vsn := b2z v in
      if maxEncryptionVersion <? vsn then Ret None
      else
        let! o := encryptOverhead vsn in
        if len msg <? o then Ret None else tryKeys ks msg data
  end.

(** ** Streams *)

Definition writeEncryptedSize (vsn size : Z) : outcome (list byte) :=
  let! o := encryptOverhead vsn in Ret (be_put 4 (u32 (o + size))).

(** [tcpAAD]: with a label, the data is appended to as many zero bytes as it
    is long. *)
Definition tcpAAD (buf : list byte) (streamLabel : list byte) : list byte :=
  let authData := take 5 buf in
  match streamLabel with
  | [] => authData
  | _ => replicate (5 + length streamLabel) x00 ++ take 5 buf ++ streamLabel
  end.

Definition encryptTcp (vsn : Z) (k : key) (msg streamLabel : list byte)
    (nonce : option (list byte)) : outcome (option (list byte)) :=
  let! size := writeEncryptedSize vsn (len msg) in
  let buf := msgByte encryptMsg :: size in
  let authData := tcpAAD buf streamLabel in
  let! r := encrypt vsn k msg authData nonce in
  match r with
  | None => Ret None
  | Some encrypted => Ret (Some (buf ++ encrypted))
  end.

(** [decryptTcp] reads from behind the type byte; what it leaves unread is
    returned too. *)
Definition decryptTcp (ks : list key) (r : list byte) (streamLabel : list byte)
    : outcome (option (list byte * list byte)) :=
  if len r <? 4 then Ret None
  else
    let buf := msgByte encryptMsg :: take 4 r in
    let r := drop 4 r in
    let authData := tcpAAD buf streamLabel in
    let size := be_get (take 4 (drop 1 buf)) in
    if maxPushSize <? size then Ret None
    else if len r <? size then Ret None
    else
      let encrypted := take (Z.to_nat size) r in
      let! plain := decryptWithKeys ks encrypted authData in
      match plain with
      | None => Ret None
      | Some plain => Ret (Some (plain, drop (Z.to_nat size) r))
      end.

(** ** Facts *)

(** No key but the right one opens the message to something else. *)
Definition no_forgery (ks : list key) (nonce ct aad p : list byte) : Prop :=
  forall k q, k ∈ ks -> ValidateKey k = true -> Open k nonce ct aad = Some q -> q = p.

Context {AL : AEADLaws A}.

Lemma encrypt_Some k msg aad nonce :
  ValidateKey k = true -> len nonce = nonceSize ->
  encrypt 0 k msg aad (Some nonce) = Ret (Some (x00 :: nonce ++ Seal k nonce msg aad)) /\
  len (x00 :: nonce ++ Seal k nonce msg aad) = len msg + 29.
Proof using AL.
  intros Hk Hn. split.
  - unfold encrypt. by rewrite Hk.
  - rewrite length_cons, length_app, Nat2Z.inj_succ, Nat2Z.inj_add, seal_length by done.
    rewrite Hn. unfold nonceSize, tagSize. lia.
Qed.

Lemma decrypt_sealed k nonce ct aad :
  ValidateKey k = true -> len nonce = nonceSize ->
  decrypt k (x00 :: nonce ++ ct) aad = Ret (Open k nonce ct aad).
Proof using.
  intros Hk Hn. unfold decrypt. rewrite Hk. cbn [negb]. unfold versionSize.
  rewrite (proj2 (Z.ltb_ge _ _)).
  2: { simpl. rewrite length_app. unfold nonceSize in *. lia. }
  change (Z.to_nat 1) with 1%nat. cbn [drop].
  unfold nonceSize in *. change (Z.to_nat 12) with 12%nat. change (Z.to_nat (1 + 12)) with 13%nat.
  assert (length nonce = 12%nat) as Hn' by lia. cbn [drop].
  by rewrite <- Hn', drop_0, take_app_length, drop_app_length.
Qed.

Lemma tryKeys_first ks k nonce msg aad :
  k ∈ ks -> ValidateKey k = true -> len nonce = nonceSize ->
  no_forgery ks nonce (Seal k nonce msg aad) aad msg ->
  tryKeys ks (x00 :: nonce ++ Seal k nonce msg aad) aad = Ret (Some msg).
Proof using AL.
  intros Hin Hk Hn. induction ks as [|k' ks IH]; [by apply not_elem_of_nil in Hin|].
  intros Hnf. cbn [tryKeys].
  destruct (ValidateKey k') eqn:Hk'.
  - rewrite decrypt_sealed by done. cbn [obind].
    destruct (Open k' nonce (Seal k nonce msg aad) aad) as [q|] eqn:Eo.
    + by rewrite (Hnf k' q ltac:(by left) Hk' Eo).
    + apply IH.
      * apply elem_of_cons in Hin as [->|Hin]; [|done].
        rewrite open_seal in Eo by done. done.
      * intros k2 q Hk2. apply Hnf. by right.
  - unfold decrypt. rewrite Hk'. cbn [negb obind]. apply IH.
    + apply elem_of_cons in Hin as [->|Hin]; [congruence|done].
    + intros k2 q Hk2. apply Hnf. by right.
Qed.

Lemma decryptWithKeys_sealed ks k nonce msg aad :
  k ∈ ks -> ValidateKey k = true -> len nonce = nonceSize ->
  no_forgery ks nonce (Seal k nonce msg aad) aad msg ->
  decryptWithKeys ks (x00 :: nonce ++ Seal k nonce msg aad) aad = Ret (Some msg).
Proof using AL.
  intros Hin Hk Hn Hnf. destruct (encrypt_Some k msg aad nonce Hk Hn) as [_ Hlen].
  unfold decryptWithKeys. change (b2z x00) with 0. cbn [obind].
  change (maxEncryptionVersion <? 0) with false. cbv iota.
  change (encryptOverhead 0) with (@Ret Z 29). cbn [obind].
  zcmp. by apply tryKeys_first.
Qed.

(** A packet that is shorter than the overhead, or of another version, or that
    no key opens, is refused without a panic. *)
Lemma tryKeys_total ks msg data :
  13 <= len msg -> exists r, tryKeys ks msg data = Ret r.
Proof using.
  intros Hl. induction ks as [|k ks IH]; cbn [tryKeys]; [eauto|].
  unfold decrypt. destruct (negb (ValidateKey k)); cbn [obind]; [done|].
  unfold versionSize, nonceSize. zcmp. cbn [obind].
  case_match; eauto.
Qed.

Lemma decryptWithKeys_Ret ks msg data : exists r, decryptWithKeys ks msg data = Ret r.
Proof using.
  unfold decryptWithKeys. destruct msg as [|v msg]; [eauto|].
  unfold maxEncryptionVersion. pose proof (b2z_range v) as Hv.
  destruct (Z.ltb_spec 0 (b2z v)); [eauto|].
  assert (b2z v = 0) as -> by lia. change (encryptOverhead 0) with (@Ret Z 29). cbn [obind].
  case_match eqn:E; [eauto|]. apply tryKeys_total. apply Z.ltb_ge in E. lia.
Qed.

Lemma decryptTcp_Ret ks r label : exists x, decryptTcp ks r label = Ret x.
Proof using.
  unfold decryptTcp. repeat case_match; eauto.
  destruct (decryptWithKeys_Ret ks (take (Z.to_nat (be_get (take 4 (drop 1 (msgByte encryptMsg :: take 4 r)))))
    (drop 4 r)) (tcpAAD (msgByte encryptMsg :: take 4 r) label)) as [x ->].
  cbn [obind]. case_match; eauto.
Qed.

Lemma encryptTcp_seal ks k nonce msg label rest :
  k ∈ ks -> ValidateKey k = true -> len nonce = nonceSize ->
  len msg + 29 <= maxPushSize ->
  let aad := tcpAAD (msgByte encryptMsg :: be_put 4 (len msg + 29)) label in
  no_forgery ks nonce (Seal k nonce msg aad) aad msg ->
  exists ct, encryptTcp 0 k msg label (Some nonce) = Ret (Some (msgByte encryptMsg :: ct)) /\
    decryptTcp ks (ct ++ rest) label = Ret (Some (msg, rest)).
Proof using AL.
  intros Hin Hk Hn Hmax aad Hnf. unfold maxPushSize in Hmax.
  destruct (encrypt_Some k msg aad nonce Hk Hn) as [E Hlen].
  set (enc := x00 :: nonce ++ Seal k nonce msg aad) in *.
  exists (be_put 4 (len msg + 29) ++ enc). split.
  - unfold encryptTcp, writeEncryptedSize. change (encryptOverhead 0) with (@Ret Z 29).
    cbn [obind]. rewrite u32_small by lia. rewrite (Z.add_comm 29). fold aad.
    rewrite E. done.
  - unfold decryptTcp. rewrite <- app_assoc.
    assert (length (be_put 4 (len msg + 29)) = 4%nat) as H4 by by rewrite length_be_put.
    zcmp.
    rewrite take_app_length', drop_app_length' by done. fold aad.
    cbn [drop]. rewrite drop_0, take_ge by lia.
    rewrite be_get_put. rewrite Z.mod_small by (simpl; lia).
    rewrite (proj2 (Z.ltb_ge _ _)) by (unfold maxPushSize; lia).
    zcmp.
    replace (Z.to_nat (len msg + 29)) with (length enc) by lia.
    rewrite take_app_length, drop_app_length.
    unfold enc. rewrite (decryptWithKeys_sealed ks k nonce msg aad) by done. done.
Qed.

(** ** Properties *)

(** A packet encrypted with a key that the receiver has installed, at
    any place of its keyring, is decrypted to the same plaintext, provided no
    other installed key opens it to something else. *)
Theorem encrypt_roundtrip ks k nonce msg aad :
  k ∈ ks -> ValidateKey k = true -> len nonce = nonceSize ->
  no_forgery ks nonce (Seal k nonce msg aad) aad msg ->
  exists ct, encrypt 0 k msg aad (Some nonce) = Ret (Some ct) /\
    len ct = len msg + 29 /\ decryptWithKeys ks ct aad = Ret (Some msg).
Proof using AL.
  intros Hin Hk Hn Hnf. destruct (encrypt_Some k msg aad nonce Hk Hn) as [E Hlen].
  eexists. split_and!; [exact E|exact Hlen|]. by apply decryptWithKeys_sealed.
Qed.

(** A stream message encrypted under a label is decrypted by a receiver
    with the key and the same label to the same plaintext, and the bytes after
    it are left in the stream, as long as the message with its overhead is not
    larger than 20 MiB. *)
Theorem encryptTcp_roundtrip ks k nonce msg label rest :
  k ∈ ks -> ValidateKey k = true -> len nonce = nonceSize ->
  len msg + 29 <= maxPushSize ->
  let aad := tcpAAD (msgByte encryptMsg :: be_put 4 (len msg + 29)) label in
  no_forgery ks nonce (Seal k nonce msg aad) aad msg ->
  exists ct, encryptTcp 0 k msg label (Some nonce) = Ret (Some (msgByte encryptMsg :: ct)) /\
    decryptTcp ks (ct ++ rest) label = Ret (Some (msg, rest)).
Proof using AL. apply encryptTcp_seal. Qed.

(** Decryption is total. Whatever bytes arrive, [decryptWithKeys] and
    [decryptTcp] return a plaintext or an error; no slice index is out of
    range. *)
Theorem decryption_total ks msg data label :
  (exists r, decryptWithKeys ks msg data = Ret r) /\ (exists r, decryptTcp ks msg label = Ret r).
Proof using.
  split; [apply decryptWithKeys_Ret|apply decryptTcp_Ret].
Qed.

End Encrypt.

(** The additional data of a stream determines the header and the label,
    in spite of the zero bytes in front of them: a message under one label or
    length is not valid additional data for another. *)
Theorem tcpAAD_injective buf buf' label label' :
  (5 <= length buf)%nat -> (5 <= length buf')%nat ->
  tcpAAD buf label = tcpAAD buf' label' -> take 5 buf = take 5 buf' /\ label = label'.
Proof.
  intros Hb Hb' E.
  assert (length label = length label') as Hl.
  { apply (f_equal length) in E. unfold tcpAAD in E.
    destruct label, label'; rewrite ?length_app, ?length_replicate, ?length_take in E;
      cbn [length] in *; lia. }
  unfold tcpAAD in E. destruct label as [|x l], label' as [|x' l']; try done.
  rewrite Hl in E. apply app_inv_head in E.
  apply app_inj_1 in E as [? ?]; [done|]. rewrite !length_take. lia.
Qed.

Lemma tcpAAD_injective_witness :
  tcpAAD [x0b; x00; x00; x00; x20] [x61] <> tcpAAD [x0b; x00; x00; x00; x20] [x62].
Proof.
  intros E.
  pose proof (tcpAAD_injective [x0b; x00; x00; x00; x20] [x0b; x00; x00; x00; x20] [x61] [x62]
    (le_n 5) (le_n 5) E) as [_ H]. discriminate H.
Defined.
