(* ===== verification/AesGcm.v ===== *)
(** * AES in Galois/counter mode (Go's [crypto/aes], [crypto/cipher])

    The cipher behind [encrypt.go], executable: AES (FIPS 197) for keys of 16,
    24 and 32 bytes, and GCM (NIST SP 800-38D) for 12-byte nonces. A block is
    a 128-bit integer, most significant byte first. It is an instance of the
    class [AEAD], and [AEADLaws] hold of it. *)

From S2P Require Import Prelude Types Keyring Maintenance Encrypt.
From Stdlib Require Import Strings.Byte.

(** ** AES *)

(** Multiplication in GF(2^8) modulo x^8 + x^4 + x^3 + x + 1. *)
Definition xtime (a : Z) : Z :=
  let b := Z.shiftl a 1 in if Z.testbit b 8 then Z.lxor b 283 else b.

Fixpoint gmulLoop (n : nat) (a b acc : Z) : Z :=
  match n with
  | O => acc
  | S n => gmulLoop n (xtime a) (Z.shiftr b 1) (if Z.testbit b 0 then Z.lxor acc a else acc)
  end.

Definition gmul (a b : Z) : Z := gmulLoop 8 a b 0.

(** The S-box: the inverse [x ^ 254], then the affine map. *)
Definition ginv (x : Z) : Z := Nat.iter 254 (gmul x) 1.

Definition rotl8 (x k : Z) : Z := Z.land (Z.lor (Z.shiftl x k) (Z.shiftr x (8 - k))) 255.

Definition sboxOf (x : Z) : Z :=
  let i := ginv x in
  Z.lxor (Z.lxor (Z.lxor i (rotl8 i 1)) (Z.lxor (rotl8 i 2) (rotl8 i 3)))
         (Z.lxor (rotl8 i 4) 99).

Definition sboxTable : list Z := Eval vm_compute in map sboxOf (seqZ 0 256).

Definition sbox (x : Z) : Z := nth (Z.to_nat x) sboxTable 0.

Definition xorList (a b : list Z) : list Z := zip_with Z.lxor a b.

Definition rotWord (w : list Z) : list Z := drop 1 w ++ take 1 w.

(** Key expansion: the words so far, latest first; [i] is the next index. *)
Fixpoint expandLoop (n : nat) (nk i : nat) (rcon : Z) (ws : list (list Z)) : list (list Z) :=
  match n with
  | O => ws
  | S n =>
      let temp := nth 0 ws [] in
      let old := nth (nk - 1) ws [] in
      let '(temp, rcon) :=
        if (i mod nk =? 0)%nat
        then (xorList (map sbox (rotWord temp)) [rcon; 0; 0; 0], xtime rcon)
        else if (6 <? nk)%nat && (i mod nk =? 4)%nat then (map sbox temp, rcon)
        else (temp, rcon) in
      expandLoop n nk (S i) rcon (xorList old temp :: ws)
  end.

Fixpoint chunks {T} (fuel k : nat) (l : list T) : list (list T) :=
  match fuel with
  | O => []
  | S fuel => match l with [] => [] | _ => take k l :: chunks fuel k (drop k l) end
  end.

(** The round keys, 16 bytes each. *)
Definition expandKey (k : list Z) : list (list Z) :=
  let nk := (length k / 4)%nat in
  let rounds := (nk + 6)%nat in
  let ws := rev (chunks nk 4 k) in
  let all := rev (expandLoop (4 * (rounds + 1) - nk) nk nk 1 ws) in
  map (@concat Z) (chunks (rounds + 1) 4 all).

(** The state is a list of 16 bytes, column by column. *)
Definition shiftRows (s : list Z) : list Z :=
  map (fun i => nth i s 0) [0; 5; 10; 15; 4; 9; 14; 3; 8; 13; 2; 7; 12; 1; 6; 11]%nat.

Definition mixColumn (c : list Z) : list Z :=
  match c with
  | [a; b; c; d] =>
      [Z.lxor (Z.lxor (xtime a) (Z.lxor (xtime b) b)) (Z.lxor c d);
       Z.lxor (Z.lxor a (xtime b)) (Z.lxor (Z.lxor (xtime c) c) d);
       Z.lxor (Z.lxor a b) (Z.lxor (xtime c) (Z.lxor (xtime d) d));
       Z.lxor (Z.lxor (Z.lxor (xtime a) a) b) (Z.lxor c (xtime d))]
  | _ => c
  end.

Definition mixColumns (s : list Z) : list Z := concat (map mixColumn (chunks 4 4 s)).

Fixpoint aesRounds (s : list Z) (rks : list (list Z)) : list Z :=
  match rks with
  | [] => s
  | [rk] => xorList (shiftRows (map sbox s)) rk
  | rk :: rks => aesRounds (xorList (mixColumns (shiftRows (map sbox s))) rk) rks
  end.

Definition toBytes (z : Z) : list Z := map b2z (be_put 16 z).
Definition ofBytes (l : list Z) : Z := be_get (map z2b l).

Definition aesBlock (rks : list (list Z)) (b : Z) : Z :=
  match rks with
  | [] => b
  | rk :: rks => ofBytes (aesRounds (xorList (toBytes b) rk) rks)
  end.

(** ** GCM *)

(** Multiplication in GF(2^128), bit-reflected as GCM has it. *)
Fixpoint ghashMulLoop (n : nat) (x v acc : Z) : Z :=
  match n with
  | O => acc
  | S n =>
      let acc := if Z.testbit x (Z.of_nat n) then Z.lxor acc v else acc in
      let v := if Z.testbit v 0 then Z.lxor (Z.shiftr v 1) (Z.shiftl 225 120) else Z.shiftr v 1 in
      ghashMulLoop n x v acc
  end.

Definition ghashMul (x y : Z) : Z := ghashMulLoop 128 x y 0.

(** The blocks of a byte string, the last one padded with zeros. *)
Definition blocks (l : list byte) : list Z :=
  map (fun c => be_get (c ++ replicate (16 - length c) x00)) (chunks (length l) 16 l).

Definition ghash (h : Z) (bs : list Z) : Z :=
  foldl (fun y b => ghashMul (Z.lxor y b) h) 0 bs.

Definition byteXor (a b : byte) : byte := z2b (Z.lxor (b2z a) (b2z b)).

(** The key stream: the encrypted counter blocks from [nonce || 2] on. *)
Definition keyStream (rks : list (list Z)) (nonce : list byte) (n : nat) : list byte :=
  concat (map (fun i => be_put 16 (aesBlock rks (be_get nonce * 2 ^ 32 + u32 i)))
              (seqZ 2 (Z.of_nat (n / 16 + 1)))).

Definition gctr (rks : list (list Z)) (nonce p : list byte) : list byte :=
  zip_with byteXor p (keyStream rks nonce (length p)).

Definition gcmTag (rks : list (list Z)) (nonce ct aad : list byte) : list byte :=
  let h := aesBlock rks 0 in
  let lengths := (8 * len aad) * 2 ^ 64 + 8 * len ct in
  let s := ghash h (blocks aad ++ blocks ct ++ [lengths]) in
  be_put 16 (Z.lxor s (aesBlock rks (be_get nonce * 2 ^ 32 + 1))).

Definition gcmSeal (k : key) (nonce p aad : list byte) : list byte :=
  let rks := expandKey (map b2z k) in
  let ct := gctr rks nonce p in
  ct ++ gcmTag rks nonce ct aad.

Definition gcmOpen (k : key) (nonce authCT aad : list byte) : option (list byte) :=
  if len authCT <? tagSize then None
  else
    let rks := expandKey (map b2z k) in
    let n := (length authCT - Z.to_nat tagSize)%nat in
    let ct := take n authCT in
    if bool_decide (gcmTag rks nonce ct aad = drop n authCT)
    then Some (gctr rks nonce ct) else None.

Definition aes_gcm : AEAD := {| Seal := gcmSeal; Open := gcmOpen |}.

(** ** The laws *)

Lemma byteXor_cancel a b : byteXor (byteXor a b) b = a.
Proof.
  unfold byteXor. pose proof (b2z_range a). pose proof (b2z_range b).
  pose proof (lxor_range 8 (b2z a) (b2z b)) as Hx.
  rewrite b2z_z2b. unfold u8. rewrite Z.mod_small by lia.
  by rewrite Z.lxor_assoc, Z.lxor_nilpotent, Z.lxor_0_r, z2b_b2z.
Qed.

Lemma xor_stream_cancel p s :
  (length p <= length s)%nat -> zip_with byteXor (zip_with byteXor p s) s = p.
Proof.
  revert s. induction p as [|x p IH]; intros [|y s] Hl; simpl in *; try done; [lia|].
  rewrite byteXor_cancel, IH by lia. done.
Qed.

Lemma length_keyStream rks nonce n : (n <= length (keyStream rks nonce n))%nat.
Proof.
  unfold keyStream.
  assert (forall l, length (concat (map (fun i => be_put 16 (aesBlock rks
    (be_get nonce * 2 ^ 32 + u32 i))) l)) = (16 * length l)%nat) as ->.
  { induction l as [|i l IH]; [done|]. cbn [map concat].
    rewrite length_app, length_be_put, IH. simpl. lia. }
  rewrite length_seqZ, Nat2Z.id. pose proof (Nat.div_mod_eq n 16).
  pose proof (Nat.mod_upper_bound n 16). lia.
Qed.

Lemma length_gctr rks nonce p : length (gctr rks nonce p) = length p.
Proof.
  unfold gctr. rewrite length_zip_with. pose proof (length_keyStream rks nonce (length p)). lia.
Qed.

Lemma gctr_involutive rks nonce p : gctr rks nonce (gctr rks nonce p) = p.
Proof.
  unfold gctr at 1. rewrite length_gctr. apply xor_stream_cancel, length_keyStream.
Qed.

Lemma length_gcmTag rks nonce ct aad : length (gcmTag rks nonce ct aad) = 16%nat.
Proof. apply length_be_put. Qed.

Lemma aes_gcm_laws : AEADLaws aes_gcm.
Proof.
  split; intros k nonce p aad _ _; cbn [Open Seal aes_gcm].
  - unfold gcmOpen, gcmSeal. set (rks := expandKey _). set (ct := gctr rks nonce p).
    rewrite length_app, length_gcmTag. unfold tagSize.
    zcmp.
    replace (length ct + 16 - Z.to_nat 16)%nat with (length ct) by lia.
    rewrite take_app_length, drop_app_length.
    rewrite bool_decide_eq_true_2 by done. f_equal. apply gctr_involutive.
  - unfold gcmSeal. rewrite length_app, length_gcmTag, length_gctr. unfold tagSize. lia.
Qed.

(** FIPS 197, appendix C.1. *)
Example aes128_vector :
  aesBlock (expandKey (seqZ 0 16)) (ofBytes (map (fun i => 17 * i) (seqZ 0 16)))
  = 0x69c4e0d86a7b0430d8cdb78070b4c55a.
Proof. vm_compute. reflexivity. Qed.

(** GCM test case 2. *)
Example gcm_vector :
  be_get (gcmSeal (replicate 16 x00) (replicate 12 x00) (replicate 16 x00) [])
  = 0x0388dace60b6a392f328c2b971b2fe78ab6e47d42cec13bdf53a67b21257bddf.
Proof. vm_compute. reflexivity. Qed.

(** GCM test case 4, with additional data and a partial block. *)
Example gcm_vector_aad :
  be_get (gcmSeal (be_put 16 0xfeffe9928665731c6d6a8f9467308308)
    (be_put 12 0xcafebabefacedbaddecaf888)
    (be_put 60 0xd9313225f88406e5a55909c5aff5269a86a7a9531534f7da2e4c303d8a318a721c3c0c95956809532fcf0e2449a6b525b16aedf5aa0de657ba637b39)
    (be_put 20 0xfeedfacedeadbeeffeedfacedeadbeefabaddad2))
  = 0x42831ec2217774244b7221b784d0d49ce3aa212f2c02a4e035c17e2329aca12e21d514b25466931c7d8f6a5aac84aa051ba30b396a0aac973d58e0915bc94fbc3221a5db94fae95ae7121a47.
Proof. vm_compute. reflexivity. Qed.

(** ** Witnesses of the theorems of [Encrypt], with the real cipher *)

Section Witnesses.
#[local] Existing Instance aes_gcm.
#[local] Existing Instance aes_gcm_laws.

Definition key1 : key := replicate 16 x01.
Definition nonce1 : list byte := replicate 12 x07.

(** A keyring with the one key that was used. *)
Lemma no_forgery_single p aad :
  no_forgery [key1] nonce1 (Seal key1 nonce1 p aad) aad p.
Proof.
  intros k q ->%list_elem_of_singleton Hk Ho. rewrite open_seal in Ho by done.
  by injection Ho.
Qed.

Lemma encrypt_roundtrip_witness :
  exists ct, encrypt 0 key1 [x61; x62] [x63] (Some nonce1) = Ret (Some ct) /\
    len ct = 31 /\ decryptWithKeys [key1] ct [x63] = Ret (Some [x61; x62]).
Proof.
  apply (encrypt_roundtrip [key1] key1 nonce1 [x61; x62] [x63]).
  - by apply list_elem_of_singleton.
  - reflexivity.
  - reflexivity.
  - apply no_forgery_single.
Defined.

Lemma encryptTcp_roundtrip_witness :
  exists ct, encryptTcp 0 key1 [x61; x62] [x63] (Some nonce1)
             = Ret (Some (msgByte encryptMsg :: ct)) /\
    decryptTcp [key1] (ct ++ [x64]) [x63] = Ret (Some ([x61; x62], [x64])).
Proof.
  apply (encryptTcp_roundtrip [key1] key1 nonce1 [x61; x62] [x63] [x64]).
  - by apply list_elem_of_singleton.
  - reflexivity.
  - reflexivity.
  - vm_compute. discriminate.
  - apply no_forgery_single.
Defined.

End Witnesses.
