(* ===== verification/Lzw.v ===== *)
(** * LZW compression (Go's [compress/lzw], least significant bit first,
    literals of 8 bits)

    The coder behind [compress] and [decompress] of [util.go]. A code is
    packed into as many bits as the number of codes in use needs, 9 to 12;
    codes below 256 are literals, 256 clears the table, 257 ends the data,
    and code [258 + i] stands for the i-th string that has been entered since
    the last clear. The tables of hash entries and of prefixes and suffixes
    are represented by the list of these strings. The coder is an instance
    of the class [LZW] that the transport is stated over, and meets its
    law. *)

From S2P Require Import Prelude.
From Stdlib Require Import Strings.Byte.

Class LZW := {
  lzwCompress : list byte -> list byte;
  lzwDecompress : list byte -> option (list byte)
}.

Class LZWLaws (L : LZW) : Prop := {
  lzw_roundtrip b : lzwDecompress (lzwCompress b) = Some b
}.

Abbreviation entry := (list byte).
Abbreviation entries := (list (list byte)).

Definition clearCode : Z := 256.
Definition eofCode : Z := 257.
Definition maxCode : Z := 4095.

(** The width of the next code when [hi] is the highest code in use. *)
Definition codeWidth (hi : Z) : nat :=
  if hi <? 512 then 9%nat else if hi <? 1024 then 10%nat
  else if hi <? 2048 then 11%nat else 12%nat.

(** ** Bits *)

Fixpoint bitsOf (w : nat) (c : Z) : list bool :=
  match w with
  | O => []
  | S w => Z.odd c :: bitsOf w (c / 2)
  end.

Fixpoint ofBits (bs : list bool) : Z :=
  match bs with
  | [] => 0
  | b :: bs => Z.b2z b + 2 * ofBits bs
  end.

(** Eight bits make a byte; the last one is filled up with zeros. *)
Fixpoint packBits (fuel : nat) (bs : list bool) : list byte :=
  match fuel with
  | O => []
  | S fuel =>
      match bs with
      | [] => []
      | _ => z2b (ofBits (take 8 bs)) :: packBits fuel (drop 8 bs)
      end
  end.

Definition unpackBits (l : list byte) : list bool := concat (map (fun b => bitsOf 8 (b2z b)) l).

(** ** The encoder *)

(** The place of a string in the table. *)
Fixpoint indexOf (s : entry) (t : entries) : option nat :=
  match t with
  | [] => None
  | x :: t => if bool_decide (x = s) then Some O else S <$> indexOf s t
  end.

Definition codeOf (t : entries) (s : entry) : Z :=
  match s with
  | [b] => b2z b
  | _ => match indexOf s t with Some i => 258 + Z.of_nat i | None => 0 end
  end.

(** The codes with their widths, as they are written. [t] is the table,
    [cur] the string whose code is to be written next. *)
Fixpoint encodeLoop (t : entries) (cur : entry) (input : list byte) : list (Z * nat) :=
  match input with
  | [] =>
      let hi := 258 + len t in
      (codeOf t cur, codeWidth (257 + len t)) ::
      (if hi =? maxCode then [(clearCode, codeWidth hi); (eofCode, 9%nat)]
       else [(eofCode, codeWidth hi)])
  | x :: input =>
      match indexOf (cur ++ [x]) t with
      | Some _ => encodeLoop t (cur ++ [x]) input
      | None =>
          let hi := 258 + len t in
          (codeOf t cur, codeWidth (257 + len t)) ::
          (if hi =? maxCode then (clearCode, codeWidth hi) :: encodeLoop [] [x] input
           else encodeLoop (t ++ [cur ++ [x]]) [x] input)
      end
  end.

Definition encodeCodes (input : list byte) : list (Z * nat) :=
  (clearCode, 9%nat) ::
  match input with
  | [] => [(eofCode, 9%nat)]
  | x :: input => encodeLoop [] [x] input
  end.

Definition codeBits (cs : list (Z * nat)) : list bool :=
  concat (map (fun cw => bitsOf cw.2 cw.1) cs).

Definition goCompress (input : list byte) : list byte :=
  let bs := codeBits (encodeCodes input) in packBits (length bs) bs.

(** ** The decoder *)

(** What a code stands for. [last] is what the one before stood for, unless
    the table has just been cleared or is full. *)
Definition expand (t : entries) (last : option entry) (code : Z) : option entry :=
  if code <? 256 then Some [z2b code]
  else
    match t !! Z.to_nat (code - 258) with
    | Some s => Some s
    | None =>
        if code =? 258 + len t then
          match last with
          | Some (b :: s) => Some (b :: s ++ [b])
          | _ => None
          end
        else None
    end.

Definition highest (t : entries) (last : option entry) : Z :=
  257 + len t + match last with Some _ => 1 | None => 0 end.

Fixpoint decodeLoop (fuel : nat) (t : entries) (last : option entry) (bs : list bool)
    : option (list byte) :=
  match fuel with
  | O => None
  | S fuel =>
      let w := codeWidth (highest t last) in
      if (length bs <? w)%nat then None   (* unexpected end of the data *)
      else
        let code := ofBits (take w bs) in
        let bs := drop w bs in
        if code =? clearCode then decodeLoop fuel [] None bs
        else if code =? eofCode then Some []
        else
          match expand t last code with
          | None => None   (* invalid code *)
          | Some out =>
              let t :=
                match last, out with
                | Some s, b :: _ => t ++ [s ++ [b]]
                | _, _ => t
                end in
              let last := if 258 + len t <? 4096 then Some out else None in
              match decodeLoop fuel t last bs with
              | None => None
              | Some rest => Some (out ++ rest)
              end
          end
  end.

Definition goDecompress (l : list byte) : option (list byte) :=
  let bs := unpackBits l in decodeLoop (S (length bs)) [] None bs.

(** ** Round trip *)

Lemma length_bitsOf w c : length (bitsOf w c) = w.
Proof. revert c. induction w as [|w IH]; intros c; simpl; auto. Qed.

Lemma ofBits_bitsOf w c : 0 <= c < 2 ^ Z.of_nat w -> ofBits (bitsOf w c) = c.
Proof.
  revert c. induction w as [|w IH]; intros c Hc; [simpl in *; lia|].
  cbn [bitsOf ofBits]. rewrite IH.
  - rewrite (Z.div2_odd c) at 3. rewrite Z.div2_div. lia.
  - rewrite Nat2Z.inj_succ, Z.pow_succ_r in Hc by lia.
    split; [apply Z.div_pos; lia|apply Z.div_lt_upper_bound; lia].
Qed.

Lemma ofBits_range bs : 0 <= ofBits bs < 2 ^ len bs.
Proof.
  induction bs as [|b bs IH]; [simpl; lia|]. cbn [ofBits length].
  rewrite Nat2Z.inj_succ, Z.pow_succ_r by lia. destruct b; simpl Z.b2z; lia.
Qed.

(** A byte more or less of zeros at the end. *)
Lemma bitsOf_pad bs n :
  (length bs <= n)%nat -> bitsOf n (ofBits bs) = bs ++ replicate (n - length bs) false.
Proof.
  revert n. induction bs as [|b bs IH]; intros n Hn.
  - simpl. rewrite Nat.sub_0_r. clear Hn. induction n as [|n IHn]; [done|].
    cbn [bitsOf replicate]. change (0 / 2) with 0. by rewrite IHn.
  - destruct n as [|n]; [simpl in Hn; lia|]. cbn [bitsOf ofBits length app Nat.sub].
    rewrite <- (IH n) by (simpl in Hn; lia). f_equal.
    + rewrite Z.odd_add, Z.odd_mul. by destruct b.
    + f_equal. rewrite (Z.mul_comm 2), Z.div_add by lia. by destruct b.
Qed.

Lemma unpack_packBits fuel bs :
  (length bs <= fuel)%nat -> exists z, unpackBits (packBits fuel bs) = bs ++ replicate z false.
Proof.
  revert bs. induction fuel as [|fuel IH]; intros bs Hf.
  { destruct bs; [by exists 0%nat|simpl in Hf; lia]. }
  destruct bs as [|b bs]; [by exists 0%nat|]. set (l := b :: bs) in *.
  cbn [packBits]. unfold unpackBits. cbn [map concat]. fold (unpackBits (packBits fuel (drop 8 l))).
  assert (length (take 8 l) <= 8)%nat as H8 by (rewrite length_take; lia).
  pose proof (ofBits_range (take 8 l)) as Hr.
  assert (2 ^ len (take 8 l) <= 2 ^ 8) by (apply Z.pow_le_mono_r; lia).
  change (match l with [] => [] | _ :: _ => _ end)
    with (z2b (ofBits (take 8 l)) :: packBits fuel (drop 8 l)).
  cbn [map concat]. rewrite b2z_z2b. unfold u8. rewrite Z.mod_small by lia.
  rewrite bitsOf_pad by done.
  destruct (IH (drop 8 l)) as [z Hz].
  { rewrite length_drop. unfold l in *. simpl in *. lia. }
  fold (unpackBits (packBits fuel (drop 8 l))). rewrite Hz.
  destruct (decide (8 <= length l)%nat) as [Hl|Hl].
  - exists z. rewrite length_take, Nat.min_l, Nat.sub_diag by lia. simpl replicate.
    rewrite app_nil_r, app_assoc. by rewrite take_drop.
  - exists (8 - length l + z)%nat. rewrite take_ge, drop_ge by lia. rewrite replicate_add.
    by rewrite <- app_assoc.
Qed.

Lemma codeWidth_bound hi : 0 <= hi <= maxCode -> hi < 2 ^ Z.of_nat (codeWidth hi).
Proof. unfold codeWidth, maxCode. intros Hh. repeat case_match; simpl; lia. Qed.

Lemma codeWidth_9 hi : (9 <= codeWidth hi)%nat.
Proof. unfold codeWidth. repeat case_match; lia. Qed.

(** One code at the head of the bits. *)
Lemma decodeLoop_code fuel t last code w rest :
  w = codeWidth (highest t last) -> 0 <= code < 2 ^ Z.of_nat w ->
  decodeLoop (S fuel) t last (bitsOf w code ++ rest) =
    if code =? clearCode then decodeLoop fuel [] None rest
    else if code =? eofCode then Some []
    else
      match expand t last code with
      | None => None
      | Some out =>
          let t := match last, out with Some s, b :: _ => t ++ [s ++ [b]] | _, _ => t end in
          match decodeLoop fuel t (if 258 + len t <? 4096 then Some out else None) rest with
          | None => None
          | Some r => Some (out ++ r)
          end
      end.
Proof.
  intros -> Hc. cbn [decodeLoop]. set (w := codeWidth _) in *.
  rewrite (proj2 (Nat.ltb_ge _ _)) by (rewrite length_app, length_bitsOf; lia).
  rewrite take_app_length' by (by rewrite length_bitsOf).
  rewrite drop_app_length' by (by rewrite length_bitsOf).
  by rewrite ofBits_bitsOf.
Qed.

Lemma indexOf_lookup s t i : indexOf s t = Some i -> t !! i = Some s.
Proof.
  revert i. induction t as [|x t IH]; intros i; simpl; [done|].
  case_bool_decide as E; [intros [= <-]; by subst|].
  destruct (indexOf s t) as [j|]; [|done]. intros [= <-]. by apply IH.
Qed.

(** The encoder's state: there is room for one more code, entries have at
    least two bytes, and the current string has a code. *)
Record enc_ok (t : entries) (cur : entry) : Prop := {
  ok_room : 258 + len t <= maxCode;
  ok_long : Forall (fun s => (2 <= length s)%nat) t;
  ok_cur : (exists b, cur = [b]) \/ is_Some (indexOf cur t)
}.

(** The decoder is one entry behind: the encoder's last one is the string
    decoded last with the first byte of the current one. *)
Definition in_step (t : entries) (cur : entry) (t' : entries) (last : option entry) : Prop :=
  match last with
  | None => t = [] /\ t' = []
  | Some s => exists b, head cur = Some b /\ s <> [] /\ t = t' ++ [s ++ [b]]
  end.

Lemma in_step_highest t cur t' last : in_step t cur t' last -> highest t' last = 257 + len t.
Proof.
  unfold highest. destruct last as [s|]; simpl; [|by intros [-> ->]].
  intros (b & _ & _ & ->). rewrite length_app. simpl. lia.
Qed.

Lemma codeOf_range t cur :
  enc_ok t cur -> 0 <= codeOf t cur <= 257 + len t /\ codeOf t cur <> clearCode /\
    codeOf t cur <> eofCode.
Proof.
  intros [Hroom Hlong [[b ->]|[i Hi]]].
  - simpl. pose proof (b2z_range b). unfold clearCode, eofCode. lia.
  - pose proof (indexOf_lookup _ _ _ Hi) as Hl.
    pose proof (lookup_lt_Some _ _ _ Hl) as Hlt.
    assert (2 <= length cur)%nat by (by eapply (proj1 (Forall_lookup _ _) Hlong)).
    destruct cur as [|x [|y cur]]; [simpl in *; lia..|]. cbn [codeOf]. rewrite Hi.
    unfold clearCode, eofCode. lia.
Qed.

Lemma expand_codeOf t cur t' last :
  enc_ok t cur -> in_step t cur t' last -> expand t' last (codeOf t cur) = Some cur.
Proof.
  intros [Hroom Hlong [[b ->]|[i Hi]]] Hs.
  - simpl. unfold expand. pose proof (b2z_range b). zcmp. by rewrite z2b_b2z.
  - pose proof (indexOf_lookup _ _ _ Hi) as Hl.
    assert (2 <= length cur)%nat by (by eapply (proj1 (Forall_lookup _ _) Hlong)).
    destruct cur as [|x [|y cur]]; [simpl in *; lia..|]. cbn [codeOf]. rewrite Hi.
    unfold expand. zcmp. replace (Z.to_nat (258 + Z.of_nat i - 258)) with i by lia.
    destruct last as [s|]; simpl in Hs; [|by destruct Hs as [-> _]].
    destruct Hs as (b & [= <-] & Hne & ->).
    destruct (decide (i < length t')%nat) as [Hlt|Hge].
    + rewrite lookup_app_l in Hl by done. by rewrite Hl.
    + rewrite lookup_app_r in Hl by lia.
      destruct (i - length t')%nat as [|k] eqn:Ek; [|done]. injection Hl as Hl.
      rewrite lookup_ge_None_2 by lia. rewrite (proj2 (Z.eqb_eq _ _)) by lia.
      destruct s as [|z s]; [done|]. injection Hl as -> Hl. simpl. by rewrite <- Hl.
Qed.

(** The decoder's table after the code of [cur] is the encoder's. *)
Lemma in_step_table t cur t' last :
  in_step t cur t' last -> cur <> [] ->
  match last, cur with Some s, b :: _ => t' ++ [s ++ [b]] | _, _ => t' end = t.
Proof.
  destruct last as [s|]; simpl; [|by intros [-> ->]].
  intros (b & Hb & _ & ->) Hne. destruct cur as [|x cur]; [done|]. by injection Hb as ->.
Qed.

Lemma decode_cur fuel t cur t' last rest :
  enc_ok t cur -> in_step t cur t' last ->
  decodeLoop (S fuel) t' last (bitsOf (codeWidth (257 + len t)) (codeOf t cur) ++ rest) =
    match decodeLoop fuel t (Some cur) rest with
    | None => None
    | Some r => Some (cur ++ r)
    end.
Proof.
  intros Hok Hs. pose proof (codeOf_range t cur Hok) as (Hr & Hc & He).
  pose proof (ok_room _ _ Hok) as Hroom.
  rewrite decodeLoop_code.
  - rewrite !(proj2 (Z.eqb_neq _ _)) by done.
    rewrite (expand_codeOf t cur t' last) by done. cbv zeta.
    rewrite (in_step_table t cur t' last); [|done|].
    + unfold maxCode in Hroom. rewrite (proj2 (Z.ltb_lt _ _)) by lia. done.
    + intros ->. destruct (ok_cur _ _ Hok) as [[b Hb]|[i Hi]]; [done|].
      apply indexOf_lookup in Hi. pose proof (ok_long _ _ Hok) as Hl.
      rewrite Forall_lookup in Hl. specialize (Hl i [] Hi). simpl in Hl. lia.
  - f_equal. by rewrite (in_step_highest t cur).
  - pose proof (codeWidth_bound (257 + len t) ltac:(lia)). lia.
Qed.

Lemma codeBits_cons c w cs : codeBits ((c, w) :: cs) = bitsOf w c ++ codeBits cs.
Proof. done. Qed.

Lemma decode_eof fuel t last rest :
  highest t last <= maxCode ->
  decodeLoop (S fuel) t last (bitsOf (codeWidth (highest t last)) eofCode ++ rest) = Some [].
Proof.
  intros Hh. rewrite decodeLoop_code; [done|done|].
  pose proof (codeWidth_9 (highest t last)).
  assert (2 ^ 9 <= 2 ^ Z.of_nat (codeWidth (highest t last))) by (apply Z.pow_le_mono_r; lia).
  unfold eofCode. lia.
Qed.

Lemma decode_clear fuel t last rest :
  decodeLoop (S fuel) t last (bitsOf (codeWidth (highest t last)) clearCode ++ rest)
  = decodeLoop fuel [] None rest.
Proof.
  rewrite decodeLoop_code; [done|done|].
  pose proof (codeWidth_9 (highest t last)).
  assert (2 ^ 9 <= 2 ^ Z.of_nat (codeWidth (highest t last))) by (apply Z.pow_le_mono_r; lia).
  unfold clearCode. lia.
Qed.

(** At the beginning, and after a clear code, codes have 9 bits. *)
Lemma decode_clear_9 fuel rest :
  decodeLoop (S fuel) [] None (bitsOf 9 clearCode ++ rest) = decodeLoop fuel [] None rest.
Proof. apply (decode_clear fuel [] None rest). Qed.

Lemma decode_eof_9 fuel rest : decodeLoop (S fuel) [] None (bitsOf 9 eofCode ++ rest) = Some [].
Proof. apply (decode_eof fuel [] None rest). unfold highest, maxCode. simpl. lia. Qed.

Lemma highest_Some t (cur : entry) : highest t (Some cur) = 258 + len t.
Proof. unfold highest. lia. Qed.

Lemma enc_ok_single b : enc_ok [] [b].
Proof. split; [unfold maxCode; simpl; lia|constructor|left; by exists b]. Qed.

Lemma enc_ok_push t cur x :
  enc_ok t cur -> 258 + len t <> maxCode -> cur <> [] -> enc_ok (t ++ [cur ++ [x]]) [x].
Proof.
  intros [Hroom Hlong _] Hne Hc. split.
  - rewrite length_app. simpl. lia.
  - apply Forall_app. split; [done|]. constructor; [|constructor]. rewrite length_app.
    destruct cur; [done|]. simpl. lia.
  - left. by exists x.
Qed.

Lemma enc_ok_nonempty t cur : enc_ok t cur -> cur <> [].
Proof.
  intros [_ Hlong [[b ->]|[i Hi]]]; [done|]. intros ->. apply indexOf_lookup in Hi.
  rewrite Forall_lookup in Hlong. specialize (Hlong i [] Hi). simpl in Hlong. lia.
Qed.

(** The decoder follows the encoder. *)
Lemma decode_encodeLoop input t cur t' last fuel rest :
  enc_ok t cur -> in_step t cur t' last ->
  (length (codeBits (encodeLoop t cur input)) < fuel)%nat ->
  decodeLoop fuel t' last (codeBits (encodeLoop t cur input) ++ rest) = Some (cur ++ input).
Proof.
  revert t cur t' last fuel. induction input as [|x input IH]; intros t cur t' last fuel Hok Hs;
    cbn [encodeLoop].
  - rewrite codeBits_cons, length_app, length_bitsOf.
    pose proof (codeWidth_9 (257 + len t)) as H9. intros Hf.
    destruct fuel as [|fuel]; [lia|]. rewrite <- app_assoc, decode_cur by done.
    destruct (Z.eqb_spec (258 + len t) maxCode) as [Em|Em].
    + rewrite !codeBits_cons in *. rewrite !length_app, !length_bitsOf in Hf.
      pose proof (codeWidth_9 (258 + len t)).
      destruct fuel as [|[|fuel]]; [lia..|].
      by rewrite <- !app_assoc, <- (highest_Some t cur), decode_clear, decode_eof_9.
    + rewrite codeBits_cons in *. rewrite length_app, length_bitsOf in Hf.
      pose proof (codeWidth_9 (258 + len t)). destruct fuel as [|fuel]; [lia|].
      rewrite <- !app_assoc, <- (highest_Some t cur), decode_eof; [done|].
      rewrite highest_Some. apply Hok.
  - destruct (indexOf (cur ++ [x]) t) as [i|] eqn:Ei.
    + intros Hf. rewrite (IH t (cur ++ [x]) t' last fuel); [by rewrite <- app_assoc| |..|done].
      * destruct Hok as [H1 H2 _]. split; [done..|]. right. eauto.
      * destruct last as [s|]; [|done]. destruct Hs as (b & Hb & ? & ->). exists b.
        split_and!; [|done..]. by destruct cur.
    + rewrite codeBits_cons, length_app, length_bitsOf.
      pose proof (codeWidth_9 (257 + len t)) as H9. intros Hf.
      destruct fuel as [|fuel]; [lia|]. rewrite <- app_assoc, decode_cur by done.
      pose proof (enc_ok_nonempty t cur Hok) as Hne.
      destruct (Z.eqb_spec (258 + len t) maxCode) as [Em|Em].
      * rewrite codeBits_cons in *. rewrite length_app, length_bitsOf in Hf.
        pose proof (codeWidth_9 (258 + len t)). destruct fuel as [|fuel]; [lia|].
        rewrite <- app_assoc, <- (highest_Some t cur), decode_clear.
        rewrite IH; [done|apply enc_ok_single|done|lia].
      * rewrite IH; [done|by apply enc_ok_push| |lia]. exists x. done.
Qed.

(** Decompression gives back what was compressed. *)
Lemma goDecompress_goCompress input : goDecompress (goCompress input) = Some input.
Proof.
  unfold goDecompress, goCompress. set (bs := codeBits _).
  destruct (unpack_packBits (length bs) bs ltac:(lia)) as [z Hz]. rewrite Hz.
  unfold bs, encodeCodes. rewrite codeBits_cons, <- app_assoc, decode_clear_9.
  rewrite !length_app, length_bitsOf. destruct input as [|x input].
  - rewrite codeBits_cons, <- app_assoc. cbn [Nat.add]. by rewrite decode_eof_9.
  - apply decode_encodeLoop; [apply enc_ok_single|done|lia].
Qed.

Definition go_lzw : LZW := {| lzwCompress := goCompress; lzwDecompress := goDecompress |}.

Lemma go_lzw_laws : LZWLaws go_lzw.
Proof. split. apply goDecompress_goCompress. Qed.

(** The bytes the Go package writes for no data, and for a run of one byte
    with the codes 256, 65, 258, 65, 66, 257. *)
Example goCompress_empty : map b2z (goCompress []) = [0; 3; 2].
Proof. vm_compute. reflexivity. Qed.

Example goCompress_run :
  map fst (encodeCodes [x41; x41; x41; x41; x42]) = [256; 65; 258; 65; 66; 257].
Proof. vm_compute. reflexivity. Qed.
