(* ===== verification/Transport.v ===== *)
(** * Packing of packets and streams ([net_transport.go]; [compress],
    [decompressMsg] of [util.go])

    What travels: a message, compressed if that makes it smaller, with a
    checksum (packets), encrypted if there is a key. [None] is an error.
    The coder of Go's [compress/lzw] enters through the class [LZW] of
    [Lzw]. *)

From S2P Require Import Prelude GoMath Types Interfaces Awareness Keyring Suspicion Broadcast BroadcastFacts Config NetAddr Compound Spec State StateFacts Maintenance MaintenanceFacts Lifecycle System Samples Encrypt AesGcm Lzw.
From Stdlib Require Import Strings.Byte.

(** ** CRC-32, IEEE polynomial *)

Definition crcBit (c : Z) : Z :=
  if Z.testbit c 0 then Z.lxor (Z.shiftr c 1) 0xEDB88320 else Z.shiftr c 1.

Definition crcByte (c : Z) (b : byte) : Z := Nat.iter 8 crcBit (Z.lxor c (b2z b)).

Definition ChecksumIEEE (l : list byte) : Z :=
  Z.lxor (foldl crcByte 0xFFFFFFFF l) 0xFFFFFFFF.

Section Transport.
Context {CO : Codec} {L : LZW} {A : AEAD}.

(** ** Compression *)

Definition lzwAlgo : Z := 0.

Definition compress (msg : list byte) : option (list byte) :=
  encode_msg compressMsg (PCompressed (mkCompressed lzwAlgo (lzwCompress msg))).

Definition decompress (c : compressed) : option (list byte) :=
  if negb (c_Algo c =? lzwAlgo) then None else lzwDecompress (c_Buf c).

Definition decompressMsg (msg : list byte) : option (list byte) :=
  match decode_msg KCompressed msg with
  | Some (PCompressed c) => decompress c
  | _ => None
  end.

(** The message, compressed if compression is enabled and shortens it. *)
Definition maybeCompress (c : Cfg.Config) (msg : list byte) : option (list byte) :=
  if Cfg.EnableCompression c then
    match compress msg with
    | None => None
    | Some z => Some (if len z <? len msg then z else msg)
    end
  else Some msg.

(** ** Packets *)

Definition addCrc (msg : list byte) : list byte :=
  msgByte hasCrcMsg :: be_put 4 (ChecksumIEEE msg) ++ msg.

(** The bytes of a label. *)
Definition labelBytes (s : string) : list byte := String.list_byte_of_string s.

Definition packUdp (c : Cfg.Config) (r : option Keyring) (msg : list byte)
    (nonce : option (list byte)) : outcome (option (list byte)) :=
  match maybeCompress c msg with
  | None => Ret None
  | Some msg =>
      let msg := addCrc msg in
      if EncryptionEnabled r then
        let k := default [] (r ≫= GetPrimaryKey) in
        encrypt (Cfg.EncryptionVersion c) k msg (labelBytes (Cfg.Label c)) nonce
      else Ret (Some msg)
  end.

Definition keysOf (r : option Keyring) : list key :=
  match r with Some r => GetKeys r | None => [] end.

(** From the checksum on: verified, stripped, and decompressed; the type byte
    of an empty message is out of range. *)
Definition checkCrc (msg : list byte) : outcome (option (list byte)) :=
  if len msg <? 5 then Ret None
  else
    match msg with
    | [] => Panic
    | t :: rest =>
        if negb (bool_decide (msgType_of_byte t = Some hasCrcMsg)) then Ret None
        else
          let crc := ChecksumIEEE (drop 4 rest) in
          let expected := be_get (take 4 rest) in
          if negb (crc =? expected) then Ret None
          else
            match drop 4 rest with
            | [] => Panic
            | t :: body =>
                if bool_decide (msgType_of_byte t = Some compressMsg)
                then Ret (decompressMsg body) else Ret (Some (t :: body))
            end
    end.

Definition unpackPacket (r : option Keyring) (msg : list byte) (packetLabel : string)
    : outcome (option (list byte)) :=
  if EncryptionEnabled r then
    let! plain := decryptWithKeys (keysOf r) msg (labelBytes packetLabel) in
    match plain with None => Ret None | Some plain => checkCrc plain end
  else checkCrc msg.

(** ** Streams *)

Definition packTcp (c : Cfg.Config) (r : option Keyring) (msg : list byte)
    (streamLabel : string) (nonce : option (list byte)) : outcome (option (list byte)) :=
  match maybeCompress c msg with
  | None => Ret None
  | Some msg =>
      if EncryptionEnabled r then
        let k := default [] (r ≫= GetPrimaryKey) in
        encryptTcp (Cfg.EncryptionVersion c) k msg (labelBytes streamLabel) nonce
      else Ret (Some msg)
  end.

(** The type byte and the reader behind it, after decompression. *)
Definition streamBody (t : byte) (rest : list byte) : outcome (option (byte * list byte)) :=
  if bool_decide (msgType_of_byte t = Some compressMsg) then
    match dec KCompressed rest with
    | Some (PCompressed c, _) =>
        match decompress c with
        | None => Ret None
        | Some [] => Panic
        | Some (t :: data) => Ret (Some (t, data))
        end
    | _ => Ret None
    end
  else Ret (Some (t, rest)).

Definition unpackStream (r : option Keyring) (conn : list byte) (streamLabel : string)
    : outcome (option (byte * list byte)) :=
  match conn with
  | [] => Ret None
  | t :: rest =>
      let encrypted := bool_decide (msgType_of_byte t = Some encryptMsg) in
      let enabled := EncryptionEnabled r in
      if enabled && negb encrypted then Ret None
      else if negb enabled && encrypted then Ret None
      else if enabled && encrypted then
        let! p := decryptTcp (keysOf r) rest (labelBytes streamLabel) in
        match p with
        | None => Ret None
        | Some ([], _) => Panic
        | Some (t :: plain, _) => streamBody t plain
        end
      else streamBody t rest
  end.

(** ** Sending *)

Section Send.
Context {HO : HeapOps TransmitCapItem}.

(** [sendMsgPiggyback]: the packet handed to [sendUdp], and the queue after
    it. *)
Definition sendMsgPiggyback (c : Cfg.Config) (r : option Keyring) (q : TransmitCapQueue)
    (ub : option (Z -> Z -> list (list byte))) (numNodes : Z) (msg : list byte)
    : outcome (list byte * TransmitCapQueue) :=
  let bytesRemaining := Cfg.UDPBufferSize c - len msg - compoundHeaderOverhead in
  let! bytesRemaining :=
    if EncryptionEnabled r then
      let! o := encryptOverhead (Cfg.EncryptionVersion c) in Ret (bytesRemaining - o)
    else Ret bytesRemaining in
  let! (piggy, q) := getBroadcasts q ub numNodes lenMsgOverhead bytesRemaining in
  match piggy with
  | [] => Ret (msg, q)
  | _ => Ret (packCompoundMsg (msg :: piggy), q)
  end.

Definition encodeAndSendUdp (c : Cfg.Config) (r : option Keyring) (q : TransmitCapQueue)
    (ub : option (Z -> Z -> list (list byte))) (numNodes : Z) (t : msgType) (p : payload)
    : outcome (option (list byte) * TransmitCapQueue) :=
  match encode_msg t p with
  | None => Ret (None, q)
  | Some b =>
      let! (pk, q) := sendMsgPiggyback c r q ub numNodes b in Ret (Some pk, q)
  end.

(** The message that [SendUserMsg] sends. *)
Definition userPacket (msg : list byte) : list byte := msgByte userMsg :: msg.

End Send.

(** ** Facts *)

Context {CL : CodecLaws CO} {LL : LZWLaws L} {AL : AEADLaws A}.

Definition plainType (msg : list byte) : Prop :=
  exists t body, msg = t :: body /\ msgType_of_byte t <> Some compressMsg.

Lemma decompressMsg_compress msg z :
  compress msg = Some z -> exists b, z = msgByte compressMsg :: b /\ decompressMsg b = Some msg.
Proof using CL LL.
  intros E. destruct (decode_encode_msg _ _ _ E) as (b & -> & Hd). exists b. split; [done|].
  unfold decompressMsg. simpl in Hd. rewrite Hd. unfold decompress. simpl. apply lzw_roundtrip.
Qed.

(** What [maybeCompress] sends is a plain message or one that decompresses. *)
Lemma maybeCompress_cases c msg z :
  plainType msg -> maybeCompress c msg = Some z ->
  z = msg \/ exists b, z = msgByte compressMsg :: b /\ compress msg = Some z.
Proof using CL LL.
  intros Hp. unfold maybeCompress. destruct (Cfg.EnableCompression c); [|intros [= <-]; auto].
  destruct (compress msg) as [z'|] eqn:E; [|done].
  destruct (len z' <? len msg); intros [= <-]; [|auto].
  destruct (decompressMsg_compress _ _ E) as (b & -> & _). right. eauto.
Qed.

Lemma ChecksumIEEE_range l : 0 <= ChecksumIEEE l < 2 ^ 32.
Proof using.
  assert (forall c, 0 <= c < 2 ^ 32 -> 0 <= crcBit c < 2 ^ 32) as Hbit.
  { intros c Hc. assert (0 <= Z.shiftr c 1 < 2 ^ 32).
    { rewrite Z.shiftr_div_pow2 by lia. split; [apply Z.div_pos; lia|].
      apply Z.div_lt_upper_bound; lia. }
    unfold crcBit. case_match; [apply lxor_range; lia|done]. }
  assert (forall n c, 0 <= c < 2 ^ 32 -> 0 <= Nat.iter n crcBit c < 2 ^ 32) as Hit.
  { induction n as [|n IH]; intros c Hc; [done|]. by apply Hbit, IH. }
  assert (forall c, 0 <= c < 2 ^ 32 -> 0 <= foldl crcByte c l < 2 ^ 32) as Hf.
  { induction l as [|b l IH]; intros c Hc; [done|]. simpl. apply IH. unfold crcByte.
    apply Hit, lxor_range; [lia|done|]. pose proof (b2z_range b). lia. }
  unfold ChecksumIEEE. apply lxor_range; [lia|apply Hf; lia|lia].
Qed.

Lemma checkCrc_add msg t body :
  msg = t :: body ->
  checkCrc (addCrc msg) =
    if bool_decide (msgType_of_byte t = Some compressMsg) then Ret (decompressMsg body)
    else Ret (Some msg).
Proof using.
  intros ->. unfold checkCrc, addCrc. set (msg := t :: body).
  assert (length (be_put 4 (ChecksumIEEE msg)) = 4%nat) as H4 by by rewrite length_be_put.
  zcmp.
  rewrite msgType_of_msgByte, bool_decide_eq_true_2 by done. cbn [negb].
  rewrite take_app_length', drop_app_length' by done.
  rewrite be_get_put. pose proof (ChecksumIEEE_range msg).
  rewrite Z.mod_small by (simpl; lia). by rewrite Z.eqb_refl.
Qed.

Lemma checkCrc_pack c msg z :
  plainType msg -> maybeCompress c msg = Some z -> checkCrc (addCrc z) = Ret (Some msg).
Proof using CL LL.
  intros Hp Hz. destruct (maybeCompress_cases c msg z Hp Hz) as [->|(b & -> & E)].
  - destruct Hp as (t & body & -> & Ht). rewrite (checkCrc_add _ t body) by done.
    by rewrite bool_decide_eq_false_2.
  - rewrite (checkCrc_add _ (msgByte compressMsg) b) by done.
    rewrite msgType_of_msgByte, bool_decide_eq_true_2 by done.
    destruct (decompressMsg_compress _ _ E) as (b' & [= ->] & Hd). by rewrite Hd.
Qed.

(** The keyring of a sender whose primary key the receiver has installed. *)
Record share (r r' : option Keyring) (k : key) : Prop := {
  share_enabled : EncryptionEnabled r = true;
  share_primary : r ≫= GetPrimaryKey = Some k;
  share_valid : ValidateKey k = true;
  share_enabled' : EncryptionEnabled r' = true;
  share_in : k ∈ keysOf r'
}.

(** Sender and receiver understand each other: neither encrypts, or the
    receiver has the sender's primary key, and no key makes anything else of
    what the sender seals. *)
Definition compatible (c : Cfg.Config) (r r' : option Keyring) (nonce : option (list byte)) : Prop :=
  (EncryptionEnabled r = false /\ EncryptionEnabled r' = false) \/
  (exists k n, share r r' k /\ Cfg.EncryptionVersion c = 0 /\ nonce = Some n /\
     len n = nonceSize /\
     forall p, no_forgery (keysOf r') n (Seal k n p (labelBytes (Cfg.Label c)))
                 (labelBytes (Cfg.Label c)) p).

Lemma pack_unpack c r r' msg nonce :
  plainType msg -> is_Some (maybeCompress c msg) -> compatible c r r' nonce ->
  exists pk, packUdp c r msg nonce = Ret (Some pk) /\
    unpackPacket r' pk (Cfg.Label c) = Ret (Some msg).
Proof using CL LL AL.
  intros Hp [z Hz]. pose proof (checkCrc_pack c msg z Hp Hz) as Hcrc.
  unfold packUdp, unpackPacket. rewrite Hz.
  intros [[-> ->]|(k & n & [-> -> Hk -> Hin] & -> & -> & Hn & Hnf)]; [by eexists|].
  simpl default.
  destruct (encrypt_Some k (addCrc z) (labelBytes (Cfg.Label c)) n Hk Hn) as [-> _].
  eexists. split; [done|].
  rewrite (decryptWithKeys_sealed _ k n (addCrc z)) by (done || apply Hnf).
  exact Hcrc.
Qed.

(** C31: a packet is read back as the message that was packed into it,
    compressed or not: without encryption, and with encryption when the
    receiver has installed the sender's primary key and uses the same label.
    The message must have a type byte, and not that of a compressed message,
    as every message the program sends. *)
Theorem packet_roundtrip c r r' msg nonce :
  plainType msg -> is_Some (maybeCompress c msg) -> compatible c r r' nonce ->
  exists pk, packUdp c r msg nonce = Ret (Some pk) /\
    unpackPacket r' pk (Cfg.Label c) = Ret (Some msg).
Proof using CL LL AL. apply pack_unpack. Qed.

(** A packet whose checksum does not match its content is refused. *)
Theorem bad_checksum_refused r t crc body label :
  EncryptionEnabled r = false -> len crc = 4 -> be_get crc <> ChecksumIEEE body ->
  unpackPacket r (t :: crc ++ body) label = Ret None.
Proof using.
  intros He Hc Hne. unfold unpackPacket. rewrite He. unfold checkCrc.
  zcmp.
  destruct (negb _); [done|]. rewrite take_app_length', drop_app_length' by lia.
  by rewrite (proj2 (Z.eqb_neq _ _)) by congruence.
Qed.

(** A checksum header with nothing behind it makes [unpackPacket] index
    an empty slice: five bytes from anyone on the network stop a node without
    encryption. *)
Theorem empty_packet_panics r label :
  EncryptionEnabled r = false ->
  unpackPacket r (msgByte hasCrcMsg :: be_put 4 0) label = Panic.
Proof using. intros He. unfold unpackPacket. by rewrite He. Qed.

Lemma streamBody_plain t body :
  msgType_of_byte t <> Some compressMsg -> streamBody t body = Ret (Some (t, body)).
Proof using. intros Ht. unfold streamBody. by rewrite bool_decide_eq_false_2. Qed.

Lemma streamBody_compress msg t body b rest :
  msg = t :: body -> compress msg = Some (msgByte compressMsg :: b) ->
  streamBody (msgByte compressMsg) (b ++ rest) = Ret (Some (t, body)).
Proof using CL LL.
  intros -> E. unfold streamBody. rewrite msgType_of_msgByte, bool_decide_eq_true_2 by done.
  unfold compress, encode_msg in E. destruct (enc _) as [b'|] eqn:Ee; [|done].
  injection E as <-. pose proof (dec_enc _ b' rest Ee) as Hd. simpl in Hd. rewrite Hd.
  unfold decompress. simpl. by rewrite lzw_roundtrip.
Qed.

(** The stream that a plain or compressed message becomes. *)
Lemma streamBody_pack c msg t body z rest :
  msg = t :: body -> msgType_of_byte t <> Some compressMsg -> maybeCompress c msg = Some z ->
  exists t' b', z = t' :: b' /\
    (t' = t \/ t' = msgByte compressMsg) /\
    streamBody t' (b' ++ rest) = Ret (Some (t, body ++ (if bool_decide (z = msg) then rest else []))).
Proof using CL LL.
  intros Hm Ht Hz.
  destruct (maybeCompress_cases c msg z) as [->|(b & -> & E)]; [by exists t, body|done|..].
  - exists t, body. split_and!; [done|by left|]. rewrite streamBody_plain by done.
    by rewrite bool_decide_eq_true_2.
  - exists (msgByte compressMsg), b. split_and!; [done|by right|].
    rewrite (streamBody_compress msg t body b rest Hm E).
    rewrite bool_decide_eq_false_2; [by rewrite app_nil_r|].
    rewrite Hm. intros [= <- _]. by rewrite msgType_of_msgByte in Ht.
Qed.

Lemma stream_read_back c r r' t body nonce label rest :
  msgType_of_byte t <> Some compressMsg -> msgType_of_byte t <> Some encryptMsg ->
  forall z, maybeCompress c (t :: body) = Some z ->
  (EncryptionEnabled r = false -> EncryptionEnabled r' = false ->
   exists pk, packTcp c r (t :: body) label nonce = Ret (Some pk) /\
     unpackStream r' (pk ++ rest) label =
       Ret (Some (t, body ++ (if bool_decide (z = t :: body) then rest else [])))) /\
  (forall k n, share r r' k -> Cfg.EncryptionVersion c = 0 -> nonce = Some n ->
   len n = nonceSize -> len z + 29 <= maxPushSize ->
   (forall aad p, no_forgery (keysOf r') n (Seal k n p aad) aad p) ->
   exists pk, packTcp c r (t :: body) label nonce = Ret (Some pk) /\
     unpackStream r' (pk ++ rest) label = Ret (Some (t, body))).
Proof using CL LL AL.
  intros Ht He z Hz. unfold packTcp. rewrite Hz. split.
  - intros -> Hr'. exists z. split; [done|].
    destruct (streamBody_pack c _ t body z rest eq_refl Ht Hz) as (t' & b' & -> & Hty & Hs).
    unfold unpackStream. cbn [app]. rewrite Hr'. cbn [andb negb].
    assert (msgType_of_byte t' <> Some encryptMsg) as He'.
    { destruct Hty as [->| ->]; [done|]. by rewrite msgType_of_msgByte. }
    by rewrite bool_decide_eq_false_2.
  - intros k n [-> -> Hk Hr' Hin] -> -> Hn Hmax Hnf. simpl default.
    destruct (streamBody_pack c _ t body z [] eq_refl Ht Hz) as (t' & b' & Hzz & Hty & Hs).
    destruct (encryptTcp_seal (keysOf r') k n z (labelBytes label) rest Hin Hk Hn Hmax)
      as (ct & E & Hd); [apply Hnf|].
    exists (msgByte encryptMsg :: ct). rewrite E. split; [done|].
    unfold unpackStream. cbn [app]. rewrite Hr', msgType_of_msgByte.
    rewrite bool_decide_eq_true_2 by done. cbn [andb negb]. rewrite Hd. cbn [obind].
    rewrite Hzz. rewrite app_nil_r in Hs. rewrite Hs. by case_match; rewrite app_nil_r.
Qed.

(** A stream message is read back with its type byte and its body, in
    front of whatever follows it in the stream if it was sent as it is:
    without encryption, and with encryption when the receiver has the
    sender's primary key and the same label and the message is not above the
    limit of 20 MiB. *)
Theorem stream_roundtrip c r r' t body nonce label rest :
  msgType_of_byte t <> Some compressMsg -> msgType_of_byte t <> Some encryptMsg ->
  forall z, maybeCompress c (t :: body) = Some z ->
  (EncryptionEnabled r = false -> EncryptionEnabled r' = false ->
   exists pk, packTcp c r (t :: body) label nonce = Ret (Some pk) /\
     unpackStream r' (pk ++ rest) label =
       Ret (Some (t, body ++ (if bool_decide (z = t :: body) then rest else [])))) /\
  (forall k n, share r r' k -> Cfg.EncryptionVersion c = 0 -> nonce = Some n ->
   len n = nonceSize -> len z + 29 <= maxPushSize ->
   (forall aad p, no_forgery (keysOf r') n (Seal k n p aad) aad p) ->
   exists pk, packTcp c r (t :: body) label nonce = Ret (Some pk) /\
     unpackStream r' (pk ++ rest) label = Ret (Some (t, body))).
Proof using CL LL AL. apply stream_read_back. Qed.

End Transport.

(** ** The size of packets *)

Section Sizes.
Context {HO : HeapOps TransmitCapItem} {HL : HeapLaws TransmitCapItem HO} {CO : Codec}.

Lemma length_pack msgs : len (packCompoundMsg msgs) = 2 + used 2 msgs.
Proof using.
  unfold packCompoundMsg. rewrite !length_cons, length_app.
  assert (len (concat (map (fun m => be_put 2 (u16 (len m))) msgs)) + len (concat msgs)
          = used 2 msgs); [|lia].
  induction msgs as [|m msgs IH]; [done|]. cbn [map concat].
  change (used 2 (m :: msgs)) with (len m + 2 + used 2 msgs).
  rewrite !length_app, length_be_put. lia.
Qed.

Lemma used_nonneg ov msgs : 0 <= ov -> 0 <= used ov msgs.
Proof using. intros. induction msgs as [|m msgs IH]; unfold used in *; simpl; lia. Qed.

Lemma used_elem ov msgs b : 0 <= ov -> b ∈ msgs -> len b + ov <= used ov msgs.
Proof using.
  intros Hov. induction msgs as [|x msgs IH]; [by intros ?%elem_of_nil|].
  change (used ov (x :: msgs)) with (len x + ov + used ov msgs).
  pose proof (used_nonneg ov msgs Hov). intros [->|Hb]%elem_of_cons; [lia|]. specialize (IH Hb). lia.
Qed.

Lemma used_split ov k msgs :
  used ov msgs = used ov (take k msgs) + used ov (drop k msgs).
Proof using. by rewrite <- used_app, take_drop. Qed.

Lemma splitLoop_size fuel msgs p :
  p ∈ splitLoop fuel msgs -> len p <= 2 + used 2 msgs.
Proof using.
  revert msgs. induction fuel as [|fuel IH]; intros msgs; cbn [splitLoop].
  { by intros []%not_elem_of_nil. }
  pose proof (used_split 2 maxMsgs msgs) as Hs.
  pose proof (used_nonneg 2 (take maxMsgs msgs)). pose proof (used_nonneg 2 (drop maxMsgs msgs)).
  destruct (_ <? _)%nat.
  - intros [->|Hp]%elem_of_cons; [rewrite length_pack; lia|]. specialize (IH _ Hp). lia.
  - destruct (_ <? _)%nat; [|by intros []%not_elem_of_nil].
    intros ->%list_elem_of_singleton. rewrite length_pack. lia.
Qed.

(** The packets [gossip] makes of a list of messages. *)
Lemma gossip_packets_size msgs p :
  p ∈ match msgs with [msg] => [msg] | _ => splitToCompoundMsgs msgs end ->
  len p <= 2 + used 2 msgs.
Proof using.
  destruct msgs as [|m [|m2 msgs]]; try apply splitLoop_size.
  intros ->%list_elem_of_singleton. unfold used. simpl. lia.
Qed.

(** The user's delegate keeps to the limit it is given. The interface
    [UserBroadcasts] has the limit as a parameter and says no more about it:
    a delegate may well disregard it. *)
Definition delegate_ok (ub : option (Z -> Z -> list (list byte))) : Prop :=
  forall get o l, ub = Some get -> used o (get o l) <= Z.max 0 l.

Lemma gossipLoop_size m ub rem ns sent :
  queue_ok (mbroadcasts m) ->
  exists sent' m', gossipLoop m ub rem ns sent = Ret (sent ++ sent', m') /\
    queue_ok (mbroadcasts m') /\
    Forall (fun ap => (exists n, n ∈ ns /\ ap.1 = Node_UDPAddress (node n)) /\
                      (delegate_ok ub -> len ap.2 <= rem + 2)) sent'.
Proof using HL.
  intros Hq. revert m sent Hq. induction ns as [|n ns IH]; intros m sent Hq; cbn [gossipLoop].
  { exists [], m. rewrite app_nil_r. split_and!; [done..|constructor]. }
  unfold lenMsgOverhead.
  destruct (getBroadcasts_Ret (mbroadcasts m) ub (GetNumNodes m) 2 rem Hq ltac:(lia))
    as (msgs & q & E & Hq').
  assert (delegate_ok ub -> used 2 msgs <= Z.max 0 rem) as Hu.
  { intros Hub. destruct (getBroadcasts_full (mbroadcasts m) ub (GetNumNodes m) 2 rem Hq ltac:(lia) Hub)
      as (msgs' & q2 & E2 & _ & Hu). rewrite E in E2. injection E2 as <- _. exact Hu. }
  rewrite E. cbn [obind].
  destruct msgs as [|x msgs].
  { exists [], (set_mbroadcasts q m). rewrite app_nil_r. split_and!; [done..|constructor]. }
  assert (2 < rem) as Hrem.
  { unfold getBroadcasts in E. destruct (Z.leb_spec rem 2); [by simplify_eq|lia]. }
  pose proof (gossip_packets_size (x :: msgs)) as Hsize.
  set (ps := match x :: msgs with [msg] => [msg] | _ => splitToCompoundMsgs (x :: msgs) end) in *.
  destruct (IH (set_mbroadcasts q m) (sent ++ map (pair (Node_UDPAddress (node n))) ps) Hq')
    as (sent' & m' & E' & Hq2 & Hall).
  exists (map (pair (Node_UDPAddress (node n))) ps ++ sent'), m'.
  rewrite app_assoc. split_and!; [exact E'|done|]. apply Forall_app. split.
  - apply Forall_forall. intros ap (p & -> & Hp)%list_elem_of_fmap. simpl. split.
    + exists n. split; [by left|done].
    + intros Hub. specialize (Hsize p Hp). specialize (Hu Hub). lia.
  - eapply Forall_impl; [exact Hall|]. intros ap [(k & Hk & Ha) Hl]. split; [|done].
    exists k. split; [by right|done].
Qed.

(** C34: a gossip round, from a well-formed broadcast queue and a list of
    fewer than [2 ^ 32] nodes. It panics if [GossipNodes] is negative or if
    encryption is on and the configured encryption version is not 0.
    Otherwise it returns, whatever the user's delegate does, and every packet
    it hands out is for a member other than the node itself. If the delegate
    keeps to the limit it is given (or there is none), every packet is, with
    the encryption overhead, not larger than the UDP buffer size (the five
    bytes of the checksum header that [packUdp] adds are not accounted for);
    for a delegate that disregards its limit there is no such bound. *)
Theorem gossip_packets c ch m encryption ub clock r :
  reachable c ch m -> queue_ok (mbroadcasts m) -> len (nodes m) < 2 ^ 32 ->
  if (Cfg.GossipNodes (config m) <? 0) || encryption && negb (Cfg.EncryptionVersion (config m) =? 0)
  then gossip m encryption ub clock r = Panic
  else exists sent m', gossip m encryption ub clock r = Ret (sent, m') /\
    queue_ok (mbroadcasts m') /\
    Forall (fun ap =>
      (exists n, view m !! nid n = Some n /\ nid n <> selfID m /\
                 ap.1 = Node_UDPAddress (node n)) /\
      (delegate_ok ub ->
       len ap.2 + (if encryption then 29 else 0) <= Cfg.UDPBufferSize (config m))) sent.
Proof using HL.
  intros Hr Hq H32. destruct (reachable_good c ch m Hr) as [Hinv _].
  pose proof (gossip_total m encryption ub clock r Hinv Hq H32) as Ht. simpl in Ht.
  destruct (_ || _) eqn:Emis; [done|]. clear Ht.
  apply orb_false_iff in Emis as [Hg%Z.ltb_ge Hv]. unfold gossip.
  destruct (pickRandomNodes_spec m r (Cfg.GossipNodes (config m))
    (fun i => gossipTo m (clock i)) (inv_mem _ Hinv) H32 Hg) as (ns & -> & _ & Hns & _).
  cbn [obind]. unfold compoundHeaderOverhead.
  set (rem := Cfg.UDPBufferSize (config m) - 2 - (if encryption then 29 else 0)).
  assert ((if encryption
           then let! o := encryptOverhead (Cfg.EncryptionVersion (config m)) in
                Ret (Cfg.UDPBufferSize (config m) - 2 - o)
           else Ret (Cfg.UDPBufferSize (config m) - 2)) = Ret rem) as ->.
  { unfold rem. destruct encryption; simpl in Hv.
    - apply negb_false_iff in Hv. unfold encryptOverhead. by rewrite Hv.
    - f_equal. lia. }
  cbn [obind].
  destruct (gossipLoop_size m ub rem ns [] Hq) as (sent & m' & E & Hq' & Hall).
  exists sent, m'. split_and!; [exact E|done|].
  eapply Forall_impl; [exact Hall|]. intros ap [(n & Hn & Ha) Hl]. split.
  - apply (proj1 (Forall_forall _ _) Hns) in Hn as [Hobj [i Hacc]]. exists n. split_and!.
    + apply elem_of_objects in Hobj; [done|apply Hinv].
    + unfold gossipTo in Hacc. apply andb_true_iff in Hacc as [Hx _].
      by apply negb_true_iff, bool_decide_eq_false in Hx.
    + done.
  - intros Hub. specialize (Hl Hub). unfold rem in Hl. destruct encryption; lia.
Qed.

(** A message sent with piggybacked gossip can make a packet larger than
    the UDP buffer size: the length field of the message itself and the
    checksum header are not accounted for, seven bytes. For every message
    that leaves room there is a user delegate, within its budget, for which
    this happens; more than seven bytes it never is. *)
Theorem piggyback_overshoot c r q ub n msg :
  queue_ok q -> delegate_ok ub -> Cfg.EncryptionVersion c = 0 ->
  let o := if EncryptionEnabled r then 29 else 0 in
  len msg + 34 <= Cfg.UDPBufferSize c ->
  (exists pk q', sendMsgPiggyback c r q ub n msg = Ret (pk, q') /\ queue_ok q' /\
     len (addCrc pk) + o <= Cfg.UDPBufferSize c + 7) /\
  (exists get pk q', delegate_ok (Some get) /\
     sendMsgPiggyback c r (NewBroadcastQueue 4) (Some get) n msg = Ret (pk, q') /\
     len (addCrc pk) + o = Cfg.UDPBufferSize c + 7).
Proof using HL.
  intros Hq Hub Hv o Hlen.
  set (rem := Cfg.UDPBufferSize c - len msg - 2 - o).
  assert ((if EncryptionEnabled r
           then let! k := encryptOverhead (Cfg.EncryptionVersion c) in
                Ret (Cfg.UDPBufferSize c - len msg - compoundHeaderOverhead - k)
           else Ret (Cfg.UDPBufferSize c - len msg - compoundHeaderOverhead)) = Ret rem) as Hrem.
  { unfold rem, o, compoundHeaderOverhead. rewrite Hv.
    destruct (EncryptionEnabled r); [done|]. f_equal. lia. }
  assert (forall pk, len (addCrc pk) = len pk + 5) as Hcrc.
  { intros pk. unfold addCrc. rewrite length_cons, length_app, length_be_put. lia. }
  assert (3 <= rem) as Hrem3 by (unfold rem, o; destruct (EncryptionEnabled r); lia).
  split.
  - unfold sendMsgPiggyback. rewrite Hrem. cbn [obind]. unfold lenMsgOverhead.
    destruct (getBroadcasts_full q ub n 2 rem Hq ltac:(lia) Hub) as (msgs & q' & -> & Hq' & Hu).
    cbn [obind]. destruct msgs as [|x msgs]; eexists _, q'; (split; [done|]); split; try done;
      rewrite Hcrc; [unfold rem in *; lia|].
    rewrite length_pack. change (used 2 (msg :: x :: msgs)) with (len msg + 2 + used 2 (x :: msgs)).
    unfold rem in *. lia.
  - set (get := fun o l : Z => if o <=? l then [replicate (Z.to_nat (l - o)) x00] else []).
    exists get.
    assert (delegate_ok (Some get)) as Hok.
    { intros g o' l [= <-]. unfold get, used. destruct (Z.leb_spec o' l); simpl; [|lia].
      rewrite length_replicate. lia. }
    unfold sendMsgPiggyback. rewrite Hrem. cbn [obind].
    unfold getBroadcasts, lenMsgOverhead. rewrite (proj2 (Z.leb_gt rem 2)) by lia.
    assert (GetMessages (NewBroadcastQueue 4) n 2 rem = Ret ([], NewBroadcastQueue 4)) as ->.
    { unfold GetMessages. assert (Len (NewBroadcastQueue 4) = 0) as ->.
      { unfold Len. rewrite contents_len. simpl. by rewrite contents_new. }
      by rewrite orb_true_r. }
    cbn [obind]. change (used 2 []) with 0. rewrite Z.sub_0_r. unfold userMsgOverhead.
    change (2 + 1) with 3. unfold get. rewrite (proj2 (Z.leb_le 3 rem)) by lia.
    cbn [map app]. eexists _, _. split; [done|]. split; [reflexivity|].
    rewrite Hcrc, length_pack. unfold used. cbn [foldr]. rewrite length_cons, length_replicate.
    unfold rem in *. lia.
Qed.

End Sizes.

(** ** Witnesses *)

Section Witnesses.
#[local] Existing Instance aes_gcm.
#[local] Existing Instance aes_gcm_laws.
#[local] Existing Instance item_heap.
#[local] Existing Instance item_heap_laws.
#[local] Existing Instance bit_codec.
#[local] Existing Instance bit_codec_laws.
#[local] Existing Instance go_lzw.
#[local] Existing Instance go_lzw_laws.

Definition ring1 : option Keyring := Some (mkKeyring (Some key1) [key1]).
Definition msg1 : list byte := [msgByte userMsg; x61; x62].

Lemma share_ring1 : share ring1 ring1 key1.
Proof. split; try reflexivity. by left. Qed.

Lemma keysOf_ring1 : keysOf ring1 = [key1].
Proof. vm_compute. reflexivity. Qed.

Lemma msg1_plain : plainType msg1.
Proof. exists (msgByte userMsg), [x61; x62]. split; [reflexivity|discriminate]. Qed.

Lemma packet_roundtrip_witness :
  exists pk, packUdp exCfg ring1 msg1 (Some nonce1) = Ret (Some pk) /\
    unpackPacket ring1 pk (Cfg.Label exCfg) = Ret (Some msg1).
Proof.
  apply (packet_roundtrip exCfg ring1 ring1 msg1 (Some nonce1) msg1_plain).
  - unfold maybeCompress. vm_compute. eauto.
  - right. exists key1, nonce1. split; [exact share_ring1|]. split; [reflexivity|].
    split; [reflexivity|]. split; [reflexivity|].
    intros p. rewrite keysOf_ring1. apply no_forgery_single.
Defined.

Lemma stream_roundtrip_witness :
  exists z pk, maybeCompress exCfg msg1 = Some z /\
    packTcp exCfg ring1 msg1 "lab" (Some nonce1) = Ret (Some pk) /\
    unpackStream ring1 (pk ++ []) "lab" = Ret (Some (msgByte userMsg, [x61; x62])).
Proof.
  destruct (maybeCompress exCfg msg1) as [z|] eqn:E; [|vm_compute in E; discriminate E].
  exists z.
  destruct (stream_roundtrip exCfg ring1 ring1 (msgByte userMsg) [x61; x62] (Some nonce1) "lab" []
    ltac:(discriminate) ltac:(discriminate) z E) as [_ H].
  destruct (H key1 nonce1 share_ring1) as (pk & E1 & E2); [reflexivity..| | |].
  - vm_compute in E. injection E as <-. vm_compute. discriminate.
  - intros aad p. rewrite keysOf_ring1. apply no_forgery_single.
  - exists pk. split; [reflexivity|]. split; [exact E1|exact E2].
Defined.

Lemma bad_checksum_refused_witness :
  unpackPacket None (msgByte hasCrcMsg :: [x00; x00; x00; x01] ++ [x61]) "" = Ret None.
Proof.
  apply (bad_checksum_refused None (msgByte hasCrcMsg) [x00; x00; x00; x01] [x61] "").
  - reflexivity.
  - reflexivity.
  - vm_compute. discriminate.
Defined.

Lemma empty_packet_panics_witness :
  unpackPacket None (msgByte hasCrcMsg :: be_put 4 0) "" = Panic.
Proof. apply (empty_packet_panics None ""). reflexivity. Defined.

(** [n1] has two messages in its queue and knows [n2]. *)
Definition roundW : outcome (list (UDPAddr * list byte) * Memberlist) :=
  gossip w2 false None (fun _ => 4) Z.of_nat.

Lemma w2_queue_ok : queue_ok (mbroadcasts w2).
Proof.
  destruct (queue_run_ok
    [OpQueueMsg "n1" aliveMsg (PAlive (mkAlive 1 "n1" (IP (node n1w)) 7946 [])) None;
     OpQueueMsg "n2" aliveMsg (PAlive al2) None] (NewBroadcastQueue 4)) as (q & E & Hq).
  - apply NewBroadcastQueue_ok.
  - done.
  - done.
  - repeat constructor.
  - assert (q = mbroadcasts w2) as <-; [|exact Hq]. vm_compute in E. injection E as <-. vm_compute. reflexivity.
Qed.

Lemma gossip_packets_witness :
  exists p m', roundW = Ret ([(mkUDPAddr ip2 7946, p)], m') /\ queue_ok (mbroadcasts m') /\
    len p <= 1400.
Proof.
  pose proof (gossip_packets exCfg true w2 false None (fun _ => 4) Z.of_nat reach_w2 w2_queue_ok
    ltac:(vm_compute; reflexivity)) as H.
  assert ((Cfg.GossipNodes (config w2) <? 0) || false && negb (Cfg.EncryptionVersion (config w2) =? 0) = false)
    as Hc by (vm_compute; reflexivity).
  rewrite Hc in H. destruct H as (sent & m' & E & Hq & Hall).
  assert (exists p, sent = [(mkUDPAddr ip2 7946, p)]) as [p ->].
  { destruct (gossip w2 false None (fun _ => 4) Z.of_nat) as [[l k]| |] eqn:Eg; [|discriminate E|discriminate E].
    injection E as <- _. vm_compute in Eg. injection Eg as <- _. eexists. reflexivity. }
  exists p, m'. split; [exact E|]. split; [exact Hq|].
  destruct (Forall_inv Hall) as [_ Hlen].
  assert (len p + 0 <= 1400) as Hl by (apply Hlen; intros get o l; discriminate). lia.
Defined.

Lemma piggyback_overshoot_witness :
  exists get pk q', delegate_ok (Some get) /\
    sendMsgPiggyback exCfg None (NewBroadcastQueue 4) (Some get) 3 msg1 = Ret (pk, q') /\
    len (addCrc pk) + 0 = 1400 + 7.
Proof.
  destruct (piggyback_overshoot exCfg None (NewBroadcastQueue 4) None 3 msg1) as [_ H].
  - apply NewBroadcastQueue_ok.
  - intros get o l. discriminate.
  - reflexivity.
  - vm_compute. discriminate.
  - exact H.
Defined.

End Witnesses.
