(* ===== verification/Ping.v ===== *)
(** * Pings ([ping.go], [probeNode] of [maintenance.go])

    The manager of outstanding pings, the messages of a ping, and what a
    probe concludes from its outcome. Channels, timers and counters are
    numbers; [ts] numbers the timers given out so far. A send to a channel
    does not wait for a receiver: the operation says where it goes. *)

From S2P Require Import Prelude Types Interfaces Awareness Suspicion Broadcast Config NetAddr Compound Spec State StateFacts Maintenance MaintenanceFacts Lifecycle System Samples.
From Stdlib Require Import Strings.Byte.

Record ackHandler := mkAckHandler { h_timer : Z; h_ackCh : Z }.
Record indirectAckHandler := mkIndirectAckHandler { ih_ackCh : Z; ih_nNacks : Z; ih_timer : Z }.

Record pingManager := mkPingManager {
  seqNo : Z;   (* uint32 *)
  ackHandlers : gmap Z ackHandler;
  indirectAckHandlers : gmap Z indirectAckHandler;
  timers : gmap Z (bool * Z);   (* running timers: for an indirect handler?, its number *)
  ts : Z;
  nacks : gmap Z Z   (* the counters, int32 *)
}.

Definition newPingManager : pingManager := mkPingManager 0 ∅ ∅ ∅ 0 ∅.

Definition nextSeqNo (g : pingManager) : Z * pingManager :=
  let s := u32 (seqNo g + 1) in
  (s, mkPingManager s (ackHandlers g) (indirectAckHandlers g) (timers g) (ts g) (nacks g)).

Definition setAckHandler (g : pingManager) (s ch : Z) : pingManager :=
  mkPingManager (seqNo g) (<[ s := mkAckHandler (ts g) ch ]> (ackHandlers g))
    (indirectAckHandlers g) (<[ ts g := (false, s) ]> (timers g)) (ts g + 1) (nacks g).

(** An acknowledgement and when it came. *)
Record timedAck := mkTimedAck { ta_payload : list byte; timestamp : Z }.

(** The channel the acknowledgement is sent to, if any. *)
Definition invokeAckHandler (g : pingManager) (a : ack) (stamp : Z)
    : option (Z * timedAck) * pingManager :=
  let h := ackHandlers g !! k_SeqNo a in
  let hs := delete (k_SeqNo a) (ackHandlers g) in
  match h with
  | None => (None, mkPingManager (seqNo g) hs (indirectAckHandlers g) (timers g) (ts g) (nacks g))
  | Some h =>
      (Some (h_ackCh h, mkTimedAck (k_Payload a) stamp),
       mkPingManager (seqNo g) hs (indirectAckHandlers g) (delete (h_timer h) (timers g)) (ts g)
         (nacks g))
  end.

Definition setIndirectAckHandler (g : pingManager) (s ch counter : Z) : pingManager :=
  mkPingManager (seqNo g) (ackHandlers g)
    (<[ s := mkIndirectAckHandler ch counter (ts g) ]> (indirectAckHandlers g))
    (<[ ts g := (true, s) ]> (timers g)) (ts g + 1) (<[ counter := 0 ]> (nacks g)).

(** The channel that is signalled, if any. *)
Definition invokeIndirectAckHandler (g : pingManager) (i : indirectAck) : option Z * pingManager :=
  match indirectAckHandlers g !! ia_SeqNo i with
  | None => (None, g)
  | Some h =>
      if negb (ia_Success i) then
        (None, mkPingManager (seqNo g) (ackHandlers g) (indirectAckHandlers g) (timers g) (ts g)
                 (alter (fun n => i32 (n + 1)) (ih_nNacks h) (nacks g)))
      else
        (Some (ih_ackCh h),
         mkPingManager (seqNo g) (ackHandlers g) (delete (ia_SeqNo i) (indirectAckHandlers g))
           (delete (ih_timer h) (timers g)) (ts g) (nacks g))
  end.

(** A timer that has not been stopped fires and removes the handler. *)
Definition fireTimer (g : pingManager) (t : Z) : pingManager :=
  match timers g !! t with
  | None => g
  | Some (false, s) =>
      mkPingManager (seqNo g) (delete s (ackHandlers g)) (indirectAckHandlers g)
        (delete t (timers g)) (ts g) (nacks g)
  | Some (true, s) =>
      mkPingManager (seqNo g) (ackHandlers g) (delete s (indirectAckHandlers g))
        (delete t (timers g)) (ts g) (nacks g)
  end.

(** ** Histories of direct pings *)

Inductive ping_op :=
| OpSet (s ch : Z) | OpAck (a : ack) (stamp : Z) | OpFire (t : Z)
| OpSetInd (s ch counter : Z) | OpIndAck (i : indirectAck).

Definition ping_step (g : pingManager) (op : ping_op) : option (Z * timedAck) * pingManager :=
  match op with
  | OpSet s ch => (None, setAckHandler g s ch)
  | OpAck a stamp => invokeAckHandler g a stamp
  | OpFire t => (None, fireTimer g t)
  | OpSetInd s ch c => (None, setIndirectAckHandler g s ch c)
  | OpIndAck i => (None, (invokeIndirectAckHandler g i).2)
  end.

(** The acknowledgements sent to channels, in order. *)
Fixpoint ping_run (g : pingManager) (ops : list ping_op) : list (Z * timedAck) * pingManager :=
  match ops with
  | [] => ([], g)
  | op :: ops =>
      let '(o, g) := ping_step g op in
      let '(l, g) := ping_run g ops in
      (option_list o ++ l, g)
  end.

(** How often a channel is registered, and how often it is sent to. *)
Definition registrations (ch : Z) (ops : list ping_op) : nat :=
  length (List.filter (fun op => match op with OpSet _ c => c =? ch | _ => false end) ops).
Definition sends (ch : Z) (l : list (Z * timedAck)) : nat :=
  length (List.filter (fun x => x.1 =? ch) l).

(** The handlers that would send to a channel. *)
Definition pending (ch : Z) (g : pingManager) : gmap Z ackHandler :=
  filter (fun x => h_ackCh x.2 = ch) (ackHandlers g).

Lemma size_filter_delete (P : Z * ackHandler -> Prop) `{!forall x, Decision (P x)} s
    (hs : gmap Z ackHandler) :
  (size (filter P (delete s hs)) + (match hs !! s with
     | Some h => if bool_decide (P (s, h)) then 1 else 0 | None => 0 end) = size (filter P hs))%nat.
Proof.
  destruct (hs !! s) as [h|] eqn:E.
  - rewrite <- (insert_delete_id hs s h) at 2 by done. case_bool_decide as HP.
    + rewrite map_filter_insert_True by done.
      rewrite map_size_insert_None; [lia|].
      apply map_lookup_filter_None. left. apply lookup_delete_eq.
    + rewrite map_filter_insert_False by done. rewrite delete_delete_eq. lia.
  - rewrite delete_id by done. lia.
Qed.

Lemma pending_delete ch s g :
  (size (filter (fun x : Z * ackHandler => h_ackCh x.2 = ch) (delete s (ackHandlers g)))
   <= size (pending ch g))%nat.
Proof.
  unfold pending.
  rewrite <- (size_filter_delete (fun x => h_ackCh x.2 = ch) s (ackHandlers g)).
  apply Nat.le_add_r.
Qed.

Lemma pending_insert ch s h g :
  (size (filter (fun x : Z * ackHandler => h_ackCh x.2 = ch) (<[ s := h ]> (ackHandlers g)))
   <= size (pending ch g) + (if (h_ackCh h =? ch)%Z then 1 else 0))%nat.
Proof.
  unfold pending. destruct (Z.eqb_spec (h_ackCh h) ch) as [E|E].
  - rewrite map_filter_insert_True by done.
    rewrite map_size_insert. case_match; unfold Datatypes.id; lia.
  - rewrite map_filter_insert_False by done.
    rewrite Nat.add_0_r. apply pending_delete.
Qed.

(** A step sends to a channel only at the expense of one of its handlers. *)
Lemma ping_step_budget g op o g' ch :
  ping_step g op = (o, g') ->
  (sends ch (option_list o) + size (pending ch g')
   <= size (pending ch g) + registrations ch [op])%nat.
Proof.
  unfold registrations, sends. destruct op as [s c|a stamp|t|s c k|i]; cbn [ping_step].
  - intros [= <- <-]. cbn [option_list List.filter length].
    pose proof (pending_insert ch s (mkAckHandler (ts g) c) g) as H. simpl h_ackCh in H.
    unfold pending at 1. simpl. destruct (c =? ch); simpl; lia.
  - unfold invokeAckHandler.
    pose proof (size_filter_delete (fun x => h_ackCh x.2 = ch) (k_SeqNo a) (ackHandlers g)) as H.
    destruct (ackHandlers g !! k_SeqNo a) as [h|]; intros [= <- <-]; unfold pending; simpl.
    + simpl in H. destruct (Z.eqb_spec (h_ackCh h) ch); case_bool_decide; simpl; try done; lia.
    + lia.
  - intros [= <- <-]. unfold fireTimer. destruct (timers g !! t) as [[[] s]|]; simpl.
    + unfold pending. simpl. lia.
    + pose proof (pending_delete ch s g). unfold pending at 1. simpl. lia.
    + lia.
  - intros [= <- <-]. unfold pending. simpl. lia.
  - intros [= <- <-]. unfold invokeIndirectAckHandler.
    repeat case_match; unfold pending; simpl; lia.
Qed.

Lemma sends_app ch l1 l2 : sends ch (l1 ++ l2) = (sends ch l1 + sends ch l2)%nat.
Proof. unfold sends. by rewrite List.filter_app, length_app. Qed.

Lemma ping_run_budget ops g l g' ch :
  ping_run g ops = (l, g') ->
  (sends ch l + size (pending ch g') <= size (pending ch g) + registrations ch ops)%nat.
Proof.
  revert g l. induction ops as [|op ops IH]; intros g l; cbn [ping_run].
  { intros [= <- <-]. unfold sends, registrations. simpl. lia. }
  destruct (ping_step g op) as [o g1] eqn:E1. destruct (ping_run g1 ops) as [l1 g2] eqn:E2.
  intros [= <- <-]. specialize (IH g1 l1 E2). apply (ping_step_budget _ _ _ _ ch) in E1.
  rewrite sends_app.
  assert (registrations ch (op :: ops) = (registrations ch [op] + registrations ch ops)%nat) as ->.
  { unfold registrations. simpl. by destruct op; simpl; repeat case_match. }
  lia.
Qed.

(** Over every history of pings, acknowledgements and timeouts, in any
    order and with any numbers, a channel gets at most as many
    acknowledgements as it was registered times: a ping, which registers its
    channel once, is answered at most once. *)
Theorem ack_at_most_once ops l g ch :
  ping_run newPingManager ops = (l, g) -> (sends ch l <= registrations ch ops)%nat.
Proof.
  intros E. pose proof (ping_run_budget ops newPingManager l g ch E) as H.
  assert (size (pending ch newPingManager) = 0%nat) as Hz.
  { unfold pending. simpl. rewrite map_filter_empty. apply map_size_empty. }
  lia.
Qed.

Lemma ack_at_most_once_witness :
  let '(l, g) := ping_run newPingManager
    [OpSet 1 10; OpAck (mkAck 1 [x01]) 0; OpAck (mkAck 1 [x02]) 1; OpSet 2 11; OpFire 1;
     OpAck (mkAck 2 []) 2] in
  (sends 10 l <= 1)%nat.
Proof.
  destruct (ping_run _ _) as [l g] eqn:E.
  exact (ack_at_most_once
    [OpSet 1 10; OpAck (mkAck 1 [x01]) 0; OpAck (mkAck 1 [x02]) 1; OpSet 2 11; OpFire 1;
     OpAck (mkAck 2 []) 2] l g 10 E).
Defined.

(** An acknowledgement goes to the channel of the ping it answers: as
    long as a handler is registered and has not timed out, the ack with its
    number is sent to its channel; one with another number is not, and does
    not disturb it. *)
Theorem ack_reaches_ping g s ch a b t t' :
  k_SeqNo a = s -> k_SeqNo b <> s ->
  let g1 := setAckHandler g s ch in
  (invokeAckHandler g1 a t).1 = Some (ch, mkTimedAck (k_Payload a) t) /\
  (invokeAckHandler (invokeAckHandler g1 b t').2 a t).1 = Some (ch, mkTimedAck (k_Payload a) t) /\
  (invokeAckHandler (invokeAckHandler g1 a t').2 a t).1 = None.
Proof.
  intros <- Hb g1.
  assert (ackHandlers g1 !! k_SeqNo a = Some (mkAckHandler (ts g) ch)) as H1
    by apply lookup_insert_eq.
  clearbody g1. split_and!.
  - unfold invokeAckHandler. by rewrite H1.
  - unfold invokeAckHandler at 2. destruct (ackHandlers g1 !! k_SeqNo b);
      unfold invokeAckHandler; simpl; by rewrite lookup_delete_ne, H1.
  - unfold invokeAckHandler at 2. rewrite H1. unfold invokeAckHandler. simpl.
    by rewrite lookup_delete_eq.
Qed.

Lemma ack_reaches_ping_witness :
  (invokeAckHandler (setAckHandler newPingManager 7 3) (mkAck 7 [x01]) 5).1
  = Some (3, mkTimedAck [x01] 5).
Proof.
  apply (ack_reaches_ping newPingManager 7 3 (mkAck 7 [x01]) (mkAck 8 []) 5 4); [reflexivity|].
  discriminate.
Defined.

(** ** The messages of a ping *)

Section Messages.
Context {CO : Codec}.

(** [buddyPingMsg]: to a suspected node, the suspicion travels with the ping. *)
Definition buddyPingMsg (p : ping) (s : suspect) : option (list byte) :=
  match encode_msg pingMsg (PPing p) with
  | None => None
  | Some b1 =>
      match encode_msg suspectMsg (PSuspect s) with
      | None => None
      | Some b2 => Some (packCompoundMsg [b1; b2])
      end
  end.

Context {CL : CodecLaws CO}.

(** A suspected node that is probed learns of the suspicion in the same
    packet: the packet unpacks to exactly two messages, which decode to the
    ping and to the suspect message. *)
Theorem buddy_ping_carries_suspicion p s pk :
  buddyPingMsg p s = Some pk ->
  (forall b, encode_msg pingMsg (PPing p) = Some b \/ encode_msg suspectMsg (PSuspect s) = Some b ->
     len b < 2 ^ 16) ->
  exists b b1 b2, pk = msgByte compoundMsg :: b /\
    unpackCompoundMsg b = inr (0, [msgByte pingMsg :: b1; msgByte suspectMsg :: b2]) /\
    decode_msg KPing b1 = Some (PPing p) /\ decode_msg KSuspect b2 = Some (PSuspect s).
Proof using CL.
  unfold buddyPingMsg. intros E Hsmall.
  destruct (encode_msg pingMsg (PPing p)) as [b1|] eqn:E1; [|done].
  destruct (encode_msg suspectMsg (PSuspect s)) as [b2|] eqn:E2; [|done].
  injection E as <-.
  destruct (decode_encode_msg _ _ _ E1) as (c1 & -> & Hd1).
  destruct (decode_encode_msg _ _ _ E2) as (c2 & -> & Hd2).
  eexists _, c1, c2. split; [reflexivity|]. split_and!; [|exact Hd1|exact Hd2].
  rewrite <- (unpack_pack [msgByte pingMsg :: c1; msgByte suspectMsg :: c2] []).
  - by rewrite app_nil_r.
  - simpl. unfold maxMsgs. lia.
  - repeat constructor; apply Hsmall; auto.
Qed.

End Messages.

Lemma buddy_ping_carries_suspicion_witness :
  exists pk b, buddyPingMsg (CO := bit_codec) (mkPing 1 "n2" [] 0) (mkSuspect 1 "n2" "n1") = Some pk /\
    pk = msgByte compoundMsg :: b.
Proof.
  destruct (buddyPingMsg (CO := bit_codec) (mkPing 1 "n2" [] 0) (mkSuspect 1 "n2" "n1"))
    as [pk|] eqn:E; [|vm_compute in E; discriminate E].
  destruct (buddy_ping_carries_suspicion (CL := bit_codec_laws) (mkPing 1 "n2" [] 0)
    (mkSuspect 1 "n2" "n1") pk E) as (b & _ & _ & Hb & _).
  - intros b [Eb|Eb]; vm_compute in Eb; injection Eb as <-; vm_compute; reflexivity.
  - exists pk, b. split; [reflexivity|exact Hb].
Defined.

(** ** Probes *)

(** What may come back to a probe after its first ping has failed. *)
Record indirectPingResult := mkIndirectPingResult {
  ir_success : bool; ir_nNacks : Z; ir_numNode : Z
}.
Inductive probe_event := EvIndirect (r : indirectPingResult) | EvTcp (ok : bool) | EvWaitTimeout.

(** The loop [WAIT]: until something succeeds or the time is over, at
    [EvWaitTimeout] or when nothing more arrives. The last indirect result is
    kept. *)
Fixpoint waitLoop (evs : list probe_event) (res : indirectPingResult)
    : bool * indirectPingResult :=
  match evs with
  | [] => (false, res)
  | EvIndirect r :: evs => if ir_success r then (true, r) else waitLoop evs r
  | EvTcp ok :: evs => if ok then (true, res) else waitLoop evs res
  | EvWaitTimeout :: _ => (false, res)
  end.

Section Probe.
Context {HO : HeapOps TransmitCapItem} {CO : Codec}.
Implicit Types m : Memberlist.

(** [probeNode]: [pinged] is the outcome of the direct ping, [evs] what
    arrives afterwards. *)
Definition probeNode m (n : nodeState) (pinged : bool) (evs : list probe_event) (e : Env)
    : outcome Memberlist :=
  let improved := set_awr (Punish (awr m) (-1)) m in
  if pinged then Ret improved
  else
    let '(success, res) := waitLoop evs (mkIndirectPingResult false 0 0) in
    if success then Ret improved
    else
      let missedNacks := ir_numNode res - ir_nNacks res in
      let m := set_awr (Punish (awr m) missedNacks) m in
      suspectNode m (mkSuspect (Lives n) (nid n) (selfID m)) e.

(** [probe]. *)
Definition probe m (pinged : bool) (evs : list probe_event) (e : Env) : outcome Memberlist :=
  let! (found, m) := nextProbeNode m in
  match found with
  | None => Ret m
  | Some n => probeNode m n pinged evs e
  end.

(** Whether anything answered before the time was over. *)
Fixpoint answered (evs : list probe_event) : bool :=
  match evs with
  | [] => false
  | EvIndirect r :: evs => ir_success r || answered evs
  | EvTcp ok :: evs => ok || answered evs
  | EvWaitTimeout :: _ => false
  end.

Lemma waitLoop_answered evs res : (waitLoop evs res).1 = answered evs.
Proof.
  revert res. induction evs as [|[r|ok|] evs IH]; intros res; simpl; try done.
  - by destruct (ir_success r).
  - by destruct ok.
Qed.

(** The node that [nextProbeNode] returns. *)
Lemma nextProbeNode_result m r :
  mem_ok m -> -1 <= probeIdx m -> nextProbeNode m = Ret r ->
  (exists i, r.2 = set_probeIdx i m /\ -1 <= i) /\
  (forall n, r.1 = Some n -> view m !! nid n = Some n /\ nid n <> selfID m /\ DeadOrLeft n = false).
Proof.
  intros Hm Hp. rewrite nextProbeNode_spec by done.
  destruct (candFrom m (probeIdx m + 1) ++ candFrom m 0) as [|j js] eqn:E; intros [= <-]; simpl.
  { split; [exists (len (nodes m)); split; [done|lia]|done]. }
  assert (0 <= j < len (nodes m) /\ probeableAt m j = true) as [Hj Hpr].
  { destruct (candFrom m (probeIdx m + 1)) as [|j' js'] eqn:E1; simpl in E.
    - apply candFrom_next in E as (? & ? & _). split; [lia|done].
    - injection E as -> _. apply candFrom_next in E1 as (? & ? & _). split; [lia|done]. }
  split; [exists j; split; [done|lia]|].
  intros n Hn. unfold probeableAt in Hpr. rewrite Hn in Hpr.
  unfold skipProbe in Hpr. apply negb_true_iff, orb_false_iff in Hpr as [Hx Hd].
  apply bool_decide_eq_false in Hx. split_and!; [|done..].
  apply elem_of_objects; [done|]. apply list_elem_of_omap.
  rewrite objAt_index in Hn by lia. destruct (nodes m !! Z.to_nat j) as [p|] eqn:Ep; [|done].
  exists p. split; [by eapply list_elem_of_lookup_2|done].
Qed.

(** What follows from a probe, at whatever state [m] the node is when the
    probe ends. *)
Lemma probeNode_spec m n pinged evs e :
  inv m -> nid n <> selfID m -> 0 <= Lives n < 2 ^ 32 ->
  exists m', probeNode m n pinged evs e = Ret m' /\ inv m' /\
    view m' =
      if pinged || answered evs then view m
      else spec_suspect (selfID m) (Lives n + 1)
             (mkSuspect (Lives n) (nid n) (selfID m)) (now e) (view m).
Proof.
  intros Hinv Hx HL. unfold probeNode. cbv zeta.
  assert (forall a, inv (set_awr a m)) as Hi by (intros a; by apply (inv_core m)).
  destruct pinged; [eexists; split_and!; [done|apply Hi|done]|].
  destruct (waitLoop evs _) as [success res] eqn:Ew.
  pose proof (waitLoop_answered evs (mkIndirectPingResult false 0 0)) as Ha.
  rewrite Ew in Ha. simpl in Ha. subst success. simpl orb.
  destruct (answered evs); [eexists; split_and!; [done|apply Hi|done]|].
  set (m2 := set_awr _ _).
  destruct (suspectNode_refines m2 (mkSuspect (Lives n) (nid n) (selfID m)) e)
    as (m' & E' & Hi' & Hv' & _); [apply Hi|by split|].
  exists m'. split_and!; [exact E'|done|]. rewrite Hv'. by apply spec_suspect_other.
Qed.

(** C26: a probe that gets an answer, direct, by way of another node or over
    TCP, before its time is over changes nothing that the node knows. A probe
    that gets none suspects the node it probed, at the [Lives] it knew when
    the probe began, in its own name; this is so in whatever state [m'] the
    node has got into meanwhile. The node that is probed is a member other
    than the node itself that is neither dead nor gone. *)
Theorem probe_correct c ch m m' pinged evs e :
  reachable c ch m -> rtc step m m' ->
  exists found m1, nextProbeNode m = Ret (found, m1) /\
    forall n, found = Some n ->
      view m !! nid n = Some n /\ nid n <> selfID m /\ DeadOrLeft n = false /\
      exists m2, probeNode m' n pinged evs e = Ret m2 /\ inv m2 /\
        view m2 =
          if pinged || answered evs then view m'
          else spec_suspect (selfID m) (Lives n + 1)
                 (mkSuspect (Lives n) (nid n) (selfID m)) (now e) (view m').
Proof.
  intros Hr Hs. destruct (reachable_good c ch m Hr) as [Hinv Hc].
  assert (reachable c ch m') as Hr' by (unfold reachable in *; by etrans).
  destruct (reachable_good c ch m' Hr') as [Hinv' Hc'].
  assert (selfID m' = selfID m) as Hid by (unfold selfID; congruence).
  pose proof (reachable_probeIdx c ch m Hr) as Hp.
  destruct (nextProbeNode_Ret m (inv_mem _ Hinv) Hp) as [[found m1] E].
  destruct (nextProbeNode_result m _ (inv_mem _ Hinv) Hp E) as [_ Hn].
  exists found, m1. split; [done|]. intros n ->. destruct (Hn n eq_refl) as (Hv & Hx & Hd).
  split_and!; [done..|]. rewrite <- Hid.
  apply probeNode_spec; [done|by rewrite Hid|]. by apply (proj2 (inv_lives _ Hinv) (nid n)).
Qed.

End Probe.

Section Witnesses.
#[local] Existing Instance item_heap.
#[local] Existing Instance bit_codec.

Lemma probe_correct_witness :
  exists found m1, nextProbeNode w2 = Ret (found, m1) /\
    forall n, found = Some n -> exists m2,
      probeNode w2 n false [EvIndirect (mkIndirectPingResult false 0 1); EvWaitTimeout] (at_ 5)
      = Ret m2 /\ inv m2.
Proof.
  destruct (probe_correct exCfg true w2 w2 false
    [EvIndirect (mkIndirectPingResult false 0 1); EvWaitTimeout] (at_ 5) reach_w2 (rtc_refl _ _))
    as (found & m1 & E & H).
  exists found, m1. split; [exact E|]. intros n Hn.
  destruct (H n Hn) as (_ & _ & _ & m2 & E2 & Hi & _). exists m2. split; [exact E2|exact Hi].
Defined.

End Witnesses.
