(* ===== verification/Handlers.v ===== *)
(** * Message dispatch ([net_handlers.go]; [Ping] of [ping.go])

    The daemon around the member list: what it does with a packet, with a
    message of the long-running queue, and how a ping goes out. A call that
    sends hands a packet to the transport: [sent] lists the packets, and
    [net] says, for the n-th attempt to send, what nonce the system gives,
    whether the transport takes the packet, and what payload the user's ping
    delegate has. Goroutines that wait on a channel are the set [receivers]
    of channels: a send that does not wait reaches a channel only if its
    receiver is there. [stamp] is the time at which a packet was read from its
    socket. Log output is left out. *)

From S2P Require Import Prelude GoMath Types Interfaces Awareness Keyring Suspicion Broadcast BroadcastFacts Config NetAddr Compound Spec State StateFacts Maintenance MaintenanceFacts Lifecycle System Samples LongRun Encrypt AesGcm Lzw Transport Ping.
From Stdlib Require Import Strings.Byte.

Record Net := mkNet { n_nonce : option (list byte); n_taken : bool; n_payload : list byte }.

(** The goroutine [handleIndirectPing] starts: whom to tell, the number of
    the request, and the node to ping. *)
Record relay := mkRelay { r_addr : UDPAddr; r_SeqNo : Z; r_node : nodeState }.

(** A loop over a slice whose body may panic or not return. *)
Fixpoint ofold {A B} (f : A -> B -> outcome A) (a : A) (l : list B) : outcome A :=
  match l with
  | [] => Ret a
  | x :: l => let! a := f a x in ofold f a l
  end.

Section Handlers.
Context {HO : HeapOps TransmitCapItem} {CO : Codec} {L : LZW} {A : AEAD}.

Record Daemon := mkDaemon {
  ml : Memberlist;
  keyring : option Keyring;
  usrBroadcasts : option (Z -> Z -> list (list byte));
  usrPing : bool;   (* pingMng.usrPing is not nil *)
  usrMsgCh : bool;   (* usrMsgCh is not nil *)
  usrMsgs : list (list byte);   (* what the user has received from it *)
  longRun : lrState;
  pings : pingManager;
  chans : Z;   (* channels made so far *)
  receivers : gset Z;
  acked : list (Z * option timedAck);   (* what receivers have got; [None] from
                                           channels that carry no value *)
  usrPongs : list (Node * Z * list byte);   (* calls of [usrPing.Finish] *)
  relays : list relay;
  attempts : nat;
  sent : list (UDPAddr * list byte)
}.

Definition with_ml (x : Memberlist) (d : Daemon) : Daemon :=
  mkDaemon x (keyring d) (usrBroadcasts d) (usrPing d) (usrMsgCh d) (usrMsgs d) (longRun d)
    (pings d) (chans d) (receivers d) (acked d) (usrPongs d) (relays d) (attempts d) (sent d).
Definition with_usrMsgs (x : list (list byte)) (d : Daemon) : Daemon :=
  mkDaemon (ml d) (keyring d) (usrBroadcasts d) (usrPing d) (usrMsgCh d) x (longRun d)
    (pings d) (chans d) (receivers d) (acked d) (usrPongs d) (relays d) (attempts d) (sent d).
Definition with_longRun (x : lrState) (d : Daemon) : Daemon :=
  mkDaemon (ml d) (keyring d) (usrBroadcasts d) (usrPing d) (usrMsgCh d) (usrMsgs d) x
    (pings d) (chans d) (receivers d) (acked d) (usrPongs d) (relays d) (attempts d) (sent d).
Definition with_pings (x : pingManager) (d : Daemon) : Daemon :=
  mkDaemon (ml d) (keyring d) (usrBroadcasts d) (usrPing d) (usrMsgCh d) (usrMsgs d) (longRun d)
    x (chans d) (receivers d) (acked d) (usrPongs d) (relays d) (attempts d) (sent d).
Definition with_chans (x : Z) (d : Daemon) : Daemon :=
  mkDaemon (ml d) (keyring d) (usrBroadcasts d) (usrPing d) (usrMsgCh d) (usrMsgs d) (longRun d)
    (pings d) x (receivers d) (acked d) (usrPongs d) (relays d) (attempts d) (sent d).
Definition with_receivers (x : gset Z) (d : Daemon) : Daemon :=
  mkDaemon (ml d) (keyring d) (usrBroadcasts d) (usrPing d) (usrMsgCh d) (usrMsgs d) (longRun d)
    (pings d) (chans d) x (acked d) (usrPongs d) (relays d) (attempts d) (sent d).
Definition with_acked (x : list (Z * option timedAck)) (d : Daemon) : Daemon :=
  mkDaemon (ml d) (keyring d) (usrBroadcasts d) (usrPing d) (usrMsgCh d) (usrMsgs d) (longRun d)
    (pings d) (chans d) (receivers d) x (usrPongs d) (relays d) (attempts d) (sent d).
Definition with_usrPongs (x : list (Node * Z * list byte)) (d : Daemon) : Daemon :=
  mkDaemon (ml d) (keyring d) (usrBroadcasts d) (usrPing d) (usrMsgCh d) (usrMsgs d) (longRun d)
    (pings d) (chans d) (receivers d) (acked d) x (relays d) (attempts d) (sent d).
Definition with_relays (x : list relay) (d : Daemon) : Daemon :=
  mkDaemon (ml d) (keyring d) (usrBroadcasts d) (usrPing d) (usrMsgCh d) (usrMsgs d) (longRun d)
    (pings d) (chans d) (receivers d) (acked d) (usrPongs d) x (attempts d) (sent d).
Definition with_sent (n : nat) (x : list (UDPAddr * list byte)) (d : Daemon) : Daemon :=
  mkDaemon (ml d) (keyring d) (usrBroadcasts d) (usrPing d) (usrMsgCh d) (usrMsgs d) (longRun d)
    (pings d) (chans d) (receivers d) (acked d) (usrPongs d) (relays d) n x.

Definition cfg (d : Daemon) : Cfg.Config := config (ml d).

Section Net.
Context (net : nat -> Net).
Implicit Types d : Daemon.

(** ** Sending *)

(** [sendUdp]: the flag is false when it returns an error. *)
Definition sendUdp d (addr : UDPAddr) (msg : list byte) : outcome (bool * Daemon) :=
  let k := net (attempts d) in
  let! pk := packUdp (cfg d) (keyring d) msg (n_nonce k) in
  match pk with
  | None => Ret (false, with_sent (S (attempts d)) (sent d) d)
  | Some pk =>
      if n_taken k
      then Ret (true, with_sent (S (attempts d)) (sent d ++ [(addr, pk)]) d)
      else Ret (false, with_sent (S (attempts d)) (sent d) d)
  end.

Definition SendUserMsg d (addr : UDPAddr) (msg : list byte) : outcome (bool * Daemon) :=
  sendUdp d addr (userPacket msg).

(** [encodeAndSendUdp], with the gossip that travels along. *)
Definition sendMsg d (addr : UDPAddr) (t : msgType) (p : payload) : outcome (bool * Daemon) :=
  let! (b, q) := encodeAndSendUdp (cfg d) (keyring d) (mbroadcasts (ml d)) (usrBroadcasts d)
                   (GetNumNodes (ml d)) t p in
  let d := with_ml (set_mbroadcasts q (ml d)) d in
  match b with
  | None => Ret (false, d)
  | Some b => sendUdp d addr b
  end.

(** ** Messages that are handled at once *)

(** The address to answer to. *)
Definition replyAddr (sourceIP : ip) (sourcePort : Z) (from : UDPAddr) : UDPAddr :=
  if (0 <? len sourceIP) && (0 <? sourcePort) then mkUDPAddr sourceIP sourcePort else from.

Definition handlePing d (buf : list byte) (from : UDPAddr) : outcome Daemon :=
  match decode_msg KPing buf with
  | Some (PPing p) =>
      if bool_decide (p_ID p <> "") && bool_decide (p_ID p <> selfID (ml d)) then Ret d
      else
        let a := mkAck (p_SeqNo p) (if usrPing d then n_payload (net (attempts d)) else []) in
        let addr := replyAddr (p_SourceIP p) (p_SourcePort p) from in
        outcome_map snd (sendMsg d addr ackMsg (PAck a))
  | _ => Ret d
  end.

(** A send that does not wait. *)
Definition trySend d (ch : Z) (x : option timedAck) : Daemon :=
  if bool_decide (ch ∈ receivers d)
  then with_receivers (receivers d ∖ {[ ch ]}) (with_acked (acked d ++ [(ch, x)]) d)
  else d.

Definition handleAck d (buf : list byte) (stamp : Z) : outcome Daemon :=
  match decode_msg KAck buf with
  | Some (PAck a) =>
      let '(o, g) := invokeAckHandler (pings d) a stamp in
      let d := with_pings g d in
      Ret (match o with Some (ch, x) => trySend d ch (Some x) | None => d end)
  | _ => Ret d
  end.

Definition handleIndirectPing d (msg : list byte) (from : UDPAddr) : outcome Daemon :=
  match decode_msg KIndirectPing msg with
  | Some (PIndirectPing ind) =>
      let addr := replyAddr (i_SourceIP ind) (i_SourcePort ind) from in
      let n := mkNodeState (mkNode (i_ID ind) (i_IP ind) (i_Port ind) []) 0 StateAlive 0 in
      Ret (with_relays (relays d ++ [mkRelay addr (i_SeqNo ind) n]) d)
  | _ => Ret d
  end.

Definition handleIndirectAck d (msg : list byte) : outcome Daemon :=
  match decode_msg KIndirectAck msg with
  | Some (PIndirectAck i) =>
      let '(o, g) := invokeIndirectAckHandler (pings d) i in
      let d := with_pings g d in
      Ret (match o with Some ch => trySend d ch None | None => d end)
  | _ => Ret d
  end.

(** ** Dispatch *)

Definition queueLongRun d (t : msgType) (msg : list byte) (from : UDPAddr) : outcome Daemon :=
  let! s := lr_step (longRun d) (LRQueue t msg from) in Ret (with_longRun s d).

Definition handleCompound (handle : Daemon -> list byte -> outcome Daemon) d (msg : list byte)
    : outcome Daemon :=
  match unpackCompoundMsg msg with
  | inl _ => Ret d
  | inr (_, msgs) => ofold handle d msgs
  end.

(** A part of a compound message may be a compound message again; the fuel
    bounds the nesting. *)
Fixpoint handleUdpMsg (fuel : nat) d (msg : list byte) (from : UDPAddr) (stamp : Z)
    : outcome Daemon :=
  match fuel with
  | O => Hang
  | S fuel =>
      match msg with
      | [] => Ret d
      | t :: msg =>
          match msgType_of_byte t with
          | None => Ret d
          | Some mType =>
              if isLongRunMsg mType then queueLongRun d mType msg from
              else
                match mType with
                | compoundMsg => handleCompound (fun d m => handleUdpMsg fuel d m from stamp) d msg
                | pingMsg => handlePing d msg from
                | ackMsg => handleAck d msg stamp
                | indirectPingMsg => handleIndirectPing d msg from
                | indirectAckMsg => handleIndirectAck d msg
                | _ => Ret d
                end
          end
      end
  end.

(** [handlePacket]; every compound message is longer than its parts, so the
    length of the message is fuel enough. *)
Definition handlePacket d (buf : list byte) (from : UDPAddr) (stamp : Z) : outcome Daemon :=
  let! msg := unpackPacket (keyring d) buf (Cfg.Label (cfg d)) in
  match msg with
  | None => Ret d
  | Some msg => handleUdpMsg (S (length msg)) d msg from stamp
  end.

(** ** Long-running messages *)

Definition handleAlive d (msg : list byte) (from : UDPAddr) (e : Env) : outcome Daemon :=
  if negb (IPAllowed (cfg d) (addrIP from)) then Ret d
  else
    match decode_msg KAlive msg with
    | Some (PAlive a) => Ret (with_ml (aliveNode (ml d) a None e) d)
    | _ => Ret d
    end.

Definition handleSuspect d (msg : list byte) (e : Env) : outcome Daemon :=
  match decode_msg KSuspect msg with
  | Some (PSuspect s) => let! m := suspectNode (ml d) s e in Ret (with_ml m d)
  | _ => Ret d
  end.

Definition handleDead d (msg : list byte) (e : Env) : outcome Daemon :=
  match decode_msg KDead msg with
  | Some (PDead x) => let! m := deadNode (ml d) x None e in Ret (with_ml m d)
  | _ => Ret d
  end.

(** The send waits until the user takes the message, if there is a channel. *)
Definition handleUser d (msg : list byte) (taken : bool) : outcome Daemon :=
  if usrMsgCh d then if taken then Ret (with_usrMsgs (usrMsgs d ++ [msg]) d) else Hang
  else Ret d.

Definition handleLongRun d (x : longRunMsg) (taken : bool) (e : Env) : outcome Daemon :=
  match mType x with
  | suspectMsg => handleSuspect d (lr_msg x) e
  | aliveMsg => handleAlive d (lr_msg x) (lr_from x) e
  | deadMsg => handleDead d (lr_msg x) e
  | userMsg => handleUser d (lr_msg x) taken
  | _ => Ret d
  end.

(** A step of the goroutine [runLongRunMsgHandler]; [lr_step] says how its
    state moves. *)
Definition longRunStep d (taken : bool) (e : Env) : outcome Daemon :=
  let s := longRun d in
  match pc s with
  | Draining =>
      let! (x, mg) := getNextMsg (mng s) in
      match x with
      | Some x =>
          handleLongRun (with_longRun (mkLR mg Draining (handled s ++ [x])) d) x taken e
      | None => Ret (with_longRun (mkLR mg Returning (handled s)) d)
      end
  | Returning => Ret (with_longRun (mkLR (mng s) Waiting (handled s)) d)
  | Waiting => Ret d
  end.

(** ** Pings *)

(** [Ping] until it waits: [None] when it returns false, or the number of
    the ping and the channel of its acknowledgement. *)
Definition startPing d (n : nodeState) : outcome (option (Z * Z) * Daemon) :=
  match GetAdvertiseAddr (cfg d) with
  | None => Ret (None, d)
  | Some (localIp, localPort) =>
      let '(s, g) := nextSeqNo (pings d) in
      let p := mkPing s (nid n) localIp localPort in
      let ch := chans d in
      let d := with_chans (ch + 1) (with_pings (setAckHandler g s ch) d) in
      let addr := Node_UDPAddress (node n) in
      let! (ok, d) :=
        if bool_decide (State n = StateAlive) then sendMsg d addr pingMsg (PPing p)
        else
          match buddyPingMsg p (mkSuspect (Lives n) (nid n) (selfID (ml d))) with
          | None => Ret (false, d)
          | Some msg => sendUdp d addr msg
          end in
      Ret (if ok : bool then Some (s, ch) else None, d)
  end.

(** The [select]: the goroutine waits at the channel, *)
Definition awaitPing d (ch : Z) : Daemon := with_receivers (receivers d ∪ {[ ch ]}) d.

(** [Time.Sub], a signed 64-bit duration that does not wrap around. *)
Definition timeSub (t u : Z) : Z := Z.max (- 2 ^ 63) (Z.min (2 ^ 63 - 1) (t - u)).

(** and goes on when the acknowledgement or the timeout has come; [sentAt] is
    when it sent the ping of [n]. *)
Definition finishPing d (n : nodeState) (sentAt ch : Z) : bool * Daemon :=
  let d' := with_receivers (receivers d ∖ {[ ch ]}) d in
  match List.find (fun x => x.1 =? ch) (acked d) with
  | None => (false, d')
  | Some (_, a) =>
      (true,
       if usrPing d then
         match a with
         | Some a =>
             with_usrPongs (usrPongs d ++ [(node n, timeSub (timestamp a) sentAt, ta_payload a)]) d'
         | None => d'   (* not from a channel of a ping *)
         end
       else d')
  end.

(** The goroutine of [IndirectPing] until it waits: [inl] the result it sends
    at once, or [inr] the number of the ping, its channel, which is also the
    number of its counter, and the number of peers asked. The random numbers
    [r] choose the peers. *)
Fixpoint askPeers d (ind : indirectPing) (peers : list nodeState) : outcome (bool * Daemon) :=
  match peers with
  | [] => Ret (true, d)
  | n :: peers =>
      let! (ok, d) := sendMsg d (Node_UDPAddress (node n)) indirectPingMsg (PIndirectPing ind) in
      if ok : bool then askPeers d ind peers else Ret (false, d)
  end.

Definition helper d (n : nodeState) (_ : nat) (k : nodeState) : bool :=
  negb (bool_decide (nid k = selfID (ml d))) && negb (bool_decide (nid k = nid n)) &&
  bool_decide (State k = StateAlive).

Definition startIndirectPing d (n : nodeState) (r : nat -> Z)
    : outcome ((indirectPingResult + Z * Z * Z) * Daemon) :=
  let failed := mkIndirectPingResult false 0 0 in
  match GetAdvertiseAddr (cfg d) with
  | None => Ret (inl failed, d)
  | Some (localIp, localPort) =>
      let! peers := pickRandomNodes (ml d) r (Cfg.NumIndirectChecks (cfg d)) (helper d n) in
      match peers with
      | [] => Ret (inl failed, d)
      | _ =>
          let '(s, g) := nextSeqNo (pings d) in
          let ind := mkIndirectPing s (nid n) (IP (node n)) (Port (node n)) localIp localPort in
          let ch := chans d in
          let d := with_chans (ch + 1) (with_pings (setIndirectAckHandler g s ch ch) d) in
          let! (ok, d) := askPeers d ind peers in
          Ret (if ok : bool then inr (s, ch, len peers) else inl failed, d)
      end
  end.

(** The result when the acknowledgement or the timeout has come. *)
Definition finishIndirectPing d (ch numPeers : Z) : indirectPingResult :=
  if existsb (fun x => x.1 =? ch) (acked d) then mkIndirectPingResult true 0 0
  else mkIndirectPingResult false (default 0 (nacks (pings d) !! ch)) numPeers.

(** The goroutine of [handleIndirectPing] when its ping has ended. *)
Definition finishRelay d (r : relay) (ok : bool) : outcome Daemon :=
  outcome_map snd (sendMsg d (r_addr r) indirectAckMsg (PIndirectAck (mkIndirectAck (r_SeqNo r) ok))).

End Net.
End Handlers.
