(* ===== verification/HandlersFacts.v ===== *)
(** * What becomes of a packet

    Nested compound messages come to the same as their parts in order; the
    packet loop returns on every packet while the long-running queue has
    room, and does not touch the member list; every gossip message of a
    packet is applied exactly once; a ping that is not lost is answered, and
    so is an indirect one. *)

From S2P Require Import Prelude GoMath Types Interfaces Awareness Keyring Suspicion Broadcast BroadcastFacts Config NetAddr Compound Spec State StateFacts Maintenance MaintenanceFacts Lifecycle System Samples PushPull LongRun Encrypt AesGcm Lzw Transport Ping Handlers.
From Stdlib Require Import Strings.Byte.

(** ** Compound messages, flattened *)

(** The messages that a message, compound or not, stands for. *)
Fixpoint leaves (fuel : nat) (msg : list byte) : list (list byte) :=
  match fuel with
  | O => []
  | S fuel =>
      match msg with
      | [] => [msg]
      | t :: body =>
          if bool_decide (msgType_of_byte t = Some compoundMsg) then
            match unpackCompoundMsg body with
            | inl _ => []
            | inr (_, msgs) => concat (map (leaves fuel) msgs)
            end
          else [msg]
      end
  end.

Lemma unpack_shorter body trunc msgs :
  unpackCompoundMsg body = inr (trunc, msgs) ->
  Forall (fun m => (length m < length body)%nat) msgs.
Proof.
  destruct body as [|n body]; [done|]. intros E.
  destruct (unpack_total n body) as [E'|(trunc' & out & rest & E' & _ & _ & Hb)].
  - rewrite E' in E. done.
  - assert (out = msgs) as -> by congruence. clear E E'. apply Forall_forall. intros m Hm.
    apply (f_equal length) in Hb. rewrite !length_app in Hb.
    assert (length m <= length (concat msgs))%nat.
    { clear Hb. induction Hm as [m msgs|m m' msgs _ IH]; simpl; rewrite length_app; lia. }
    simpl. lia.
Qed.

Lemma ofold_app {A B} (f : A -> B -> outcome A) a l l' :
  ofold f a (l ++ l') = let! a := ofold f a l in ofold f a l'.
Proof. revert a. induction l as [|x l IH]; intros a; simpl; [done|].
  destruct (f a x); [apply IH|done..].
Qed.

Lemma ofold_concat {A B C} (f : A -> B -> outcome A) (g : A -> C -> outcome A)
    (h : B -> list C) a l :
  (forall a x, x ∈ l -> f a x = ofold g a (h x)) ->
  ofold f a l = ofold g a (concat (map h l)).
Proof.
  revert a. induction l as [|x l IH]; intros a Hf; simpl; [done|].
  rewrite ofold_app, Hf by (by left). destruct (ofold g a (h x)); [|done..]. simpl.
  apply IH. intros a' y Hy. apply Hf. by right.
Qed.

Section Facts.
Context {HO : HeapOps TransmitCapItem} {HL : HeapLaws TransmitCapItem HO}.
Context {CO : Codec} {CL : CodecLaws CO} {L : LZW} {LL : LZWLaws L} {A : AEAD} {AL : AEADLaws A}.
Context (net : nat -> Net) (stamp : Z).
Implicit Types d : Daemon.

Lemma handleUdpMsg_leaves fuel d msg from :
  (length msg < fuel)%nat ->
  handleUdpMsg net fuel d msg from stamp
  = ofold (fun d m => handleUdpMsg net 1 d m from stamp) d (leaves fuel msg).
Proof using.
  revert d msg. induction fuel as [|fuel IH]; intros d msg Hlen; [lia|].
  destruct msg as [|t body]; [done|]. cbn [leaves].
  case_bool_decide as Ht.
  - cbn [handleUdpMsg]. rewrite Ht. cbn [isLongRunMsg bool_decide]. simpl.
    unfold handleCompound. destruct (unpackCompoundMsg body) as [e|[trunc msgs]] eqn:E; [done|].
    apply ofold_concat. intros d' m Hm. apply IH.
    apply unpack_shorter in E. rewrite Forall_forall in E. specialize (E m Hm). simpl in Hlen. lia.
  - cbn [ofold handleUdpMsg]. destruct (msgType_of_byte t) as [ty|]; [|done].
    destruct ty; simpl; try done;
      match goal with |- ?x = _ => by destruct x end.
Qed.

(** No leaf is a compound message. *)
Lemma leaves_flat fuel msg :
  Forall (fun m => forall t b, m = t :: b -> msgType_of_byte t <> Some compoundMsg)
    (leaves fuel msg).
Proof using.
  revert msg. induction fuel as [|fuel IH]; intros msg; [constructor|]. cbn [leaves].
  destruct msg as [|t body]; [repeat constructor; done|].
  case_bool_decide as Ht; [|repeat constructor; by intros t' b' [= <- <-]].
  destruct (unpackCompoundMsg body) as [e|[trunc msgs]]; [constructor|].
  apply Forall_concat, Forall_forall. intros l (m & -> & _)%list_elem_of_fmap. apply IH.
Qed.

(** ** The packet loop *)

(** A daemon in order, whose long-running queue has room for [k] messages. *)
Record ready (k : Z) d : Prop := mkReady {
  ready_inv : inv (ml d);
  ready_queue : queue_ok (mbroadcasts (ml d));
  ready_version : Cfg.EncryptionVersion (cfg d) = 0;
  ready_delegate : delegate_ok (usrBroadcasts d);
  ready_lr : lr_ok (longRun d);
  ready_room : len (queued (mng (longRun d))) + k <= maxQueueDepth (mng (longRun d))
}.

(** What no packet changes: the member list and its suspicions, the keys,
    the packets already sent, the acknowledgements already received and the
    relays already started. *)
Record quiet d d' : Prop := mkQuiet {
  quiet_core : core (ml d') = core (ml d);
  quiet_keyring : keyring d' = keyring d;
  quiet_sent : sent d `prefix_of` sent d';
  quiet_handled : handled (longRun d') = handled (longRun d);
  quiet_usr : usrMsgs d' = usrMsgs d;
  quiet_acked : acked d `prefix_of` acked d';
  quiet_relays : relays d `prefix_of` relays d'
}.

#[local] Instance quiet_preorder : PreOrder quiet.
Proof using.
  split; [by intros d|]. intros d1 d2 d3 [H1 H2 H3 H4 H5 H6 H7] [K1 K2 K3 K4 K5 K6 K7].
  split; [congruence..|by etrans|congruence|congruence|by etrans|by etrans].
Qed.

Lemma packUdp_Ret c r msg n :
  Cfg.EncryptionVersion c = 0 -> exists o, packUdp c r msg n = Ret o.
Proof using.
  intros Hv. unfold packUdp. destruct (maybeCompress c msg); [|eauto].
  destruct (EncryptionEnabled r); [|eauto]. unfold encrypt. rewrite Hv.
  destruct (negb _); [eauto|]. simpl. destruct n; eauto.
Qed.

Lemma sendUdp_ready k d addr msg :
  ready k d -> exists ok d', sendUdp net d addr msg = Ret (ok, d') /\ ready k d' /\
    quiet d d' /\ longRun d' = longRun d.
Proof using.
  intros [H1 H2 H3 H4 H5 H6]. unfold sendUdp.
  destruct (packUdp_Ret (cfg d) (keyring d) msg (n_nonce (net (attempts d))) H3) as [o ->].
  cbn [obind]. destruct o as [pk|]; [destruct (n_taken (net (attempts d)))|];
    eexists _, _; split_and!; try reflexivity; try done; split; try done; simpl;
    by apply prefix_app_r.
Qed.

Lemma sendMsgPiggyback_Ret c r q ub n msg :
  queue_ok q -> delegate_ok ub -> Cfg.EncryptionVersion c = 0 ->
  exists pk q', sendMsgPiggyback c r q ub n msg = Ret (pk, q') /\ queue_ok q'.
Proof using HL.
  intros Hq Hub Hv. unfold sendMsgPiggyback. rewrite Hv.
  set (rem := Cfg.UDPBufferSize c - len msg - compoundHeaderOverhead - (if EncryptionEnabled r then 29 else 0)).
  assert ((if EncryptionEnabled r
           then let! o := encryptOverhead 0 in
                Ret (Cfg.UDPBufferSize c - len msg - compoundHeaderOverhead - o)
           else Ret (Cfg.UDPBufferSize c - len msg - compoundHeaderOverhead)) = Ret rem) as ->.
  { unfold rem. destruct (EncryptionEnabled r); [done|]. f_equal. lia. }
  cbn [obind]. unfold lenMsgOverhead.
  destruct (getBroadcasts_full q ub n 2 rem Hq ltac:(lia) Hub) as (msgs & q' & -> & Hq' & _).
  cbn [obind]. destruct msgs; eauto.
Qed.

Lemma sendMsg_ready k d addr t p :
  ready k d -> exists ok d', sendMsg net d addr t p = Ret (ok, d') /\ ready k d' /\
    quiet d d' /\ longRun d' = longRun d.
Proof using HL.
  intros Hr. pose proof Hr as [H1 H2 H3 H4 H5 H6]. unfold sendMsg, encodeAndSendUdp.
  destruct (encode_msg t p) as [b|].
  - destruct (sendMsgPiggyback_Ret (cfg d) (keyring d) (mbroadcasts (ml d)) (usrBroadcasts d)
      (GetNumNodes (ml d)) b H2 H4 H3) as (pk & q & -> & Hq). cbn [obind].
    set (d1 := with_ml _ d).
    assert (ready k d1) as Hr1 by (split; try done; by apply (inv_core (ml d))).
    destruct (sendUdp_ready k d1 addr pk Hr1) as (ok & d' & E & Hr' & Hq' & Hlr).
    exists ok, d'. split_and!; [done..| |by rewrite Hlr].
    etrans; [|exact Hq']. by split.
  - cbn [obind]. eexists false, _. split_and!; [reflexivity| | |done]; split; try done.
    by apply (inv_core (ml d)).
Qed.

(** The entry a message makes in the long-running queue. *)
Definition longRunOf (from : UDPAddr) (m : list byte) : option longRunMsg :=
  match m with
  | [] => None
  | t :: b =>
      match msgType_of_byte t with
      | Some ty => if isLongRunMsg ty then Some (mkLongRunMsg ty b from) else None
      | None => None
      end
  end.

Lemma queueLongRun_ready k d t msg from :
  ready (k + 1) d -> 0 <= k ->
  exists d', queueLongRun d t msg from = Ret d' /\ ready k d' /\ quiet d d' /\
    queued (mng (longRun d')) ≡ₚ mkLongRunMsg t msg from :: queued (mng (longRun d)) /\
    pc (longRun d') = match pc (longRun d) with Waiting => Draining | p => p end.
Proof using.
  intros [H1 H2 H3 H4 [Hl Hs] H6] Hk. unfold queueLongRun. cbn [lr_step].
  destruct (queue_ok_spec (mng (longRun d)) t msg from Hl Hs ltac:(lia))
    as (mg & -> & Hl' & Hs' & Hd & Hp).
  cbn [obind]. eexists. split; [done|].
  split_and!; [split; try done|by split|done|done].
  simpl. rewrite Hd, Hp. simpl length. lia.
Qed.

Lemma trySend_ready k d ch x : ready k d -> ready k (trySend d ch x) /\
  quiet d (trySend d ch x) /\ longRun (trySend d ch x) = longRun d.
Proof using.
  intros [H1 H2 H3 H4 H5 H6]. unfold trySend. case_bool_decide; split_and!; try done.
  split; try done. simpl. by apply prefix_app_r.
Qed.

(** The messages handled at once leave the queue alone. *)
Definition calm k d (r : outcome Daemon) : Prop :=
  exists d', r = Ret d' /\ ready k d' /\ quiet d d' /\ longRun d' = longRun d.

Lemma calm_refl k d : ready k d -> calm k d (Ret d).
Proof using. intros Hr. by exists d. Qed.

Lemma handlePing_calm k d buf from : ready k d -> calm k d (handlePing net d buf from).
Proof using HL.
  intros Hr. unfold handlePing.
  destruct (decode_msg KPing buf) as [[]|]; try by apply calm_refl.
  destruct (_ && _); [by apply calm_refl|]. cbv zeta.
  match goal with |- context [sendMsg net d ?a ?t ?p] =>
    destruct (sendMsg_ready k d a t p Hr) as (ok & d' & -> & Hr' & Hq & Hl) end.
  by exists d'.
Qed.

Lemma handleAck_calm k d buf : ready k d -> calm k d (handleAck d buf stamp).
Proof using.
  intros Hr. unfold handleAck.
  destruct (decode_msg KAck buf) as [[]|]; try by apply calm_refl.
  destruct (invokeAckHandler (pings d) a stamp) as [o g]. eexists. split; [done|].
  assert (ready k (with_pings g d)) as Hg by (by destruct Hr; split).
  assert (quiet d (with_pings g d)) as Hq by by split.
  destruct o as [[ch pl]|]; [|by split_and!].
  destruct (trySend_ready k (with_pings g d) ch (Some pl) Hg) as (? & ? & ?). split_and!; [done| |done].
  by etrans.
Qed.

Lemma handleIndirectPing_calm k d msg from :
  ready k d -> calm k d (handleIndirectPing d msg from).
Proof using.
  intros Hr. unfold handleIndirectPing.
  destruct (decode_msg KIndirectPing msg) as [[]|]; try by apply calm_refl.
  eexists. split; [done|]. destruct Hr. split_and!; [by split| |done].
  split; try done. simpl. by apply prefix_app_r.
Qed.

Lemma handleIndirectAck_calm k d msg : ready k d -> calm k d (handleIndirectAck d msg).
Proof using.
  intros Hr. unfold handleIndirectAck.
  destruct (decode_msg KIndirectAck msg) as [[]|]; try by apply calm_refl.
  destruct (invokeIndirectAckHandler (pings d) i) as [o g]. eexists. split; [done|].
  assert (ready k (with_pings g d)) as Hg by (by destruct Hr; split).
  assert (quiet d (with_pings g d)) as Hq by by split.
  destruct o as [ch|]; [|by split_and!].
  destruct (trySend_ready k (with_pings g d) ch None Hg) as (? & ? & ?). split_and!; [done| |done].
  by etrans.
Qed.

(** The handler after messages have been announced. *)
Definition woken (xs : list longRunMsg) (p : consumer) : consumer :=
  match p, xs with Waiting, _ :: _ => Draining | _, _ => p end.

Definition flat (m : list byte) : Prop :=
  forall t b, m = t :: b -> msgType_of_byte t <> Some compoundMsg.

(** [r] is a daemon in order that has the messages [xs] in its queue. *)
Definition takes_in k d (xs : list longRunMsg) (r : outcome Daemon) : Prop :=
  exists d', r = Ret d' /\ ready k d' /\ quiet d d' /\
    queued (mng (longRun d')) ≡ₚ xs ++ queued (mng (longRun d)) /\
    pc (longRun d') = woken xs (pc (longRun d)).

Lemma calm_takes_in k d r : calm k d r -> takes_in k d [] r.
Proof using.
  intros (d' & -> & Hr & Hq & Hl). exists d'. rewrite Hl. split_and!; try done.
  by destruct (pc (longRun d)).
Qed.

Lemma leaf_takes_in k d m from :
  ready (k + len (option_list (longRunOf from m))) d -> 0 <= k -> flat m ->
  takes_in k d (option_list (longRunOf from m)) (handleUdpMsg net 1 d m from stamp).
Proof using HL.
  intros Hr Hk Hm. destruct m as [|t b]; [by apply calm_takes_in, calm_refl; rewrite Z.add_0_r in Hr|].
  cbn [handleUdpMsg]. unfold longRunOf in *. specialize (Hm t b eq_refl).
  destruct (msgType_of_byte t) as [ty|].
  2: { simpl in *. rewrite Z.add_0_r in Hr. by apply calm_takes_in, calm_refl. }
  destruct (isLongRunMsg ty).
  - simpl in *. destruct (queueLongRun_ready k d ty b from Hr Hk) as (d' & -> & Hr' & Hq & Hp & Hpc).
    exists d'. split_and!; try done. rewrite Hpc. by destruct (pc (longRun d)).
  - simpl in *. rewrite Z.add_0_r in Hr. apply calm_takes_in.
    destruct ty; try by apply calm_refl.
    + by apply handlePing_calm.
    + by apply handleIndirectPing_calm.
    + by apply handleAck_calm.
    + by apply handleIndirectAck_calm.
    + done.
Qed.

Lemma leaves_take_in k d ms from :
  ready (k + len (omap (longRunOf from) ms)) d -> 0 <= k -> Forall flat ms ->
  takes_in k d (omap (longRunOf from) ms)
    (ofold (fun d m => handleUdpMsg net 1 d m from stamp) d ms).
Proof using HL.
  revert d. induction ms as [|m ms IH]; intros d Hr Hk Hf.
  { apply calm_takes_in, calm_refl. by rewrite Z.add_0_r in Hr. }
  apply Forall_cons in Hf as [Hm Hf]. cbn [ofold].
  assert (omap (longRunOf from) (m :: ms)
          = option_list (longRunOf from m) ++ omap (longRunOf from) ms) as Ho
    by (simpl; by destruct (longRunOf from m)).
  rewrite Ho in *. rewrite length_app in Hr.
  destruct (leaf_takes_in (k + len (omap (longRunOf from) ms)) d m from)
    as (d1 & -> & Hr1 & Hq1 & Hp1 & Hpc1); [|lia|done|].
  { destruct Hr as [H1 H2 H3 H4 H5 H6]. split; try done. lia. }
  cbn [obind]. destruct (IH d1 Hr1 Hk Hf) as (d2 & -> & Hr2 & Hq2 & Hp2 & Hpc2).
  exists d2. split_and!; [done..|by etrans| |].
  - rewrite Hp2, Hp1, !app_assoc. f_equiv. apply Permutation_app_comm.
  - rewrite Hpc2, Hpc1. destruct (pc (longRun d)), (longRunOf from m); simpl;
      by destruct (omap (longRunOf from) ms).
Qed.

Lemma leaves_stable f f' msg :
  (length msg < f)%nat -> (length msg < f')%nat -> leaves f msg = leaves f' msg.
Proof using.
  revert f' msg. induction f as [|f IH]; intros f' msg H1 H2; [lia|].
  destruct f' as [|f']; [lia|]. cbn [leaves]. destruct msg as [|t body]; [done|].
  case_bool_decide; [|done].
  destruct (unpackCompoundMsg body) as [e|[trunc msgs]] eqn:E; [done|].
  apply unpack_shorter in E. f_equal. apply map_ext_in. intros m Hm%list_elem_of_In.
  rewrite Forall_forall in E. specialize (E m Hm). simpl in *. apply IH; lia.
Qed.

(** Everything a message stands for. *)
Definition parts (msg : list byte) : list (list byte) := leaves (S (length msg)) msg.

Lemma handleUdpMsg_takes_in k d msg from fuel :
  (length msg < fuel)%nat -> 0 <= k ->
  ready (k + len (omap (longRunOf from) (parts msg))) d ->
  takes_in k d (omap (longRunOf from) (parts msg)) (handleUdpMsg net fuel d msg from stamp).
Proof using HL.
  intros Hf Hk Hr. rewrite handleUdpMsg_leaves by done.
  rewrite (leaves_stable fuel (S (length msg)) msg) by lia.
  apply leaves_take_in; [done..|]. apply leaves_flat.
Qed.

(** ** Gossip, from packet to member list *)















Lemma parts_pack_leaves bs :
  (length bs <= maxMsgs)%nat -> Forall fits bs ->
  exists n, parts (packCompoundMsg bs) = concat (map (leaves (S n)) bs).
Proof using.
  intros Hn Hf. unfold parts. set (n := length _). cbn [leaves].
  unfold packCompoundMsg at 1. rewrite bool_decide_eq_true_2 by apply msgType_of_msgByte.
  assert (unpackCompoundMsg (tail (packCompoundMsg bs)) = inr (0, bs)) as Hu.
  { rewrite <- (app_nil_r (tail _)). by apply unpack_pack. }
  assert (n <> 0)%nat as Hn0 by by (unfold n, packCompoundMsg).
  unfold packCompoundMsg in Hu. cbn [tail] in Hu. rewrite Hu.
  destruct n as [|n]; [done|]. by exists n.
Qed.

Lemma leaves_S_flat n b : flat b -> leaves (S n) b = [b].
Proof using.
  intros Hb. cbn [leaves]. destruct b as [|t b]; [done|].
  by rewrite bool_decide_eq_false_2 by by eapply Hb.
Qed.







(** C23: a message from the network, however its compound messages are
    nested, is handled in finitely many steps, with the same result for every
    sufficient amount of fuel: its parts are handled one after the other, in
    order, and none of them is a compound message. While the long-running
    queue has room the packet loop returns whatever the bytes are; the member
    list is not touched, packets already sent stay sent, and the alive,
    suspect, dead and user messages among the parts are what is added to the
    queue. *)
Theorem packet_dispatch d msg from :
  ready (len (omap (longRunOf from) (parts msg))) d ->
  exists d', (forall fuel, (length msg < fuel)%nat -> handleUdpMsg net fuel d msg from stamp = Ret d') /\
    ofold (fun d m => handleUdpMsg net 1 d m from stamp) d (parts msg) = Ret d' /\
    Forall flat (parts msg) /\
    view (ml d') = view (ml d) /\ sent d `prefix_of` sent d' /\
    queued (mng (longRun d')) ≡ₚ omap (longRunOf from) (parts msg) ++ queued (mng (longRun d)).
Proof using HL.
  intros Hr.
  destruct (handleUdpMsg_takes_in 0 d msg from (S (length msg))) as (d' & E & _ & Hq & Hp & _);
    [lia..|done|].
  rewrite handleUdpMsg_leaves in E by lia. exists d'. split_and!; try done.
  - intros fuel Hf. rewrite handleUdpMsg_leaves by done.
    rewrite (leaves_stable fuel (S (length msg)) msg) by lia. exact E.
  - apply leaves_flat.
  - apply core_view, Hq.
  - apply Hq.
Qed.



(** ** A ping and its answer *)

(** The gossip that would travel along is not too much for one compound
    message. *)
Definition modest d : Prop :=
  forall limit msgs q,
    getBroadcasts (mbroadcasts (ml d)) (usrBroadcasts d) (GetNumNodes (ml d)) lenMsgOverhead limit
    = Ret (msgs, q) -> (length msgs < maxMsgs)%nat /\ Forall fits msgs.

Lemma parts_pack_cons b l :
  (length (b :: l) <= maxMsgs)%nat -> Forall fits (b :: l) -> flat b ->
  exists rest, parts (packCompoundMsg (b :: l)) = b :: rest.
Proof using.
  intros Hn Hf Hb. destruct (parts_pack_leaves (b :: l) Hn Hf) as [n ->].
  cbn [map concat]. rewrite leaves_S_flat by done. by eexists.
Qed.

(** A message that is sent arrives, in front of the gossip that travels
    along. *)
Definition arrives (r' : option Keyring) (label : string) (pk b : list byte) : Prop :=
  exists msg rest, unpackPacket r' pk label = Ret (Some msg) /\ parts msg = b :: rest.

Lemma sendMsg_arrives k d addr t p b r' :
  ready k d -> modest d -> encode_msg t p = Some b -> fits b ->
  t <> compoundMsg -> t <> compressMsg ->
  (forall msg, is_Some (maybeCompress (cfg d) msg)) ->
  compatible (cfg d) (keyring d) r' (n_nonce (net (attempts d))) ->
  n_taken (net (attempts d)) = true ->
  exists pk d', sendMsg net d addr t p = Ret (true, d') /\ sent d' = sent d ++ [(addr, pk)] /\
    arrives r' (Cfg.Label (cfg d)) pk b /\
    pings d' = pings d /\ chans d' = chans d /\ receivers d' = receivers d /\ acked d' = acked d.
Proof using HL CL LL AL.
  intros Hr Hm Hb Hfit Ht1 Ht2 Hz Hc Hok. pose proof Hr as [H1 H2 H3 H4 H5 H6].
  assert (flat b /\ plainType b) as [Hfl Hpl].
  { destruct (decode_encode_msg _ _ _ Hb) as (b' & -> & _).
    split; [intros t' b2 [= <- _]|eexists _, _; split; [done|]];
      rewrite msgType_of_msgByte; congruence. }
  unfold sendMsg, encodeAndSendUdp. rewrite Hb.
  destruct (sendMsgPiggyback_Ret (cfg d) (keyring d) (mbroadcasts (ml d)) (usrBroadcasts d)
    (GetNumNodes (ml d)) b H2 H4 H3) as (msg & q & Es & Hq). rewrite Es. cbn [obind].
  assert (plainType msg /\ exists rest, parts msg = b :: rest) as [Hplain [rest Hparts]].
  { unfold sendMsgPiggyback in Es. apply obind_Ret_inv in Es as (lim & _ & Es).
    apply obind_Ret_inv in Es as ([piggy q'] & Eg & Es). apply Hm in Eg as [Hn Hf].
    destruct piggy as [|x piggy]; injection Es as <- <-.
    - split; [done|]. exists []. by apply leaves_S_flat.
    - split; [eexists _, _; split; [reflexivity|]; by rewrite msgType_of_msgByte|].
      apply parts_pack_cons; [simpl in *; lia|by constructor|done]. }
  destruct (pack_unpack (cfg d) (keyring d) r' msg (n_nonce (net (attempts d))) Hplain (Hz msg) Hc)
    as (pk & E1 & E2).
  unfold sendUdp. simpl. unfold cfg. simpl. unfold cfg in E1. rewrite E1. cbn [obind]. rewrite Hok.
  eexists pk, _. split_and!; try reflexivity. by exists msg, rest.
Qed.

(** What handling the first part does is not undone by the others. *)
Lemma handlePacket_first d pk b from label d1 :
  arrives (keyring d) label pk b -> label = Cfg.Label (cfg d) -> flat b ->
  (forall msg, unpackPacket (keyring d) pk label = Ret (Some msg) ->
     ready (len (omap (longRunOf from) (parts msg))) d) ->
  handleUdpMsg net 1 d b from stamp = Ret d1 ->
  exists d2, handlePacket net d pk from stamp = Ret d2 /\ quiet d1 d2.
Proof using HL.
  intros (msg & rest & E1 & Hp) -> Hb Hr E.
  specialize (Hr msg E1). unfold handlePacket. rewrite E1. cbn [obind].
  rewrite handleUdpMsg_leaves by lia. fold (parts msg).
  pose proof (leaves_flat (S (length msg)) msg) as Hflat. fold (parts msg) in Hflat.
  rewrite Hp in Hr, Hflat |- *. apply Forall_cons in Hflat as [_ Hflat].
  assert (omap (longRunOf from) (b :: rest)
          = option_list (longRunOf from b) ++ omap (longRunOf from) rest) as Ho
    by (simpl; by destruct (longRunOf from b)).
  rewrite Ho, length_app in Hr. cbn [ofold].
  destruct (leaf_takes_in (len (omap (longRunOf from) rest)) d b from) as (d1' & E' & Hr1 & _);
    [|lia|done|].
  { destruct Hr as [H1 H2 H3 H4 H5 H6]. split; try done. lia. }
  assert (d1' = d1) as -> by congruence. rewrite E. cbn [obind].
  destruct (leaves_take_in 0 d1 rest from) as (d2 & -> & _ & Hq & _); [done..|].
  by exists d2.
Qed.

(** The receiver of a packet is in order and has room for its messages. *)
Definition room_for d (pk : list byte) (from : UDPAddr) : Prop :=
  forall msg, unpackPacket (keyring d) pk (Cfg.Label (cfg d)) = Ret (Some msg) ->
    ready (len (omap (longRunOf from) (parts msg))) d.

Lemma handlePing_answers k d buf from p b r' :
  ready k d -> modest d -> decode_msg KPing buf = Some (PPing p) ->
  p_ID p = "" \/ p_ID p = selfID (ml d) ->
  let a := mkAck (p_SeqNo p) (if usrPing d then n_payload (net (attempts d)) else []) in
  encode_msg ackMsg (PAck a) = Some b -> fits b ->
  (forall msg, is_Some (maybeCompress (cfg d) msg)) ->
  compatible (cfg d) (keyring d) r' (n_nonce (net (attempts d))) ->
  n_taken (net (attempts d)) = true ->
  exists pk d', handleUdpMsg net 1 d (msgByte pingMsg :: buf) from stamp = Ret d' /\
    sent d' = sent d ++ [(replyAddr (p_SourceIP p) (p_SourcePort p) from, pk)] /\
    arrives r' (Cfg.Label (cfg d)) pk b.
Proof using HL CL LL AL.
  intros Hr Hm Hd Hid a Hb Hfit Hz Hc Hok. cbn [handleUdpMsg]. rewrite msgType_of_msgByte. simpl.
  unfold handlePing. rewrite Hd.
  assert (bool_decide (p_ID p <> "") && bool_decide (p_ID p <> selfID (ml d)) = false) as ->.
  { apply andb_false_iff. destruct Hid; [left|right]; apply bool_decide_eq_false_2; tauto. }
  cbv zeta.
  destruct (sendMsg_arrives k d (replyAddr (p_SourceIP p) (p_SourcePort p) from) ackMsg (PAck a) b r')
    as (pk & d' & E & Hs & Ha & _); try done.
  fold a. rewrite E. by exists pk, d'.
Qed.

Lemma handleAck_delivers d buf from a t ch :
  decode_msg KAck buf = Some (PAck a) ->
  ackHandlers (pings d) !! k_SeqNo a = Some (mkAckHandler t ch) -> ch ∈ receivers d ->
  exists d', handleUdpMsg net 1 d (msgByte ackMsg :: buf) from stamp = Ret d' /\
    acked d' = acked d ++ [(ch, Some (mkTimedAck (k_Payload a) stamp))].
Proof using.
  intros Hd Hh Hch. cbn [handleUdpMsg]. rewrite msgType_of_msgByte. simpl.
  unfold handleAck. rewrite Hd. unfold invokeAckHandler. rewrite Hh.
  eexists. split; [done|]. unfold trySend. by rewrite bool_decide_eq_true_2.
Qed.

Lemma finishPing_true d n t0 ch x : (ch, x) ∈ acked d -> (finishPing d n t0 ch).1 = true.
Proof using.
  intros Hin. unfold finishPing. destruct (List.find _ (acked d)) as [[c o]|] eqn:E; [done|].
  apply list_elem_of_In in Hin. apply (List.find_none _ _ E) in Hin. simpl in Hin.
  by rewrite Z.eqb_refl in Hin.
Qed.

(** The delegate is told of the first acknowledgement. *)
Lemma finishPing_tells d n t0 ch l1 x l2 :
  acked d = l1 ++ (ch, Some x) :: l2 -> ch ∉ l1.*1 -> usrPing d = true ->
  usrPongs (finishPing d n t0 ch).2 = usrPongs d ++ [(node n, timeSub (timestamp x) t0, ta_payload x)].
Proof using.
  intros Ha Hl Hu. unfold finishPing. rewrite Ha, Hu.
  replace (List.find _ (l1 ++ (ch, Some x) :: l2)) with (Some (ch, Some x)); [done|]. clear Ha.
  induction l1 as [|[c o] l1 IH]; simpl.
  - by rewrite Z.eqb_refl.
  - apply not_elem_of_cons in Hl as [Hc Hl]. by rewrite (proj2 (Z.eqb_neq c ch)), (IH Hl).
Qed.

End Facts.

Section TwoNodes.
Context {HO : HeapOps TransmitCapItem} {HL : HeapLaws TransmitCapItem HO}.
Context {CO : Codec} {CL : CodecLaws CO} {L : LZW} {LL : LZWLaws L} {A : AEAD} {AL : AEADLaws A}.

(** [d] can send to a node with the keyring [r']: the next packet is taken by
    the transport, the message and its gossip fit, and [r'] can read it. *)
Record can_send (net : nat -> Net) (d : Daemon) (r' : option Keyring) (t : msgType) (p : payload)
    (b : list byte) : Prop := mkCanSend {
  cs_modest : modest d;
  cs_encoded : encode_msg t p = Some b;
  cs_fits : fits b;
  cs_compress : forall msg, is_Some (maybeCompress (cfg d) msg);
  cs_keys : compatible (cfg d) (keyring d) r' (n_nonce (net (attempts d)));
  cs_taken : n_taken (net (attempts d)) = true
}.

Lemma startPing_sends net k d n localIp localPort r' b :
  ready k d -> GetAdvertiseAddr (cfg d) = Some (localIp, localPort) -> State n = StateAlive ->
  let s := u32 (seqNo (pings d) + 1) in
  can_send net d r' pingMsg (PPing (mkPing s (nid n) localIp localPort)) b ->
  exists pk d' t, startPing net d n = Ret (Some (s, chans d), d') /\
    sent d' = sent d ++ [(Node_UDPAddress (node n), pk)] /\
    arrives r' (Cfg.Label (cfg d)) pk b /\
    ackHandlers (pings d') !! s = Some (mkAckHandler t (chans d)).
Proof using HL CL LL AL.
  intros Hr Hadv Hst s [H1 H2 H3 H4 H5 H6]. unfold startPing. rewrite Hadv. simpl. fold s.
  set (d0 := with_chans _ _).
  rewrite bool_decide_eq_true_2 by done.
  destruct (sendMsg_arrives net k d0 (Node_UDPAddress (node n)) pingMsg
    (PPing (mkPing s (nid n) localIp localPort)) b r')
    as (pk & d' & E & Hs & Ha & Hp & _); try done.
  { destruct Hr. by split. }
  rewrite E. simpl. eexists pk, d', _. split_and!; [done..|]. rewrite Hp. simpl.
  apply lookup_insert_eq.
Qed.

(** C20: a ping is answered. Node [da] pings the node [n], which it holds for
    alive: the call registers a handler and sends one packet. If the packet
    reaches [n] (its daemon is [db], in order and with room for the gossip
    that travels along), [n] answers with a packet to the address the ping
    names. If that answer reaches [da], whatever has happened there meanwhile
    ([da2]), before the handler has timed out and while the ping waits at its
    channel, the ping succeeds, and the user's ping delegate is told of the
    node, the time between sending the ping and reading the answer from the
    socket, and the payload of the answer. *)
Theorem ping_answered net net' da db n localIp localPort fromA fromB b b' stamp stamp' t0 :
  ready 0 da -> ready 0 db -> State n = StateAlive -> nid n = selfID (ml db) ->
  GetAdvertiseAddr (cfg da) = Some (localIp, localPort) ->
  Cfg.Label (cfg da) = Cfg.Label (cfg db) ->
  let s := u32 (seqNo (pings da) + 1) in
  let a := mkAck s (if usrPing db then n_payload (net' (attempts db)) else []) in
  can_send net da (keyring db) pingMsg (PPing (mkPing s (nid n) localIp localPort)) b ->
  can_send net' db (keyring da) ackMsg (PAck a) b' ->
  exists pk da1 ch t, startPing net da n = Ret (Some (s, ch), da1) /\
    sent da1 = sent da ++ [(Node_UDPAddress (node n), pk)] /\
    ackHandlers (pings da1) !! s = Some (mkAckHandler t ch) /\
    (room_for db pk fromA ->
     exists db1 pk' more, handlePacket net' db pk fromA stamp = Ret db1 /\
       sent db1 = sent db ++ (replyAddr localIp localPort fromA, pk') :: more /\
       forall da2 t', keyring da2 = keyring da -> cfg da2 = cfg da -> ch ∈ receivers da2 ->
         ackHandlers (pings da2) !! s = Some (mkAckHandler t' ch) -> room_for da2 pk' fromB ->
         exists da3, handlePacket net da2 pk' fromB stamp' = Ret da3 /\
           (finishPing da3 n t0 ch).1 = true /\
           (usrPing da3 = true -> ch ∉ (acked da2).*1 ->
            usrPongs (finishPing da3 n t0 ch).2
            = usrPongs da3 ++ [(node n, timeSub stamp' t0, k_Payload a)])).
Proof using HL CL LL AL.
  intros Hra Hrb Hst Hid Hadv Hlab s a Hsa Hsb.
  destruct (startPing_sends net 0 da n localIp localPort (keyring db) b Hra Hadv Hst Hsa)
    as (pk & da1 & t & E1 & Hs1 & Harr & Hh). fold s in E1, Hh.
  exists pk, da1, (chans da), t. split_and!; [done..|]. intros Hroom.
  destruct Hsa as [_ Hb _ _ _ _]. destruct Hsb as [K1 K2 K3 K4 K5 K6].
  destruct (decode_encode_msg _ _ _ Hb) as (c & -> & Hd).
  destruct (handlePing_answers net' stamp 0 db c fromA (mkPing s (nid n) localIp localPort) b' (keyring da))
    as (pk' & db0 & E2 & Hs2 & Harr2); try done; [by right|].
  destruct (handlePacket_first net' stamp db pk (msgByte pingMsg :: c) fromA (Cfg.Label (cfg db)) db0)
    as (db1 & E3 & Hq); try done.
  { by rewrite <- Hlab. }
  { intros t' b2 [= <- _]. by rewrite msgType_of_msgByte. }
  destruct (quiet_sent _ _ Hq) as [more Hmore].
  exists db1, pk', more. split_and!; [done| |].
  { rewrite Hmore, Hs2, <- app_assoc. done. }
  intros da2 t' Hk Hcfg Hch Hh2 Hroom2.
  destruct (decode_encode_msg _ _ _ K2) as (c' & -> & Hd').
  destruct (handleAck_delivers net stamp' da2 c' fromB a t' (chans da) Hd' Hh2 Hch) as (da0 & E4 & Hacked).
  destruct (handlePacket_first net stamp' da2 pk' (msgByte ackMsg :: c') fromB (Cfg.Label (cfg db)) da0)
    as (da3 & E5 & Hq3); try done.
  { by rewrite Hk. }
  { by rewrite Hcfg. }
  { intros t2 b2 [= <- _]. by rewrite msgType_of_msgByte. }
  { rewrite <- Hlab, <- Hcfg. exact Hroom2. }
  exists da3. destruct (quiet_acked _ _ Hq3) as [l Hl]. rewrite Hacked, <- app_assoc in Hl. simpl in Hl.
  split_and!; [done| |].
  - eapply finishPing_true. rewrite Hl. apply elem_of_app; right; by left.
  - intros Hu Hnot. by apply (finishPing_tells da3 n t0 (chans da) _ _ _ Hl).
Qed.

(** ** Indirect pings *)

Lemma sendMsg_true net d addr t p d' :
  sendMsg net d addr t p = Ret (true, d') ->
  exists pk, sent d' = sent d ++ [(addr, pk)] /\ pings d' = pings d /\ core (ml d') = core (ml d).
Proof using.
  unfold sendMsg. intros ([b q] & _ & E)%obind_Ret_inv. destruct b as [b|]; [|done].
  unfold sendUdp in E. apply obind_Ret_inv in E as ([pk|] & _ & E); [|done].
  destruct (n_taken _); [|done]. injection E as <-. by exists pk.
Qed.

Lemma askPeers_spec net d ind peers :
  ready 0 d -> exists ok d', askPeers net d ind peers = Ret (ok, d') /\ ready 0 d' /\
    pings d' = pings d /\
    (ok = true -> map fst (sent d')
       = map fst (sent d) ++ map (fun n => Node_UDPAddress (node n)) peers).
Proof using HL.
  revert d. induction peers as [|n peers IH]; intros d Hr; cbn [askPeers].
  { exists true, d. split_and!; [done..|]. by rewrite app_nil_r. }
  destruct (sendMsg_ready net 0 d (Node_UDPAddress (node n)) indirectPingMsg (PIndirectPing ind) Hr)
    as (ok & d1 & E & Hr1 & _ & _). rewrite E. cbn [obind].
  assert (pings d1 = pings d) as Hp.
  { unfold sendMsg in E. apply obind_Ret_inv in E as ([b q] & _ & E).
    destruct b as [b|]; [|by injection E as _ <-].
    unfold sendUdp in E. apply obind_Ret_inv in E as ([pk|] & _ & E); [|by injection E as _ <-].
    destruct (n_taken _); by injection E as _ <-. }
  destruct ok; [|by exists false, d1].
  destruct (IH d1 Hr1) as (ok & d2 & E2 & Hr2 & Hp2 & Hs2). exists ok, d2.
  split_and!; [done..|congruence|]. intros Hok. rewrite (Hs2 Hok).
  destruct (sendMsg_true _ _ _ _ _ _ E) as (pk & -> & _). by rewrite map_app, <- app_assoc.
Qed.

(** An indirect ping asks the right nodes. It returns; when it gets to
    wait, it has sent one packet each to some members, at most
    [NumIndirectChecks], pairwise different, held for alive, none of them the
    node itself or the one in question; and an answer to its number will be
    counted for it. *)
Theorem indirect_ping_asks net d n r :
  ready 0 d -> len (nodes (ml d)) < 2 ^ 32 -> 0 <= Cfg.NumIndirectChecks (cfg d) ->
  exists res d', startIndirectPing net d n r = Ret (res, d') /\ ready 0 d' /\
    forall s ch k, res = inr (s, ch, k) ->
      exists peers, k = len peers /\ 0 < k <= Cfg.NumIndirectChecks (cfg d) /\
        NoDup (map nid peers) /\
        Forall (fun p => view (ml d) !! nid p = Some p /\ State p = StateAlive /\
                         nid p <> selfID (ml d) /\ nid p <> nid n) peers /\
        map fst (sent d') = map fst (sent d) ++ map (fun p => Node_UDPAddress (node p)) peers /\
        (exists t, indirectAckHandlers (pings d') !! s = Some (mkIndirectAckHandler ch ch t)) /\
        nacks (pings d') !! ch = Some 0.
Proof using HL.
  intros Hr H32 Hn. unfold startIndirectPing.
  destruct (GetAdvertiseAddr (cfg d)) as [[localIp localPort]|]; [|by eexists _, _].
  destruct (pickRandomNodes_spec (ml d) r (Cfg.NumIndirectChecks (cfg d)) (helper d n)
    (inv_mem _ (ready_inv _ _ Hr)) H32 Hn) as (peers & -> & Hnd & Hall & Hle).
  cbn [obind]. destruct peers as [|p peers]; [by eexists _, _|].
  destruct (nextSeqNo (pings d)) as [s g]. cbv beta iota zeta.
  match goal with |- context [askPeers net ?d0 ?i ?l] =>
    destruct (askPeers_spec net d0 i l) as (ok & d' & -> & Hr' & Hp & Hs) end.
  { destruct Hr. by split. }
  cbn [obind]. eexists _, d'. split_and!; [done..|]. intros s' ch k Hres.
  destruct ok; [|done]. injection Hres as <- <- <-.
  exists (p :: peers). rewrite Hp. split_and!; try done; [|by apply Hs|..].
  - eapply Forall_impl; [exact Hall|]. intros q [Hq [i Hi]].
    apply elem_of_objects in Hq; [|apply Hr]. unfold helper in Hi.
    apply andb_true_iff in Hi as [Hi H3]. apply andb_true_iff in Hi as [H1 H2].
    apply negb_true_iff, bool_decide_eq_false in H1, H2. by apply bool_decide_eq_true in H3.
  - eexists. simpl. apply lookup_insert_eq.
  - simpl. apply lookup_insert_eq.
Qed.

Lemma handleIndirectAck_delivers net stamp d buf from s ch c t :
  decode_msg KIndirectAck buf = Some (PIndirectAck (mkIndirectAck s true)) ->
  indirectAckHandlers (pings d) !! s = Some (mkIndirectAckHandler ch c t) -> ch ∈ receivers d ->
  exists d', handleUdpMsg net 1 d (msgByte indirectAckMsg :: buf) from stamp = Ret d' /\
    acked d' = acked d ++ [(ch, None)].
Proof using.
  intros Hd Hh Hch. cbn [handleUdpMsg]. rewrite msgType_of_msgByte. simpl.
  unfold handleIndirectAck. rewrite Hd. unfold invokeIndirectAckHandler. simpl. rewrite Hh.
  eexists. split; [done|]. unfold trySend. by rewrite bool_decide_eq_true_2.
Qed.

(** C27: a helper reports back. A node that gets an indirect ping starts one
    ping of its own, of the node the request names; when that has ended it
    sends its outcome to the address the request names. A success that
    reaches the waiting node, whatever has happened there meanwhile, makes
    its indirect ping succeed; a failure adds one to its count of negative
    answers and leaves it waiting. *)
Theorem indirect_ping_relayed net net' da dp ind b pk fromA fromP stamp stamp' :
  encode_msg indirectPingMsg (PIndirectPing ind) = Some b ->
  arrives (keyring dp) (Cfg.Label (cfg dp)) pk b -> room_for dp pk fromA ->
  let addr := replyAddr (i_SourceIP ind) (i_SourcePort ind) fromA in
  let n := mkNodeState (mkNode (i_ID ind) (i_IP ind) (i_Port ind) []) 0 StateAlive 0 in
  let rl := mkRelay addr (i_SeqNo ind) n in
  exists dp1 more, handlePacket net' dp pk fromA stamp = Ret dp1 /\ relays dp1 = relays dp ++ rl :: more /\
    forall dp2 ok b', ready 0 dp2 -> Cfg.Label (cfg dp2) = Cfg.Label (cfg da) ->
      can_send net' dp2 (keyring da) indirectAckMsg
        (PIndirectAck (mkIndirectAck (i_SeqNo ind) ok)) b' ->
      exists dp3 pk', finishRelay net' dp2 rl ok = Ret dp3 /\ sent dp3 = sent dp2 ++ [(addr, pk')] /\
        forall da2 ch c t k, keyring da2 = keyring da -> cfg da2 = cfg da -> ch ∈ receivers da2 ->
          indirectAckHandlers (pings da2) !! i_SeqNo ind = Some (mkIndirectAckHandler ch c t) ->
          room_for da2 pk' fromP ->
          (ok = true -> exists da3, handlePacket net da2 pk' fromP stamp' = Ret da3 /\
             finishIndirectPing da3 ch k = mkIndirectPingResult true 0 0) /\
          (ok = false -> exists da3, handleUdpMsg net 1 da2 b' fromP stamp' = Ret da3 /\
             nacks (pings da3) !! c = (fun v => i32 (v + 1)) <$> nacks (pings da2) !! c /\
             indirectAckHandlers (pings da3) = indirectAckHandlers (pings da2) /\
             acked da3 = acked da2).
Proof using HL CL LL AL.
  intros Eb Harr Hroom addr n rl.
  destruct (decode_encode_msg _ _ _ Eb) as (c & -> & Hd). simpl in Hd.
  destruct (handlePacket_first net' stamp dp pk (msgByte indirectPingMsg :: c) fromA (Cfg.Label (cfg dp))
    (with_relays (relays dp ++ [rl]) dp)) as (dp1 & E1 & Hq); try done.
  { intros t' b2 [= <- _]. by rewrite msgType_of_msgByte. }
  { cbn [handleUdpMsg]. rewrite msgType_of_msgByte. simpl. unfold handleIndirectPing.
    by rewrite Hd. }
  destruct (quiet_relays _ _ Hq) as [more Hmore]. exists dp1, more. split_and!; [done| |].
  { rewrite Hmore. simpl. by rewrite <- app_assoc. }
  intros dp2 ok b' Hr2 Hlab [K1 K2 K3 K4 K5 K6].
  destruct (sendMsg_arrives net' 0 dp2 addr indirectAckMsg
    (PIndirectAck (mkIndirectAck (i_SeqNo ind) ok)) b' (keyring da)) as (pk' & dp3 & E3 & Hs3 & Ha3 & _);
    try done.
  destruct (decode_encode_msg _ _ _ K2) as (c' & -> & Hd'). simpl in Hd'.
  exists dp3, pk'. unfold finishRelay. simpl r_addr. simpl r_SeqNo. rewrite E3.
  split_and!; [done..|]. intros da2 ch cn t k Hk Hcfg Hch Hh Hroom2. split; intros ->.
  - destruct (handleIndirectAck_delivers net stamp' da2 c' fromP (i_SeqNo ind) ch cn t Hd' Hh Hch)
      as (da0 & E4 & Hacked).
    destruct (handlePacket_first net stamp' da2 pk' (msgByte indirectAckMsg :: c') fromP
      (Cfg.Label (cfg da2)) da0) as (da3 & E5 & Hq3); try done.
    { by rewrite Hk, Hcfg, <- Hlab. }
    { intros t2 b2 [= <- _]. by rewrite msgType_of_msgByte. }
    exists da3. split; [done|]. unfold finishIndirectPing.
    destruct (quiet_acked _ _ Hq3) as [l ->]. rewrite Hacked, !existsb_app. simpl.
    by rewrite Z.eqb_refl, orb_true_r.
  - cbn [handleUdpMsg]. rewrite msgType_of_msgByte. simpl. unfold handleIndirectAck.
    rewrite Hd'. unfold invokeIndirectAckHandler. simpl. rewrite Hh. eexists.
    split; [done|]. simpl. split_and!; [|done..]. by rewrite lookup_alter_eq.
Qed.

(** A user message arrives. What [SendUserMsg] sends to a node with the
    same keys and label is queued there by the packet loop and handed to the
    user of that node exactly as it was given, by the handler of long-running
    messages, which then waits again; the member lists of both stay as they
    are. While the user does not take the message the handler does not
    return, and handles no gossip either. *)
Theorem user_message_delivered net net' da db addr from stamp msg e1 e2 e3 :
  is_Some (maybeCompress (cfg da) (userPacket msg)) ->
  compatible (cfg da) (keyring da) (keyring db) (n_nonce (net (attempts da))) ->
  n_taken (net (attempts da)) = true -> Cfg.Label (cfg da) = Cfg.Label (cfg db) ->
  usrMsgCh db = true -> locked (mng (longRun db)) = false ->
  queued (mng (longRun db)) = [] -> 0 < maxQueueDepth (mng (longRun db)) ->
  pc (longRun db) = Waiting ->
  exists pk da' db1 db2, SendUserMsg net da addr msg = Ret (true, da') /\
    sent da' = sent da ++ [(addr, pk)] /\ ml da' = ml da /\
    handlePacket net' db pk from stamp = Ret db1 /\
    ofold (fun d e => longRunStep d true e) db1 [e1; e2; e3] = Ret db2 /\
    usrMsgs db2 = usrMsgs db ++ [msg] /\ ml db2 = ml db /\
    pc (longRun db2) = Waiting /\ queued (mng (longRun db2)) = [] /\
    longRunStep db1 false e1 = Hang.
Proof using CL LL AL.
  intros Hz Hc Hok Hlab Hch Hl Hq Hd Hpc.
  destruct (pack_unpack (cfg da) (keyring da) (keyring db) (userPacket msg)
    (n_nonce (net (attempts da)))) as (pk & E1 & E2); [|done..|].
  { eexists _, _. split; [reflexivity|]. by rewrite msgType_of_msgByte. }
  assert (exists db1, handlePacket net' db pk from stamp = Ret db1 /\
    db1 = with_longRun (mkLR (mkManager [] [mkLongRunMsg userMsg msg from]
      (maxQueueDepth (mng (longRun db))) false) Draining (handled (longRun db))) db)
    as (db1 & E3 & Hdb1).
  { unfold handlePacket. rewrite <- Hlab, E2. cbn [obind handleUdpMsg userPacket].
    rewrite msgType_of_msgByte. cbn [isLongRunMsg]. apply app_eq_nil in Hq as [Hq1 Hq2].
    eexists. split; [|reflexivity]. unfold queueLongRun, lr_step, queueLongRunMsg. simpl.
    rewrite Hl, Hpc, Hq1, Hq2. by rewrite (proj2 (Z.leb_gt _ 0)). }
  exists pk. unfold SendUserMsg, sendUdp. rewrite E1. cbn [obind]. rewrite Hok.
  eexists _, db1, _. split_and!; [reflexivity..|exact E3| | | | | |]; subst db1;
    cbn; unfold handleUser; simpl; rewrite ?Hch; reflexivity.
Qed.

(** An acknowledgement that comes too early is lost. If it is handled
    before the goroutine of the ping has got to its channel, the handler is
    removed and nobody receives the acknowledgement; once the ping waits, no
    acknowledgement can reach it any more and it fails. *)
Theorem early_ack_lost (d : Daemon) buf buf' a a' t ch n t0 t1 t2 :
  decode_msg KAck buf = Some (PAck a) -> decode_msg KAck buf' = Some (PAck a') ->
  k_SeqNo a' = k_SeqNo a ->
  ackHandlers (pings d) !! k_SeqNo a = Some (mkAckHandler t ch) ->
  ch ∉ receivers d -> (finishPing d n t0 ch).1 = false ->
  exists d1 d2, handleAck d buf t1 = Ret d1 /\ handleAck (awaitPing d1 ch) buf' t2 = Ret d2 /\
    (finishPing d2 n t0 ch).1 = false.
Proof using.
  intros Hd Hd' Hs Hh Hch Hf. unfold handleAck at 1. rewrite Hd.
  unfold invokeAckHandler. rewrite Hh. unfold trySend.
  rewrite bool_decide_eq_false_2 by done. eexists _, _. split; [done|].
  unfold handleAck. rewrite Hd'. unfold invokeAckHandler. simpl. rewrite Hs, lookup_delete_eq.
  split; [done|]. unfold finishPing in Hf |- *. simpl. by destruct (List.find _ (acked d)) as [[]|].
Qed.

End TwoNodes.

(** ** Examples *)

Section Witnesses.
#[local] Existing Instance item_heap.
#[local] Existing Instance item_heap_laws.
#[local] Existing Instance bit_codec.
#[local] Existing Instance bit_codec_laws.
#[local] Existing Instance go_lzw.
#[local] Existing Instance go_lzw_laws.
#[local] Existing Instance aes_gcm.
#[local] Existing Instance aes_gcm_laws.

Definition daemon_of (c : Cfg.Config) : Daemon :=
  mkDaemon (newMemberlist c true) None None false false [] (lr_init 8) newPingManager 0 ∅ [] [] [] 0 [].
Definition dA : Daemon := daemon_of exCfg.
Definition dB : Daemon := daemon_of DefaultLANConfig.
Definition netW (_ : nat) : Net := mkNet None true [].
Definition addrA : UDPAddr := mkUDPAddr [x0a; x00; x00; x01] 7946.
Definition addrB : UDPAddr := mkUDPAddr [x0a; x00; x00; x02] 7946.

Lemma daemon_ready k c : Cfg.EncryptionVersion c = 0 -> k <= 8 -> ready k (daemon_of c).
Proof.
  intros Hv Hk. split; simpl; [apply inv_newMemberlist|apply NewBroadcastQueue_ok|exact Hv| | |lia].
  - by intros get o l.
  - split; [done|]. split; constructor.
Qed.

Lemma daemon_modest c : modest (daemon_of c).
Proof.
  intros limit msgs q. unfold getBroadcasts. destruct (limit <=? lenMsgOverhead).
  - intros [= <- _]. split; [unfold maxMsgs; simpl; lia|constructor].
  - simpl. unfold GetMessages. simpl. rewrite orb_true_r. intros [= <- _].
    split; [unfold maxMsgs; simpl; lia|constructor].
Qed.

Lemma lzw_compresses c msg : is_Some (maybeCompress c msg).
Proof.
  unfold maybeCompress. destruct (Cfg.EnableCompression c); [|eauto].
  unfold compress, encode_msg. simpl. eauto.
Qed.

Definition als : list payload := [PAlive al2; PSuspect su2].
Definition alsB : list (list byte) := omap (fun p => gossipType p ≫= fun t => encode_msg t p) als.


Lemma packet_dispatch_witness :
  exists d', handleUdpMsg netW 1000 dB (packCompoundMsg alsB) addrA 0 = Ret d' /\
    view (ml d') = view (ml dB).
Proof.
  destruct (packet_dispatch netW 0 dB (packCompoundMsg alsB) addrA) as (d' & H & _ & _ & Hv & _).
  - apply daemon_ready; [reflexivity|]. vm_compute. discriminate.
  - exists d'. split; [|exact Hv]. apply H. apply Nat.ltb_lt. vm_compute. reflexivity.
Defined.


Definition dU : Daemon :=
  mkDaemon (newMemberlist DefaultLANConfig true) None None false true [] (lr_init 8) newPingManager
    0 ∅ [] [] [] 0 [].

Lemma user_message_delivered_witness :
  exists pk da' db1 db2, SendUserMsg netW dA addrB [x68; x69] = Ret (true, da') /\
    sent da' = [(addrB, pk)] /\ handlePacket netW dU pk addrA 0 = Ret db1 /\
    ofold (fun d e => longRunStep d true e) db1 [at_ 1; at_ 2; at_ 3] = Ret db2 /\
    usrMsgs db2 = [[x68; x69]].
Proof.
  destruct (user_message_delivered netW netW dA dU addrB addrA 0 [x68; x69] (at_ 1) (at_ 2) (at_ 3))
    as (pk & da' & db1 & db2 & E1 & E2 & _ & E3 & E4 & E5 & _); try reflexivity.
  - apply lzw_compresses.
  - left. split; reflexivity.
  - exists pk, da', db1, db2. split; [exact E1|]. split; [exact E2|]. split; [exact E3|].
    split; [exact E4|exact E5].
Defined.

Definition nB : nodeState := mkNodeState (mkNode "" [x0a; x00; x00; x02] 7946 []) 1 StateAlive 0.

(** The packet of the ping, and the room it needs. *)
Definition pkA : list byte :=
  match startPing netW dA nB with Ret (_, d) => default [] (snd <$> last (sent d)) | _ => [] end.
Definition msgA : list byte :=
  match unpackPacket None pkA "" with Ret (Some m) => m | _ => [] end.

Lemma room_A : room_for dB pkA addrA.
Proof.
  intros msg E.
  assert (msg = msgA) as -> by (unfold msgA; simpl in E; by rewrite E).
  apply daemon_ready; [reflexivity|]. vm_compute. discriminate.
Qed.

(** The answer, and the node that waits for it. *)
Definition pkB : list byte :=
  match handlePacket netW dB pkA addrA 0 with Ret d => default [] (snd <$> head (sent d)) | _ => [] end.
Definition msgB : list byte :=
  match unpackPacket None pkB "" with Ret (Some m) => m | _ => [] end.
Definition dPing : Daemon :=
  match startPing netW dA nB with Ret (_, d) => awaitPing d (chans dA) | _ => dA end.

Lemma room_B : room_for dPing pkB addrB.
Proof.
  intros msg E. assert (unpackPacket None pkB "" = Ret (Some msg)) as E' by exact E.
  assert (msg = msgB) as -> by (unfold msgB; by rewrite E').
  assert (ml dPing = newMemberlist exCfg true) as Hml by (vm_compute; reflexivity).
  split; rewrite ?Hml.
  - apply inv_newMemberlist.
  - apply NewBroadcastQueue_ok.
  - vm_compute. reflexivity.
  - intros get o l H. vm_compute in H. discriminate H.
  - split; [reflexivity|]. split; vm_compute; constructor.
  - vm_compute. discriminate.
Qed.

Lemma ping_answered_witness :
  exists da1 db1 da3, startPing netW dA nB = Ret (Some (1, chans dA), da1) /\
    sent da1 = [(Node_UDPAddress (node nB), pkA)] /\
    handlePacket netW dB pkA addrA 0 = Ret db1 /\ (exists a more, sent db1 = (a, pkB) :: more) /\
    handlePacket netW (awaitPing da1 (chans dA)) pkB addrB 7 = Ret da3 /\
    (finishPing da3 nB 5 (chans dA)).1 = true.
Proof.
  destruct (GetAdvertiseAddr (cfg dA)) as [[ipA portA]|] eqn:Ea;
    [|vm_compute in Ea; discriminate Ea].
  destruct (encode_msg pingMsg (PPing (mkPing 1 "" ipA portA))) as [b|] eqn:Eb;
    [|vm_compute in Ea; injection Ea as <- <-; vm_compute in Eb; discriminate Eb].
  destruct (encode_msg ackMsg (PAck (mkAck 1 []))) as [b'|] eqn:Eb';
    [|vm_compute in Eb'; discriminate Eb'].
  destruct (ping_answered netW netW dA dB nB ipA portA addrA addrB b b' 0 7 5)
    as (pk & da1 & ch & t & E1 & E2 & Hh & H).
  - apply daemon_ready; [reflexivity|lia].
  - apply daemon_ready; [reflexivity|lia].
  - reflexivity.
  - reflexivity.
  - exact Ea.
  - reflexivity.
  - split; [apply daemon_modest|exact Eb| |apply lzw_compresses|left; split; reflexivity|reflexivity].
    vm_compute in Ea. injection Ea as <- <-. vm_compute in Eb. injection Eb as <-. vm_compute. reflexivity.
  - split; [apply daemon_modest|exact Eb'| |apply lzw_compresses|left; split; reflexivity|reflexivity].
    vm_compute in Eb'. injection Eb' as <-. vm_compute. reflexivity.
  - assert (pk = pkA) as -> by (unfold pkA; rewrite E1, E2; reflexivity).
    destruct (H room_A) as (db1 & pk' & more & E3 & E4 & Hans).
    assert (pk' = pkB) as -> by (unfold pkB; rewrite E3, E4; reflexivity).
    assert (ch = chans dA) as ->.
    { pose proof E1 as E. vm_compute in E. injection E as <- _. vm_compute. reflexivity. }
    assert (awaitPing da1 (chans dA) = dPing) as Hd by (unfold dPing; rewrite E1; reflexivity).
    destruct (Hans dPing t) as (da3 & E5 & E6 & _).
    + vm_compute. reflexivity.
    + vm_compute. reflexivity.
    + apply (bool_decide_unpack _). vm_compute. exact I.
    + rewrite <- Hd. exact Hh.
    + exact room_B.
    + exists da1, db1, da3. split; [exact E1|]. split; [exact E2|]. split; [exact E3|].
      split; [exists (replyAddr ipA portA addrA), more; exact E4|]. rewrite Hd. split; [exact E5|exact E6].
Defined.

(** [n1] with its member list, which asks [n2] about a third node. *)
Definition dA2 : Daemon := with_ml w2 dA.
Definition n3 : nodeState := mkNodeState (mkNode "n3" [x0a; x00; x00; x03] 7946 []) 1 StateAlive 0.

Lemma dA2_ready : ready 0 dA2.
Proof.
  split.
  - exact (proj1 (reachable_good _ _ _ reach_w2)).
  - exact w2_queue_ok.
  - vm_compute. reflexivity.
  - intros get o l H. discriminate H.
  - split; [reflexivity|]. split; constructor.
  - vm_compute. discriminate.
Qed.

Lemma indirect_ping_asks_witness :
  exists res d', startIndirectPing netW dA2 n3 (fun i => Z.of_nat i) = Ret (res, d') /\ ready 0 d'.
Proof.
  destruct (indirect_ping_asks netW dA2 n3 (fun i => Z.of_nat i)) as (res & d' & E & Hr & _).
  - exact dA2_ready.
  - vm_compute. reflexivity.
  - vm_compute. discriminate.
  - exists res, d'. split; [exact E|exact Hr].
Defined.

(** The request of [n1], as it reaches a helper. *)
Definition ind3 : indirectPing := mkIndirectPing 1 "n3" [x0a; x00; x00; x03] 7946 [] 0.
Definition ind3B : list byte := default [] (encode_msg indirectPingMsg (PIndirectPing ind3)).
Definition pkI : list byte :=
  match packUdp exCfg None ind3B None with Ret (Some pk) => pk | _ => [] end.

Lemma room_I : room_for dB pkI addrA.
Proof.
  intros msg E. assert (msg = ind3B) as ->.
  { assert (unpackPacket None pkI "" = Ret (Some ind3B)) as E' by (vm_compute; reflexivity).
    simpl in E. rewrite E' in E. by injection E. }
  apply daemon_ready; [reflexivity|]. vm_compute. discriminate.
Qed.

Lemma indirect_ping_relayed_witness :
  let rl := mkRelay addrA 1 (mkNodeState (mkNode "n3" [x0a; x00; x00; x03] 7946 []) 0 StateAlive 0) in
  exists dp1 more dp3 pk', handlePacket netW dB pkI addrA 0 = Ret dp1 /\ relays dp1 = rl :: more /\
    finishRelay netW dB rl true = Ret dp3 /\ sent dp3 = [(addrA, pk')].
Proof.
  intros rl.
  destruct (indirect_ping_relayed netW netW dA dB ind3 ind3B pkI addrA addrB 0 1)
    as (dp1 & more & E1 & E2 & H).
  - vm_compute. reflexivity.
  - exists ind3B, []. split; vm_compute; reflexivity.
  - exact room_I.
  - destruct (encode_msg indirectAckMsg (PIndirectAck (mkIndirectAck 1 true))) as [b'|] eqn:Eb;
      [|vm_compute in Eb; discriminate Eb].
    destruct (H dB true b') as (dp3 & pk' & E3 & E4 & _).
    + apply daemon_ready; [reflexivity|lia].
    + reflexivity.
    + split; [apply daemon_modest|exact Eb| |apply lzw_compresses|left; split; reflexivity|reflexivity].
      vm_compute in Eb. injection Eb as <-. vm_compute. reflexivity.
    + exists dp1, more, dp3, pk'. split; [exact E1|]. split; [exact E2|]. split; [exact E3|exact E4].
Defined.

Lemma early_ack_lost_witness :
  exists b d1 d2, encode_msg ackMsg (PAck (mkAck 1 [])) = Some (msgByte ackMsg :: b) /\
    let d := with_pings (setAckHandler newPingManager 1 0) dA in
    handleAck d b 1 = Ret d1 /\ handleAck (awaitPing d1 0) b 2 = Ret d2 /\ (finishPing d2 nB 0 0).1 = false.
Proof.
  destruct (encode_msg ackMsg (PAck (mkAck 1 []))) as [b0|] eqn:Eb;
    [|vm_compute in Eb; discriminate Eb].
  destruct (decode_encode_msg _ _ _ Eb) as (b & -> & Hd).
  destruct (early_ack_lost (with_pings (setAckHandler newPingManager 1 0) dA) b b (mkAck 1 [])
    (mkAck 1 []) 0 0 nB 0 1 2 Hd Hd eq_refl) as (d1 & d2 & E1 & E2 & E3).
  - reflexivity.
  - set_solver.
  - reflexivity.
  - exists b, d1, d2. split; [reflexivity|]. split; [exact E1|]. split; [exact E2|exact E3].
Defined.

End Witnesses.
