(* ===== verification/Exchange.v ===== *)
(** * Streams between nodes ([handleTcpConn] and its handlers of
    [net_handlers.go], [pushPullWithNode] of [pushpull.go], [TcpPing] of
    [ping.go], [Join] of [memberlist.go])

    A connection is one request and one response. The client's side takes
    the peer as a function from the bytes of the request to those of the
    response, [None] when nobody accepts the connection; the server's side
    gives the bytes it writes. Deadlines are not modelled: a connection that
    breaks is one whose response is cut short. *)

From S2P Require Import Prelude GoMath Types Interfaces Awareness Keyring Suspicion Broadcast BroadcastFacts Config NetAddr IPText Resolve Compound Spec State StateFacts Maintenance MaintenanceFacts Lifecycle System Samples PushPull LongRun Encrypt AesGcm Lzw Transport Ping Handlers HandlersFacts.
From Stdlib Require Import Strings.Byte.

Section Exchange.
Context {HO : HeapOps TransmitCapItem} {CO : Codec} {L : LZW} {A : AEAD}.
Context (net : nat -> Net).
Implicit Types d : Daemon.

(** [sendTcp]: the bytes written, [None] for an error. *)
Definition sendTcp d (msg : list byte) : outcome (option (list byte) * Daemon) :=
  let k := net (attempts d) in
  let! pk := packTcp (cfg d) (keyring d) msg (Cfg.Label (cfg d)) (n_nonce k) in
  let d := with_sent (S (attempts d)) (sent d) d in
  match pk with
  | None => Ret (None, d)
  | Some pk => Ret (if n_taken k then Some pk else None, d)
  end.

(** ** The server *)

(** [us] is what the user's state delegate gives, [None] without one. *)
Definition sendLocalState d (us : option (list byte)) : outcome (option (list byte) * Daemon) :=
  let! ls := localState (ml d) in
  match encodePushPullMsg ls (default [] us) with
  | None => Ret (None, d)
  | Some msg => sendTcp d msg
  end.

(** What a connection leaves behind: the bytes written, the state handed to
    the user's delegate, and the daemon. *)
Record served := mkServed {
  written : list byte; mergedUser : option (list byte); after : Daemon
}.

(** [npp] is the number of push/pulls in progress when it starts. *)
Definition handlePushPull d (npp : Z) (body : list byte) (us : option (list byte))
    (env : nat -> Env) : outcome served :=
  if u32 (Cfg.MaxPushPulls (cfg d)) <=? u32 (npp + 1) then Ret (mkServed [] None d)
  else
    let! r := readRemoteState body in
    match r with
    | None => Ret (mkServed [] None d)
    | Some (remoteNodes, remoteUserState) =>
        let! (o, d) := sendLocalState d us in
        match o with
        | None => Ret (mkServed [] None d)
        | Some resp =>
            let! m := mergeState (ml d) remoteNodes env in
            Ret (mkServed resp (match us with Some _ => Some remoteUserState | None => None end)
                   (with_ml m d))
        end
    end.

Definition handlePingTcp d (body : list byte) : outcome served :=
  match dec KPing body with
  | Some (PPing p, _) =>
      if bool_decide (p_ID p <> "") && bool_decide (p_ID p <> selfID (ml d))
      then Ret (mkServed [] None d)
      else
        match encode_msg ackMsg (PAck (mkAck (p_SeqNo p) [])) with
        | None => Ret (mkServed [] None d)
        | Some out => let! (o, d) := sendTcp d out in Ret (mkServed (default [] o) None d)
        end
  | _ => Ret (mkServed [] None d)
  end.

(** [err] is the text of the error of [unpackStream] if there is one, [None]
    if it is [io.EOF]. *)
Definition handleTcpConn d (req : list byte) (err : option string) (npp : Z)
    (us : option (list byte)) (env : nat -> Env) : outcome served :=
  let! u := unpackStream (keyring d) req (Cfg.Label (cfg d)) in
  match u with
  | None =>
      match err with
      | None => Ret (mkServed [] None d)
      | Some e =>
          match encode_msg errMsg (PErrResp e) with
          | None => Ret (mkServed [] None d)
          | Some msg => let! (o, d) := sendTcp d msg in Ret (mkServed (default [] o) None d)
          end
      end
  | Some (t, body) =>
      match msgType_of_byte t with
      | Some pushPullMsg => handlePushPull d npp body us env
      | Some pingMsg => handlePingTcp d body
      | _ => Ret (mkServed [] None d)
      end
  end.

(** ** The client *)

Definition peer := option (list byte -> list byte).

(** [sendAndReceiveState]: [None] for an error. *)
Definition sendAndReceiveState d (p : peer) (us : option (list byte))
    : outcome (option (list stateToMerge * list byte) * Daemon) :=
  match p with
  | None => Ret (None, d)
  | Some answer =>
      let! (o, d) := sendLocalState d us in
      match o with
      | None => Ret (None, d)
      | Some req =>
          let! u := unpackStream (keyring d) (answer req) (Cfg.Label (cfg d)) in
          match u with
          | None => Ret (None, d)
          | Some (t, body) =>
              if bool_decide (msgType_of_byte t = Some pushPullMsg)
              then let! r := readRemoteState body in Ret (r, d)
              else Ret (None, d)   (* an error response, or another type *)
          end
      end
  end.

(** The flag is false when it returns an error. *)
Definition pushPullWithNode d (p : peer) (us : option (list byte)) (env : nat -> Env)
    : outcome (bool * option (list byte) * Daemon) :=
  let! (r, d) := sendAndReceiveState d p us in
  match r with
  | None => Ret (false, None, d)
  | Some (remoteNodes, remoteUserState) =>
      let! m := mergeState (ml d) remoteNodes env in
      Ret (true, match us with Some _ => Some remoteUserState | None => None end, with_ml m d)
  end.

(** [pushPull]: a random node that is alive, other than this one. [dial] is
    the peer that answers at an address. *)
Definition pushPullWith (m : Memberlist) (n : nodeState) : bool :=
  bool_decide (nid n <> selfID m) && bool_decide (State n = StateAlive).

Definition pushPull d (r : nat -> Z) (dial : chars -> peer) (us : option (list byte))
    (env : nat -> Env) : outcome (option (list byte) * Daemon) :=
  let! ns := pickRandomNodes (ml d) r 1 (fun _ => pushPullWith (ml d)) in
  match ns with
  | [] => Ret (None, d)
  | n :: _ =>
      let addr := UDPAddrString (Node_UDPAddress (node n)) in
      let! (_, merged, d) := pushPullWithNode d (dial addr) us env in Ret (merged, d)
  end.

(** The addresses one argument of [Join] resolves to: the numbers of nodes
    contacted and of failures. The environment is asked for the answers by
    the number of addresses and arguments that are still to come. *)
Fixpoint joinAddrs d (addrs : list ip) (port : Z) (dial : nat -> chars -> peer)
    (us : option (list byte)) (env : nat -> nat -> Env) : outcome (nat * nat * Daemon) :=
  match addrs with
  | [] => Ret (0%nat, 0%nat, d)
  | addr :: addrs =>
      let nodeAddr := joinHostPort (IPString addr) port in
      let! (ok, _, d) := pushPullWithNode d (dial (length addrs) nodeAddr) us (env (length addrs)) in
      let! (succ, errs, d) := joinAddrs d addrs port dial us env in
      Ret (if ok : bool then (S succ, errs, d) else (succ, S errs, d))
  end.

Fixpoint joinHosts d (dns : nat -> DNS) (existing : list chars) (dial : nat -> nat -> chars -> peer)
    (us : option (list byte)) (env : nat -> nat -> nat -> Env) : outcome (nat * nat * Daemon) :=
  match existing with
  | [] => Ret (0%nat, 0%nat, d)
  | host :: existing =>
      match ResolveAddr (dns (length existing)) host (Cfg.DNSConfigPath (cfg d)) with
      | None =>
          let! (succ, errs, d) := joinHosts d dns existing dial us env in Ret (succ, S errs, d)
      | Some (addrs, port) =>
          let port := if port =? 0 then u16 (Cfg.BindPort (cfg d)) else port in
          let! (s1, e1, d) := joinAddrs d addrs port (dial (length existing)) us (env (length existing)) in
          let! (s2, e2, d) := joinHosts d dns existing dial us env in
          Ret ((s1 + s2)%nat, (e1 + e2)%nat, d)
      end
  end.

(** [Join]: the number of nodes contacted, and whether it returns an error. *)
Definition Join d (dns : nat -> DNS) (existing : list chars) (dial : nat -> nat -> chars -> peer)
    (us : option (list byte)) (env : nat -> nat -> nat -> Env) : outcome (nat * bool * Daemon) :=
  let! (numSuccess, errs, d) := joinHosts d dns existing dial us env in
  Ret (numSuccess, negb (0 <? numSuccess)%nat && (0 <? errs)%nat, d).

(** [TcpPing]. *)
Definition TcpPing d (n : nodeState) (p : peer) : outcome (bool * Daemon) :=
  match GetAdvertiseAddr (cfg d) with
  | None => Ret (false, d)
  | Some (localIp, localPort) =>
      let '(s, g) := nextSeqNo (pings d) in
      let d := with_pings g d in
      match p with
      | None => Ret (false, d)
      | Some answer =>
          match encode_msg pingMsg (PPing (mkPing s (nid n) localIp localPort)) with
          | None => Ret (false, d)
          | Some encoded =>
              let! (o, d) := sendTcp d encoded in
              match o with
              | None => Ret (false, d)
              | Some req =>
                  let! u := unpackStream (keyring d) (answer req) (Cfg.Label (cfg d)) in
                  match u with
                  | Some (t, body) =>
                      if bool_decide (msgType_of_byte t = Some ackMsg) then
                        match dec KAck body with
                        | Some (PAck a, _) => Ret (k_SeqNo a =? s, d)
                        | _ => Ret (false, d)
                        end
                      else Ret (false, d)
                  | None => Ret (false, d)
                  end
              end
          end
      end
  end.

End Exchange.
