(* ===== verification/ExchangeFacts.v ===== *)
(** * What an exchange of states achieves

    Two nodes that complete a push/pull know, both of them, every node that
    either held for alive; a ping over a stream is answered; [Join] reports
    an error exactly when there was somebody to contact and nobody could be
    reached. *)

From S2P Require Import Prelude GoMath Types Interfaces Awareness Keyring Suspicion Broadcast BroadcastFacts Config NetAddr IPText Resolve Compound Spec State StateFacts Maintenance MaintenanceFacts Lifecycle System Samples PushPull LongRun Encrypt AesGcm Lzw Transport Ping Handlers HandlersFacts Exchange.
From Stdlib Require Import Strings.Byte.

Section Facts.
Context {HO : HeapOps TransmitCapItem}.
Context {CO : Codec} {CL : CodecLaws CO} {L : LZW} {LL : LZWLaws L} {A : AEAD} {AL : AEADLaws A}.
Implicit Types d : Daemon.

(** [d] can send [msg] over a stream to a node with the keyring [r']. *)
Definition can_stream (net : nat -> Net) d (r' : option Keyring) (msg : list byte) : Prop :=
  exists z, maybeCompress (cfg d) msg = Some z /\ n_taken (net (attempts d)) = true /\
    ((EncryptionEnabled (keyring d) = false /\ EncryptionEnabled r' = false) \/
     exists k n, share (keyring d) r' k /\ Cfg.EncryptionVersion (cfg d) = 0 /\
       n_nonce (net (attempts d)) = Some n /\ len n = nonceSize /\ len z + 29 <= maxPushSize /\
       forall aad p, no_forgery (keysOf r') n (Seal k n p aad) aad p).

Lemma sendTcp_arrives net d r' t body :
  msgType_of_byte t <> Some compressMsg -> msgType_of_byte t <> Some encryptMsg ->
  can_stream net d r' (t :: body) ->
  exists pk, sendTcp net d (t :: body) = Ret (Some pk, with_sent (S (attempts d)) (sent d) d) /\
    unpackStream r' pk (Cfg.Label (cfg d)) = Ret (Some (t, body)).
Proof using CL LL AL.
  intros Ht He (z & Hz & Hok & Hkeys). unfold sendTcp. rewrite Hok.
  destruct (stream_read_back (cfg d) (keyring d) r' t body (n_nonce (net (attempts d)))
    (Cfg.Label (cfg d)) [] Ht He z Hz) as [Hplain Hcrypt].
  destruct Hkeys as [[H1 H2]|(k & n & H1 & H2 & H3 & H4 & H5 & H6)].
  - destruct (Hplain H1 H2) as (pk & -> & E). exists pk. split; [done|].
    rewrite app_nil_r in E. rewrite E. by destruct (bool_decide _); rewrite app_nil_r.
  - destruct (Hcrypt k n H1 H2 H3 H4 H5 H6) as (pk & -> & E). exists pk. split; [done|].
    by rewrite app_nil_r in E.
Qed.

(** No entry of one node's list is too much for another. *)
Definition acceptable (m m' : Memberlist) : Prop :=
  forall n, view m !! selfID m' = Some n -> Lives n < 2 ^ 32 - 1.

Lemma localState_fine m m' ls :
  inv m -> acceptable m m' -> localState m = Ret ls -> Forall (fine_state m') ls.
Proof using.
  intros Hi Ha E. destruct (localState_spec m (inv_mem _ Hi)) as (ls' & E' & Hls).
  assert (ls' = ls) as -> by congruence. apply Forall_forall. intros r (n & Hn & ->)%Hls. split.
  - by apply (proj2 (inv_lives _ Hi) (nid n)).
  - simpl. intros Hx. apply Ha. by rewrite <- Hx.
Qed.

(** Each node that [m] holds for alive, and whose address the filter of the
    configuration [c] allows, is known to [m'] at the same number or a later
    one. Nothing is said of nodes that [m] suspects or holds for dead: a node
    that does not know them ignores such entries. *)
Definition learns_from (m : Memberlist) (c : Cfg.Config) (m' : Memberlist) : Prop :=
  forall x n, view m !! x = Some n -> State n = StateAlive ->
    IPAllowed c (IP (node n)) = true -> knows m' x (Lives n).

Lemma merge_localState m m' ls env :
  inv m -> inv m' -> left m' = false -> acceptable m m' -> localState m = Ret ls ->
  exists m2, mergeState m' ls env = Ret m2 /\ inv m2 /\ advances (view m') (view m2) /\
    learns_from m (config m') m2.
Proof using.
  intros Hi Hi' Hl Ha E.
  destruct (mergeState_summary m' ls env Hi' Hl (localState_fine m m' ls Hi Ha E))
    as (m2 & E2 & Hi2 & Hadv & Hk).
  exists m2. split_and!; [done..|]. intros x n Hx Hst Hip.
  destruct (localState_spec m (inv_mem _ Hi)) as (ls' & E' & Hls).
  assert (ls' = ls) as -> by congruence.
  assert (nid n = x) as Hid.
  { rewrite getNode_view in Hx. destruct (getNode m x) as [[p n']|] eqn:Eg; [|done].
    injection Hx as ->. by eapply getNode_nid; [apply Hi|]. }
  apply (Hk (toMerge n)) in Hip; [by rewrite <- Hid| |].
  - apply Hls. exists n. by rewrite Hid.
  - simpl. by rewrite Hst.
Qed.

(** A node's state, as it is sent and as the receiver reads it. *)
Lemma sendLocalState_arrives net d r' us ls msg :
  localState (ml d) = Ret ls -> encodePushPullMsg ls (default [] us) = Some msg ->
  can_stream net d r' msg ->
  exists pk body, sendLocalState net d us = Ret (Some pk, with_sent (S (attempts d)) (sent d) d) /\
    unpackStream r' pk (Cfg.Label (cfg d)) = Ret (Some (msgByte pushPullMsg, body)) /\
    readRemoteState body = Ret (Some (ls, default [] us)).
Proof using CL LL AL.
  intros El Em Hs. destruct (read_encode ls (default [] us) msg Em) as (body & -> & Hr).
  destruct (sendTcp_arrives net d r' (msgByte pushPullMsg) body) as (pk & E & Hu);
    [by rewrite msgType_of_msgByte..|done|].
  exists pk, body. unfold sendLocalState. rewrite El. cbn [obind]. rewrite Em, E. done.
Qed.

(** What the user's delegate is given. *)
Definition userState (us us' : option (list byte)) : option (list byte) :=
  match us with Some _ => Some (default [] us') | None => None end.

(** The server's side of an exchange. *)
Lemma serves_pushpull net d req ls us' ls' us msg body err npp r' env :
  unpackStream (keyring d) req (Cfg.Label (cfg d)) = Ret (Some (msgByte pushPullMsg, body)) ->
  readRemoteState body = Ret (Some (ls', default [] us')) ->
  u32 (npp + 1) < u32 (Cfg.MaxPushPulls (cfg d)) ->
  localState (ml d) = Ret ls -> encodePushPullMsg ls (default [] us) = Some msg ->
  can_stream net d r' msg ->
  forall m2, mergeState (ml d) ls' env = Ret m2 ->
  exists resp body', handleTcpConn net d req err npp us env
      = Ret (mkServed resp (userState us us') (with_ml m2 (with_sent (S (attempts d)) (sent d) d))) /\
    unpackStream r' resp (Cfg.Label (cfg d)) = Ret (Some (msgByte pushPullMsg, body')) /\
    readRemoteState body' = Ret (Some (ls, default [] us)).
Proof using CL LL AL.
  intros Hu Hr Hn El Em Hs m2 E2.
  destruct (sendLocalState_arrives net d r' us ls msg El Em Hs) as (pk & body' & E & Hu' & Hr').
  exists pk, body'. split_and!; [|done..].
  unfold handleTcpConn. rewrite Hu. cbn [obind]. rewrite msgType_of_msgByte.
  unfold handlePushPull. zcmp. rewrite Hr. cbn [obind].
  rewrite E. cbn [obind]. simpl ml. rewrite E2. done.
Qed.

(** The client's side. *)
Lemma completes_pushpull net d answer ls us us' ls' msg resp body r' :
  localState (ml d) = Ret ls -> encodePushPullMsg ls (default [] us) = Some msg ->
  can_stream net d r' msg ->
  (forall req, sendLocalState net d us = Ret (Some req, with_sent (S (attempts d)) (sent d) d) ->
     answer req = resp) ->
  unpackStream (keyring d) resp (Cfg.Label (cfg d)) = Ret (Some (msgByte pushPullMsg, body)) ->
  readRemoteState body = Ret (Some (ls', default [] us')) ->
  forall env m2, mergeState (ml d) ls' env = Ret m2 ->
  pushPullWithNode net d (Some answer) us env
  = Ret (true, userState us us', with_ml m2 (with_sent (S (attempts d)) (sent d) d)).
Proof using CL LL AL.
  intros El Em Hs Hans Hu Hr env m2 E2.
  destruct (sendLocalState_arrives net d r' us ls msg El Em Hs) as (pk & body' & E & _ & _).
  unfold pushPullWithNode, sendAndReceiveState. rewrite E. cbn [obind].
  rewrite (Hans pk E). cbn [obind]. simpl keyring.
  change (cfg (with_sent (S (attempts d)) (sent d) d)) with (cfg d). rewrite Hu. cbn [obind].
  rewrite msgType_of_msgByte, bool_decide_eq_true_2, Hr by done. cbn [obind].
  simpl ml. rewrite E2. done.
Qed.

Lemma pushpull_both net net' da db usA usB lsA lsB msgA msgB err npp envA envB :
  inv (ml da) -> inv (ml db) -> left (ml da) = false -> left (ml db) = false ->
  Cfg.Label (cfg da) = Cfg.Label (cfg db) ->
  acceptable (ml da) (ml db) -> acceptable (ml db) (ml da) ->
  localState (ml da) = Ret lsA -> encodePushPullMsg lsA (default [] usA) = Some msgA ->
  localState (ml db) = Ret lsB -> encodePushPullMsg lsB (default [] usB) = Some msgB ->
  can_stream net da (keyring db) msgA -> can_stream net' db (keyring da) msgB ->
  u32 (npp + 1) < u32 (Cfg.MaxPushPulls (cfg db)) ->
  exists req sb da',
    sendLocalState net da usA = Ret (Some req, with_sent (S (attempts da)) (sent da) da) /\
    handleTcpConn net' db req err npp usB envB = Ret sb /\
    (forall answer, answer req = written sb ->
       pushPullWithNode net da (Some answer) usA envA = Ret (true, userState usA usB, da')) /\
    mergedUser sb = userState usB usA /\
    inv (ml da') /\ inv (ml (after sb)) /\
    advances (view (ml da)) (view (ml da')) /\ advances (view (ml db)) (view (ml (after sb))) /\
    learns_from (ml da) (cfg db) (ml (after sb)) /\ learns_from (ml db) (cfg da) (ml da').
Proof using CL LL AL.
  intros Hia Hib Hla Hlb Hlab Hab Hba ElA EmA ElB EmB HsA HsB Hn.
  destruct (merge_localState (ml da) (ml db) lsA envB Hia Hib Hlb Hab ElA)
    as (mb & Eb & Hib' & Hadvb & Hlb').
  destruct (merge_localState (ml db) (ml da) lsB envA Hib Hia Hla Hba ElB)
    as (ma & Ea & Hia' & Hadva & Hla').
  destruct (sendLocalState_arrives net da (keyring db) usA lsA msgA ElA EmA HsA)
    as (req & body & Ereq & Hu & Hr).
  rewrite Hlab in Hu.
  destruct (serves_pushpull net' db req lsB usA lsA usB msgB body err npp (keyring da) envB
    Hu Hr Hn ElB EmB HsB mb Eb) as (resp & body' & Es & Hu' & Hr').
  rewrite <- Hlab in Hu'.
  exists req, (mkServed resp (userState usB usA) (with_ml mb (with_sent (S (attempts db)) (sent db) db))),
    (with_ml ma (with_sent (S (attempts da)) (sent da) da)).
  split_and!; try done. intros answer Hans.
  apply (completes_pushpull net da answer lsA usA usB lsB msgA resp body' (keyring db)); try done.
  intros req' E'. assert (req' = req) as -> by congruence. exact Hans.
Qed.

(** C18: an exchange of states spreads what is known in both directions. Node
    [da] starts a push/pull with [db], which has room for one more; neither
    has left, both can read the other's streams, and neither holds an entry
    about the other with the largest number. Then the request [da] sends is
    served, its answer is accepted, and on both sides the invariant holds,
    nothing known is lost, and every node the other side held for alive,
    with an address that passes the own filter, is known at the other's
    [Lives] or later. The users' states are handed over in both directions. *)
Theorem pushpull_exchange net net' da db usA usB lsA lsB msgA msgB err npp envA envB :
  inv (ml da) -> inv (ml db) -> left (ml da) = false -> left (ml db) = false ->
  Cfg.Label (cfg da) = Cfg.Label (cfg db) ->
  acceptable (ml da) (ml db) -> acceptable (ml db) (ml da) ->
  localState (ml da) = Ret lsA -> encodePushPullMsg lsA (default [] usA) = Some msgA ->
  localState (ml db) = Ret lsB -> encodePushPullMsg lsB (default [] usB) = Some msgB ->
  can_stream net da (keyring db) msgA -> can_stream net' db (keyring da) msgB ->
  u32 (npp + 1) < u32 (Cfg.MaxPushPulls (cfg db)) ->
  exists req sb da',
    sendLocalState net da usA = Ret (Some req, with_sent (S (attempts da)) (sent da) da) /\
    handleTcpConn net' db req err npp usB envB = Ret sb /\
    (forall answer, answer req = written sb ->
       pushPullWithNode net da (Some answer) usA envA = Ret (true, userState usA usB, da')) /\
    mergedUser sb = userState usB usA /\
    inv (ml da') /\ inv (ml (after sb)) /\
    advances (view (ml da)) (view (ml da')) /\ advances (view (ml db)) (view (ml (after sb))) /\
    learns_from (ml da) (cfg db) (ml (after sb)) /\ learns_from (ml db) (cfg da) (ml da').
Proof using CL LL AL. apply pushpull_both. Qed.

(** ** [Join] *)

(** C21: a node that is given the address of another, as text, joins it: the text
    resolves to the address, the connection goes to the same text, and
    [Join] reports one success. Each side then knows every node that the
    other held for alive and whose address passes its own filter, at the
    number the other had for it or a later one; entries that the filter
    rejects, and suspected or dead nodes it did not know before, it does not
    take over. Conditions: neither side has left, their labels agree, each
    can read the other's stream, the joined node has room for one more
    push/pull, and neither list accuses the other side at the largest
    number. *)
Theorem join_learns net net' da db usA usB lsA lsB msgA msgB err npp envA envB dns ipB portB :
  inv (ml da) -> inv (ml db) -> left (ml da) = false -> left (ml db) = false ->
  Cfg.Label (cfg da) = Cfg.Label (cfg db) ->
  acceptable (ml da) (ml db) -> acceptable (ml db) (ml da) ->
  localState (ml da) = Ret lsA -> encodePushPullMsg lsA (default [] usA) = Some msgA ->
  localState (ml db) = Ret lsB -> encodePushPullMsg lsB (default [] usB) = Some msgB ->
  can_stream net da (keyring db) msgA -> can_stream net' db (keyring da) msgB ->
  u32 (npp + 1) < u32 (Cfg.MaxPushPulls (cfg db)) ->
  valid_ip ipB -> 0 < portB < 2 ^ 16 ->
  let addr := joinHostPort (IPString ipB) portB in
  exists req sb da',
    handleTcpConn net' db req err npp usB envB = Ret sb /\
    (forall dial answer, dial 0%nat 0%nat addr = Some answer -> answer req = written sb ->
       Join net da dns [addr] dial usA (fun _ _ => envA) = Ret (1%nat, false, da')) /\
    learns_from (ml da) (cfg db) (ml (after sb)) /\ learns_from (ml db) (cfg da) (ml da').
Proof using CL LL AL.
  intros Hia Hib Hla Hlb Hlab Hab Hba ElA EmA ElB EmB HsA HsB Hn Hip Hport addr.
  destruct (pushpull_both net net' da db usA usB lsA lsB msgA msgB err npp envA envB
    Hia Hib Hla Hlb Hlab Hab Hba ElA EmA ElB EmB HsA HsB Hn)
    as (req & sb & da' & E1 & E2 & E3 & _ & _ & _ & _ & _ & L1 & L2).
  exists req, sb, da'. split_and!; try done. intros dial answer Hd Hans.
  unfold Join. cbn [joinHosts length]. unfold addr at 1. rewrite ResolveAddr_joined by (done || lia).
  rewrite (proj2 (Z.eqb_neq portB 0)) by lia. cbn [joinAddrs length].
  rewrite IPString_To16 by done. fold addr. rewrite Hd, (E3 answer Hans). done.
Qed.


(** The client of a ping sends one request and looks for its number in the
    answer. *)
Lemma TcpPing_checks net d n localIp localPort r' c :
  GetAdvertiseAddr (cfg d) = Some (localIp, localPort) ->
  let s := u32 (seqNo (pings d) + 1) in
  encode_msg pingMsg (PPing (mkPing s (nid n) localIp localPort)) = Some (msgByte pingMsg :: c) ->
  can_stream net d r' (msgByte pingMsg :: c) ->
  exists req, unpackStream r' req (Cfg.Label (cfg d)) = Ret (Some (msgByte pingMsg, c)) /\
    forall answer s' c2, encode_msg ackMsg (PAck (mkAck s' [])) = Some (msgByte ackMsg :: c2) ->
      unpackStream (keyring d) (answer req) (Cfg.Label (cfg d)) = Ret (Some (msgByte ackMsg, c2)) ->
      exists d', TcpPing net d n (Some answer) = Ret (s' =? s, d').
Proof using CL LL AL.
  intros Hadv s Ec Hs. destruct (nextSeqNo (pings d)) as [s0 g] eqn:En.
  assert (s0 = s) as -> by (unfold nextSeqNo in En; by injection En).
  destruct (sendTcp_arrives net (with_pings g d) r' (msgByte pingMsg) c) as (req & E1 & Hu);
    [by rewrite msgType_of_msgByte..|done|].
  exists req. split; [done|]. intros answer s' c2 Ea Ht. unfold TcpPing.
  rewrite Hadv, En, Ec, E1. cbn [obind]. simpl keyring.
  change (cfg (with_sent _ _ (with_pings g d))) with (cfg d). rewrite Ht. cbn [obind].
  rewrite msgType_of_msgByte, bool_decide_eq_true_2 by done.
  pose proof (dec_encode_msg _ _ _ Ea) as Hd. simpl in Hd. rewrite Hd. by eexists.
Qed.

(** A ping over a stream to a live node succeeds: the node answers with
    the number of the ping, and the client checks that it is its own. An
    answer with another number does not count. The member list of the node
    that answers is not touched. *)
Theorem tcp_ping_answered net net' da db n localIp localPort b b' err npp us env :
  GetAdvertiseAddr (cfg da) = Some (localIp, localPort) -> nid n = selfID (ml db) ->
  Cfg.Label (cfg da) = Cfg.Label (cfg db) ->
  let s := u32 (seqNo (pings da) + 1) in
  encode_msg pingMsg (PPing (mkPing s (nid n) localIp localPort)) = Some b ->
  encode_msg ackMsg (PAck (mkAck s [])) = Some b' ->
  can_stream net da (keyring db) b -> can_stream net' db (keyring da) b' ->
  exists req sb, handleTcpConn net' db req err npp us env = Ret sb /\ ml (after sb) = ml db /\
    (forall answer, answer req = written sb ->
       exists da', TcpPing net da n (Some answer) = Ret (true, da')) /\
    (forall answer s' c, s' <> s ->
       encode_msg ackMsg (PAck (mkAck s' [])) = Some (msgByte ackMsg :: c) ->
       unpackStream (keyring da) (answer req) (Cfg.Label (cfg da)) = Ret (Some (msgByte ackMsg, c)) ->
       exists da', TcpPing net da n (Some answer) = Ret (false, da')).
Proof using CL LL AL.
  intros Hadv Hid Hlab s Eb Eb' HsA HsB.
  destruct (decode_encode_msg _ _ _ Eb) as (c & -> & _).
  destruct (decode_encode_msg _ _ _ Eb') as (c' & -> & _).
  destruct (TcpPing_checks net da n localIp localPort (keyring db) c Hadv Eb HsA)
    as (req & Hu & Hping). fold s in Hping.
  destruct (sendTcp_arrives net' db (keyring da) (msgByte ackMsg) c') as (resp & E2 & Hu');
    [by rewrite msgType_of_msgByte..|done|].
  eexists req, _. split_and!.
  - unfold handleTcpConn. rewrite <- Hlab, Hu. cbn [obind]. rewrite msgType_of_msgByte.
    unfold handlePingTcp. pose proof (dec_encode_msg _ _ _ Eb) as Hd. simpl in Hd. rewrite Hd.
    assert (bool_decide (nid n <> "") && bool_decide (nid n <> selfID (ml db)) = false) as Hno.
    { apply andb_false_iff. right. apply bool_decide_eq_false_2. tauto. }
    simpl p_ID. rewrite Hno. simpl p_SeqNo. rewrite Eb', E2. reflexivity.
  - reflexivity.
  - intros answer Hans. destruct (Hping answer s c' Eb') as [da' E].
    + simpl in Hans. by rewrite Hans, Hlab.
    + exists da'. by rewrite Z.eqb_refl in E.
  - intros answer s' c2 Hne Ec Ht. destruct (Hping answer s' c2 Ec Ht) as [da' E].
    exists da'. by rewrite (proj2 (Z.eqb_neq _ _)) in E.
Qed.

End Facts.

(** ** Joining *)

Section Joining.
Context {HO : HeapOps TransmitCapItem} {CO : Codec} {L : LZW} {A : AEAD}.

(** Every address that was resolved counts as a success or as a failure, and
    so does every name that was not. *)
Fixpoint contacts (dns : nat -> DNS) (path : string) (existing : list chars) : nat :=
  match existing with
  | [] => 0
  | host :: existing =>
      match ResolveAddr (dns (length existing)) host path with
      | Some (addrs, _) => length addrs
      | None => 1
      end + contacts dns path existing
  end.

Lemma broadcast_config id t p nt m : config (broadcast id t p nt m) = config m.
Proof. unfold broadcast. by repeat case_match. Qed.

Lemma refute_config m p n l m' : refute m p n l = Ret m' -> config m' = config m.
Proof. unfold refute. case_match; [|done]. by intros [= <-]. Qed.

Lemma send_config e ev m : config (send e ev m) = config m.
Proof. unfold send. by case_match. Qed.

Lemma mergeOne_config m r e m' : mergeOne m r e = Ret m' -> config m' = config m.
Proof.
  unfold mergeOne, suspectNode, deadNode. intros H.
  repeat case_match; simplify_eq; try done; simpl;
    rewrite ?broadcast_config; try (by eapply refute_config); try (unfold NotifyLeave; by rewrite send_config);
    apply aliveNode_frame.
Qed.

Lemma mergeState_config m ls env m' : mergeState m ls env = Ret m' -> config m' = config m.
Proof.
  revert m. induction ls as [|r ls IH]; intros m; simpl; [by intros [= <-]|].
  intros (m1 & E1 & E2)%obind_Ret_inv. apply mergeOne_config in E1. apply IH in E2. congruence.
Qed.

Lemma sendLocalState_ml net d us o d' : sendLocalState net d us = Ret (o, d') -> ml d' = ml d.
Proof.
  unfold sendLocalState. intros (ls & _ & E)%obind_Ret_inv. case_match; [|by injection E as _ <-].
  unfold sendTcp in E. apply obind_Ret_inv in E as (pk & _ & E). destruct pk; by injection E as _ <-.
Qed.

Lemma pushPullWithNode_config net d p us env ok u d' :
  pushPullWithNode net d p us env = Ret (ok, u, d') -> cfg d' = cfg d.
Proof.
  unfold pushPullWithNode, cfg. intros ([r d1] & E1 & E)%obind_Ret_inv.
  assert (ml d1 = ml d) as Hm.
  { unfold sendAndReceiveState in E1. destruct p as [answer|]; [|by injection E1 as _ <-].
    apply obind_Ret_inv in E1 as ([o d2] & E2 & E1). apply sendLocalState_ml in E2.
    destruct o; [|by injection E1 as _ <-]. apply obind_Ret_inv in E1 as (v & _ & E1).
    destruct v as [[t body]|]; [|by injection E1 as _ <-]. destruct (bool_decide _); [|by injection E1 as _ <-].
    apply obind_Ret_inv in E1 as (r0 & _ & E1). by injection E1 as _ <-. }
  destruct r as [[ns st]|]; [|injection E as _ _ <-; by rewrite Hm].
  apply obind_Ret_inv in E as (m' & E2 & E). injection E as _ _ <-.
  apply mergeState_config in E2. simpl. by rewrite E2, Hm.
Qed.

Lemma joinAddrs_counts net d addrs port dial us env s e d' :
  joinAddrs net d addrs port dial us env = Ret (s, e, d') ->
  (s + e = length addrs)%nat /\ cfg d' = cfg d.
Proof.
  revert d s e d'. induction addrs as [|a addrs IH]; intros d s e d'; cbn [joinAddrs].
  { by intros [= <- <- <-]. }
  intros ([[ok u] d1] & E0 & E)%obind_Ret_inv. apply obind_Ret_inv in E as ([[s1 e1] d2] & E1 & E).
  apply IH in E1 as [E1 Hc]. apply pushPullWithNode_config in E0.
  destruct ok; injection E as <- <- <-; simpl; split; (lia || congruence).
Qed.

Lemma joinHosts_counts net d dns existing dial us env s e d' :
  joinHosts net d dns existing dial us env = Ret (s, e, d') ->
  (s + e = contacts dns (Cfg.DNSConfigPath (cfg d)) existing)%nat.
Proof.
  revert d s e d'. induction existing as [|host existing IH]; intros d s e d'; cbn [joinHosts contacts].
  { by intros [= <- <- _]. }
  destruct (ResolveAddr _ _ _) as [[addrs port]|].
  - intros ([[s1 e1] d1] & E1 & E)%obind_Ret_inv.
    apply obind_Ret_inv in E as ([[s2 e2] d2] & E2 & E). injection E as <- <- _.
    apply joinAddrs_counts in E1 as [E1 Hc]. apply IH in E2. rewrite Hc in E2. lia.
  - intros ([[s1 e1] d1] & E1 & E)%obind_Ret_inv. injection E as <- <- _. apply IH in E1. lia.
Qed.

(** [Join] reports an error exactly when there was something to contact and
    nothing could be reached. *)
Lemma Join_error net d dns existing dial us env n err d' :
  Join net d dns existing dial us env = Ret (n, err, d') ->
  let total := contacts dns (Cfg.DNSConfigPath (cfg d)) existing in
  (n <= total)%nat /\ (err = true <-> n = 0%nat /\ (0 < total)%nat).
Proof.
  unfold Join. intros ([[s e] d1] & E & E2)%obind_Ret_inv. injection E2 as <- <- _.
  apply joinHosts_counts in E. split; [lia|].
  rewrite andb_true_iff, negb_true_iff, Nat.ltb_lt, Nat.ltb_ge. lia.
Qed.

(** ** Choosing a partner *)

(** Who [pushPull] contacts: a node of the list that is alive and not this
    one, at an address that reads back as its own. *)
Lemma pushPull_target net d r dial us env :
  mem_ok (ml d) -> len (nodes (ml d)) < 2 ^ 32 ->
  pushPull net d r dial us env = Ret (None, d) \/
  exists n, view (ml d) !! nid n = Some n /\ nid n <> selfID (ml d) /\ State n = StateAlive /\
    pushPull net d r dial us env
    = outcome_map (fun x => (x.1.2, x.2))
        (pushPullWithNode net d (dial (UDPAddrString (Node_UDPAddress (node n)))) us env) /\
    (valid_ip (IP (node n)) -> 0 <= Port (node n) < 2 ^ 16 ->
     forall dns path, ResolveAddr dns (UDPAddrString (Node_UDPAddress (node n))) path
       = Some ([To16 (IP (node n))], Port (node n))).
Proof.
  intros Hm Hl. unfold pushPull.
  destruct (pickRandomNodes_spec (ml d) r 1 (fun _ => pushPullWith (ml d)) Hm Hl ltac:(lia))
    as (ns & -> & _ & Hf & _). cbn [obind]. destruct ns as [|n ns]; [by left|right].
  apply Forall_cons in Hf as [[Hn [_ Ha]] _]. exists n.
  unfold pushPullWith in Ha. apply andb_true_iff in Ha as [H1%bool_decide_eq_true H2%bool_decide_eq_true].
  split_and!; try done; [by apply elem_of_objects| |].
  - cbv zeta. by destruct (pushPullWithNode _ _ _ _ _) as [[[ok u] d1]| |].
  - intros Hip Hp dns path. unfold Node_UDPAddress, UDPAddrString.
    rewrite (proj2 (Nat.eqb_neq _ _)) by (destruct Hip; lia). by apply ResolveAddr_joined.
Qed.

End Joining.

(** ** Examples *)

Section Witnesses.
#[local] Existing Instance item_heap.
#[local] Existing Instance bit_codec.
#[local] Existing Instance bit_codec_laws.
#[local] Existing Instance go_lzw.
#[local] Existing Instance go_lzw_laws.
#[local] Existing Instance aes_gcm.
#[local] Existing Instance aes_gcm_laws.

Definition dB2 : Daemon := with_ml v1 dB.

Definition lsOf (d : Daemon) : list stateToMerge :=
  match localState (ml d) with Ret ls => ls | _ => [] end.
Definition msgOf (d : Daemon) (us : option (list byte)) : list byte :=
  default [] (encodePushPullMsg (lsOf d) (default [] us)).

Lemma stream_plain d r' msg :
  EncryptionEnabled (keyring d) = false -> EncryptionEnabled r' = false ->
  can_stream netW d r' msg.
Proof.
  intros H1 H2. destruct (lzw_compresses (cfg d) msg) as [z Hz].
  exists z. split; [exact Hz|]. split; [reflexivity|]. by left.
Qed.

Lemma acceptable_AB : acceptable (ml dA2) (ml dB2).
Proof.
  intros n Hn. exfalso.
  assert (view w2 !! "" = None) as E by (vm_compute; reflexivity).
  assert (view w2 !! "" = Some n) as Hn' by exact Hn. rewrite E in Hn'. discriminate Hn'.
Qed.

Lemma acceptable_BA : acceptable (ml dB2) (ml dA2).
Proof.
  intros n Hn. assert (Lives n = 1) as ->; [|lia].
  assert (view v1 !! "n1" = Some (mkNodeState (mkNode "n1" (map z2b [10; 0; 0; 1]) 7946 []) 1 StateAlive 0))
    as E by (vm_compute; reflexivity).
  assert (view v1 !! "n1" = Some n) as Hn' by exact Hn. rewrite E in Hn'. injection Hn' as <-.
  reflexivity.
Qed.

Lemma pushpull_exchange_witness :
  exists req sb, sendLocalState netW dA2 None = Ret (Some req, with_sent 1 [] dA2) /\
    handleTcpConn netW dB2 req None 0 (Some [x07]) (fun _ => at_ 9) = Ret sb /\
    knows (ml (after sb)) "n2" 5.
Proof.
  destruct (pushpull_exchange netW netW dA2 dB2 None (Some [x07]) (lsOf dA2) (lsOf dB2)
    (msgOf dA2 None) (msgOf dB2 (Some [x07])) None 0 (fun _ => at_ 9) (fun _ => at_ 9))
    as (req & sb & da' & E1 & E2 & _ & _ & _ & _ & _ & _ & Hk & _).
  - exact (proj1 (reachable_good _ _ _ reach_w2)).
  - exact (proj1 (reachable_good _ _ _ reach_v1)).
  - exact w2_left.
  - vm_compute. reflexivity.
  - vm_compute. reflexivity.
  - exact acceptable_AB.
  - exact acceptable_BA.
  - vm_compute. reflexivity.
  - vm_compute. reflexivity.
  - vm_compute. reflexivity.
  - vm_compute. reflexivity.
  - apply stream_plain; reflexivity.
  - apply stream_plain; reflexivity.
  - vm_compute. reflexivity.
  - exists req, sb. split; [exact E1|]. split; [exact E2|].
    apply (Hk "n2" n2w); vm_compute; reflexivity.
Defined.

Lemma join_learns_witness :
  exists req sb, handleTcpConn netW dB2 req None 0 None (fun _ => at_ 9) = Ret sb /\
    learns_from (ml dA2) (cfg dB2) (ml (after sb)).
Proof.
  destruct (join_learns netW netW dA2 dB2 None None (lsOf dA2) (lsOf dB2)
    (msgOf dA2 None) (msgOf dB2 None) None 0 (fun _ => at_ 9) (fun _ => at_ 9)
    (fun _ => exampleDNS) [x0a; x00; x00; x02] 7946) as (req & sb & da' & E & _ & Hl & _).
  - exact (proj1 (reachable_good _ _ _ reach_w2)).
  - exact (proj1 (reachable_good _ _ _ reach_v1)).
  - exact w2_left.
  - vm_compute. reflexivity.
  - vm_compute. reflexivity.
  - exact acceptable_AB.
  - exact acceptable_BA.
  - vm_compute. reflexivity.
  - vm_compute. reflexivity.
  - vm_compute. reflexivity.
  - vm_compute. reflexivity.
  - apply stream_plain; reflexivity.
  - apply stream_plain; reflexivity.
  - vm_compute. reflexivity.
  - left. reflexivity.
  - lia.
  - exists req, sb. split; [exact E|exact Hl].
Defined.

Lemma tcp_ping_answered_witness :
  exists req sb, handleTcpConn netW dB req None 0 None (fun _ => at_ 9) = Ret sb /\
    ml (after sb) = ml dB.
Proof.
  destruct (GetAdvertiseAddr (cfg dA)) as [[ipA portA]|] eqn:Ea;
    [|vm_compute in Ea; discriminate Ea].
  destruct (encode_msg pingMsg (PPing (mkPing 1 "" ipA portA))) as [b|] eqn:Eb;
    [|vm_compute in Ea; injection Ea as <- <-; vm_compute in Eb; discriminate Eb].
  destruct (encode_msg ackMsg (PAck (mkAck 1 []))) as [b'|] eqn:Eb';
    [|vm_compute in Eb'; discriminate Eb'].
  destruct (tcp_ping_answered netW netW dA dB nB ipA portA b b' None 0 None (fun _ => at_ 9))
    as (req & sb & E1 & E2 & _).
  - exact Ea.
  - reflexivity.
  - reflexivity.
  - exact Eb.
  - exact Eb'.
  - apply stream_plain; reflexivity.
  - apply stream_plain; reflexivity.
  - exists req, sb. split; [exact E1|exact E2].
Defined.

End Witnesses.
