(* ===== verification/Delivery.v ===== *)
(** * Members of a cluster that exchange bytes

    The steps of [Cluster] exchange decoded messages. Here two members run
    the code that moves bytes. In a gossip round one takes messages from its
    queue and packs them into a packet, the other unpacks it in its packet
    loop and applies the messages in its handler goroutine. In a push/pull
    both encode their lists, send them over a connection, and merge what they
    read. All of this is a run of the cluster, so that the theorems about
    clusters hold of it. *)

From S2P Require Import Prelude GoMath Types Interfaces Awareness Keyring Suspicion Broadcast BroadcastFacts Config NetAddr Compound Spec State StateFacts Maintenance MaintenanceFacts Lifecycle System Samples PushPull Cluster ClusterFacts Agreement LongRun Encrypt AesGcm Lzw Transport Ping Handlers HandlersFacts Exchange ExchangeFacts.
From Stdlib Require Import Strings.Byte.

Section Delivery.
Context {HO : HeapOps TransmitCapItem} {HL : HeapLaws TransmitCapItem HO}.
Context {CO : Codec} {CL : CodecLaws CO} {L : LZW} {LL : LZWLaws L} {A : AEAD} {AL : AEADLaws A}.
Implicit Types (m : Memberlist) (c : cluster) (d : Daemon).

(** ** A gossip round *)







(** Messages are sent one after the other. *)
Lemma say_all c x m ps :
  members c !! x = Some m -> Forall (says m) ps ->
  nsteps cstep (length ps) c (mkCluster (members c) (rev ps ++ soup c)).
Proof using.
  intros Hx Hs. revert c Hx. induction Hs as [|p ps Hp _ IH]; intros c Hx; simpl.
  - destruct c. apply nsteps_O.
  - apply (nsteps_l _ _ _ (mkCluster (members c) (p :: soup c))); [by eapply cs_say|].
    rewrite <- app_assoc. by apply (IH (mkCluster (members c) (p :: soup c))).
Qed.



Context (cfgs : gmap string Cfg.Config) (ch : bool).
Hypothesis Hnames : well_named cfgs.



(** ** Push/pull *)

(** Merging an entry is the call of a handler. *)
Lemma mergeOne_action sent m r e :
  PState r ∈ sent -> is_Some (StateType_of_code (m_State r)) ->
  exists a, justified sent m a /\ is_message a = true /\ exec m a = mergeOne m r e.
Proof using.
  intros Hr [st Hst]. unfold mergeOne. rewrite Hst. destruct st.
  - eexists (ActAlive _ None e). split_and!; [|done|done]. right. by exists r.
  - eexists (ActSuspect _ e). split_and!; [|done|done]. right. by exists r.
  - eexists (ActSuspect _ e). split_and!; [|done|done]. right. by exists r.
  - eexists (ActDead _ None e). split_and!; [|done|done]. right. exists r. split_and!; auto.
Qed.

(** Merging a list of entries that were sent returns, as a run. *)
Lemma merge_all env ls : forall n c y m,
  nsteps cstep n (cinit cfgs ch) c -> 2 * Z.of_nat (n + length ls) + 2 < 2 ^ 32 - 1 ->
  members c !! y = Some m ->
  Forall (fun r => PState r ∈ soup c /\ is_Some (StateType_of_code (m_State r))) ls ->
  exists m' c', mergeState m ls env = Ret m' /\ nsteps cstep (length ls) c c' /\
    members c' = <[ y := m' ]> (members c) /\ soup c' = soup c.
Proof using Hnames CL HL.
  induction ls as [|r ls IH]; intros n c y m Hn Hk Hy Hls.
  { exists m, c. split_and!; [done|apply nsteps_O| |done]. by rewrite insert_id. }
  apply Forall_cons in Hls as [[Hr Hst] Hls]. cbn [mergeState].
  destruct (mergeOne_action (soup c) m r (env (length ls)) Hr Hst) as (a & Hj & Hh & Ea). rewrite <- Ea.
  destruct (cluster_steps cfgs ch Hnames n c Hn ltac:(lia)) as [H Hci].
  destruct (member_returns cfgs ch H _ c y m a Hci ltac:(lia) ltac:(simpl in Hk; lia) Hy Hj Hh) as [m1 E1].
  rewrite E1. cbn [obind]. set (c1 := mkCluster (<[ y := m1 ]> (members c)) (soup c)).
  assert (cstep c c1) as Hstep by by apply (cs_act c y m a m1).
  destruct (IH (S n) c1 y m1) as (m' & c' & E & Hn' & Hm & Hs); [by eapply nsteps_r|simpl in Hk; lia
    |apply lookup_insert_eq|done|].
  exists m', c'. split_and!; [done|by eapply nsteps_l| |done]. rewrite Hm. simpl. by rewrite insert_insert_eq.
Qed.

(** Entries of the local state are said. *)
Lemma localState_says m ls :
  localState m = Ret ls -> Forall (says m) (map PState ls) /\
  (mem_ok m -> Forall (fun r => is_Some (StateType_of_code (m_State r))) ls).
Proof using.
  intros E. split.
  - apply Forall_forall. intros p (r & -> & Hr)%list_elem_of_fmap. by exists ls.
  - intros Hm. destruct (localState_spec m Hm) as (ls' & E' & Hls). rewrite E in E'. injection E' as <-.
    apply Forall_forall. intros r (n & _ & ->)%Hls. exists (State n). apply code_of_code.
Qed.

(** Two members send each other their lists, and each merges the other's. *)
Lemma exchange_run n c x mx y my lsx lsy envx envy :
  runs cfgs ch n c -> 2 * Z.of_nat (n + 2 * (length lsx + length lsy)) + 2 < 2 ^ 32 - 1 ->
  members c !! x = Some mx -> members c !! y = Some my -> x <> y ->
  localState mx = Ret lsx -> localState my = Ret lsy ->
  exists mx' my' c', mergeState my lsx envy = Ret my' /\ mergeState mx lsy envx = Ret mx' /\
    members c' = <[ x := mx' ]> (<[ y := my' ]> (members c)) /\
    runs cfgs ch (n + 2 * (length lsx + length lsy)) c'.
Proof using Hnames CL HL.
  intros [Hn Hk] Hk' Hx Hy Hxy Elx Ely. destruct (cluster_steps cfgs ch Hnames n c Hn ltac:(lia)) as [H Hci].
  destruct (ci_members _ _ _ _ _ Hci x _ Hx) as (_ & _ & _ & Hfx).
  destruct (ci_members _ _ _ _ _ Hci y _ Hy) as (_ & _ & _ & Hfy).
  destruct (localState_says _ _ Elx) as [Hsx Hcx]. specialize (Hcx (inv_mem _ (nf_inv _ _ _ _ Hfx))).
  destruct (localState_says _ _ Ely) as [Hsy Hcy]. specialize (Hcy (inv_mem _ (nf_inv _ _ _ _ Hfy))).
  pose proof (say_all c x _ _ Hx Hsx) as Hn1. set (c1 := mkCluster _ _) in Hn1.
  pose proof (say_all c1 y _ _ Hy Hsy) as Hn2. set (c2 := mkCluster _ _) in Hn2.
  rewrite length_map in Hn1, Hn2.
  assert (forall r, r ∈ lsx \/ r ∈ lsy -> PState r ∈ soup c2) as Hsoup.
  { intros r Hr. simpl. rewrite !elem_of_app, !list_elem_of_In, <- !in_rev, <- !list_elem_of_In.
    destruct Hr; [right; left|left]; by apply list_elem_of_fmap_2. }
  assert (nsteps cstep (n + (length lsx + length lsy)) (cinit cfgs ch) c2) as Hc2.
  { eapply nsteps_trans; [exact Hn|]. by eapply nsteps_trans. }
  destruct (merge_all envy lsx _ c2 y my Hc2 ltac:(lia) Hy) as (my' & c3 & Ey & Hn3 & Hm3 & Hs3).
  { apply Forall_forall. intros r Hr. split; [apply Hsoup; by left|]. by apply (proj1 (Forall_forall _ _) Hcx). }
  assert (nsteps cstep (n + (length lsx + length lsy) + length lsx) (cinit cfgs ch) c3) as Hc3
    by by eapply nsteps_trans.
  destruct (merge_all envx lsy _ c3 x mx Hc3 ltac:(lia)) as (mx' & c4 & Ex & Hn4 & Hm4 & Hs4).
  { rewrite Hm3. simpl. by rewrite lookup_insert_ne. }
  { apply Forall_forall. intros r Hr. rewrite Hs3. split; [apply Hsoup; by right|].
    by apply (proj1 (Forall_forall _ _) Hcy). }
  exists mx', my', c4. split_and!; try done; [by rewrite Hm4, Hm3|]. split; [|done].
  replace (n + 2 * (length lsx + length lsy))%nat
    with (n + (length lsx + length lsy) + length lsx + length lsy)%nat by lia. by eapply nsteps_trans.
Qed.

(** C17: an exchange of lists between two members. [x] starts a push/pull with
    [y], which has room for one more; both can read the other's streams. Both
    calls return, whatever the lists hold, and what the two have done, down
    to the bytes, is a run of the cluster in which each has sent its list and
    merged the other's. *)
Theorem pushpull_round n c x da y db usA usB lsA lsB msgA msgB err npp envA envB net net' :
  runs cfgs ch n c -> 2 * Z.of_nat (n + 2 * (length lsA + length lsB)) + 2 < 2 ^ 32 - 1 ->
  members c !! x = Some (ml da) -> members c !! y = Some (ml db) -> x <> y ->
  Cfg.Label (cfg da) = Cfg.Label (cfg db) ->
  localState (ml da) = Ret lsA -> encodePushPullMsg lsA (default [] usA) = Some msgA ->
  localState (ml db) = Ret lsB -> encodePushPullMsg lsB (default [] usB) = Some msgB ->
  can_stream net da (keyring db) msgA -> can_stream net' db (keyring da) msgB ->
  u32 (npp + 1) < u32 (Cfg.MaxPushPulls (cfg db)) ->
  exists req sb da' c',
    sendLocalState net da usA = Ret (Some req, with_sent (S (attempts da)) (sent da) da) /\
    handleTcpConn net' db req err npp usB envB = Ret sb /\
    (forall answer, answer req = written sb ->
       pushPullWithNode net da (Some answer) usA envA = Ret (true, userState usA usB, da')) /\
    members c' = <[ x := ml da' ]> (<[ y := ml (after sb) ]> (members c)) /\
    runs cfgs ch (n + 2 * (length lsA + length lsB)) c'.
Proof using Hnames CL HL LL AL.
  intros Hn Hk' Hx Hy Hxy Hlab ElA EmA ElB EmB HsA HsB Hnpp.
  destruct (exchange_run n c x (ml da) y (ml db) lsA lsB envA envB Hn Hk' Hx Hy Hxy ElA ElB)
    as (ma & mb & c' & Eb & Ea & Hm & Hr').
  destruct (sendLocalState_arrives net da (keyring db) usA lsA msgA ElA EmA HsA) as (req & body & Ereq & Hu & Hr).
  rewrite Hlab in Hu.
  destruct (serves_pushpull net' db req lsB usA lsA usB msgB body err npp (keyring da) envB
    Hu Hr Hnpp ElB EmB HsB mb Eb) as (resp & body' & Es & Hu' & Hrd). rewrite <- Hlab in Hu'.
  exists req, (mkServed resp (userState usB usA) (with_ml mb (with_sent (S (attempts db)) (sent db) db))),
    (with_ml ma (with_sent (S (attempts da)) (sent da) da)), c'. split_and!; try done.
  intros answer Hans. apply (completes_pushpull net da answer lsA usA usB lsB msgA resp body' (keyring db)); try done.
  intros req' E'. assert (req' = req) as -> by congruence. exact Hans.
Qed.

End Delivery.

(** ** Examples *)

Section Witnesses.
#[local] Existing Instance item_heap.
#[local] Existing Instance item_heap_laws.
#[local] Existing Instance bit_codec.
#[local] Existing Instance bit_codec_laws.
#[local] Existing Instance go_lzw.
#[local] Existing Instance go_lzw_laws.
#[local] Existing Instance aes_gcm.
#[local] Existing Instance aes_gcm_laws.

Definition dN1 : Daemon := with_ml s1 (daemon_of (named "n1" "10.0.0.1")).
Definition dN2 : Daemon := with_ml s2 (daemon_of (named "n2" "10.0.0.2")).




(** The two exchange their lists. *)
Lemma pushpull_round_witness :
  exists req sb da' c', sendLocalState netW dN1 None = Ret (Some req, with_sent 1 [] dN1) /\
    handleTcpConn netW dN2 req None 0 None (fun _ => at_ 9) = Ret sb /\
    members c' !! "n1" = Some (ml da') /\ runs twoCfgs true 6 c'.
Proof.
  destruct (pushpull_round twoCfgs true twoCfgs_named 2 c2 "n1" dN1 "n2" dN2 None None (lsOf dN1) (lsOf dN2)
    (msgOf dN1 None) (msgOf dN2 None) None 0 (fun _ => at_ 9) (fun _ => at_ 9) netW netW)
    as (req & sb & da' & c' & E1 & E2 & _ & Hm & Hr).
  - split; [exact run_c2|reflexivity].
  - vm_compute. reflexivity.
  - reflexivity.
  - reflexivity.
  - discriminate.
  - vm_compute. reflexivity.
  - vm_compute. reflexivity.
  - vm_compute. reflexivity.
  - vm_compute. reflexivity.
  - vm_compute. reflexivity.
  - apply stream_plain; reflexivity.
  - apply stream_plain; reflexivity.
  - vm_compute. reflexivity.
  - exists req, sb, da', c'. split; [exact E1|]. split; [exact E2|].
    split; [rewrite Hm; apply lookup_insert_eq|]. exact Hr.
Defined.

End Witnesses.
