(* ===== verification/Build.v ===== *)
(** * Building and starting a node ([MemberlistBuilder], [Build], [start] of
    [memberlist.go]; [schedule] and its loops of [maintenance.go])

    A builder collects the parts of a node; [Build] opens the transport,
    creates the member list and starts it. What [go-sockaddr] and the
    package [uuid] answer, and the operating system, are parameters. The
    configuration and the keyring are shared with the caller, so [Build]
    gives back the builder as it leaves it, also when it fails. *)

From S2P Require Import Prelude GoMath Types Interfaces Awareness Keyring Suspicion Broadcast BroadcastFacts Config NetAddr IPText Listener ListenerFacts Compound Spec State StateFacts Maintenance MaintenanceFacts Lifecycle System Samples LongRun Encrypt AesGcm Lzw Transport Ping Handlers HandlersFacts.
From Stdlib Require Import Strings.Byte.
From Stdlib Require Import Ascii.

(** ** Identifiers *)

(** [UniqueID] of the text of a UUID. *)
Definition UniqueID (uuid : chars) : string :=
  str (List.filter (fun c => negb (bool_decide (c = "-"%char))) uuid).

(** The text of a UUID: groups of 8, 4, 4, 4 and 12 digits. *)
Definition uuidText (g1 g2 g3 g4 g5 : chars) : chars :=
  g1 ++ ["-"%char] ++ g2 ++ ["-"%char] ++ g3 ++ ["-"%char] ++ g4 ++ ["-"%char] ++ g5.

(** ** The loops of [schedule] *)

Inductive loop :=
| LProbe (interval : Z)
| LGossip (interval : Z)
| LReap (interval : Z)
| LPushPull (interval : Z).

Definition schedule (c : Cfg.Config) : list loop :=
  (if 0 <? Cfg.ProbeInterval c then [LProbe (Cfg.ProbeInterval c)] else [])
  ++ (if (0 <? Cfg.GossipInterval c) && (0 <? Cfg.GossipNodes c) then [LGossip (Cfg.GossipInterval c)] else [])
  ++ (if 0 <? Cfg.ReapInterval c then [LReap (Cfg.ReapInterval c)] else [])
  ++ (if 0 <? Cfg.PushPullInterval c then [LPushPull (Cfg.PushPullInterval c)] else []).

(** The wait before the first turn; [r] is a random 63-bit number. *)
Definition jitter (interval r : Z) : Z := i64 (u64 r mod u64 interval).

(** What a [select] of the loop receives. *)
Inductive wake := Tick | Stop.

Fixpoint scheduleFunc {St} (f : St -> outcome St) (evs : list wake) (s : St) : outcome St :=
  match evs with
  | [] => Ret s
  | Tick :: evs => let! s := f s in scheduleFunc f evs s
  | Stop :: _ => Ret s
  end.

(** With the waits between the turns. *)
Fixpoint scheduleFuncWithScale {St} (interval : Z) (scale : Z -> Z -> Z) (num : St -> Z)
    (f : St -> outcome St) (evs : list wake) (s : St) : outcome (list Z * St) :=
  match evs with
  | [] => Ret ([scale interval (num s)], s)
  | Tick :: evs =>
      let! s' := f s in
      let! (waits, s2) := scheduleFuncWithScale interval scale num f evs s' in
      Ret (scale interval (num s) :: waits, s2)
  | Stop :: _ => Ret ([scale interval (num s)], s)
  end.

(** ** The builder *)

Section Build.
Context {HO : HeapOps TransmitCapItem} {CO : Codec} {L : LZW} {A : AEAD}.

Record MemberlistBuilder := mkBuilder {
  b_config : option Cfg.Config;   (* [None] is nil *)
  b_keyring : option Keyring;
  b_secretKey : option key;
  b_logger : bool;
  b_eventCh : bool;
  b_pingDelegate : bool;
  b_userState : bool;
  b_ubroadcasts : option (Z -> Z -> list (list byte));
  b_usrMsgCh : bool
}.

Definition newBuilder : MemberlistBuilder :=
  mkBuilder None None None false false false false None false.

Definition WithConfig (c : Cfg.Config) (b : MemberlistBuilder) : MemberlistBuilder :=
  mkBuilder (Some c) (b_keyring b) (b_secretKey b) (b_logger b) (b_eventCh b) (b_pingDelegate b)
    (b_userState b) (b_ubroadcasts b) (b_usrMsgCh b).
Definition WithKeyRing (r : option Keyring) (b : MemberlistBuilder) : MemberlistBuilder :=
  mkBuilder (b_config b) r (b_secretKey b) (b_logger b) (b_eventCh b) (b_pingDelegate b)
    (b_userState b) (b_ubroadcasts b) (b_usrMsgCh b).
Definition WithSecretKey (k : option key) (b : MemberlistBuilder) : MemberlistBuilder :=
  mkBuilder (b_config b) (b_keyring b) k (b_logger b) (b_eventCh b) (b_pingDelegate b)
    (b_userState b) (b_ubroadcasts b) (b_usrMsgCh b).
Definition WithLogger (l : bool) (b : MemberlistBuilder) : MemberlistBuilder :=
  mkBuilder (b_config b) (b_keyring b) (b_secretKey b) l (b_eventCh b) (b_pingDelegate b)
    (b_userState b) (b_ubroadcasts b) (b_usrMsgCh b).
Definition WithEventCh (ch : bool) (b : MemberlistBuilder) : MemberlistBuilder :=
  mkBuilder (b_config b) (b_keyring b) (b_secretKey b) (b_logger b) ch (b_pingDelegate b)
    (b_userState b) (b_ubroadcasts b) (b_usrMsgCh b).
Definition WithUserMessageCh (ch : bool) (b : MemberlistBuilder) : MemberlistBuilder :=
  mkBuilder (b_config b) (b_keyring b) (b_secretKey b) (b_logger b) (b_eventCh b) (b_pingDelegate b)
    (b_userState b) (b_ubroadcasts b) ch.
Definition WithUserBroadcasts (u : option (Z -> Z -> list (list byte))) (b : MemberlistBuilder)
    : MemberlistBuilder :=
  mkBuilder (b_config b) (b_keyring b) (b_secretKey b) (b_logger b) (b_eventCh b) (b_pingDelegate b)
    (b_userState b) u (b_usrMsgCh b).
Definition WithPingDelegate (p : bool) (b : MemberlistBuilder) : MemberlistBuilder :=
  mkBuilder (b_config b) (b_keyring b) (b_secretKey b) (b_logger b) (b_eventCh b) p
    (b_userState b) (b_ubroadcasts b) (b_usrMsgCh b).
Definition WithUserStateDelegate (u : bool) (b : MemberlistBuilder) : MemberlistBuilder :=
  mkBuilder (b_config b) (b_keyring b) (b_secretKey b) (b_logger b) (b_eventCh b) (b_pingDelegate b)
    u (b_ubroadcasts b) (b_usrMsgCh b).

Inductive build_error :=
| errKeyring (e : keyring_error)
| errTransport
| errAdvertise      (* finalizeAdvertiseAddr *)
| errInterface      (* hasPublicIface *)
| errUnencrypted    (* encryption not enabled for public address *)
| errAlive (e : string).

(** What the surroundings of [Build] answer. *)
Record Surroundings := mkSurroundings {
  s_os : OS;
  s_uuid : chars;
  s_privateIP : option string;          (* sockaddr.GetPrivateIP *)
  s_localIP : socket -> ip;             (* the address of a socket *)
  s_public : chars -> option bool;      (* sockaddr.NewIPAddr and IfByRFC(6890) *)
  s_env : Env
}.

Definition set_bindPort (p : Z) (c : Cfg.Config) : Cfg.Config :=
  Cfg.mkConfig (Cfg.ID c) (Cfg.BindAddr c) p (Cfg.AdvertiseAddr c) (Cfg.AdvertisePort c)
    (Cfg.CIDRsAllowed c) (Cfg.Label c) (Cfg.UDPBufferSize c) (Cfg.DNSConfigPath c)
    (Cfg.EnableCompression c) (Cfg.EncryptionVersion c) (Cfg.TcpTimeout c) (Cfg.NumIndirectChecks c)
    (Cfg.PingTimeout c) (Cfg.ProbeInterval c) (Cfg.MaxRTT c) (Cfg.GossipNodes c)
    (Cfg.GossipInterval c) (Cfg.DeadNodeExpiredTimeout c) (Cfg.BroadcastWaitTimeout c)
    (Cfg.EventTimeout c) (Cfg.ReapInterval c) (Cfg.MaxPushPulls c) (Cfg.PushPullInterval c)
    (Cfg.MaxAwarenessHealth c) (Cfg.SuspicionMult c) (Cfg.SuspicionMaxTimeoutMult c)
    (Cfg.MaxLongRunQueueDepth c) (Cfg.QueueCheckInterval c) (Cfg.RetransmitMult c) (Cfg.Tags c).
Definition set_id (x : string) (c : Cfg.Config) : Cfg.Config :=
  Cfg.mkConfig x (Cfg.BindAddr c) (Cfg.BindPort c) (Cfg.AdvertiseAddr c) (Cfg.AdvertisePort c)
    (Cfg.CIDRsAllowed c) (Cfg.Label c) (Cfg.UDPBufferSize c) (Cfg.DNSConfigPath c)
    (Cfg.EnableCompression c) (Cfg.EncryptionVersion c) (Cfg.TcpTimeout c) (Cfg.NumIndirectChecks c)
    (Cfg.PingTimeout c) (Cfg.ProbeInterval c) (Cfg.MaxRTT c) (Cfg.GossipNodes c)
    (Cfg.GossipInterval c) (Cfg.DeadNodeExpiredTimeout c) (Cfg.BroadcastWaitTimeout c)
    (Cfg.EventTimeout c) (Cfg.ReapInterval c) (Cfg.MaxPushPulls c) (Cfg.PushPullInterval c)
    (Cfg.MaxAwarenessHealth c) (Cfg.SuspicionMult c) (Cfg.SuspicionMaxTimeoutMult c)
    (Cfg.MaxLongRunQueueDepth c) (Cfg.QueueCheckInterval c) (Cfg.RetransmitMult c) (Cfg.Tags c).

(** The key of the builder goes into its keyring and becomes the primary
    one; without a keyring, one is made. A key that cannot be used after it
    was added leaves the keyring with it. *)
Definition buildKeyring (r : option Keyring) (k : option key)
    : option Keyring * option keyring_error :=
  match k, r with
  | None, _ => (r, None)
  | Some k, Some r =>
      match AddKey r k with
      | inl e => (Some r, Some e)
      | inr r => match UseKey r k with inl e => (Some r, Some e) | inr r => (Some r, None) end
      end
  | Some k, None =>
      match NewKeyring [] (Some k) with inl e => (None, Some e) | inr r => (Some r, None) end
  end.

(** The transport, and the configuration with the port it got. *)
Definition buildTransport (os : OS) (c : Cfg.Config) : option NetTransport * Cfg.Config :=
  if Cfg.BindPort c =? 0 then
    match ZeroBindPortTransport os [Cfg.BindAddr c] true with
    | Some (Some t, _) => (Some t, set_bindPort (bindPort t) c)
    | _ => (None, c)
    end
  else
    match NewNetTransport [Cfg.BindAddr c] (Cfg.BindPort c) true with
    | None => (None, c)
    | Some t => match Start os t with (Some _, _) => (None, c) | (None, t) => (Some t, c) end
    end.

(** [hasPublicIface]. *)
Definition hasPublicIface (s : Surroundings) (c : Cfg.Config) : option bool :=
  match GetAdvertiseAddr c with
  | None => None
  | Some (a, _) => s_public s (IPString a)
  end.

(** [start]: the configuration is written in place. On success, the loops
    that run besides the three of the network. *)
Definition start (s : Surroundings) (d : Daemon) (t : NetTransport)
    : outcome (Daemon * (list loop orerr build_error)) :=
  let! oc := finalizeAdvertiseAddr (cfg d) (GetFirstAddr (s_privateIP s) (s_localIP s) t) in
  match oc with
  | None => Ret (d, inl errAdvertise)
  | Some c =>
      let d := with_ml (set_config c (ml d)) d in
      match hasPublicIface s c with
      | None => Ret (d, inl errInterface)
      | Some hasPublic =>
          if hasPublic && negb (EncryptionEnabled (keyring d)) then Ret (d, inl errUnencrypted)
          else
            let '(err, m) := setAlive (ml d) (s_env s) in
            match err with
            | Some e => Ret (d, inl (errAlive e))
            | None => Ret (with_ml m d, inr (schedule c))
            end
      end
  end.

Record BuiltNode := mkBuilt { b_daemon : Daemon; b_transport : NetTransport; b_loops : list loop }.

(** [Build]: the builder it leaves, and the node or an error. When [start]
    fails the code calls [Shutdown] before it returns the error. Here that
    call is taken to return; it may block for ever when a listener has
    received something by then ([build_failure_hangs]). *)
Definition Build (s : Surroundings) (b : MemberlistBuilder)
    : outcome (MemberlistBuilder * (BuiltNode orerr build_error)) :=
  let '(r, kerr) := buildKeyring (b_keyring b) (b_secretKey b) in
  let b := WithKeyRing r b in
  match kerr with
  | Some e => Ret (b, inl (errKeyring e))
  | None =>
      let b := WithLogger true b in
      match b_config b with
      | None => Panic
      | Some c =>
          let '(ot, c) := buildTransport (s_os s) c in
          match ot with
          | None => Ret (b, inl errTransport)
          | Some t =>
              let c := set_id (UniqueID (s_uuid s)) c in
              let d := mkDaemon (newMemberlist c (b_eventCh b)) r (b_ubroadcasts b)
                         (b_pingDelegate b) (b_usrMsgCh b) [] (lr_init (Cfg.MaxLongRunQueueDepth c))
                         newPingManager 0 ∅ [] [] [] 0 [] in
              let! (d, res) := start s d t in
              let b := WithConfig (cfg d) b in
              match res with
              | inl e => Ret (b, inl e)   (* after Shutdown *)
              | inr loops => Ret (b, inr (mkBuilt d t loops))
              end
          end
      end
  end.

End Build.
