(* ===== verification/BuildFacts.v ===== *)
(** * What [Build] gives

    A node that starts from the initial state of [System], announces itself
    at the address it advertises, encrypts if that address is public, and
    runs the loops its configuration asks for. *)

From S2P Require Import Prelude GoMath Types Interfaces Awareness Keyring Suspicion Broadcast BroadcastFacts Config NetAddr IPText Listener ListenerFacts Compound Spec State StateFacts Maintenance MaintenanceFacts Lifecycle System Samples LongRun Encrypt AesGcm Lzw Transport Ping PushPull Handlers HandlersFacts Build.
From Stdlib Require Import Strings.Byte.
From Stdlib Require Import Ascii.

(** ** Identifiers *)

Lemma filter_dash l : "-"%char ∉ l -> List.filter (fun c => negb (bool_decide (c = "-"%char))) l = l.
Proof.
  induction l as [|c l IH]; [done|]. rewrite not_elem_of_cons. intros [Hc Hl]. simpl.
  rewrite bool_decide_eq_false_2 by done. simpl. by rewrite IH.
Qed.

Lemma UniqueID_groups g1 g2 g3 g4 g5 :
  Forall (fun g => "-"%char ∉ g) [g1; g2; g3; g4; g5] ->
  UniqueID (uuidText g1 g2 g3 g4 g5) = str (g1 ++ g2 ++ g3 ++ g4 ++ g5).
Proof.
  rewrite !Forall_cons. intros (H1 & H2 & H3 & H4 & H5 & _). unfold UniqueID, uuidText.
  rewrite !List.filter_app, (filter_dash g1), (filter_dash g2), (filter_dash g3), (filter_dash g4), (filter_dash g5) by done. done.
Qed.

(** ** Loops *)

Lemma jitter_range interval r :
  0 < interval < 2 ^ 63 -> 0 <= jitter interval r < interval.
Proof.
  intros Hi. unfold jitter, u64. rewrite (Z.mod_small interval) by lia.
  pose proof (Z.mod_pos_bound (r mod 2 ^ 64) interval ltac:(lia)). rewrite i64_small; lia.
Qed.

(** Only loops with a positive interval are started. *)
Lemma schedule_positive c l :
  l ∈ schedule c ->
  match l with LProbe i | LGossip i | LReap i | LPushPull i => 0 < i end.
Proof.
  unfold schedule. rewrite !elem_of_app.
  destruct (Z.ltb_spec 0 (Cfg.ProbeInterval c)), (Z.ltb_spec 0 (Cfg.GossipInterval c)),
    (Z.ltb_spec 0 (Cfg.GossipNodes c)), (Z.ltb_spec 0 (Cfg.ReapInterval c)), (Z.ltb_spec 0 (Cfg.PushPullInterval c));
    simpl; rewrite ?list_elem_of_singleton, ?elem_of_nil; intros; destruct_or!; subst; done.
Qed.

Fixpoint ticks (evs : list wake) : nat :=
  match evs with Tick :: evs => S (ticks evs) | _ => 0%nat end.

(** The function is called once for every tick before the first stop. *)
Lemma scheduleFunc_iter {St} (f : St -> St) evs s :
  scheduleFunc (fun s => Ret (f s)) evs s = Ret (Nat.iter (ticks evs) f s).
Proof.
  revert s. induction evs as [|[] evs IH]; intros s; [done| |done].
  cbn [scheduleFunc obind ticks]. rewrite IH. by rewrite Nat.iter_swap.
Qed.

(** The waits are never shorter than the interval. *)
Lemma scheduleFuncWithScale_waits {St} interval (num : St -> Z) f evs s waits s' :
  0 <= interval < 2 ^ 59 -> (forall s, 0 <= num s <= 1024) ->
  scheduleFuncWithScale interval pushPullScale num f evs s = Ret (waits, s') ->
  (length waits = S (ticks evs))%nat /\ Forall (fun w => interval <= w) waits.
Proof.
  intros Hi Hn.
  assert (forall s, interval <= pushPullScale interval (num s)) as Hw.
  { intros s0. rewrite pushPullScale_log2 by auto. destruct (Z.leb_spec (num s0) 32); [done|].
    assert (5 <= Z.log2_up (num s0)) by (apply (Z.log2_up_le_mono 32); lia). nia. }
  revert s waits. induction evs as [|[] evs IH]; intros s waits; cbn [scheduleFuncWithScale ticks].
  - intros [= <- <-]. split; [done|]. by constructor.
  - intros (s1 & _ & E)%obind_Ret_inv. apply obind_Ret_inv in E as ([ws s2] & E & E2).
    injection E2 as <- <-. apply IH in E as [E1 E2]. split; [simpl; lia|]. by constructor.
  - intros [= <- <-]. split; [done|]. by constructor.
Qed.

(** ** The parts of [Build] *)

Lemma buildKeyring_primary r k r' :
  buildKeyring r (Some k) = (r', None) ->
  exists r1, r' = Some r1 /\ primaryKey r1 = Some k /\ k ∈ keys r1 /\ ValidateKey k = true.
Proof.
  assert (forall r0 r1 r2, AddKey r0 k = inr r1 -> UseKey r1 k = inr r2 ->
    primaryKey r2 = Some k /\ k ∈ keys r2 /\ ValidateKey k = true) as H.
  { intros r0 r1 r2 H1 H2. unfold AddKey in H1. destruct (ValidateKey k); [|done]. unfold UseKey in H2.
    destruct (existsb (bytesEqual k) (keys r1)) eqn:E; [|done]. injection H2 as <-. split_and!; [done| |done].
    by apply existsb_bytesEqual in E. }
  unfold buildKeyring. destruct r as [r0|].
  - destruct (AddKey r0 k) as [|r1] eqn:E1; [done|]. destruct (UseKey r1 k) as [|r2] eqn:E2; [done|].
    intros [= <-]. exists r2. split; [done|]. by eapply H.
  - unfold NewKeyring. destruct (AddKey _ k) as [|r1] eqn:E1; [done|].
    destruct (UseKey r1 k) as [|r2] eqn:E2; [done|]. simpl. intros [= <-]. exists r2. split; [done|]. by eapply H.
Qed.

Definition tOf (c : Cfg.Config) (p : Z) : NetTransport := mkNetTransport [Cfg.BindAddr c] p [] [] false 0 [] [].

Lemma idle_tOf c p : idle (tOf c p).
Proof. split; [done|]. split; [done|]. by intros f []%not_elem_of_nil. Qed.

(** The transport runs on the port of the configuration. *)
Lemma buildTransport_runs os {OL : OSLaws os} c t c' :
  buildTransport os c = (Some t, c') ->
  tshutdown t = false /\ bindPort t <> 0 /\ bindAddrs t = [Cfg.BindAddr c] /\
  length (udpConns t) = 1%nat /\ c' = set_bindPort (bindPort t) c.
Proof.
  unfold buildTransport. destruct (Z.eqb_spec (Cfg.BindPort c) 0) as [Hz|Hz].
  - unfold ZeroBindPortTransport, NewNetTransport. cbn [length Nat.eqb negb].
    fold (tOf c 0). destruct (startLoop os 10 (tOf c 0)) as [[t1|] t2] eqn:E; [|done].
    intros [= <- <-]. apply (startLoop_result os) in E as (-> & H1 & H2 & H3 & H4); [|apply idle_tOf|done]. done.
  - unfold NewNetTransport. cbn [length Nat.eqb negb]. fold (tOf c (Cfg.BindPort c)).
    destruct (Start os (tOf c (Cfg.BindPort c))) as [[e|] t1] eqn:E; [done|]. intros [= <- <-].
    destruct (Start_outcome os _ _ _ (idle_tOf c (Cfg.BindPort c)) E) as (Ha & Hp & _ & ? & ? & _ & Hu & _).
    simpl in Ha, Hp, Hu. split_and!; auto.
    + by rewrite <- (length_map sockIP), Hu.
    + rewrite Hp by done. by destruct c.
Qed.

Section Build.
Context {HO : HeapOps TransmitCapItem} {CO : Codec} {L : LZW} {A : AEAD}.

Lemma finalize_config c first c' :
  finalizeAdvertiseAddr c first = Ret (Some c') ->
  exists a p, c' = set_advertise a p c.
Proof.
  unfold finalizeAdvertiseAddr. case_bool_decide.
  - case_match; [|done]. intros [= <-]. eauto.
  - intros (r & _ & E)%obind_Ret_inv. destruct r as [[a p]|]; injection E as <-; [eauto|].
    exists (Cfg.AdvertiseAddr c), (Cfg.AdvertisePort c). by destruct c.
Qed.

Lemma set_config_new a p c ch :
  set_config (set_advertise a p c) (newMemberlist c ch) = newMemberlist (set_advertise a p c) ch.
Proof. done. Qed.

(** The node has announced itself at the address it advertises, encrypts if
    that is public, and the transport listens on the port of the
    configuration. *)
Record built (s : Surroundings) (b b' : MemberlistBuilder) (n : BuiltNode) : Prop := {
  bu_config : b_config b' = Some (cfg (b_daemon n));
  bu_reachable : reachable (cfg (b_daemon n)) (b_eventCh b) (ml (b_daemon n));
  bu_id : selfID (ml (b_daemon n)) = UniqueID (s_uuid s);
  bu_port : bindPort (b_transport n) = Cfg.BindPort (cfg (b_daemon n)) /\ bindPort (b_transport n) <> 0;
  bu_listens : tshutdown (b_transport n) = false /\ length (udpConns (b_transport n)) = 1%nat;
  bu_key k : b_secretKey b = Some k -> exists r, keyring (b_daemon n) = Some r /\ primaryKey r = Some k /\ k ∈ keys r;
  bu_loops : b_loops n = schedule (cfg (b_daemon n));
  bu_alive : exists a p, GetAdvertiseAddr (cfg (b_daemon n)) = Some (a, p) /\
    (s_public s (IPString a) = Some true -> EncryptionEnabled (keyring (b_daemon n)) = true) /\
    lives (ml (b_daemon n)) = 1 /\
    view (ml (b_daemon n)) =
      let c := cfg (b_daemon n) in
      if IPAllowed c a
      then {[ Cfg.ID c := mkNodeState (mkNode (Cfg.ID c) a p (Cfg.Tags c)) 1 StateAlive (now (s_env s)) ]}
      else ∅
}.

Lemma Build_gives s b b' n :
  OSLaws (s_os s) -> Build s b = Ret (b', inr n) -> built s b b' n.
Proof.
  intros HOS. unfold Build.
  destruct (buildKeyring (b_keyring b) (b_secretKey b)) as [r [e|]] eqn:Ek; [done|].
  change (b_config (WithLogger true (WithKeyRing r b))) with (b_config b).
  destruct (b_config b) as [c0|]; [|done].
  destruct (buildTransport (s_os s) c0) as [[t|] c1] eqn:Et; [|done].
  destruct (buildTransport_runs (s_os s) c0 t c1 Et) as (T1 & T2 & T3 & T4 & ->).
  set (c2 := set_id _ _). intros ([d [e|ls]] & Es & E)%obind_Ret_inv; [done|]. injection E as <- <-.
  unfold start in Es. apply obind_Ret_inv in Es as ([c3|] & Ef & Es); [|done].
  apply finalize_config in Ef as (a0 & p0 & Ec3). cbv zeta in Es.
  change (cfg (mkDaemon (newMemberlist c2 (b_eventCh b)) r _ _ _ _ _ _ _ _ _ _ _ _ _)) with c2 in Ec3.
  change (ml (mkDaemon (newMemberlist c2 (b_eventCh b)) r _ _ _ _ _ _ _ _ _ _ _ _ _)) with (newMemberlist c2 (b_eventCh b)) in Es.
  destruct (hasPublicIface s c3) as [pub|] eqn:Ep; [|done].
  cbn [keyring with_ml ml] in Es.
  destruct (pub && negb (EncryptionEnabled r)) eqn:Epub; [done|].
  subst c3. rewrite set_config_new in Es. set (c3 := set_advertise a0 p0 c2) in *.
  change (b_eventCh (WithLogger true (WithKeyRing r b))) with (b_eventCh b) in Es.
  destruct (setAlive (newMemberlist c3 (b_eventCh b)) (s_env s)) as [[e|] m] eqn:Ea; [done|].
  injection Es as <- <-. destruct (setAlive_fresh _ _ _ _ Ea) as (Hr & a & p & Hadv & Hc & Hl & _ & Hv).
  split; simpl.
  - unfold cfg. simpl. by rewrite Hc.
  - unfold cfg. simpl. by rewrite Hc.
  - unfold selfID. rewrite Hc. done.
  - unfold cfg. simpl. rewrite Hc. done.
  - done.
  - intros k Hk. rewrite Hk in Ek. apply buildKeyring_primary in Ek as (r1 & -> & ? & ? & _). eauto.
  - unfold cfg. simpl. by rewrite Hc.
  - exists a, p. unfold cfg. simpl. rewrite Hc. split_and!; [done| |done|done].
    intros Hpub. change (hasPublicIface s c3 = Some pub) in Ep. unfold hasPublicIface in Ep. rewrite Hadv, Hpub in Ep. injection Ep as <-.
    simpl in Epub. by destruct (EncryptionEnabled r).
Qed.

(** Enough for [Build] to succeed, with no address configured: the key can be
    used, the sockets can be opened, the transport finds an address, which is
    not public unless messages are encrypted, and the tags are not too long. *)
Record buildable (s : Surroundings) (b : MemberlistBuilder) : Prop := {
  ba_config : exists c r t c' a p pub, b_config b = Some c /\
    buildKeyring (b_keyring b) (b_secretKey b) = (r, None) /\
    buildTransport (s_os s) c = (Some t, c') /\
    GetFirstAddr (s_privateIP s) (s_localIP s) t = Ret (Some (a, p)) /\ valid_ip a /\
    s_public s (IPString (To16 a)) = Some pub /\ (pub = true -> EncryptionEnabled r = true) /\
    Cfg.AdvertiseAddr c = "" /\ len (Cfg.Tags c) <= TagMaxSize
}.

Lemma Build_returns s b :
  OSLaws (s_os s) -> buildable s b -> exists b' n, Build s b = Ret (b', inr n).
Proof.
  intros HOS [(c & r & t & c' & a & p & pub & H1 & H2 & H3 & H4 & H5 & H6 & H7 & H8 & H9)].
  destruct (buildTransport_runs (s_os s) c t c' H3) as (_ & _ & _ & _ & ->).
  unfold Build. rewrite H2. change (b_config (WithLogger true (WithKeyRing r b))) with (b_config b).
  rewrite H1, H3. unfold start. rewrite H4. unfold finalizeAdvertiseAddr.
  rewrite bool_decide_eq_false_2 by (simpl; tauto). cbn [obind ml keyring with_ml].
  unfold hasPublicIface, GetAdvertiseAddr at 1. simpl Cfg.AdvertiseAddr.
  rewrite ParseIP_IPString, H6 by done.
  assert (pub && negb (EncryptionEnabled r) = false) as -> by (destruct pub; [by rewrite H7|done]).
  unfold setAlive, GetAdvertiseAddr. simpl. rewrite ParseIP_IPString by done.
  rewrite (proj2 (Z.ltb_ge _ _) H9). cbn [obind]. eauto.
Qed.

(** C24: [Build] succeeds when nothing stands in its way, and the node it returns
    is in a state the whole development speaks about: reachable from the
    initial one, announced under a fresh name at the address it advertises,
    with encryption on whenever that address is public, the given key as
    primary key, and listening on the port its configuration now has. It is
    in its own list unless its own filter rejects its address. *)
Theorem Build_correct s b :
  OSLaws (s_os s) ->
  (buildable s b -> exists b' n, Build s b = Ret (b', inr n)) /\
  (forall b' n, Build s b = Ret (b', inr n) -> built s b b' n).
Proof. intros HOS. split; [by apply Build_returns|]. intros b' n. by apply Build_gives. Qed.

(** A node whose filter rejects its own address is built without an error,
    but is missing from its own list: the first [UpdateTags] then
    dereferences a nil pointer. *)
Theorem excluded_node_panics s b b' n a p tags ch sent e :
  OSLaws (s_os s) -> Build s b = Ret (b', inr n) ->
  GetAdvertiseAddr (cfg (b_daemon n)) = Some (a, p) -> IPAllowed (cfg (b_daemon n)) a = false ->
  len tags <= TagMaxSize ->
  UpdateTags (ml (b_daemon n)) tags ch sent e = Panic.
Proof.
  intros HOS E Ha Hip Ht. destruct (bu_alive _ _ _ _ (Build_gives _ _ _ _ HOS E)) as (a' & p' & Ha' & _ & _ & Hv).
  rewrite Ha in Ha'. injection Ha' as <- <-. simpl in Hv. rewrite Hip in Hv. unfold UpdateTags. zcmp.
  pose proof (getNode_view (ml (b_daemon n)) (selfID (ml (b_daemon n)))) as Hg.
  rewrite Hv, lookup_empty in Hg. by destruct (getNode _ _) as [[? ?]|].
Qed.

End Build.

(** ** Examples *)

Section Witnesses.
#[local] Existing Instance item_heap.
#[local] Existing Instance bit_codec.
#[local] Existing Instance go_lzw.
#[local] Existing Instance aes_gcm.

Definition surW : Surroundings :=
  mkSurroundings osW (chr "123e4567-e89b-12d3-a456-426614174000") (Some "10.0.0.7")
    (fun _ => [x0a; x00; x00; x07]) (fun _ => Some false) (mkEnv 5 0 (fun _ => true)).

Definition bldW (nets : list IPNet) : MemberlistBuilder :=
  WithSecretKey (Some (replicate 16 x01)) (WithEventCh true (WithConfig
    (Cfg.mkConfig "" "0.0.0.0" 0 "" 0 nets "" 1400 "" true 0 0 3 0 1 0 3 1 0 0 0 1 128 1 8 4 6 8 0 4 []) newBuilder)).

Definition resOf (r : outcome (MemberlistBuilder * (BuiltNode orerr build_error))) : option (MemberlistBuilder * BuiltNode) :=
  match r with Ret (b, inr n) => Some (b, n) | _ => None end.

Lemma bldW_ok nets :
  nets = [] \/ nets = [mkIPNet [x0b; x00; x00; x00] [xff; x00; x00; x00]] ->
  exists b' n, Build surW (bldW nets) = Ret (b', inr n).
Proof.
  intros H. assert (match Build surW (bldW nets) with Ret (_, inr _) => true | _ => false end = true) as E
    by (destruct H as [->| ->]; vm_compute; reflexivity).
  destruct (Build surW (bldW nets)) as [[b' [e|n]]| |]; try discriminate E. eauto.
Qed.

Lemma bldW_buildable : buildable surW (bldW []).
Proof.
  destruct (buildTransport (s_os surW) (default DefaultLANConfig (b_config (bldW [])))) as [[t|] c'] eqn:Et;
    [|vm_compute in Et; discriminate Et].
  split. eexists _, _, t, c', (map z2b (repeat 0 10 ++ [255; 255; 10; 0; 0; 7])), 4000, false.
  split; [reflexivity|]. split; [reflexivity|]. split; [exact Et|].
  vm_compute in Et. injection Et as <- _. split; [vm_compute; reflexivity|].
  split; [by right|]. repeat split; done.
Qed.

Lemma Build_correct_witness :
  exists b' n, Build surW (bldW []) = Ret (b', inr n) /\
    selfID (ml (b_daemon n)) = "123e4567e89b12d3a456426614174000".
Proof.
  destruct (Build_correct surW (bldW []) osW_laws) as [H1 H2].
  destruct (H1 bldW_buildable) as (b' & n & E). exists b', n. split; [exact E|]. apply (H2 b' n E).
Defined.

Lemma excluded_node_panics_witness :
  exists b' n, Build surW (bldW [mkIPNet [x0b; x00; x00; x00] [xff; x00; x00; x00]]) = Ret (b', inr n) /\
    UpdateTags (ml (b_daemon n)) [x01] 0 true (mkEnv 6 0 (fun _ => true)) = Panic.
Proof.
  destruct (bldW_ok _ (or_intror eq_refl)) as (b' & n & E). exists b', n. split; [exact E|].
  assert (match Build surW (bldW [mkIPNet [x0b; x00; x00; x00] [xff; x00; x00; x00]]) with
    Ret (_, inr n) => GetAdvertiseAddr (cfg (b_daemon n)) | _ => None end
    = Some (To16 [x0a; x00; x00; x07], 4000)) as Ea by (vm_compute; reflexivity).
  assert (match Build surW (bldW [mkIPNet [x0b; x00; x00; x00] [xff; x00; x00; x00]]) with
    Ret (_, inr n) => IPAllowed (cfg (b_daemon n)) (To16 [x0a; x00; x00; x07]) | _ => true end
    = false) as Ei by (vm_compute; reflexivity).
  rewrite E in Ea, Ei.
  apply (excluded_node_panics surW (bldW [mkIPNet [x0b; x00; x00; x00] [xff; x00; x00; x00]]) b' n
    (To16 [x0a; x00; x00; x07]) 4000); [apply osW_laws|exact E|exact Ea|exact Ei|].
  unfold TagMaxSize. simpl. lia.
Defined.

End Witnesses.
