(* ===== verification/TestAddr.v ===== *)
(** * The address allocator of the tests ([testaddr/bindAddr.go])

    A shared queue of loopback addresses. [NextAvailAddr] is modelled as a
    function of the queue; the interleaving of [NextAddr] and [ReturnAddr]
    by several goroutines is a transition system, in which a goroutine that
    finds the queue empty gives up the mutex before it waits on the channel. *)

From S2P Require Import Prelude Types Config NetAddr IPText.
From Stdlib Require Import Strings.Byte.

(** [net.IPv4]. *)
Definition IPv4 (a b c d : Z) : ip := map z2b v4InV6Prefix ++ map z2b [a; b; c; d].

(** The addresses 127.0.0.[from] up to, not including, 127.0.0.[to]. *)
Definition newAddressList (from to : Z) : list ip :=
  map (fun b => IPv4 127 0 0 b) (seqZ from (to - from)).

Definition BindAddrs : list ip := newAddressList 10 128.

(** [ReturnAddr] of the queue alone. *)
Definition PushBack (ips : list ip) (a : ip) : list ip := ips ++ [a].

(** [NextAvailAddr]: [bind] says whether the n-th attempt can listen on an
    address. An empty queue blocks. *)
Fixpoint availLoop (bind : nat -> ip -> bool) (todo attempts : nat) (ips : list ip)
    : outcome (ip * list ip) :=
  match todo with
  | O => Panic
  | S todo =>
      match ips with
      | [] => Hang
      | a :: ips =>
          if bind attempts a then Ret (a, ips) else availLoop bind todo (S attempts) (PushBack ips a)
      end
  end.

(** The attempt number 20 panics before it takes an address. *)
Definition NextAvailAddr (bind : nat -> ip -> bool) (ips : list ip) : outcome (ip * list ip) :=
  availLoop bind 19 1 ips.

(** ** The loop *)

(** The queue is rotated by the addresses that could not be bound. *)
Lemma availLoop_rotates bind todo n ips pre a rest :
  ips = pre ++ a :: rest -> (length pre < todo)%nat ->
  (forall i x, pre !! i = Some x -> bind (n + i)%nat x = false) -> bind (n + length pre)%nat a = true ->
  availLoop bind todo n ips = Ret (a, rest ++ pre).
Proof.
  revert n ips pre rest. induction todo as [|todo IH]; intros n ips pre rest -> Hl Hf Hb; [lia|].
  destruct pre as [|x pre]; cbn [app availLoop].
  - simpl in Hb. rewrite Nat.add_0_r in Hb. by rewrite Hb, app_nil_r.
  - pose proof (Hf 0%nat x eq_refl) as H0. rewrite Nat.add_0_r in H0. rewrite H0. unfold PushBack.
    rewrite (IH (S n) _ pre (rest ++ [x])).
    + by rewrite <- app_assoc.
    + by rewrite <- app_assoc.
    + simpl in Hl. lia.
    + intros i y Hi. replace (S n + i)%nat with (n + S i)%nat by lia. by apply Hf.
    + simpl in Hb. by replace (S n + length pre)%nat with (n + S (length pre))%nat by lia.
Qed.

Lemma availLoop_panics bind todo n ips :
  (todo <= length ips)%nat ->
  (forall i x, ips !! i = Some x -> (i < todo)%nat -> bind (n + i)%nat x = false) ->
  availLoop bind todo n ips = Panic.
Proof.
  revert n ips. induction todo as [|todo IH]; intros n ips Hl Hf; [done|].
  destruct ips as [|x ips]; simpl in Hl; [lia|]. cbn [availLoop].
  pose proof (Hf 0%nat x eq_refl ltac:(lia)) as H0. rewrite Nat.add_0_r in H0. rewrite H0.
  apply IH; unfold PushBack; [rewrite length_app; simpl; lia|].
  intros i y Hi Hil. replace (S n + i)%nat with (n + S i)%nat by lia. apply Hf; [|lia].
  rewrite lookup_app_l in Hi by lia. exact Hi.
Qed.

(** ** Goroutines *)

Inductive pc :=
| Calling                 (* about to take the mutex *)
| Unlocked                (* found the queue empty, not yet waiting *)
| Receiving               (* waits on gotFreeAddrCh *)
| Holding (a : ip)
| Finished.

Record AddressList := mkAddressList { ips : list ip; callers : list pc }.

Definition set_pc (i : nat) (p : pc) (s : AddressList) : AddressList :=
  mkAddressList (ips s) (<[i := p]> (callers s)).

(** [NextAddr]. *)
Inductive NextAddr_step (s : AddressList) : AddressList -> Prop :=
| next_take i a rest :
    callers s !! i = Some Calling -> ips s = a :: rest ->
    NextAddr_step s (mkAddressList rest (<[i := Holding a]> (callers s)))
| next_empty i :
    callers s !! i = Some Calling -> ips s = [] -> NextAddr_step s (set_pc i Unlocked s)
| next_wait i : callers s !! i = Some Unlocked -> NextAddr_step s (set_pc i Receiving s).

(** [ReturnAddr]: the signal reaches a goroutine that waits, if there is one,
    and is dropped otherwise. *)
Inductive ReturnAddr_step (s : AddressList) : AddressList -> Prop :=
| return_wakes i j a :
    callers s !! i = Some (Holding a) -> callers s !! j = Some Receiving ->
    ReturnAddr_step s
      (mkAddressList (PushBack (ips s) a) (<[j := Calling]> (<[i := Finished]> (callers s))))
| return_drops i a :
    callers s !! i = Some (Holding a) -> (forall j, callers s !! j <> Some Receiving) ->
    ReturnAddr_step s (mkAddressList (PushBack (ips s) a) (<[i := Finished]> (callers s))).

Inductive astep (s s' : AddressList) : Prop :=
| by_next : NextAddr_step s s' -> astep s s'
| by_return : ReturnAddr_step s s' -> astep s s'.

Definition ainit (l : list ip) (n : nat) : AddressList := mkAddressList l (replicate n Calling).

Definition held1 (p : pc) : list ip := match p with Holding a => [a] | _ => [] end.
Definition held (s : AddressList) : list ip := concat (map held1 (callers s)).

Lemma held_insert l i p q :
  l !! i = Some p -> held1 p ++ concat (map held1 (<[i := q]> l)) ≡ₚ held1 q ++ concat (map held1 l).
Proof.
  revert i. induction l as [|z l IH]; intros [|i] H; simplify_eq/=; [apply Permutation_app_swap_app|].
  rewrite Permutation_app_swap_app, IH by done. apply Permutation_app_swap_app.
Qed.

Lemma astep_conserves s s' : astep s s' -> ips s' ++ held s' ≡ₚ ips s ++ held s.
Proof.
  intros Hs. destruct Hs as [[i a rest Hi He|i Hi He|i Hi]|[i j a Hi Hj|i a Hi Hn]];
    unfold held; simpl; unfold PushBack.
  - pose proof (held_insert _ i _ (Holding a) Hi) as Hh. simpl in Hh. rewrite Hh, He. simpl.
    by rewrite <- Permutation_middle.
  - pose proof (held_insert _ i _ Unlocked Hi) as Hh. simpl in Hh. by rewrite Hh.
  - pose proof (held_insert _ i _ Receiving Hi) as Hh. simpl in Hh. by rewrite Hh.
  - assert (i <> j) as Hij by congruence.
    pose proof (held_insert _ i _ Finished Hi) as Hh. simpl in Hh.
    assert (<[i := Finished]> (callers s) !! j = Some Receiving) as Hj'
      by by rewrite list_lookup_insert_ne.
    pose proof (held_insert _ j _ Calling Hj') as Hh'. simpl in Hh'. rewrite Hh', <- Hh, <- app_assoc. done.
  - pose proof (held_insert _ i _ Finished Hi) as Hh. simpl in Hh. rewrite <- Hh, <- app_assoc. done.
Qed.

Lemma held_init l n : held (ainit l n) = [].
Proof. unfold held. simpl. by induction n. Qed.

Lemma rtc_conserves s s' : rtc astep s s' -> ips s' ++ held s' ≡ₚ ips s ++ held s.
Proof. induction 1 as [|x y z Hxy _ IH]; [done|]. rewrite IH. by apply astep_conserves. Qed.

Lemma newAddressList_NoDup from to : 0 <= from -> to <= 256 -> NoDup (newAddressList from to).
Proof.
  intros Hf Ht. unfold newAddressList. apply NoDup_fmap_2_strong; [|apply NoDup_seqZ].
  intros x y Hx%elem_of_seqZ Hy%elem_of_seqZ E. unfold IPv4 in E. apply app_inv_head in E.
  simpl in E. injection E as E. apply (f_equal b2z) in E. rewrite !b2z_z2b in E.
  unfold u8 in E. rewrite !Z.mod_small in E; lia.
Qed.

Lemma held_lookup s i a : callers s !! i = Some (Holding a) -> a ∈ held s.
Proof.
  intros Hi. unfold held. apply list_elem_of_In, in_concat. exists [a]. split; [|by left].
  apply in_map_iff. exists (Holding a). split; [done|]. apply list_elem_of_In. by eapply list_elem_of_lookup_2.
Qed.

(** However many goroutines take and return addresses, no address is lost or
    handed out twice: what they hold and what is in the queue is the list
    the allocator started with. *)
Theorem addresses_conserved from to n s i j a :
  0 <= from -> to <= 256 -> rtc astep (ainit (newAddressList from to) n) s ->
  ips s ++ held s ≡ₚ newAddressList from to /\
  (callers s !! i = Some (Holding a) ->
   (a ∈ newAddressList from to) /\ (a ∉ ips s) /\ (callers s !! j = Some (Holding a) -> i = j)).
Proof.
  intros Hf Ht Hr. pose proof (rtc_conserves _ _ Hr) as Hp. rewrite held_init, app_nil_r in Hp.
  split; [exact Hp|]. intros Hi.
  assert (NoDup (ips s ++ held s)) as Hnd by (rewrite Hp; by apply newAddressList_NoDup).
  apply NoDup_app in Hnd as (_ & Hdis & Hh). pose proof (held_lookup _ _ _ Hi) as Hin. split_and!.
  - change (a ∈ ips (ainit (newAddressList from to) n)). rewrite <- Hp. apply elem_of_app. by right.
  - intros Hin2. by apply (Hdis a).
  - intros Hj. destruct (decide (i = j)) as [|Hne]; [done|exfalso].
    pose proof (held_insert _ i _ Finished Hi) as E. simpl in E. unfold held in Hh. rewrite <- E in Hh.
    apply NoDup_cons in Hh as [Hn _]. apply Hn.
    assert (<[i := Finished]> (callers s) !! j = Some (Holding a)) as Hj' by by rewrite list_lookup_insert_ne.
    exact (held_lookup (mkAddressList [] (<[i := Finished]> (callers s))) j a Hj').
Qed.

(** The signal of [ReturnAddr] is lost if the goroutine that found the queue
    empty has not reached the channel yet: it then waits although there is an
    address, and stays there until somebody returns another one. *)
Theorem signal_lost s i j a :
  callers s !! i = Some (Holding a) -> callers s !! j = Some Unlocked ->
  (forall k, callers s !! k <> Some Receiving) -> (forall k b, callers s !! k = Some (Holding b) -> k = i) ->
  exists s', rtc astep s s' /\ callers s' !! j = Some Receiving /\ a ∈ ips s' /\
    (forall k b, callers s' !! k <> Some (Holding b)).
Proof.
  intros Hi Hj Hno Honly.
  set (s1 := mkAddressList (PushBack (ips s) a) (<[i := Finished]> (callers s))).
  assert (i <> j) as Hij by congruence.
  assert (callers s1 !! j = Some Unlocked) as Hj1 by (simpl; by rewrite list_lookup_insert_ne).
  exists (set_pc j Receiving s1). split_and!.
  - apply rtc_l with s1; [by apply by_return, return_drops|]. apply rtc_once. by apply by_next, next_wait.
  - simpl. apply list_lookup_insert_eq. rewrite length_insert. by apply lookup_lt_Some in Hj.
  - simpl. unfold PushBack. apply elem_of_app. right. by left.
  - intros k b. simpl. destruct (decide (k = j)) as [->|Hk].
    + rewrite list_lookup_insert_eq; [done|]. rewrite length_insert. by apply lookup_lt_Some in Hj.
    + rewrite list_lookup_insert_ne by done. destruct (decide (k = i)) as [->|Hki].
      * rewrite list_lookup_insert_eq; [done|]. by apply lookup_lt_Some in Hi.
      * rewrite list_lookup_insert_ne by done. intros Hb. by apply Hki, (Honly k b).
Qed.

(** [NextAvailAddr] returns the first address of the queue that can be bound,
    moving the ones it tried to the back, if it is among the first 19; if
    none of the first 19 can be bound it panics, however long the queue. *)
Theorem NextAvailAddr_spec bind l :
  (forall pre a rest, l = pre ++ a :: rest -> (length pre < 19)%nat ->
     (forall i x, pre !! i = Some x -> bind (1 + i)%nat x = false) -> bind (1 + length pre)%nat a = true ->
     NextAvailAddr bind l = Ret (a, rest ++ pre)) /\
  ((19 <= length l)%nat -> (forall i x, l !! i = Some x -> (i < 19)%nat -> bind (1 + i)%nat x = false) ->
   NextAvailAddr bind l = Panic).
Proof.
  split.
  - intros pre a rest Hl Hp Hf Hb. by apply availLoop_rotates.
  - intros Hl Hf. by apply availLoop_panics.
Qed.

Definition aW : ip := IPv4 127 0 0 10.

Definition takenW : AddressList :=
  mkAddressList [IPv4 127 0 0 11] [Holding aW; Calling; Calling].

Lemma reach_takenW : rtc astep (ainit (newAddressList 10 12) 3) takenW.
Proof. apply rtc_once, by_next, (next_take (ainit (newAddressList 10 12) 3) 0); reflexivity. Qed.

Lemma addresses_conserved_witness :
  ips takenW ++ held takenW ≡ₚ newAddressList 10 12 /\ aW ∉ ips takenW.
Proof.
  destruct (addresses_conserved 10 12 3 takenW 0 0 aW) as [H1 H2]; [lia|lia|exact reach_takenW|].
  split; [exact H1|]. apply H2. reflexivity.
Defined.

Lemma signal_lost_witness :
  exists s', rtc astep (mkAddressList [] [Holding aW; Unlocked]) s' /\
    callers s' !! 1%nat = Some Receiving /\ aW ∈ ips s'.
Proof.
  destruct (signal_lost (mkAddressList [] [Holding aW; Unlocked]) 0 1 aW) as (s' & H1 & H2 & H3 & _).
  - reflexivity.
  - reflexivity.
  - intros [|[|k]]; discriminate.
  - intros [|[|k]] b; [reflexivity|discriminate|discriminate].
  - exists s'. split; [exact H1|]. split; [exact H2|exact H3].
Defined.

Lemma NextAvailAddr_spec_witness :
  NextAvailAddr (fun _ a => negb (bool_decide (a = aW))) BindAddrs
  = Ret (IPv4 127 0 0 11, newAddressList 12 128 ++ [aW]).
Proof.
  apply (proj1 (NextAvailAddr_spec (fun _ a => negb (bool_decide (a = aW))) BindAddrs) [aW]).
  - vm_compute. reflexivity.
  - simpl. lia.
  - intros [|i] x Hx; [|discriminate Hx]. injection Hx as <-. vm_compute. reflexivity.
  - vm_compute. reflexivity.
Defined.
